(** * network_lib: the socket object system (socket.c, tcp.c)

    A shallow embedding of the socket registry, the descriptor slot table,
    the TCP transport hooks, the state poller and the stream adapter, and
    the properties of them that the specification states.

    The C code runs against global tables and the kernel.  Both are made
    explicit here: every function is a computation over a [world] (the
    registry, the record heap, the slot table, the log of system calls),
    and every answer of the kernel is read from an oracle [Kernel] at the
    position given by the number of system calls made so far, so a theorem
    that quantifies over the oracle holds for every behaviour of the peer
    and of the operating system.  The POSIX branches of the platform
    conditionals are the ones that are modelled. *)

From Stdlib Require Import ZArith Lia Bool List.
From stdpp Require Import base option list gmap.

#[local] Open Scope Z_scope.

(** ** Build constants

    internal.h and build.h are not part of the sources at hand: the flag
    bits, the buffer sizes and the build switches they define are taken as
    parameters. *)

Class Config := {
  SOCKETFLAG_BLOCKING : Z;
  SOCKETFLAG_TCPDELAY : Z;
  SOCKETFLAG_POLLED : Z;
  SOCKETFLAG_CONNECTION_PENDING : Z;
  SOCKETFLAG_ERROR_PENDING : Z;
  SOCKETFLAG_HANGUP_PENDING : Z;
  SOCKETFLAG_REFLUSH : Z;
  SOCKETFLAG_REUSE_ADDR : Z;
  SOCKETFLAG_REUSE_PORT : Z;
  SOCKET_INVALID : Z;
  BUILD_SIZE_SOCKET_READBUFFER : Z;
  BUILD_SIZE_SOCKET_WRITEBUFFER : Z;
  BUILD_ENABLE_DEBUG_LOG : bool;
  BUILD_ENABLE_ASSERT : bool;
  NETWORK_ADDRESSFAMILY_IPV4 : Z;
  NETWORK_ADDRESSFAMILY_IPV6 : Z;
  NETWORKEVENT_HANGUP : Z
}.

(** errno values of the POSIX branch (Linux numbering). *)
Definition EAGAIN : Z := 11.
Definition EPIPE : Z := 32.
Definition ECONNRESET : Z := 104.
Definition ETIMEDOUT : Z := 110.
Definition EINPROGRESS : Z := 115.
Definition SOMAXCONN : Z := 128.

(** ** Machine integers *)

(** [unsigned int]: conversion to 32 bits, wrap-around written out. *)
Definition u32 (x : Z) : Z := x mod 2 ^ 32.

(** [int32_t], as the atomic operations on [ref] compute it. *)
Definition s32 (x : Z) : Z := (x + 2 ^ 31) mod 2 ^ 32 - 2 ^ 31.

(** [uint64_t]. *)
Definition u64 (x : Z) : Z := x mod 2 ^ 64.

(** A C integer used as a condition. *)
Definition nonzero (x : Z) : bool := negb (x =? 0).

(** ** Data model *)

Inductive socket_state_t :=
| SOCKETSTATE_NOTCONNECTED
| SOCKETSTATE_CONNECTING
| SOCKETSTATE_CONNECTED
| SOCKETSTATE_LISTENING
| SOCKETSTATE_DISCONNECTED.

#[global] Instance socket_state_eq_dec : EqDecision socket_state_t.
Proof. solve_decision. Defined.

Definition state_eqb (a b : socket_state_t) : bool := bool_decide (a = b).

(** network_address_ip_t: family, size and the platform sockaddr (kept as
    one opaque number). *)
Record network_address_t := {
  addr_family : Z;
  address_size : Z;
  saddr : Z
}.

(** Records and stream adapters live on the heap and are named by their
    address. *)
Definition ptr := Z.

(** socket_base_t, one row of the descriptor slot table. *)
Record socket_base_t := {
  object : Z;
  fd : Z;
  flags : Z;
  state : socket_state_t;
  last_event : Z
}.

(** socket_t.  A hook field tells whether the function pointer is set; the
    only functions ever installed are those of tcp.c. *)
Record socket_t := {
  sock_id : Z;
  ref : Z;
  base : Z;
  family : Z;
  address_local : option network_address_t;
  address_remote : option network_address_t;
  buffer_in : list Z;
  buffer_out : list Z;
  offset_read_in : Z;
  offset_write_in : Z;
  offset_write_out : Z;
  bytes_read : Z;
  bytes_written : Z;
  stream : option ptr;
  open_fn : bool;
  connect_fn : bool;
  read_fn : bool;
  write_fn : bool;
  stream_initialize_fn : bool
}.

(** socket_stream_t: the stream header and the id of the wrapped socket. *)
Record socket_stream_t := {
  stream_type_socket : bool;
  stream_sequential : bool;
  stream_vtable : bool;
  stream_socket : Z
}.

(** objectmap_t of the foundation library, by its contract: a bounded table
    from ids to record addresses; ids are handed out in increasing order
    and 0 is never one. *)
Record objectmap_t := {
  om_size : Z;
  om_next : Z;
  om_entries : gmap Z ptr
}.

(** What the code asks of the kernel. *)
Inductive syscall_t :=
| SYS_socket (domain : Z)
| SYS_bind (fd : Z) (a : network_address_t)
| SYS_listen (fd backlog : Z)
| SYS_accept (fd : Z)
| SYS_connect (fd : Z) (a : network_address_t)
| SYS_select (nfds : Z) (readfds writefds exceptfds : list Z) (tv_sec tv_usec : Z)
| SYS_getsockopt_error (fd : Z)
| SYS_setsockopt (fd : Z) (level_and_option : Z * Z) (value : Z)
| SYS_fionread (fd : Z)
| SYS_fcntl_getfl (fd : Z)
| SYS_fcntl_setfl (fd : Z) (nonblock : bool)
| SYS_shutdown (fd : Z)
| SYS_close (fd : Z)
| SYS_recv (fd len : Z)
| SYS_send (fd : Z) (data : list Z)
| SYS_getsockname (fd : Z)
| SYS_time.

(** The global state: [_socket_map], the heap of records and of stream
    adapters, [_socket_base], [_socket_base_next], [_socket_base_size], the
    event bus, and the system calls made so far (latest first). *)
Record world := {
  _socket_map : option objectmap_t;
  heap : gmap ptr socket_t;
  streams : gmap ptr socket_stream_t;
  next_ptr : Z;
  _socket_base : list socket_base_t;
  _socket_base_next : Z;
  _socket_base_size : Z;
  _socket_stream_vtable : bool;
  events : list (Z * Z);
  trace : list syscall_t
}.

(** The kernel's answers.  The n-th system call of a run reads position n
    of the oracle for its kind. *)
Class Kernel := {
  k_socket : nat -> Z;
  k_bind : nat -> Z;
  k_listen : nat -> Z;
  k_accept : nat -> Z * Z * Z;            (* descriptor, errno, peer sockaddr *)
  k_connect : nat -> Z * Z;               (* result, errno *)
  k_select : nat -> (Z * Z) * (bool * bool * bool); (* (result, errno); does the read, write, except set still hold the fd *)
  k_so_error : nat -> Z;
  k_setsockopt : nat -> Z;
  k_fionread : nat -> Z * Z;              (* result, byte count *)
  k_recv : nat -> Z -> Z * Z * list Z;    (* by requested length: result, errno, bytes *)
  k_send : nat -> Z -> Z * Z;             (* by offered length: result, errno *)
  k_getsockname : nat -> Z;
  k_time : nat -> Z
}.

(** ** Field updates *)

Definition base_with_object (v : Z) (b : socket_base_t) : socket_base_t :=
  {| object := v; fd := fd b; flags := flags b; state := state b; last_event := last_event b |}.
Definition base_with_fd (v : Z) (b : socket_base_t) : socket_base_t :=
  {| object := object b; fd := v; flags := flags b; state := state b; last_event := last_event b |}.
Definition base_with_flags (v : Z) (b : socket_base_t) : socket_base_t :=
  {| object := object b; fd := fd b; flags := v; state := state b; last_event := last_event b |}.
Definition base_with_state (v : socket_state_t) (b : socket_base_t) : socket_base_t :=
  {| object := object b; fd := fd b; flags := flags b; state := v; last_event := last_event b |}.
Definition base_with_last_event (v : Z) (b : socket_base_t) : socket_base_t :=
  {| object := object b; fd := fd b; flags := flags b; state := state b; last_event := v |}.

Definition sock_with_ref (v : Z) (r : socket_t) : socket_t :=
  {| sock_id := sock_id r; ref := v; base := base r; family := family r;
     address_local := address_local r; address_remote := address_remote r;
     buffer_in := buffer_in r; buffer_out := buffer_out r;
     offset_read_in := offset_read_in r; offset_write_in := offset_write_in r;
     offset_write_out := offset_write_out r;
     bytes_read := bytes_read r; bytes_written := bytes_written r;
     stream := stream r; open_fn := open_fn r; connect_fn := connect_fn r;
     read_fn := read_fn r; write_fn := write_fn r;
     stream_initialize_fn := stream_initialize_fn r |}.
Definition sock_with_base (v : Z) (r : socket_t) : socket_t :=
  {| sock_id := sock_id r; ref := ref r; base := v; family := family r;
     address_local := address_local r; address_remote := address_remote r;
     buffer_in := buffer_in r; buffer_out := buffer_out r;
     offset_read_in := offset_read_in r; offset_write_in := offset_write_in r;
     offset_write_out := offset_write_out r;
     bytes_read := bytes_read r; bytes_written := bytes_written r;
     stream := stream r; open_fn := open_fn r; connect_fn := connect_fn r;
     read_fn := read_fn r; write_fn := write_fn r;
     stream_initialize_fn := stream_initialize_fn r |}.
Definition sock_with_family (v : Z) (r : socket_t) : socket_t :=
  {| sock_id := sock_id r; ref := ref r; base := base r; family := v;
     address_local := address_local r; address_remote := address_remote r;
     buffer_in := buffer_in r; buffer_out := buffer_out r;
     offset_read_in := offset_read_in r; offset_write_in := offset_write_in r;
     offset_write_out := offset_write_out r;
     bytes_read := bytes_read r; bytes_written := bytes_written r;
     stream := stream r; open_fn := open_fn r; connect_fn := connect_fn r;
     read_fn := read_fn r; write_fn := write_fn r;
     stream_initialize_fn := stream_initialize_fn r |}.
Definition sock_with_address_local (v : option network_address_t) (r : socket_t) : socket_t :=
  {| sock_id := sock_id r; ref := ref r; base := base r; family := family r;
     address_local := v; address_remote := address_remote r;
     buffer_in := buffer_in r; buffer_out := buffer_out r;
     offset_read_in := offset_read_in r; offset_write_in := offset_write_in r;
     offset_write_out := offset_write_out r;
     bytes_read := bytes_read r; bytes_written := bytes_written r;
     stream := stream r; open_fn := open_fn r; connect_fn := connect_fn r;
     read_fn := read_fn r; write_fn := write_fn r;
     stream_initialize_fn := stream_initialize_fn r |}.
Definition sock_with_address_remote (v : option network_address_t) (r : socket_t) : socket_t :=
  {| sock_id := sock_id r; ref := ref r; base := base r; family := family r;
     address_local := address_local r; address_remote := v;
     buffer_in := buffer_in r; buffer_out := buffer_out r;
     offset_read_in := offset_read_in r; offset_write_in := offset_write_in r;
     offset_write_out := offset_write_out r;
     bytes_read := bytes_read r; bytes_written := bytes_written r;
     stream := stream r; open_fn := open_fn r; connect_fn := connect_fn r;
     read_fn := read_fn r; write_fn := write_fn r;
     stream_initialize_fn := stream_initialize_fn r |}.
Definition sock_with_in (buf : list Z) (rd wr : Z) (r : socket_t) : socket_t :=
  {| sock_id := sock_id r; ref := ref r; base := base r; family := family r;
     address_local := address_local r; address_remote := address_remote r;
     buffer_in := buf; buffer_out := buffer_out r;
     offset_read_in := rd; offset_write_in := wr;
     offset_write_out := offset_write_out r;
     bytes_read := bytes_read r; bytes_written := bytes_written r;
     stream := stream r; open_fn := open_fn r; connect_fn := connect_fn r;
     read_fn := read_fn r; write_fn := write_fn r;
     stream_initialize_fn := stream_initialize_fn r |}.
Definition sock_with_out (buf : list Z) (wr : Z) (r : socket_t) : socket_t :=
  {| sock_id := sock_id r; ref := ref r; base := base r; family := family r;
     address_local := address_local r; address_remote := address_remote r;
     buffer_in := buffer_in r; buffer_out := buf;
     offset_read_in := offset_read_in r; offset_write_in := offset_write_in r;
     offset_write_out := wr;
     bytes_read := bytes_read r; bytes_written := bytes_written r;
     stream := stream r; open_fn := open_fn r; connect_fn := connect_fn r;
     read_fn := read_fn r; write_fn := write_fn r;
     stream_initialize_fn := stream_initialize_fn r |}.
Definition sock_with_counters (rd wr : Z) (r : socket_t) : socket_t :=
  {| sock_id := sock_id r; ref := ref r; base := base r; family := family r;
     address_local := address_local r; address_remote := address_remote r;
     buffer_in := buffer_in r; buffer_out := buffer_out r;
     offset_read_in := offset_read_in r; offset_write_in := offset_write_in r;
     offset_write_out := offset_write_out r;
     bytes_read := rd; bytes_written := wr;
     stream := stream r; open_fn := open_fn r; connect_fn := connect_fn r;
     read_fn := read_fn r; write_fn := write_fn r;
     stream_initialize_fn := stream_initialize_fn r |}.
Definition sock_with_stream (v : option ptr) (r : socket_t) : socket_t :=
  {| sock_id := sock_id r; ref := ref r; base := base r; family := family r;
     address_local := address_local r; address_remote := address_remote r;
     buffer_in := buffer_in r; buffer_out := buffer_out r;
     offset_read_in := offset_read_in r; offset_write_in := offset_write_in r;
     offset_write_out := offset_write_out r;
     bytes_read := bytes_read r; bytes_written := bytes_written r;
     stream := v; open_fn := open_fn r; connect_fn := connect_fn r;
     read_fn := read_fn r; write_fn := write_fn r;
     stream_initialize_fn := stream_initialize_fn r |}.
Definition sock_with_tcp_hooks (r : socket_t) : socket_t :=
  {| sock_id := sock_id r; ref := ref r; base := base r; family := family r;
     address_local := address_local r; address_remote := address_remote r;
     buffer_in := buffer_in r; buffer_out := buffer_out r;
     offset_read_in := offset_read_in r; offset_write_in := offset_write_in r;
     offset_write_out := offset_write_out r;
     bytes_read := bytes_read r; bytes_written := bytes_written r;
     stream := stream r; open_fn := true; connect_fn := true;
     read_fn := true; write_fn := true;
     stream_initialize_fn := stream_initialize_fn r |}.

Definition world_with_map (v : option objectmap_t) (w : world) : world :=
  {| _socket_map := v; heap := heap w; streams := streams w; next_ptr := next_ptr w;
     _socket_base := _socket_base w; _socket_base_next := _socket_base_next w;
     _socket_base_size := _socket_base_size w;
     _socket_stream_vtable := _socket_stream_vtable w;
     events := events w; trace := trace w |}.
Definition world_with_heap (v : gmap ptr socket_t) (w : world) : world :=
  {| _socket_map := _socket_map w; heap := v; streams := streams w; next_ptr := next_ptr w;
     _socket_base := _socket_base w; _socket_base_next := _socket_base_next w;
     _socket_base_size := _socket_base_size w;
     _socket_stream_vtable := _socket_stream_vtable w;
     events := events w; trace := trace w |}.
Definition world_with_streams (v : gmap ptr socket_stream_t) (w : world) : world :=
  {| _socket_map := _socket_map w; heap := heap w; streams := v; next_ptr := next_ptr w;
     _socket_base := _socket_base w; _socket_base_next := _socket_base_next w;
     _socket_base_size := _socket_base_size w;
     _socket_stream_vtable := _socket_stream_vtable w;
     events := events w; trace := trace w |}.
Definition world_with_next_ptr (v : Z) (w : world) : world :=
  {| _socket_map := _socket_map w; heap := heap w; streams := streams w; next_ptr := v;
     _socket_base := _socket_base w; _socket_base_next := _socket_base_next w;
     _socket_base_size := _socket_base_size w;
     _socket_stream_vtable := _socket_stream_vtable w;
     events := events w; trace := trace w |}.
Definition world_with_base (v : list socket_base_t) (w : world) : world :=
  {| _socket_map := _socket_map w; heap := heap w; streams := streams w; next_ptr := next_ptr w;
     _socket_base := v; _socket_base_next := _socket_base_next w;
     _socket_base_size := _socket_base_size w;
     _socket_stream_vtable := _socket_stream_vtable w;
     events := events w; trace := trace w |}.
Definition world_with_base_next (v : Z) (w : world) : world :=
  {| _socket_map := _socket_map w; heap := heap w; streams := streams w; next_ptr := next_ptr w;
     _socket_base := _socket_base w; _socket_base_next := v;
     _socket_base_size := _socket_base_size w;
     _socket_stream_vtable := _socket_stream_vtable w;
     events := events w; trace := trace w |}.
Definition world_with_base_size (v : Z) (w : world) : world :=
  {| _socket_map := _socket_map w; heap := heap w; streams := streams w; next_ptr := next_ptr w;
     _socket_base := _socket_base w; _socket_base_next := _socket_base_next w;
     _socket_base_size := v;
     _socket_stream_vtable := _socket_stream_vtable w;
     events := events w; trace := trace w |}.
Definition world_with_vtable (v : bool) (w : world) : world :=
  {| _socket_map := _socket_map w; heap := heap w; streams := streams w; next_ptr := next_ptr w;
     _socket_base := _socket_base w; _socket_base_next := _socket_base_next w;
     _socket_base_size := _socket_base_size w;
     _socket_stream_vtable := v;
     events := events w; trace := trace w |}.
Definition world_with_events (v : list (Z * Z)) (w : world) : world :=
  {| _socket_map := _socket_map w; heap := heap w; streams := streams w; next_ptr := next_ptr w;
     _socket_base := _socket_base w; _socket_base_next := _socket_base_next w;
     _socket_base_size := _socket_base_size w;
     _socket_stream_vtable := _socket_stream_vtable w;
     events := v; trace := trace w |}.
Definition world_with_trace (v : list syscall_t) (w : world) : world :=
  {| _socket_map := _socket_map w; heap := heap w; streams := streams w; next_ptr := next_ptr w;
     _socket_base := _socket_base w; _socket_base_next := _socket_base_next w;
     _socket_base_size := _socket_base_size w;
     _socket_stream_vtable := _socket_stream_vtable w;
     events := events w; trace := v |}.

(** ** The monad of the embedding

    A computation either finishes with a value and a new world, stops in a
    fault (a failed assertion, a null or dangling pointer, a slot index out
    of the table: what is undefined behaviour in C), or runs out of the
    fuel given to a loop. *)

Inductive fault :=
| AssertionFailed
| NullPointer
| DanglingPointer
| OutOfBounds
| ForeignCode.

Inductive result (A : Type) :=
| Done (a : A) (w : world)
| Fault (f : fault)
| OutOfFuel.
Arguments Done {A} a w.
Arguments Fault {A} f.
Arguments OutOfFuel {A}.

Definition M (A : Type) : Type := world -> result A.

Definition ret {A} (a : A) : M A := fun w => Done a w.

Definition bind {A B} (m : M A) (k : A -> M B) : M B :=
  fun w => match m w with
           | Done a w' => k a w'
           | Fault f => Fault f
           | OutOfFuel => OutOfFuel
           end.

Declare Scope m_scope.
Delimit Scope m_scope with M.
Notation "x <- m ;; k" := (bind m (fun x => k))
  (at level 100, m at next level, right associativity) : m_scope.
Notation "m ;; k" := (bind m (fun _ => k))
  (at level 100, right associativity) : m_scope.
#[local] Open Scope m_scope.

Definition fail {A} (f : fault) : M A := fun _ => Fault f.
Definition out_of_fuel {A} : M A := fun _ => OutOfFuel.
Definition gets {A} (f : world -> A) : M A := fun w => Done (f w) w.
Definition modify (f : world -> world) : M unit := fun w => Done tt (f w).
Definition when (c : bool) (m : M unit) : M unit := if c then m else ret tt.

Section Model.
Context {cfg : Config} {krn : Kernel}.

(** ** Primitive steps *)

(** FOUNDATION_ASSERT: stops the program in a build with assertions, and is
    compiled out otherwise. *)
Definition assert_ (c : bool) : M unit :=
  if BUILD_ENABLE_ASSERT && negb c then fail AssertionFailed else ret tt.

(** A system call: logged, and answered by the oracle. *)
Definition syscall {A} (c : syscall_t) (answer : nat -> A) : M A :=
  fun w => Done (answer (length (trace w))) (world_with_trace (c :: trace w) w).

(** [*sock] *)
Definition load (sock : ptr) : M socket_t :=
  fun w => match heap w !! sock with
           | Some r => Done r w
           | None => Fault DanglingPointer
           end.

Definition store (sock : ptr) (r : socket_t) : M unit :=
  fun w => match heap w !! sock with
           | Some _ => Done tt (world_with_heap (<[sock := r]> (heap w)) w)
           | None => Fault DanglingPointer
           end.

Definition update (sock : ptr) (f : socket_t -> socket_t) : M unit :=
  r <- load sock;; store sock (f r).

(** [_socket_base[i]] *)
Definition load_base (i : Z) : M socket_base_t :=
  fun w => if 0 <=? i
           then match _socket_base w !! Z.to_nat i with
                | Some b => Done b w
                | None => Fault OutOfBounds
                end
           else Fault OutOfBounds.

Definition store_base (i : Z) (b : socket_base_t) : M unit :=
  fun w => if 0 <=? i
           then match _socket_base w !! Z.to_nat i with
                | Some _ => Done tt (world_with_base (<[Z.to_nat i := b]> (_socket_base w)) w)
                | None => Fault OutOfBounds
                end
           else Fault OutOfBounds.

Definition update_base (i : Z) (f : socket_base_t -> socket_base_t) : M unit :=
  b <- load_base i;; store_base i (f b).

Definition load_stream (s : ptr) : M socket_stream_t :=
  fun w => match streams w !! s with
           | Some v => Done v w
           | None => Fault DanglingPointer
           end.

Definition store_stream (s : ptr) (v : socket_stream_t) : M unit :=
  fun w => match streams w !! s with
           | Some _ => Done tt (world_with_streams (<[s := v]> (streams w)) w)
           | None => Fault DanglingPointer
           end.

(** memory_allocate for a record: a fresh address. *)
Definition memory_allocate (r : socket_t) : M ptr :=
  fun w => Done (next_ptr w)
                (world_with_next_ptr (next_ptr w + 1)
                   (world_with_heap (<[next_ptr w := r]> (heap w)) w)).

Definition memory_allocate_stream (v : socket_stream_t) : M ptr :=
  fun w => Done (next_ptr w)
                (world_with_next_ptr (next_ptr w + 1)
                   (world_with_streams (<[next_ptr w := v]> (streams w)) w)).

Definition memory_deallocate (sock : ptr) : M unit :=
  modify (fun w => world_with_heap (delete sock (heap w)) w).

Definition memory_deallocate_stream (s : ptr) : M unit :=
  modify (fun w => world_with_streams (delete s (streams w)) w).

(** *** The object map (foundation library) *)

Definition objectmap_allocate (size : Z) : objectmap_t :=
  {| om_size := size; om_next := 1; om_entries := ∅ |}.

Definition the_map : M objectmap_t :=
  fun w => match _socket_map w with
           | Some m => Done m w
           | None => Fault NullPointer
           end.

Definition objectmap_reserve : M Z :=
  m <- the_map;;
  if om_size m <=? Z.of_nat (size (om_entries m)) then ret 0
  else
    modify (world_with_map
              (Some {| om_size := om_size m; om_next := om_next m + 1;
                       om_entries := om_entries m |}));;
    ret (om_next m).

Definition objectmap_set (id : Z) (sock : ptr) : M unit :=
  m <- the_map;;
  modify (world_with_map
            (Some {| om_size := om_size m; om_next := om_next m;
                     om_entries := <[id := sock]> (om_entries m) |})).

Definition objectmap_lookup (id : Z) : M (option ptr) :=
  m <- the_map;; ret (om_entries m !! id).

Definition objectmap_free (id : Z) : M unit :=
  m <- the_map;;
  modify (world_with_map
            (Some {| om_size := om_size m; om_next := om_next m;
                     om_entries := delete id (om_entries m) |})).

(** *** Atomics on [ref] and on the slot cursor *)

Definition atomic_incr32 (sock : ptr) : M Z :=
  r <- load sock;;
  store sock (sock_with_ref (s32 (ref r + 1)) r);;
  ret (s32 (ref r + 1)).

Definition atomic_decr32 (sock : ptr) : M Z :=
  r <- load sock;;
  store sock (sock_with_ref (s32 (ref r - 1)) r);;
  ret (s32 (ref r - 1)).

Definition atomic_exchange_and_add32_base_next (n : Z) : M Z :=
  fun w => Done (_socket_base_next w)
                (world_with_base_next (s32 (_socket_base_next w + n)) w).

(** network_event_post *)
Definition network_event_post (kind id : Z) : M unit :=
  modify (fun w => world_with_events ((kind, id) :: events w) w).

(** ** socket.c *)

Definition _socket_set_blocking_fd (fd : Z) (block : bool) : M unit :=
  syscall (SYS_fcntl_getfl fd) (fun _ => tt);;
  syscall (SYS_fcntl_setfl fd (negb block)) (fun _ => tt).

Definition _socket_close_fd (fd : Z) : M unit :=
  syscall (SYS_shutdown fd) (fun _ => tt);;
  syscall (SYS_close fd) (fun _ => tt).

(** Returns -1 if nothing available and socket closed, 0 if nothing
    available but still open, >0 if data available. *)
Definition _socket_available_fd (fd : Z) : M Z :=
  if fd =? SOCKET_INVALID then ret (-1)
  else
    a <- syscall (SYS_fionread fd) k_fionread;;
    let closed := fst a <? 0 in
    let available := snd a in
    ret (if (available =? 0) && closed then -1 else available).

Definition _socket_close (sock : ptr) : M unit :=
  r <- load sock;;
  fd <- (if 0 <=? base r then
           sockbase <- load_base (base r);;
           store sock (sock_with_base (-1) r);;
           store_base (base r)
             {| object := 0; fd := SOCKET_INVALID; flags := 0;
                state := SOCKETSTATE_NOTCONNECTED;
                last_event := last_event sockbase |};;
           ret (fd sockbase)
         else ret SOCKET_INVALID);;
  update sock (fun r => sock_with_address_remote None (sock_with_address_local None r));;
  when (negb (fd =? SOCKET_INVALID))
    (_socket_set_blocking_fd fd false;;
     _socket_close_fd fd).

Definition _socket_lookup (id : Z) : M (option ptr) :=
  sock <- objectmap_lookup id;;
  match sock with
  | Some p => atomic_incr32 p;; ret (Some p)
  | None => ret None
  end.

(** socket_destroy, _socket_deallocate and the stream finalizer call one
    another through stream_deallocate and the stream vtable; they are
    written over the finalizer that stream_deallocate reaches, and the
    knot is tied below. *)
Section Lifetime.
Variable vtable_finalize : ptr -> M unit.

(** stream_deallocate of the foundation library: finalize, then free. *)
Definition stream_deallocate_gen (s : option ptr) : M unit :=
  match s with
  | None => ret tt
  | Some p => vtable_finalize p;; memory_deallocate_stream p
  end.

Definition _socket_deallocate_gen (sock : ptr) : M unit :=
  r <- load sock;;
  objectmap_free (sock_id r);;
  _socket_close sock;;
  r <- load sock;;
  assert_ (negb (bool_decide (is_Some (stream r))));;
  stream_deallocate_gen (stream r);;
  memory_deallocate sock.

Definition socket_destroy_gen (id : Z) : M unit :=
  sock <- objectmap_lookup id;;
  match sock with
  | Some p =>
      n <- atomic_decr32 p;;
      when (n =? 0) (_socket_deallocate_gen p)
  | None => ret tt
  end.

Definition _socket_stream_finalize_gen (stream_ : ptr) : M unit :=
  sockstream <- load_stream stream_;;
  assert_ (stream_type_socket sockstream);;
  let id := stream_socket sockstream in
  when (nonzero id)
    (sock <- _socket_lookup id;;
     match sock with
     | Some p =>
         r <- load p;;
         assert_ (bool_decide (stream r = Some stream_));;
         store p (sock_with_stream None r);;
         socket_destroy_gen id
     | None => ret tt
     end);;
  sockstream <- load_stream stream_;;
  store_stream stream_
    {| stream_type_socket := stream_type_socket sockstream;
       stream_sequential := stream_sequential sockstream;
       stream_vtable := stream_vtable sockstream;
       stream_socket := 0 |};;
  when (nonzero id) (socket_destroy_gen id).
End Lifetime.

(** The finalizer reached from a record that is being freed: its own
    release can free one more record, whose stream it has just detached. *)
Definition _socket_stream_finalize_nested : ptr -> M unit :=
  _socket_stream_finalize_gen (fun _ => out_of_fuel).

Definition _socket_deallocate : ptr -> M unit :=
  _socket_deallocate_gen _socket_stream_finalize_nested.

Definition socket_destroy : Z -> M unit :=
  socket_destroy_gen _socket_stream_finalize_nested.

Definition _socket_stream_finalize : ptr -> M unit :=
  _socket_stream_finalize_gen _socket_stream_finalize_nested.

(** Modelled from the spec: socket_free, which tcp.c calls to give back
    the reference taken by its lookup, is not in the sources at hand; by
    the spec (4.A, release) and the create test it decrements the
    reference count and frees the record on zero, as socket_destroy does. *)
Definition socket_free : Z -> M unit := socket_destroy.

Definition zero_socket : socket_t :=
  {| sock_id := 0; ref := 0; base := 0; family := 0;
     address_local := None; address_remote := None;
     buffer_in := repeat 0 (Z.to_nat BUILD_SIZE_SOCKET_READBUFFER);
     buffer_out := repeat 0 (Z.to_nat BUILD_SIZE_SOCKET_WRITEBUFFER);
     offset_read_in := 0; offset_write_in := 0; offset_write_out := 0;
     bytes_read := 0; bytes_written := 0; stream := None;
     open_fn := false; connect_fn := false; read_fn := false;
     write_fn := false; stream_initialize_fn := false |}.

Definition _socket_allocate : M (option ptr) :=
  present <- gets (fun w => bool_decide (is_Some (_socket_map w)));;
  object_ <- (if present : bool then objectmap_reserve else ret 0);;
  if object_ =? 0 then ret None
  else
    sock <- memory_allocate zero_socket;;
    update sock (fun r => sock_with_ref 1
                            (sock_with_base (-1)
                               {| sock_id := object_; ref := ref r; base := base r;
                                  family := family r;
                                  address_local := address_local r;
                                  address_remote := address_remote r;
                                  buffer_in := buffer_in r; buffer_out := buffer_out r;
                                  offset_read_in := offset_read_in r;
                                  offset_write_in := offset_write_in r;
                                  offset_write_out := offset_write_out r;
                                  bytes_read := bytes_read r;
                                  bytes_written := bytes_written r;
                                  stream := stream r; open_fn := open_fn r;
                                  connect_fn := connect_fn r; read_fn := read_fn r;
                                  write_fn := write_fn r;
                                  stream_initialize_fn := stream_initialize_fn r |}));;
    objectmap_set object_ sock;;
    ret (Some sock).

(** The claim loop of _socket_allocate_base; [fuel] bounds its rounds. *)
Fixpoint _socket_allocate_base_loop (fuel : nat) (sock : ptr) (maxbase : Z) : M Z :=
  match fuel with
  | O => out_of_fuel
  | S fuel' =>
      base_ <- atomic_exchange_and_add32_base_next 1;;
      if maxbase <=? base_ then _socket_allocate_base_loop fuel' sock maxbase
      else
        sockbase <- load_base base_;;
        if nonzero (object sockbase) then _socket_allocate_base_loop fuel' sock maxbase
        else
          r <- load sock;;
          (* atomic_cas64( &sockbase->object, sock->id, 0 ) *)
          now_ <- load_base base_;;
          if object now_ =? 0 then
            store sock (sock_with_base base_ r);;
            store_base base_
              {| object := sock_id r; fd := SOCKET_INVALID; flags := 0;
                 state := SOCKETSTATE_NOTCONNECTED; last_event := 0 |};;
            ret base_
          else _socket_allocate_base_loop fuel' sock maxbase
  end.

Definition _socket_allocate_base (fuel : nat) (sock : ptr) : M Z :=
  r <- load sock;;
  if 0 <=? base r then ret (base r)
  else
    maxbase <- gets _socket_base_size;;
    _socket_allocate_base_loop fuel sock maxbase.

Definition set_flag (on : bool) (flag v : Z) : Z :=
  if on then Z.lor v flag else Z.land v (Z.lnot flag).

Definition has_flag (flag v : Z) : bool := nonzero (Z.land v flag).

Definition _socket_set_reuse_address (fuel : nat) (sock : ptr) (reuse : bool) : M unit :=
  b <- _socket_allocate_base fuel sock;;
  if b <? 0 then ret tt
  else
    r <- load sock;;
    update_base (base r) (fun sb => base_with_flags (set_flag reuse SOCKETFLAG_REUSE_ADDR (flags sb)) sb);;
    sockbase <- load_base (base r);;
    when (negb (fd sockbase =? SOCKET_INVALID))
      (syscall (SYS_setsockopt (fd sockbase) (1, 2) (if reuse then 1 else 0)) k_setsockopt;;
       ret tt).

Definition _socket_set_reuse_port (fuel : nat) (sock : ptr) (reuse : bool) : M unit :=
  b <- _socket_allocate_base fuel sock;;
  if b <? 0 then ret tt
  else
    r <- load sock;;
    update_base (base r) (fun sb => base_with_flags (set_flag reuse SOCKETFLAG_REUSE_PORT (flags sb)) sb);;
    sockbase <- load_base (base r);;
    when (negb (fd sockbase =? SOCKET_INVALID))
      (syscall (SYS_setsockopt (fd sockbase) (1, 15) (if reuse then 1 else 0)) k_setsockopt;;
       ret tt).

Definition _socket_set_blocking (fuel : nat) (sock : ptr) (block : bool) : M unit :=
  b <- _socket_allocate_base fuel sock;;
  if b <? 0 then ret tt
  else
    r <- load sock;;
    update_base (base r) (fun sb => base_with_flags (set_flag block SOCKETFLAG_BLOCKING (flags sb)) sb);;
    sockbase <- load_base (base r);;
    when (negb (fd sockbase =? SOCKET_INVALID))
      (_socket_set_blocking_fd (fd sockbase) block).

(** tcp.c: _tcp_socket_set_delay, _tcp_socket_open *)
Definition _tcp_socket_set_delay (sock : ptr) (delay : bool) : M unit :=
  r <- load sock;;
  if base r <? 0 then ret tt
  else
    update_base (base r) (fun sb => base_with_flags (set_flag delay SOCKETFLAG_TCPDELAY (flags sb)) sb);;
    sockbase <- load_base (base r);;
    when (negb (fd sockbase =? SOCKET_INVALID))
      (syscall (SYS_setsockopt (fd sockbase) (6, 1) (if delay then 0 else 1)) k_setsockopt;;
       ret tt).

Definition _tcp_socket_open (fuel : nat) (sock : ptr) (family_ : Z) : M unit :=
  r <- load sock;;
  if base r <? 0 then ret tt
  else
    let sockbase := base r in
    newfd <- syscall (SYS_socket (if family_ =? NETWORK_ADDRESSFAMILY_IPV6 then 10 else 2)) k_socket;;
    update_base sockbase (base_with_fd newfd);;
    if newfd <? 0 then update_base sockbase (base_with_fd SOCKET_INVALID)
    else
      sb <- load_base sockbase;;
      _socket_set_blocking fuel sock (has_flag SOCKETFLAG_BLOCKING (flags sb));;
      sb <- load_base sockbase;;
      _tcp_socket_set_delay sock (has_flag SOCKETFLAG_TCPDELAY (flags sb)).

(** [sock->open_fn( sock, family )] *)
Definition call_open_fn (fuel : nat) (sock : ptr) (family_ : Z) : M unit :=
  r <- load sock;;
  if open_fn r then _tcp_socket_open fuel sock family_ else fail NullPointer.

Definition _socket_create_fd (fuel : nat) (sock : ptr) (family_ : Z) : M Z :=
  b <- _socket_allocate_base fuel sock;;
  if b <? 0 then ret SOCKET_INVALID
  else
    r <- load sock;;
    let sockbase := base r in
    sb <- load_base sockbase;;
    if negb (fd sb =? SOCKET_INVALID) && negb (family r =? family_) then
      assert_ false;;
      ret SOCKET_INVALID
    else
      when (fd sb =? SOCKET_INVALID)
        (call_open_fn fuel sock family_;;
         sb <- load_base sockbase;;
         when (negb (fd sb =? SOCKET_INVALID))
           (update sock (sock_with_family family_);;
            _socket_set_blocking fuel sock (has_flag SOCKETFLAG_BLOCKING (flags sb));;
            sb <- load_base sockbase;;
            _socket_set_reuse_address fuel sock (has_flag SOCKETFLAG_REUSE_ADDR (flags sb));;
            sb <- load_base sockbase;;
            _socket_set_reuse_port fuel sock (has_flag SOCKETFLAG_REUSE_PORT (flags sb))));;
      sb <- load_base sockbase;;
      ret (fd sb).

Definition socket_ref (id : Z) : M Z :=
  sock <- _socket_lookup id;;
  ret (if sock is Some _ then id else 0).

Definition socket_is_socket (id : Z) : M bool :=
  sock <- _socket_lookup id;;
  socket_destroy id;;
  ret (bool_decide (is_Some sock)).

Definition _socket_store_address_local (sock : ptr) (family_ : Z) : M unit :=
  r <- load sock;;
  if base r <? 0 then ret tt
  else
    sockbase <- load_base (base r);;
    if family_ =? NETWORK_ADDRESSFAMILY_IPV4 then
      name <- syscall (SYS_getsockname (fd sockbase)) k_getsockname;;
      update sock (sock_with_address_local
                     (Some {| addr_family := NETWORK_ADDRESSFAMILY_IPV4;
                              address_size := 16; saddr := name |}))
    else if family_ =? NETWORK_ADDRESSFAMILY_IPV6 then
      name <- syscall (SYS_getsockname (fd sockbase)) k_getsockname;;
      update sock (sock_with_address_local
                     (Some {| addr_family := NETWORK_ADDRESSFAMILY_IPV6;
                              address_size := 28; saddr := name |}))
    else assert_ false.

(** The value _socket_buffered_in computes from the cursors of a record. *)
Definition buffered_in (r : socket_t) : Z :=
  if offset_read_in r <=? offset_write_in r
  then u32 (offset_write_in r - offset_read_in r)
  else u32 (u32 (BUILD_SIZE_SOCKET_READBUFFER - offset_read_in r) + offset_write_in r).

Definition _socket_buffered_in (sock : option ptr) : M Z :=
  assert_ (bool_decide (is_Some sock));;
  match sock with
  | None => fail NullPointer
  | Some p => r <- load p;; ret (buffered_in r)
  end.

Definition _socket_available_nonblock_read (sock : ptr) : M Z :=
  r <- load sock;;
  available <- (if 0 <=? base r then
                  sockbase <- load_base (base r);;
                  _socket_available_fd (fd sockbase)
                else ret 0);;
  buffered <- _socket_buffered_in (Some sock);;
  ret (u32 (buffered + (if 0 <? available then available else 0))).

(** The tail of _socket_poll_state: release the record if one was looked
    up, and report the state the slot has now. *)
Definition _socket_poll_state_exit (sockbase : Z) (sock : option ptr) : M socket_state_t :=
  match sock with
  | Some p => r <- load p;; socket_destroy (sock_id r)
  | None => ret tt
  end;;
  sb <- load_base sockbase;;
  ret (state sb).

(** [case SOCKETSTATE_DISCONNECTED] of the switch, entered with the record
    pointer the earlier case left in [sock]. *)
Definition _socket_poll_state_disconnected (sockbase : Z) (sock : option ptr) : M socket_state_t :=
  sock <- (match sock with
           | None => sb <- load_base sockbase;; _socket_lookup (object sb)
           | Some p => ret (Some p)
           end);;
  buffered <- _socket_buffered_in sock;;
  when (buffered =? 0)
    (match sock with
     | Some p => _socket_close p
     | None => ret tt
     end);;
  _socket_poll_state_exit sockbase sock.

Definition _socket_poll_state (sockbase : Z) : M socket_state_t :=
  sb <- load_base sockbase;;
  match state sb with
  | SOCKETSTATE_NOTCONNECTED | SOCKETSTATE_DISCONNECTED => ret (state sb)
  | SOCKETSTATE_CONNECTING =>
      sets <- syscall (SYS_select (fd sb + 1) [] [fd sb] [fd sb] 0 0) k_select;;
      let fdwrite := snd (fst (snd sets)) in
      let fderr := snd (snd sets) in
      if fderr then
        sock <- _socket_lookup (object sb);;
        match sock with
        | Some p => _socket_close p
        | None => ret tt
        end;;
        _socket_poll_state_exit sockbase sock
      else if fdwrite then
        sock <- (if BUILD_ENABLE_DEBUG_LOG then _socket_lookup (object sb) else ret None);;
        update_base sockbase (base_with_state SOCKETSTATE_CONNECTED);;
        _socket_poll_state_exit sockbase sock
      else _socket_poll_state_exit sockbase None
  | SOCKETSTATE_CONNECTED =>
      available <- _socket_available_fd (fd sb);;
      if available <? 0 then
        sock <- (if BUILD_ENABLE_DEBUG_LOG then _socket_lookup (object sb) else ret None);;
        update_base sockbase (base_with_state SOCKETSTATE_DISCONNECTED);;
        (* Fall through to disconnected check for close *)
        _socket_poll_state_disconnected sockbase sock
      else _socket_poll_state_exit sockbase None
  | SOCKETSTATE_LISTENING => _socket_poll_state_exit sockbase None
  end.

Definition _socket_doflush_gen (write_hook : ptr -> M unit) (sock : ptr) : M unit :=
  r <- load sock;;
  if base r <? 0 then ret tt
  else if offset_write_out r =? 0 then ret tt
  else
    sockbase <- load_base (base r);;
    if negb (state_eqb (state sockbase) SOCKETSTATE_CONNECTED) then ret tt
    else if write_fn r then write_hook sock else fail NullPointer.

(** ** tcp.c *)

(** The bytes a system call of result [n] leaves in (or takes from) a
    buffer. *)
Definition kernel_bytes (n : Z) (data : list Z) : list Z :=
  take (Z.to_nat n) (data ++ repeat 0 (Z.to_nat n)).

(** memcpy into a buffer at an offset. *)
Definition write_at (off : Z) (data buf : list Z) : list Z :=
  take (Z.to_nat off) buf ++ data ++ drop (Z.to_nat off + length data) buf.

Definition is_teardown_error (sockerr : Z) : bool :=
  (sockerr =? ECONNRESET) || (sockerr =? EPIPE) || (sockerr =? ETIMEDOUT).

(** _socket_close followed by the HANGUP bookkeeping, as it stands after
    every recv and send that finds the connection gone. *)
Definition close_and_post_hangup (sock : ptr) (sockbase : Z) : M unit :=
  _socket_close sock;;
  sb <- load_base sockbase;;
  when (negb (has_flag SOCKETFLAG_HANGUP_PENDING (flags sb)))
    (update_base sockbase (fun b => base_with_flags (Z.lor (flags b) SOCKETFLAG_HANGUP_PENDING) b);;
     r <- load sock;;
     network_event_post NETWORKEVENT_HANGUP (sock_id r)).

(** What follows a successful recv: the bytes are in the ring,
    [offset_write_in += ret], and the cursor wraps to the start when it
    reaches the end of the buffer. *)
Definition advance_offset_write_in (sock : ptr) (ret_ : Z) (data : list Z) : M unit :=
  r <- load sock;;
  let w := u32 (offset_write_in r + ret_) in
  store sock (sock_with_in (write_at (offset_write_in r) data (buffer_in r))
                (offset_read_in r) w r);;
  assert_ (w <=? BUILD_SIZE_SOCKET_READBUFFER);;
  when (BUILD_SIZE_SOCKET_READBUFFER <=? w)
    (update sock (fun r => sock_with_in (buffer_in r) (offset_read_in r) 0 r)).

(** _tcp_socket_buffer_read.  The function is void in tcp.c while its
    caller in socket.c tests the result of the hook for > 0: the value
    returned here is the number of bytes received.  [fuel] bounds the
    recursion for the wrap-around segment. *)
Fixpoint _tcp_socket_buffer_read (fuel : nat) (sock : ptr) (wanted_size : Z) : M Z :=
  match fuel with
  | O => out_of_fuel
  | S fuel' =>
      r <- load sock;;
      if base r <? 0 then ret 0
      else
        let max_read :=
          if offset_read_in r <=? offset_write_in r then
            let m := u32 (BUILD_SIZE_SOCKET_READBUFFER - offset_write_in r) in
            if offset_read_in r =? 0 then u32 (m - 1) else m
          else u32 (offset_read_in r - offset_write_in r - 1) in
        if max_read =? 0 then ret 0
        else
          let try_read := if nonzero wanted_size && (wanted_size <? max_read)
                          then wanted_size else max_read in
          let sockbase := base r in
          sb <- load_base sockbase;;
          probed <- _socket_available_fd (fd sb);;
          let available := u32 probed in
          if (available =? 0) && (wanted_size =? 0) && has_flag SOCKETFLAG_BLOCKING (flags sb)
          then ret 0
          else
            let try_read := if try_read <? available
                            then (if max_read <? available then max_read else available)
                            else try_read in
            answer <- syscall (SYS_recv (fd sb) try_read) (fun n => k_recv n try_read);;
            let ret_ := fst (fst answer) in
            let sockerr := snd (fst answer) in
            if ret_ =? 0 then
              close_and_post_hangup sock sockbase;;
              ret 0
            else
              (if 0 <? ret_ then
                 advance_offset_write_in sock ret_ (kernel_bytes ret_ (snd answer))
               else
                 when (is_teardown_error sockerr) (close_and_post_hangup sock sockbase);;
                 _socket_poll_state sockbase;;
                 ret tt);;
              (* If we were at end of read buffer, try more data if wanted *)
              sb <- load_base sockbase;;
              r <- load sock;;
              if state_eqb (state sb) SOCKETSTATE_CONNECTED && (try_read <? wanted_size)
                 && (try_read <? available) && (offset_write_in r =? 0)
                 && (1 <? offset_read_in r) && (0 <? ret_)
              then
                more <- _tcp_socket_buffer_read fuel' sock (u32 (wanted_size - try_read));;
                ret (u32 ((if 0 <? ret_ then ret_ else 0) + more))
              else ret (if 0 <? ret_ then ret_ else 0)
  end.

(** The send loop of _tcp_socket_buffer_write, with the local [sent]. *)
Fixpoint _tcp_socket_buffer_write_loop (fuel : nat) (sock : ptr) (sockbase sent : Z) : M unit :=
  match fuel with
  | O => out_of_fuel
  | S fuel' =>
      r <- load sock;;
      if sent <? offset_write_out r then
        sb <- load_base sockbase;;
        let len := u32 (offset_write_out r - sent) in
        answer <- syscall (SYS_send (fd sb) (take (Z.to_nat len) (drop (Z.to_nat sent) (buffer_out r))))
                          (fun n => k_send n len);;
        let res := fst answer in
        let sockerr := snd answer in
        if 0 <? res then _tcp_socket_buffer_write_loop fuel' sock sockbase (u32 (sent + res))
        else
          when (res <? 0)
            (syscall (SYS_getsockopt_error (fd sb)) k_so_error;;
             when (sockerr =? EAGAIN)
               (update_base sockbase (fun b => base_with_flags (Z.lor (flags b) SOCKETFLAG_REFLUSH) b));;
             when (is_teardown_error sockerr) (close_and_post_hangup sock sockbase);;
             sb <- load_base sockbase;;
             when (negb (state_eqb (state sb) SOCKETSTATE_NOTCONNECTED))
               (_socket_poll_state sockbase;; ret tt));;
          when (nonzero sent)
            (r <- load sock;;
             let rest := u32 (offset_write_out r - sent) in
             store sock (sock_with_out
                           (write_at 0 (take (Z.to_nat rest) (drop (Z.to_nat sent) (buffer_out r)))
                                     (buffer_out r))
                           rest r))
      else
        update_base sockbase (fun b => base_with_flags (Z.land (flags b) (Z.lnot SOCKETFLAG_REFLUSH)) b);;
        update sock (fun r => sock_with_out (buffer_out r) 0 r)
  end.

Definition _tcp_socket_buffer_write (fuel : nat) (sock : ptr) : M unit :=
  r <- load sock;;
  if base r <? 0 then ret tt
  else _tcp_socket_buffer_write_loop fuel sock (base r) 0.

Definition _socket_doflush (fuel : nat) : ptr -> M unit :=
  _socket_doflush_gen (_tcp_socket_buffer_write fuel).

Definition _tcp_socket_connect (fuel : nat) (sock : ptr) (address : network_address_t)
    (timeoutms : Z) : M Z :=
  r <- load sock;;
  if base r <? 0 then ret 0
  else
    let sockbase := base r in
    sb <- load_base sockbase;;
    let blocking := has_flag SOCKETFLAG_BLOCKING (flags sb) in
    when ((0 <? timeoutms) && blocking) (_socket_set_blocking fuel sock false);;
    sb <- load_base sockbase;;
    answer <- syscall (SYS_connect (fd sb) address) k_connect;;
    outcome <-
      (if fst answer =? 0 then
         update_base sockbase (base_with_state SOCKETSTATE_CONNECTED);;
         ret (false, 0)
       else
         let err := snd answer in
         if err =? EINPROGRESS then
           if timeoutms =? 0 then
             update_base sockbase (base_with_state SOCKETSTATE_CONNECTING);;
             ret (false, err)
           else
             sb <- load_base sockbase;;
             sel <- syscall (SYS_select (fd sb + 1) [] [fd sb] [fd sb]
                               (timeoutms / 1000) ((timeoutms mod 1000) * 1000)) k_select;;
             if 0 <? fst (fst sel) then
               serr <- syscall (SYS_getsockopt_error (fd sb)) k_so_error;;
               if serr =? 0 then
                 update_base sockbase (base_with_state SOCKETSTATE_CONNECTED);;
                 ret (false, err)
               else ret (true, serr)
             else if fst (fst sel) <? 0 then ret (true, snd (fst sel))
             else ret (true, ETIMEDOUT)
         else ret (true, err));;
    when ((0 <? timeoutms) && blocking) (_socket_set_blocking fuel sock true);;
    if fst outcome then ret (snd outcome)
    else
      update sock (sock_with_address_remote (Some address));;
      r <- load sock;;
      when (negb (bool_decide (is_Some (address_local r))))
        (_socket_store_address_local sock (addr_family address));;
      ret 0.
(** ** socket.c: the public operations *)

Definition socket_bind (fuel : nat) (id : Z) (address : network_address_t) : M bool :=
  sock <- _socket_lookup id;;
  match sock with
  | None => ret false
  | Some p =>
      created <- _socket_create_fd fuel p (addr_family address);;
      success <-
        (if created =? SOCKET_INVALID then ret false
         else
           r <- load p;;
           sockbase <- load_base (base r);;
           bound <- syscall (SYS_bind (fd sockbase) address) k_bind;;
           if bound =? 0 then
             _socket_store_address_local p (addr_family address);;
             ret true
           else ret false);;
      socket_destroy id;;
      ret success
  end.

Definition socket_connect (fuel : nat) (id : Z) (address : network_address_t)
    (timeout : Z) : M bool :=
  sock <- _socket_lookup id;;
  match sock with
  | None => ret false
  | Some p =>
      created <- _socket_create_fd fuel p (addr_family address);;
      success <-
        (if created =? SOCKET_INVALID then ret false
         else
           r <- load p;;
           let sockbase := base r in
           sb <- load_base sockbase;;
           if negb (state_eqb (state sb) SOCKETSTATE_NOTCONNECTED) then ret false
           else
             update_base sockbase
               (fun b => base_with_last_event 0
                  (base_with_flags
                     (Z.land (flags b)
                        (Z.lnot (Z.lor (Z.lor SOCKETFLAG_CONNECTION_PENDING SOCKETFLAG_ERROR_PENDING)
                                       SOCKETFLAG_HANGUP_PENDING))) b));;
             err <- (if connect_fn r then _tcp_socket_connect fuel p address timeout else ret 0);;
             if nonzero err then ret false
             else
               update p (sock_with_address_remote (Some address));;
               ret true);;
      socket_destroy id;;
      ret success
  end.

(** The three flag getters differ in the bit they read. *)
Definition socket_flag_getter (flag : Z) (id : Z) : M bool :=
  sock <- _socket_lookup id;;
  match sock with
  | Some p =>
      r <- load p;;
      v <- (if 0 <=? base r then
              sockbase <- load_base (base r);;
              ret (has_flag flag (flags sockbase))
            else ret false);;
      socket_destroy id;;
      ret v
  | None => ret false
  end.

Definition socket_blocking : Z -> M bool := socket_flag_getter SOCKETFLAG_BLOCKING.
Definition socket_reuse_address : Z -> M bool := socket_flag_getter SOCKETFLAG_REUSE_ADDR.
Definition socket_reuse_port : Z -> M bool := socket_flag_getter SOCKETFLAG_REUSE_PORT.

Definition socket_set_blocking (fuel : nat) (id : Z) (block : bool) : M unit :=
  sock <- _socket_lookup id;;
  match sock with
  | None => ret tt
  | Some p => _socket_set_blocking fuel p block;; socket_destroy id
  end.

Definition socket_set_reuse_address (fuel : nat) (id : Z) (reuse : bool) : M unit :=
  sock <- _socket_lookup id;;
  match sock with
  | None => ret tt
  | Some p => _socket_set_reuse_address fuel p reuse;; socket_destroy id
  end.

Definition socket_set_reuse_port (fuel : nat) (id : Z) (reuse : bool) : M unit :=
  sock <- _socket_lookup id;;
  match sock with
  | None => ret tt
  | Some p => _socket_set_reuse_port fuel p reuse;; socket_destroy id
  end.

Definition socket_set_multicast_group (fuel : nat) (id : Z) (address : network_address_t)
    (allow_loopback : bool) : M bool :=
  sock <- _socket_lookup id;;
  match sock with
  | None => ret false
  | Some p =>
      b <- _socket_allocate_base fuel p;;
      if b <? 0 then ret false
      else
        r <- load p;;
        sockbase <- load_base (base r);;
        let fd_ := fd sockbase in
        if fd_ =? SOCKET_INVALID then ret false
        else
          syscall (SYS_setsockopt fd_ (0, 33) 1) k_setsockopt;;
          syscall (SYS_setsockopt fd_ (0, 34) (if allow_loopback then 1 else 0)) k_setsockopt;;
          joined <- syscall (SYS_setsockopt fd_ (0, 35) (saddr address)) k_setsockopt;;
          if nonzero joined then ret false else ret true
  end.

Definition socket_address_local (id : Z) : M (option network_address_t) :=
  sock <- _socket_lookup id;;
  match sock with
  | Some p => r <- load p;; socket_destroy id;; ret (address_local r)
  | None => ret None
  end.

Definition socket_address_remote (id : Z) : M (option network_address_t) :=
  sock <- _socket_lookup id;;
  match sock with
  | Some p => r <- load p;; socket_destroy id;; ret (address_remote r)
  | None => ret None
  end.

Definition socket_state (id : Z) : M socket_state_t :=
  sock <- _socket_lookup id;;
  match sock with
  | Some p =>
      r <- load p;;
      st <- (if 0 <=? base r then _socket_poll_state (base r)
             else ret SOCKETSTATE_NOTCONNECTED);;
      socket_destroy id;;
      ret st
  | None => ret SOCKETSTATE_NOTCONNECTED
  end.

Definition socket_close (id : Z) : M unit :=
  sock <- _socket_lookup id;;
  match sock with
  | Some p => _socket_close p;; socket_destroy id
  | None => ret tt
  end.

(** ** socket.c: the stream adapter *)

Definition _socket_stream_allocate (id : Z) : M ptr :=
  memory_allocate_stream
    {| stream_type_socket := true; stream_sequential := true;
       stream_vtable := true; stream_socket := id |}.

Definition socket_stream (id : Z) : M (option ptr) :=
  sock <- _socket_lookup id;;
  match sock with
  | None => ret None
  | Some p =>
      r <- load p;;
      match stream r with
      | None =>
          (* Keep reference created by _socket_lookup *)
          s <- _socket_stream_allocate id;;
          update p (sock_with_stream (Some s));;
          (* no function of socket.c or tcp.c is ever stored in the hook *)
          (if stream_initialize_fn r then fail ForeignCode else ret tt);;
          ret (Some s)
      | Some s => socket_destroy id;; ret (Some s)
      end
  end.

(** What one round of the drain loop copies: the bytes up to the write
    cursor or up to the end of the buffer, at most [want_read]. *)
Definition drain_size (r : socket_t) (want_read : Z) : Z :=
  let copy := if offset_read_in r <=? offset_write_in r
              then u32 (offset_write_in r - offset_read_in r)
              else u32 (BUILD_SIZE_SOCKET_READBUFFER - offset_read_in r) in
  if want_read <? copy then want_read else copy.

(** [offset_read_in += copy], wrapped at the end of the buffer. *)
Definition drain_cursor (r : socket_t) (copy : Z) : Z :=
  let rd := u32 (offset_read_in r + copy) in
  if rd =? BUILD_SIZE_SOCKET_READBUFFER then 0 else rd.

(** The inner do-while of _socket_read: drain the in-ring into the caller's
    buffer.  Every memcpy has the start of [buffer] as destination. *)
Fixpoint _socket_read_drain (fuel : nat) (sock : ptr) (size was_read : Z)
    (buffer : option (list Z)) (try_again : bool) : M (Z * option (list Z) * bool) :=
  match fuel with
  | O => out_of_fuel
  | S fuel' =>
      r <- load sock;;
      let copy := drain_size r (u32 (u64 (size - was_read))) in
      if 0 <? copy then
        let buffer' := fmap (write_at 0 (take (Z.to_nat copy)
                                           (drop (Z.to_nat (offset_read_in r)) (buffer_in r))))
                            buffer in
        store sock (sock_with_in (buffer_in r) (drain_cursor r copy) (offset_write_in r) r);;
        _socket_read_drain fuel' sock size (u64 (was_read + copy)) buffer' true
      else ret (was_read, buffer, try_again)
  end.

(** [sock->read_fn( sock, wanted )] *)
Definition call_read_fn (fuel : nat) (sock : ptr) (wanted : Z) : M Z :=
  r <- load sock;;
  if read_fn r then _tcp_socket_buffer_read fuel sock wanted else fail NullPointer.

(** The outer do-while of _socket_read. *)
Fixpoint _socket_read_loop (fuel : nat) (sock : ptr) (size : Z) (blocking polled : bool)
    (was_read : Z) (buffer : option (list Z)) (loop_counter : Z)
    : M (Z * option (list Z)) :=
  match fuel with
  | O => out_of_fuel
  | S fuel' =>
      drained <- _socket_read_drain fuel sock size was_read buffer false;;
      let was_read := fst (fst drained) in
      let buffer := snd (fst drained) in
      let try_again := snd drained in
      try_again <-
        (if (was_read <? size) && ((negb blocking && negb polled) || blocking) then
           got <- call_read_fn fuel sock (u32 (u64 (size - was_read)));;
           ret (try_again || (0 <? got))
         else ret try_again);;
      if was_read <? size then
        if try_again : bool then
          _socket_read_loop fuel' sock size blocking polled was_read buffer loop_counter
        else if loop_counter + 1 <? 2 then
          _socket_read_loop fuel' sock size blocking polled was_read buffer (loop_counter + 1)
        else ret (was_read, buffer)
      else ret (was_read, buffer)
  end.

Definition _socket_read (fuel : nat) (stream_ : ptr) (buffer : option (list Z)) (size : Z)
    : M (Z * option (list Z)) :=
  sockstream <- load_stream stream_;;
  assert_ (stream_type_socket sockstream);;
  sock <- _socket_lookup (stream_socket sockstream);;
  match sock with
  | None => ret (0, buffer)
  | Some p =>
      r <- load p;;
      if base r <? 0 then ret (0, buffer)
      else
        let sockbase := base r in
        sb <- load_base sockbase;;
        let polled := has_flag SOCKETFLAG_POLLED (flags sb) in
        let blocking := has_flag SOCKETFLAG_BLOCKING (flags sb) in
        update_base sockbase (base_with_last_event 0);;
        out <-
          (if negb (state_eqb (state sb) SOCKETSTATE_CONNECTED)
              && negb (state_eqb (state sb) SOCKETSTATE_DISCONNECTED) then ret (0, buffer)
           else if size =? 0 then ret (0, buffer)
           else
             done_ <- _socket_read_loop fuel p size blocking polled 0 buffer 0;;
             let was_read := fst done_ in
             when (was_read <? size) (_socket_poll_state sockbase;; ret tt);;
             update p (fun r => sock_with_counters (u64 (bytes_read r + was_read)) (bytes_written r) r);;
             ret done_);;
        sockstream <- load_stream stream_;;
        socket_destroy (stream_socket sockstream);;
        ret out
  end.

(** The do-while of _socket_write; [data] is what is left of the caller's
    buffer and [size] its length. *)
Fixpoint _socket_write_loop (fuel : nat) (sock : ptr) (sockbase : Z) (data : list Z)
    (size remain was_written : Z) : M Z :=
  match fuel with
  | O => out_of_fuel
  | S fuel' =>
      r <- load sock;;
      if size <=? remain then
        store sock (sock_with_out
                      (write_at (offset_write_out r) (take (Z.to_nat size) data) (buffer_out r))
                      (u32 (offset_write_out r + size)) r);;
        ret (u64 (was_written + size))
      else
        step <-
          (if nonzero remain then
             store sock (sock_with_out
                           (write_at (offset_write_out r) (take (Z.to_nat remain) data) (buffer_out r))
                           (u32 (offset_write_out r + remain)) r);;
             ret (drop (Z.to_nat remain) data, u64 (size - remain), u64 (was_written + remain))
           else ret (data, size, was_written));;
        let data := fst (fst step) in
        let size := snd (fst step) in
        let was_written := snd step in
        _socket_doflush fuel sock;;
        sb <- load_base sockbase;;
        if negb (state_eqb (state sb) SOCKETSTATE_CONNECTED) then ret was_written
        else
          r <- load sock;;
          let remain := u32 (BUILD_SIZE_SOCKET_WRITEBUFFER - offset_write_out r) in
          if nonzero remain
          then _socket_write_loop fuel' sock sockbase data size remain was_written
          else ret was_written
  end.

Definition _socket_write (fuel : nat) (stream_ : ptr) (buffer : option (list Z)) (size : Z)
    : M Z :=
  sockstream <- load_stream stream_;;
  assert_ (stream_type_socket sockstream);;
  sock <- _socket_lookup (stream_socket sockstream);;
  match sock with
  | None => ret 0
  | Some p =>
      r <- load p;;
      if base r <? 0 then ret 0
      else
        let sockbase := base r in
        sb <- load_base sockbase;;
        let remain := u32 (BUILD_SIZE_SOCKET_WRITEBUFFER - offset_write_out r) in
        out <-
          (if negb (state_eqb (state sb) SOCKETSTATE_CONNECTED) then ret 0
           else
             match buffer with
             | None => ret 0
             | Some data =>
                 if size =? 0 then ret 0
                 else
                   was_written <- _socket_write_loop fuel p sockbase data size remain 0;;
                   update p (fun r => sock_with_counters (bytes_read r)
                                        (u64 (bytes_written r + was_written)) r);;
                   ret was_written
             end);;
        sockstream <- load_stream stream_;;
        socket_destroy (stream_socket sockstream);;
        ret out
  end.

Definition _socket_eos (stream_ : ptr) : M bool :=
  sockstream <- load_stream stream_;;
  assert_ (stream_type_socket sockstream);;
  sock <- _socket_lookup (stream_socket sockstream);;
  match sock with
  | None => ret true
  | Some p =>
      r <- load p;;
      if base r <? 0 then ret true
      else
        let sockbase := base r in
        state_ <- _socket_poll_state sockbase;;
        sb <- load_base sockbase;;
        eos <-
          (if negb (state_eqb state_ SOCKETSTATE_CONNECTED) || (fd sb =? SOCKET_INVALID) then
             n <- _socket_available_nonblock_read p;;
             ret (n =? 0)
           else ret false);;
        sockstream <- load_stream stream_;;
        socket_destroy (stream_socket sockstream);;
        ret eos
  end.

Definition _socket_available_read (stream_ : ptr) : M Z :=
  sockstream <- load_stream stream_;;
  assert_ (stream_type_socket sockstream);;
  sock <- _socket_lookup (stream_socket sockstream);;
  match sock with
  | None => ret 0
  | Some p =>
      r <- load p;;
      if base r <? 0 then ret 0
      else
        available <- _socket_available_nonblock_read p;;
        sockstream <- load_stream stream_;;
        socket_destroy (stream_socket sockstream);;
        ret available
  end.

Definition _socket_buffer_read (fuel : nat) (stream_ : ptr) : M unit :=
  sockstream <- load_stream stream_;;
  assert_ (stream_type_socket sockstream);;
  sock <- _socket_lookup (stream_socket sockstream);;
  match sock with
  | None => ret tt
  | Some p =>
      r <- load p;;
      if base r <? 0 then ret tt
      else
        sockbase <- load_base (base r);;
        (if negb (state_eqb (state sockbase) SOCKETSTATE_CONNECTED)
            || has_flag SOCKETFLAG_POLLED (flags sockbase)
            || (fd sockbase =? SOCKET_INVALID) then ret tt
         else
           buffered <- _socket_buffered_in (Some p);;
           if buffered =? BUILD_SIZE_SOCKET_READBUFFER then ret tt
           else
             available <- _socket_available_fd (fd sockbase);;
             when (0 <? available) (call_read_fn fuel p (u32 available);; ret tt));;
        sockstream <- load_stream stream_;;
        socket_destroy (stream_socket sockstream)
  end.

Definition _socket_flush (fuel : nat) (stream_ : ptr) : M unit :=
  sockstream <- load_stream stream_;;
  assert_ (stream_type_socket sockstream);;
  sock <- _socket_lookup (stream_socket sockstream);;
  match sock with
  | None => ret tt
  | Some p =>
      _socket_doflush fuel p;;
      sockstream <- load_stream stream_;;
      socket_destroy (stream_socket sockstream)
  end.

Inductive stream_seek_mode_t := STREAM_SEEK_BEGIN | STREAM_SEEK_CURRENT | STREAM_SEEK_END.

Definition _socket_seek (fuel : nat) (stream_ : ptr) (offset : Z)
    (direction : stream_seek_mode_t) : M unit :=
  sockstream <- load_stream stream_;;
  assert_ (stream_type_socket sockstream);;
  sock <- _socket_lookup (stream_socket sockstream);;
  match sock with
  | None => ret tt
  | Some p =>
      (match direction with
       | STREAM_SEEK_CURRENT =>
           if offset <? 0 then ret tt
           else _socket_read fuel stream_ None offset;; ret tt
       | _ => ret tt
       end);;
      sockstream <- load_stream stream_;;
      socket_destroy (stream_socket sockstream)
  end.

Definition _socket_tell (stream_ : ptr) : M Z :=
  sockstream <- load_stream stream_;;
  assert_ (stream_type_socket sockstream);;
  sock <- _socket_lookup (stream_socket sockstream);;
  match sock with
  | None => ret 0
  | Some p =>
      r <- load p;;
      sockstream <- load_stream stream_;;
      socket_destroy (stream_socket sockstream);;
      ret ((bytes_read r + 2 ^ 63) mod 2 ^ 64 - 2 ^ 63)
  end.

(** A zero-initialised slot: every field 0, which for [state] is the first
    enumerator. *)
Definition zero_base : socket_base_t :=
  {| object := 0; fd := 0; flags := 0; state := SOCKETSTATE_NOTCONNECTED; last_event := 0 |}.

Definition _socket_initialize (max_sockets : Z) : M Z :=
  modify (world_with_map
            (Some (objectmap_allocate (u32 (max_sockets + (if 256 <? max_sockets then 256 else 8))))));;
  modify (world_with_base (repeat zero_base (Z.to_nat max_sockets)));;
  modify (world_with_base_size (s32 max_sockets));;
  modify (world_with_base_next 0);;
  modify (world_with_vtable true);;
  ret 0.

(** ** tcp.c: the public operations *)

Definition _tcp_socket_allocate : M (option ptr) :=
  sock <- _socket_allocate;;
  match sock with
  | None => ret None
  | Some p => update p sock_with_tcp_hooks;; ret (Some p)
  end.

Definition tcp_socket_create : M Z :=
  sock <- _tcp_socket_allocate;;
  match sock with
  | Some p => r <- load p;; ret (sock_id r)
  | None => ret 0
  end.

Definition tcp_socket_listen (id : Z) : M bool :=
  sock <- _socket_lookup id;;
  match sock with
  | None => ret false
  | Some p =>
      r <- load p;;
      if base r <? 0 then socket_free id;; ret false
      else
        let sockbase := base r in
        sb <- load_base sockbase;;
        if negb (state_eqb (state sb) SOCKETSTATE_NOTCONNECTED)
           || (fd sb =? SOCKET_INVALID)
           || negb (bool_decide (is_Some (address_local r)))
        then socket_free id;; ret false
        else
          listening <- syscall (SYS_listen (fd sb) SOMAXCONN) k_listen;;
          if listening =? 0 then
            update_base sockbase (base_with_state SOCKETSTATE_LISTENING);;
            socket_free id;;
            ret true
          else socket_free id;; ret false
  end.

Definition tcp_socket_accept (fuel : nat) (id : Z) (timeoutms : Z) : M Z :=
  sock <- _socket_lookup id;;
  match sock with
  | None => ret 0
  | Some p =>
      r <- load p;;
      if base r <? 0 then socket_free id;; ret 0
      else
        let sockbase := base r in
        sb <- load_base sockbase;;
        match address_local r with
        | None => socket_free id;; ret 0
        | Some local_ =>
            if negb (state_eqb (state sb) SOCKETSTATE_LISTENING) || (fd sb =? SOCKET_INVALID)
            then socket_free id;; ret 0
            else
              let blocking := has_flag SOCKETFLAG_BLOCKING (flags sb) in
              when ((0 <? timeoutms) && blocking) (_socket_set_blocking fuel p false);;
              sb <- load_base sockbase;;
              first <- syscall (SYS_accept (fd sb)) k_accept;;
              accepted_ <-
                (let fd_ := fst (fst first) in
                 let err := snd (fst first) in
                 if (fd_ <? 0) && (0 <? timeoutms) && (err =? EAGAIN) then
                   sel <- syscall (SYS_select (fd sb + 1) [fd sb] [] [fd sb]
                                     (timeoutms / 1000) ((timeoutms mod 1000) * 1000)) k_select;;
                   if 0 <? fst (fst sel) then
                     second <- syscall (SYS_accept (fd sb)) k_accept;;
                     ret (fst (fst second), snd second)
                   else ret (fd_, snd first)
                 else ret (fd_, snd first));;
              let fd_ := fst accepted_ in
              let address_remote_ :=
                {| addr_family := addr_family local_; address_size := address_size local_;
                   saddr := if fd_ <? 0 then saddr local_ else snd accepted_ |} in
              when ((0 <? timeoutms) && blocking) (_socket_set_blocking fuel p true);;
              update_base sockbase
                (fun b => base_with_flags (Z.land (flags b) SOCKETFLAG_CONNECTION_PENDING) b);;
              if fd_ <? 0 then socket_free id;; ret 0
              else
                accepted <- _tcp_socket_allocate;;
                match accepted with
                | None => socket_free id;; ret 0
                | Some q =>
                    b <- _socket_allocate_base fuel q;;
                    if b <? 0 then
                      a <- load q;;
                      socket_free (sock_id a);;
                      socket_free id;;
                      ret 0
                    else
                      a <- load q;;
                      let acceptbase := base a in
                      update_base acceptbase
                        (fun b => base_with_state SOCKETSTATE_CONNECTED (base_with_fd fd_ b));;
                      update q (sock_with_address_remote (Some address_remote_));;
                      _socket_store_address_local q (addr_family address_remote_);;
                      socket_free id;;
                      a <- load q;;
                      ret (sock_id a)
                end
        end
  end.

Definition tcp_socket_delay (id : Z) : M bool :=
  sock <- _socket_lookup id;;
  match sock with
  | Some p =>
      r <- load p;;
      if 0 <=? base r then
        sockbase <- load_base (base r);;
        socket_free id;;
        ret (has_flag SOCKETFLAG_TCPDELAY (flags sockbase))
      else ret false
  | None => ret false
  end.

Definition tcp_socket_set_delay (id : Z) (delay : bool) : M unit :=
  sock <- _socket_lookup id;;
  match sock with
  | None => ret tt
  | Some p => _tcp_socket_set_delay p delay;; socket_free id
  end.

End Model.

(** ** A concrete build and concrete kernels *)

Definition small_build : Config :=
  {| SOCKETFLAG_BLOCKING := 1; SOCKETFLAG_TCPDELAY := 2; SOCKETFLAG_POLLED := 4;
     SOCKETFLAG_CONNECTION_PENDING := 8; SOCKETFLAG_ERROR_PENDING := 16;
     SOCKETFLAG_HANGUP_PENDING := 32; SOCKETFLAG_REFLUSH := 64;
     SOCKETFLAG_REUSE_ADDR := 128; SOCKETFLAG_REUSE_PORT := 256;
     SOCKET_INVALID := -1;
     BUILD_SIZE_SOCKET_READBUFFER := 8; BUILD_SIZE_SOCKET_WRITEBUFFER := 8;
     BUILD_ENABLE_DEBUG_LOG := false; BUILD_ENABLE_ASSERT := true;
     NETWORK_ADDRESSFAMILY_IPV4 := 0; NETWORK_ADDRESSFAMILY_IPV6 := 1;
     NETWORKEVENT_HANGUP := 3 |}.

(** A kernel where nothing is ready: descriptors are handed out, accept
    and recv would block, connect is in progress, select times out. *)
Definition idle_kernel : Kernel :=
  {| k_socket := fun n => 3 + Z.of_nat n;
     k_bind := fun _ => 0;
     k_listen := fun _ => 0;
     k_accept := fun _ => (-1, EAGAIN, 0);
     k_connect := fun _ => (-1, EINPROGRESS);
     k_select := fun _ => ((0, 0), (false, false, false));
     k_so_error := fun _ => 0;
     k_setsockopt := fun _ => 0;
     k_fionread := fun _ => (0, 0);
     k_recv := fun _ _ => (-1, EAGAIN, []);
     k_send := fun _ len => (len, 0);
     k_getsockname := fun _ => 4242;
     k_time := fun n => Z.of_nat n |}.

Definition empty_world : world :=
  {| _socket_map := None; heap := ∅; streams := ∅; next_ptr := 1000;
     _socket_base := []; _socket_base_next := 0; _socket_base_size := 0;
     _socket_stream_vtable := false; events := []; trace := [] |}.

Definition any_ipv4 (port : Z) : network_address_t :=
  {| addr_family := 0; address_size := 16; saddr := port |}.

(** Run a computation for its world. *)
Definition exec {A} (m : M A) (w : world) : option world :=
  match m w with Done _ w' => Some w' | _ => None end.

Definition value {A} (m : M A) (w : world) : option A :=
  match m w with Done a _ => Some a | _ => None end.


(** The world a computation leaves (the initial one if it does not finish). *)
Definition after {A} (m : M A) (w : world) : world :=
  match m w with Done _ w' => w' | _ => w end.

(** The reference count of the record registered under an id. *)
Definition ref_of (id : Z) (w : world) : option Z :=
  m ← _socket_map w; p ← om_entries m !! id; r ← heap w !! p; Some (ref r).

(** The record registered under an id. *)
Definition record_of (id : Z) (w : world) : option socket_t :=
  m ← _socket_map w; p ← om_entries m !! id; heap w !! p.

(** The slot a record of the given id has claimed. *)
Definition slot_of (id : Z) (w : world) : option socket_base_t :=
  r ← record_of id w;
  if 0 <=? base r then _socket_base w !! Z.to_nat (base r) else None.

(** *** Scenarios on the small build *)

Section SmallBuild.
#[local] Existing Instance small_build.
#[local] Existing Instance idle_kernel.

(** A bound, listening, blocking TCP socket (id 1, slot 0, descriptor 3). *)
Definition listening_world : world :=
  after (_socket_initialize 4;;
         id <- tcp_socket_create;;
         socket_set_blocking 8 id true;;
         socket_bind 8 id (any_ipv4 8080);;
         tcp_socket_listen id)%M
    empty_world.

(** A bound TCP socket (id 1, slot 0, descriptor 3), not connected. *)
Definition bound_world : world :=
  after (_socket_initialize 4;;
         id <- tcp_socket_create;;
         socket_bind 8 id (any_ipv4 8080))%M
    empty_world.

End SmallBuild.

(** The state and descriptor an observer sees for an id: those of its slot,
    or NOT_CONNECTED and no descriptor when it has none (socket_state). *)
Definition state_of `{Config} (id : Z) (w : world) : socket_state_t :=
  match slot_of id w with
  | Some sb => state sb
  | None => SOCKETSTATE_NOTCONNECTED
  end.

Definition fd_of `{Config} (id : Z) (w : world) : Z :=
  match slot_of id w with
  | Some sb => fd sb
  | None => SOCKET_INVALID
  end.

(** Kernels that differ from the idle one in a few answers. *)

(** connect completes at once; five bytes are pending on every descriptor. *)
Definition hello : list Z := [72; 101; 108; 108; 111].

Definition data_kernel : Kernel :=
  {| k_socket := @k_socket idle_kernel; k_bind := @k_bind idle_kernel;
     k_listen := @k_listen idle_kernel; k_accept := @k_accept idle_kernel;
     k_connect := fun _ => (0, 0);
     k_select := @k_select idle_kernel; k_so_error := @k_so_error idle_kernel;
     k_setsockopt := @k_setsockopt idle_kernel;
     k_fionread := fun _ => (0, 5);
     k_recv := fun _ len => (Z.min len 5, 0, take (Z.to_nat len) hello);
     k_send := @k_send idle_kernel; k_getsockname := @k_getsockname idle_kernel;
     k_time := @k_time idle_kernel |}.

(** connect completes at once; afterwards the descriptor is in error:
    FIONREAD fails and select flags the exception set. *)
Definition failing_kernel : Kernel :=
  {| k_socket := @k_socket idle_kernel; k_bind := @k_bind idle_kernel;
     k_listen := @k_listen idle_kernel; k_accept := @k_accept idle_kernel;
     k_connect := fun _ => (0, 0);
     k_select := fun _ => ((1, 0), (false, true, true));
     k_so_error := fun _ => ECONNRESET;
     k_setsockopt := @k_setsockopt idle_kernel;
     k_fionread := fun _ => (-1, 0);
     k_recv := fun _ _ => (-1, ECONNRESET, []);
     k_send := fun _ _ => (-1, ECONNRESET);
     k_getsockname := @k_getsockname idle_kernel;
     k_time := @k_time idle_kernel |}.

(** The small build without assertions. *)
Definition small_release_build : Config :=
  {| SOCKETFLAG_BLOCKING := 1; SOCKETFLAG_TCPDELAY := 2; SOCKETFLAG_POLLED := 4;
     SOCKETFLAG_CONNECTION_PENDING := 8; SOCKETFLAG_ERROR_PENDING := 16;
     SOCKETFLAG_HANGUP_PENDING := 32; SOCKETFLAG_REFLUSH := 64;
     SOCKETFLAG_REUSE_ADDR := 128; SOCKETFLAG_REUSE_PORT := 256;
     SOCKET_INVALID := -1;
     BUILD_SIZE_SOCKET_READBUFFER := 8; BUILD_SIZE_SOCKET_WRITEBUFFER := 8;
     BUILD_ENABLE_DEBUG_LOG := false; BUILD_ENABLE_ASSERT := false;
     NETWORK_ADDRESSFAMILY_IPV4 := 0; NETWORK_ADDRESSFAMILY_IPV6 := 1;
     NETWORKEVENT_HANGUP := 3 |}.

Section SmallBuildScenarios.
#[local] Existing Instance small_build.

(** A TCP socket (id 1, slot 0, descriptor 3) whose non-blocking connect
    is in progress. *)
Definition connecting_world : world :=
  let _ := idle_kernel in
  after (_socket_initialize 4;;
         id <- tcp_socket_create;;
         socket_connect 8 id (any_ipv4 8080) 0)%M
    empty_world.

(** A connected TCP socket (id 1, slot 0, descriptor 3). *)
Definition connected_world : world :=
  let _ := data_kernel in
  after (_socket_initialize 4;;
         id <- tcp_socket_create;;
         socket_connect 8 id (any_ipv4 8080) 0)%M
    empty_world.

(** The same socket at the moment another thread that drove its reference
    count to zero has run the first statement of _socket_deallocate
    (objectmap_free) and not yet the second (_socket_close). *)
Definition half_freed_world : world :=
  after (objectmap_free 1) connected_world.

(** A connected socket wrapped in a stream (address 1001) that buffered
    five bytes and was then closed by its owner. *)
Definition closed_with_data_world : world :=
  let _ := data_kernel in
  after (_socket_initialize 4;;
         id <- tcp_socket_create;;
         socket_connect 8 id (any_ipv4 8080) 0;;
         socket_stream id;;
         _socket_buffer_read 8 1001;;
         socket_close id)%M
    empty_world.

End SmallBuildScenarios.

(** The reads of the stream adapter and of the transport under it. *)
Inductive read_op :=
| Read_transport (sock : ptr) (wanted_size : Z)
| Read_stream_buffer (stream_ : ptr)
| Read_stream (stream_ : ptr) (buffer : option (list Z)) (size : Z).

(** *** Reading a world

    The registry, the record at an address, the slot of a number and the
    stream at an address, for worlds that have them. *)
Definition registry_in (w : world) : objectmap_t :=
  default {| om_size := 0; om_next := 0; om_entries := ∅ |} (_socket_map w).

Definition record_at `{Config} (p : ptr) (w : world) : socket_t :=
  default zero_socket (heap w !! p).

Definition slot_at (i : nat) (w : world) : socket_base_t :=
  default zero_base (_socket_base w !! i).

Definition stream_at (s : ptr) (w : world) : socket_stream_t :=
  default {| stream_type_socket := false; stream_sequential := false;
             stream_vtable := false; stream_socket := 0 |}
    (streams w !! s).

Section SmallBuildExamples.
#[local] Existing Instance small_build.

(** A TCP socket (id 1, record at 1000) as tcp_socket_create leaves it: no
    slot, no descriptor. *)
Definition created_world : world :=
  let _ := idle_kernel in
  after (_socket_initialize 4;; tcp_socket_create)%M empty_world.

(** The same socket wrapped in a stream (address 1001). *)
Definition streamed_world : world :=
  let _ := idle_kernel in
  after (_socket_initialize 4;; id <- tcp_socket_create;; socket_stream id)%M empty_world.

(** A connected socket with a stream (address 1001), five bytes pending in
    the kernel. *)
Definition receiving_world : world :=
  let _ := data_kernel in
  after (_socket_initialize 4;;
         id <- tcp_socket_create;;
         socket_connect 8 id (any_ipv4 8080) 0;;
         socket_stream id)%M
    empty_world.

(** Fill the ring from the kernel, take three bytes through the stream,
    fill again (the write cursor wraps), take seven more (the read cursor
    wraps). *)
Definition some_reads : list read_op :=
  [Read_stream_buffer 1001; Read_stream 1001 None 3; Read_transport 1000 0;
   Read_stream 1001 None 7].

End SmallBuildExamples.

(** *** What a close leaves behind *)

Section CloseEffect.
Context {cfg : Config}.

(** What _socket_close leaves of a record and of the slot it held. *)
Definition closed_record (r : socket_t) : socket_t :=
  sock_with_address_remote None
    (sock_with_address_local None (if 0 <=? base r then sock_with_base (-1) r else r)).

Definition released_slot (sb : socket_base_t) : socket_base_t :=
  {| object := 0; fd := SOCKET_INVALID; flags := 0;
     state := SOCKETSTATE_NOTCONNECTED; last_event := last_event sb |}.

(** The system calls that close a descriptor, latest first. *)
Definition close_calls (fd_ : Z) : list syscall_t :=
  if fd_ =? SOCKET_INVALID then []
  else [SYS_close fd_; SYS_shutdown fd_; SYS_fcntl_setfl fd_ true; SYS_fcntl_getfl fd_].

(** The select that polls a connecting descriptor. *)
Definition poll_select (sb : socket_base_t) : syscall_t :=
  SYS_select (fd sb + 1) [] [fd sb] [fd sb] 0 0.

(** The FIONREAD probe of _socket_available_fd: the call it makes (none on
    an invalid descriptor) and the value it yields when it is the n-th
    system call. *)
Definition probe_calls (fd_ : Z) : list syscall_t :=
  if fd_ =? SOCKET_INVALID then [] else [SYS_fionread fd_].

Definition probe_value {krn : Kernel} (fd_ : Z) (n : nat) : Z :=
  if fd_ =? SOCKET_INVALID then -1
  else
    let a := k_fionread n in
    if (snd a =? 0) && (fst a <? 0) then -1 else snd a.

(** Invariant 2 of the data model: both cursors of the in-ring are inside
    the buffer. *)
Definition ring_ok (r : socket_t) : Prop :=
  0 <= offset_read_in r < BUILD_SIZE_SOCKET_READBUFFER /\
  0 <= offset_write_in r < BUILD_SIZE_SOCKET_READBUFFER.

(** Every record on the heap has its cursors inside the buffer. *)
Definition rings_ok (w : world) : Prop :=
  forall p r, heap w !! p = Some r -> ring_ok r.

End CloseEffect.

(** *** Partial-correctness triples

    [triple P m Q]: from a world with [P], if [m] finishes, the value and
    the world it leaves satisfy [Q]. *)
Definition triple {A} (P : world -> Prop) (m : M A) (Q : A -> world -> Prop) : Prop :=
  forall w a w', P w -> m w = Done a w' -> Q a w'.

(** [keeps I m]: [m] preserves [I]. *)
Definition keeps {A} (I : world -> Prop) (m : M A) : Prop :=
  triple I m (fun _ w => I w).

(** [yields I phi m]: [m] preserves [I] and returns a value with [phi]. *)
Definition yields {A} (I : world -> Prop) (phi : A -> Prop) (m : M A) : Prop :=
  triple I m (fun a w => I w /\ phi a).

(** A computation that leaves the heap alone keeps every property of the
    heap. *)
Definition heap_only (I : world -> Prop) : Prop :=
  forall w w', heap w' = heap w -> I w -> I w'.

(** *** What descriptor creation keeps

    [same_identity r r']: the fields of a record that neither slot
    allocation nor the opening of a descriptor touch. *)
Definition same_identity (r r' : socket_t) : Prop :=
  sock_id r' = sock_id r /\ ref r' = ref r /\
  open_fn r' = open_fn r /\ connect_fn r' = connect_fn r /\
  address_local r' = address_local r /\ address_remote r' = address_remote r.

(** The registry is [m]; the record at [p] is [r] up to its slot and family;
    its slot, if it has one, is in state NOT_CONNECTED; with [Some b], the
    slot is number [b]. *)
Definition unconnected (m : objectmap_t) (p : ptr) (r : socket_t) (slot : option Z)
    (w : world) : Prop :=
  _socket_map w = Some m /\
  exists r', heap w !! p = Some r' /\ same_identity r r' /\
    match slot with Some b => base r' = b /\ 0 <= b | None => True end /\
    (forall sb, 0 <= base r' -> _socket_base w !! Z.to_nat (base r') = Some sb ->
                state sb = SOCKETSTATE_NOTCONNECTED).

(** *** Sequences of reads *)


Section ReadSequences.
Context {cfg : Config} {krn : Kernel}.

Definition run_read (fuel : nat) (op : read_op) : M unit :=
  match op with
  | Read_transport sock wanted_size =>
      _tcp_socket_buffer_read fuel sock wanted_size;; ret tt
  | Read_stream_buffer stream_ => _socket_buffer_read fuel stream_
  | Read_stream stream_ buffer size => _socket_read fuel stream_ buffer size;; ret tt
  end.

Fixpoint run_reads (fuel : nat) (ops : list read_op) : M unit :=
  match ops with
  | [] => ret tt
  | op :: rest => run_read fuel op;; run_reads fuel rest
  end.

End ReadSequences.

(** *** Claims in the words of the specification

    Where the code departs from a sentence of the specification, the
    sentence is first written down as it stands, to be refuted. *)

Section AsSpecified.
Context {cfg : Config} {krn : Kernel}.

(** 4.D: accept leaves the listener's flags as they were, CONNECTION_PENDING
    cleared. *)
Definition accept_flags_as_specified (before after_ : Z) : Prop :=
  after_ = Z.land before (Z.lnot SOCKETFLAG_CONNECTION_PENDING).

(** 4.E: polling a slot in CONNECTING. *)
Definition poll_connecting_as_specified (w : world) (i : Z) : Prop :=
  forall sb, _socket_base w !! Z.to_nat i = Some sb ->
    state sb = SOCKETSTATE_CONNECTING ->
    let sets := snd (k_select (length (trace w))) in
    (snd sets = true ->
       exists w', _socket_poll_state i w = Done SOCKETSTATE_DISCONNECTED w') /\
    (snd (fst sets) = true ->
       exists w', _socket_poll_state i w = Done SOCKETSTATE_CONNECTED w' /\
                  state <$> _socket_base w' !! Z.to_nat i = Some SOCKETSTATE_CONNECTED).

(** 4.F: eos is true iff (state != CONNECTED or fd invalid) and the in-ring
    is empty. *)
Definition eos_as_specified (w : world) (s : ptr) : Prop :=
  forall ss e w' r, streams w !! s = Some ss ->
    _socket_eos s w = Done e w' ->
    record_of (stream_socket ss) w' = Some r ->
    (e = true <->
     (state_of (stream_socket ss) w' <> SOCKETSTATE_CONNECTED \/
      fd_of (stream_socket ss) w' = SOCKET_INVALID) /\
     buffered_in r = 0).

(** 4.G: the registry holds max_sockets + min(max_sockets, 256) ids. *)
Definition registry_size_as_specified (max_sockets : Z) : Prop :=
  forall w v w', _socket_initialize max_sockets w = Done v w' ->
    om_size <$> _socket_map w' = Some (max_sockets + Z.min max_sockets 256).

(** 5: a public operation leaves the reference count as it found it. *)
Definition ref_balanced {A} (op : M A) (id : Z) (w : world) : Prop :=
  forall a w', op w = Done a w' -> ref_of id w' = ref_of id w.

End AsSpecified.

(** ** More of the model *)

(** *** What an observer reads *)

(** The flag an observer reads for an id: the bit of its slot, false
    without a slot (socket_blocking and its siblings). *)
Definition flag_of `{Config} (flag id : Z) (w : world) : bool :=
  match slot_of id w with
  | Some sb => has_flag flag (flags sb)
  | None => false
  end.

(** *** socket.c: the rest of the stream vtable, and shutdown *)

Section ModelMore.
Context {cfg : Config} {krn : Kernel}.

Definition _socket_truncate (stream_ : ptr) (size : Z) : M unit :=
  sockstream <- load_stream stream_;;
  assert_ (stream_type_socket sockstream).

Definition _socket_size (stream_ : ptr) : M Z :=
  sockstream <- load_stream stream_;;
  assert_ (stream_type_socket sockstream);;
  ret 0.

(** [time_current()] is read from the kernel oracle. *)
Definition _socket_last_modified (stream_ : ptr) : M Z :=
  sockstream <- load_stream stream_;;
  assert_ (stream_type_socket sockstream);;
  syscall SYS_time k_time.

(** _socket_shutdown: the registry and the slot table are freed and their
    pointers zeroed; [_socket_base_size] and the cursor are left as they
    are.  A freed table is the empty one: every index is out of it. *)
Definition _socket_shutdown : M unit :=
  modify (world_with_map None);;
  modify (world_with_base []).

End ModelMore.

(** *** The reference an operation works under

    [holds m p n]: the registry is [m] and the record at [p] has [n]
    references. *)
Definition holds (m : objectmap_t) (p : ptr) (n : Z) (w : world) : Prop :=
  _socket_map w = Some m /\ exists r, heap w !! p = Some r /\ ref r = n.

(** [flagged m p n flag v]: moreover the record has a slot, and the bit
    [flag] of the slot reads [v]. *)
Definition flagged `{Config} (m : objectmap_t) (p : ptr) (n : Z) (flag : Z) (v : bool)
    (w : world) : Prop :=
  _socket_map w = Some m /\
  exists r sb, heap w !! p = Some r /\ ref r = n /\ 0 <= base r /\
    _socket_base w !! Z.to_nat (base r) = Some sb /\ has_flag flag (flags sb) = v.

Section ModelShapes.
Context {cfg : Config} {krn : Kernel}.

(** What _socket_set_blocking, _socket_set_reuse_address and
    _socket_set_reuse_port have in common: a slot is claimed if there is
    none, the bit is written, and [then_] tells the kernel. *)
Definition set_slot_flag (fuel : nat) (q : ptr) (flag : Z) (on : bool)
    (then_ : socket_base_t -> M unit) : M unit :=
  b <- _socket_allocate_base fuel q;;
  if b <? 0 then ret tt
  else
    r <- load q;;
    update_base (base r) (fun sb => base_with_flags (set_flag on flag (flags sb)) sb);;
    sockbase <- load_base (base r);;
    then_ sockbase.

End ModelShapes.

Section ModelRings.
Context {cfg : Config}.

(** The bytes the in-ring holds in one piece from the read cursor on: up
    to the write cursor, or up to the end of the buffer when the ring has
    wrapped. *)
Definition contiguous_in (r : socket_t) : Z :=
  if offset_read_in r <=? offset_write_in r
  then offset_write_in r - offset_read_in r
  else BUILD_SIZE_SOCKET_READBUFFER - offset_read_in r.

End ModelRings.

(** A kernel with a connection waiting: accept hands out descriptor 7
    for a peer at port 9090. *)
Definition accepting_kernel : Kernel :=
  {| k_socket := @k_socket idle_kernel; k_bind := @k_bind idle_kernel;
     k_listen := @k_listen idle_kernel;
     k_accept := fun _ => (7, 0, 9090);
     k_connect := @k_connect idle_kernel;
     k_select := @k_select idle_kernel; k_so_error := @k_so_error idle_kernel;
     k_setsockopt := @k_setsockopt idle_kernel;
     k_fionread := @k_fionread idle_kernel; k_recv := @k_recv idle_kernel;
     k_send := @k_send idle_kernel; k_getsockname := @k_getsockname idle_kernel;
     k_time := @k_time idle_kernel |}.

(** A kernel whose peer has shut the connection down: nothing is pending
    and recv returns 0. *)
Definition hangup_kernel : Kernel :=
  {| k_socket := @k_socket idle_kernel; k_bind := @k_bind idle_kernel;
     k_listen := @k_listen idle_kernel; k_accept := @k_accept idle_kernel;
     k_connect := fun _ => (0, 0);
     k_select := @k_select idle_kernel; k_so_error := @k_so_error idle_kernel;
     k_setsockopt := @k_setsockopt idle_kernel;
     k_fionread := fun _ => (0, 0);
     k_recv := fun _ _ => (0, 0, []);
     k_send := @k_send idle_kernel; k_getsockname := @k_getsockname idle_kernel;
     k_time := @k_time idle_kernel |}.

(** *** More scenarios on the small build *)

Section SmallBuildMore.
#[local] Existing Instance small_build.

(** A stream (address 1001) whose socket is no longer registered: its
    finalizer has run. *)
Definition orphaned_world : world :=
  let _ := idle_kernel in
  after (_socket_stream_finalize 1001) streamed_world.

(** Four sockets (ids 1 to 4) that each took a slot of the table of four
    and were destroyed again, and a fifth (id 5, record at 1004) without a
    slot: every slot is free, the cursor stands at the end of the table. *)
Definition used_up_world : world :=
  let _ := idle_kernel in
  after (_socket_initialize 4;;
         a <- tcp_socket_create;; socket_set_blocking 8 a true;;
         b <- tcp_socket_create;; socket_set_blocking 8 b true;;
         c <- tcp_socket_create;; socket_set_blocking 8 c true;;
         d <- tcp_socket_create;; socket_set_blocking 8 d true;;
         socket_destroy a;; socket_destroy b;; socket_destroy c;; socket_destroy d;;
         tcp_socket_create)%M
    empty_world.

(** The receiving socket after its stream buffered the five pending
    bytes. *)
Definition buffered_world : world :=
  let _ := data_kernel in
  after (_socket_buffer_read 8 1001) receiving_world.

(** The same after three of the bytes were taken and the ring was filled
    up again: the read cursor is at 3 and the write cursor has wrapped
    to 2. *)
Definition wrapped_world : world :=
  let _ := data_kernel in
  after (run_reads 8 [Read_stream_buffer 1001; Read_stream 1001 None 3;
                      Read_stream_buffer 1001; Read_stream_buffer 1001])
    receiving_world.

End SmallBuildMore.

(** *** The worlds the interface builds

    What every call of the public interface finds and leaves behind once
    the module is initialised: the registry, the records and the slot
    table agree on who owns what. *)

(** The id is registered for the record at [p]. *)
Definition registered (w : world) (id : Z) (p : ptr) : Prop :=
  exists m, _socket_map w = Some m /\ om_entries m !! id = Some p.

(** Registered ids are not 0, were handed out by the registry, and name a
    live record that carries the id. *)
Definition registry_ok (w : world) : Prop :=
  forall m (id : Z) (p : ptr), _socket_map w = Some m -> om_entries m !! id = Some p ->
    id <> 0 /\ id < om_next m /\ exists r, heap w !! p = Some r /\ sock_id r = id.

(** The allocator has not handed out the addresses from [next_ptr] on. *)
Definition heap_ok (w : world) : Prop :=
  forall p : ptr, next_ptr w <= p -> heap w !! p = None.

(** A record that names a slot is registered under its id, and the slot
    names the id as its owner. *)
Definition records_ok (w : world) : Prop :=
  forall (p : ptr) r, heap w !! p = Some r -> 0 <= base r ->
    registered w (sock_id r) p /\
    exists sb, _socket_base w !! Z.to_nat (base r) = Some sb /\ object sb = sock_id r.

(** A slot that is not NOT_CONNECTED is the slot of the registered record
    of its owner. *)
Definition slots_ok (w : world) : Prop :=
  forall i sb, _socket_base w !! i = Some sb -> state sb <> SOCKETSTATE_NOTCONNECTED ->
    exists (p : ptr) r, registered w (object sb) p /\ heap w !! p = Some r /\ base r = Z.of_nat i.

Definition consistent (w : world) : Prop :=
  registry_ok w /\ heap_ok w /\ records_ok w /\ slots_ok w.

(** No id is registered for the record at [p]. *)
Definition unregistered (p : ptr) (w : world) : Prop :=
  forall id, ~ registered w id p.

(** The calls of the public interface: socket.c, tcp.c, the stream
    callbacks (stream_deallocate runs the finalizer and frees the
    adapter), and the poll of a slot by the network poller. *)
Inductive api_call :=
| Tcp_socket_create
| Tcp_socket_listen (id : Z)
| Tcp_socket_accept (id timeoutms : Z)
| Tcp_socket_delay (id : Z)
| Tcp_socket_set_delay (id : Z) (delay : bool)
| Socket_ref (id : Z)
| Socket_destroy (id : Z)
| Socket_is_socket (id : Z)
| Socket_bind (id : Z) (address : network_address_t)
| Socket_connect (id : Z) (address : network_address_t) (timeout : Z)
| Socket_blocking (id : Z)
| Socket_set_blocking (id : Z) (block : bool)
| Socket_reuse_address (id : Z)
| Socket_set_reuse_address (id : Z) (reuse : bool)
| Socket_reuse_port (id : Z)
| Socket_set_reuse_port (id : Z) (reuse : bool)
| Socket_set_multicast_group (id : Z) (address : network_address_t) (allow_loopback : bool)
| Socket_address_local (id : Z)
| Socket_address_remote (id : Z)
| Socket_state (id : Z)
| Socket_stream (id : Z)
| Socket_close (id : Z)
| Stream_read (stream_ : ptr) (buffer : option (list Z)) (size : Z)
| Stream_write (stream_ : ptr) (buffer : option (list Z)) (size : Z)
| Stream_eos (stream_ : ptr)
| Stream_available_read (stream_ : ptr)
| Stream_buffer_read (stream_ : ptr)
| Stream_flush (stream_ : ptr)
| Stream_truncate (stream_ : ptr) (size : Z)
| Stream_size (stream_ : ptr)
| Stream_seek (stream_ : ptr) (offset : Z) (direction : stream_seek_mode_t)
| Stream_tell (stream_ : ptr)
| Stream_last_modified (stream_ : ptr)
| Stream_deallocate (stream_ : ptr)
| Poll_state (sockbase : Z).

Section Calls.
Context {cfg : Config} {krn : Kernel}.

Definition run_call (fuel : nat) (c : api_call) : M unit :=
  match c with
  | Tcp_socket_create => tcp_socket_create;; ret tt
  | Tcp_socket_listen id => tcp_socket_listen id;; ret tt
  | Tcp_socket_accept id timeoutms => tcp_socket_accept fuel id timeoutms;; ret tt
  | Tcp_socket_delay id => tcp_socket_delay id;; ret tt
  | Tcp_socket_set_delay id delay => tcp_socket_set_delay id delay
  | Socket_ref id => socket_ref id;; ret tt
  | Socket_destroy id => socket_destroy id
  | Socket_is_socket id => socket_is_socket id;; ret tt
  | Socket_bind id address => socket_bind fuel id address;; ret tt
  | Socket_connect id address timeout => socket_connect fuel id address timeout;; ret tt
  | Socket_blocking id => socket_blocking id;; ret tt
  | Socket_set_blocking id block => socket_set_blocking fuel id block
  | Socket_reuse_address id => socket_reuse_address id;; ret tt
  | Socket_set_reuse_address id reuse => socket_set_reuse_address fuel id reuse
  | Socket_reuse_port id => socket_reuse_port id;; ret tt
  | Socket_set_reuse_port id reuse => socket_set_reuse_port fuel id reuse
  | Socket_set_multicast_group id address allow_loopback =>
      socket_set_multicast_group fuel id address allow_loopback;; ret tt
  | Socket_address_local id => socket_address_local id;; ret tt
  | Socket_address_remote id => socket_address_remote id;; ret tt
  | Socket_state id => socket_state id;; ret tt
  | Socket_stream id => socket_stream id;; ret tt
  | Socket_close id => socket_close id
  | Stream_read stream_ buffer size => _socket_read fuel stream_ buffer size;; ret tt
  | Stream_write stream_ buffer size => _socket_write fuel stream_ buffer size;; ret tt
  | Stream_eos stream_ => _socket_eos stream_;; ret tt
  | Stream_available_read stream_ => _socket_available_read stream_;; ret tt
  | Stream_buffer_read stream_ => _socket_buffer_read fuel stream_
  | Stream_flush stream_ => _socket_flush fuel stream_
  | Stream_truncate stream_ size => _socket_truncate stream_ size
  | Stream_size stream_ => _socket_size stream_;; ret tt
  | Stream_seek stream_ offset direction => _socket_seek fuel stream_ offset direction
  | Stream_tell stream_ => _socket_tell stream_;; ret tt
  | Stream_last_modified stream_ => _socket_last_modified stream_;; ret tt
  | Stream_deallocate stream_ => stream_deallocate_gen _socket_stream_finalize (Some stream_)
  | Poll_state sockbase => _socket_poll_state sockbase;; ret tt
  end.

(** The worlds of a program that initialises the module once and then
    uses the interface, each call run to its end before the next.  The
    module is not shut down or initialised again in between:
    _socket_initialize replaces the registry and the slot table without
    looking at the sockets that are open. *)
Inductive reachable : world -> Prop :=
| reachable_initialize max_sockets w :
    _socket_initialize max_sockets empty_world = Done 0 w -> reachable w
| reachable_call fuel c w w' :
    reachable w -> run_call fuel c w = Done tt w' -> reachable w'.

(** The world at the fall-through of _socket_poll_state from CONNECTED to
    the DISCONNECTED case, past the call of _socket_buffered_in: the
    descriptor was probed, the slot set to DISCONNECTED and the record of
    the owner looked up. *)
Definition past_buffered_in (w : world) (sockbase : Z) (sb : socket_base_t) (p : ptr)
    (r : socket_t) : world :=
  world_with_base
    (<[Z.to_nat sockbase := base_with_state SOCKETSTATE_DISCONNECTED sb]> (_socket_base w))
    (world_with_heap (<[p := sock_with_ref (s32 (ref r + 1)) r]> (heap w))
       (world_with_trace (probe_calls (fd sb) ++ trace w) w)).

End Calls.

(** *** What a step is followed through

    Facts about the registry, a record or a slot that a run of the code
    carries along with the invariant. *)
Definition record_is (p : ptr) (r : socket_t) (w : world) : Prop := heap w !! p = Some r.

Definition slot_is (i : nat) (sb : socket_base_t) (w : world) : Prop :=
  _socket_base w !! i = Some sb.

Definition consistent_with (F : world -> Prop) (w : world) : Prop := consistent w /\ F w.

(** [same_tables w w']: the registry, the heap and the slot table of [w']
    are those of [w], and the allocator has not gone back. *)
Definition same_tables (w w' : world) : Prop :=
  _socket_map w' = _socket_map w /\ heap w' = heap w /\
  _socket_base w' = _socket_base w /\ next_ptr w <= next_ptr w'.

(** A property of the tables only. *)
Definition of_tables (I : world -> Prop) : Prop :=
  forall w w', same_tables w w' -> I w -> I w'.

(** A property of the registry only. *)
Definition of_registry (I : world -> Prop) : Prop :=
  forall w w', _socket_map w' = _socket_map w -> I w -> I w'.

(** A computation that leaves the tables, or the registry, alone. *)
Definition leaves_tables {A} (m : M A) : Prop :=
  forall w a w', m w = Done a w' -> same_tables w w'.

Definition leaves_registry {A} (m : M A) : Prop :=
  forall w a w', m w = Done a w' -> _socket_map w' = _socket_map w.

Definition is_registered (id : Z) (p : ptr) (w : world) : Prop := registered w id p.

(** A property of the slot table only. *)
Definition of_slots (I : world -> Prop) : Prop :=
  forall w w', _socket_base w' = _socket_base w -> I w -> I w'.

Definition leaves_heap {A} (m : M A) : Prop :=
  forall w a w', m w = Done a w' -> heap w' = heap w.

Definition leaves_slots {A} (m : M A) : Prop :=
  forall w a w', m w = Done a w' -> _socket_base w' = _socket_base w.

(** [forgets F m]: [m], run where the invariant and [F] hold, gives the
    invariant back. *)
Definition forgets {A} (F : world -> Prop) (m : M A) : Prop :=
  triple (consistent_with F) m (fun _ w => consistent w).

Section SmallBuildCalls.
#[local] Existing Instance small_build.
#[local] Existing Instance failing_kernel.

(** A program on the small build: the module is initialised for four
    sockets, a TCP socket is created (id 1) and connected (slot 0,
    descriptor 3); the kernel then has the descriptor in error. *)
Definition started_world : world := after (_socket_initialize 4) empty_world.

Definition opened_world : world := after (run_call 8 Tcp_socket_create) started_world.

Definition hung_up_world : world :=
  after (run_call 8 (Socket_connect 1 (any_ipv4 8080) 0)) opened_world.

End SmallBuildCalls.

(** * Properties *)

(** ** Running computations *)

Lemma bind_done {A B} (m : M A) (k : A -> M B) w a w' :
  m w = Done a w' -> bind m k w = k a w'.
Proof. intros E. unfold bind. rewrite E. reflexivity. Qed.

Lemma bind_fault {A B} (m : M A) (k : A -> M B) w f :
  m w = Fault f -> bind m k w = Fault f.
Proof. intros E. unfold bind. rewrite E. reflexivity. Qed.

Lemma bind_assoc {A B C} (m : M A) (f : A -> M B) (g : B -> M C) w :
  bind (bind m f) g w = bind m (fun a => bind (f a) g) w.
Proof. unfold bind. destruct (m w); reflexivity. Qed.

Ltac wsimpl :=
  cbn [_socket_map heap streams next_ptr _socket_base _socket_base_next
       _socket_base_size _socket_stream_vtable events trace
       world_with_map world_with_heap world_with_streams world_with_next_ptr
       world_with_base world_with_base_next world_with_base_size
       world_with_vtable world_with_events world_with_trace].

(** Rewrite with what is known about the tables, and reduce. *)
Ltac mrewrite :=
  repeat first
    [ progress wsimpl
    | match goal with
      | H : ?l = Some _ |- context [?l] => rewrite H
      | H : ?l = None |- context [?l] => rewrite H
      | H : ?l = true |- context [?l] => rewrite H
      | H : ?l = false |- context [?l] => rewrite H
      end
    | rewrite lookup_insert_eq
    | rewrite list_lookup_insert_eq by (eapply lookup_lt_Some; eassumption) ].

Ltac munfold :=
  unfold update, update_base, atomic_incr32, atomic_decr32, objectmap_lookup,
    objectmap_free, objectmap_set, network_event_post, memory_deallocate,
    memory_deallocate_stream, when;
  unfold load, store, load_base, store_base, load_stream, store_stream, the_map,
    syscall, assert_, gets, modify, fail, bind, ret.

Ltac side :=
  wsimpl;
  first
    [ eassumption
    | apply lookup_insert_eq
    | apply list_lookup_insert_eq; eapply lookup_lt_Some; eassumption
    | lia
    | reflexivity ].

(** Run the first computation of a sequence by a lemma of its result. *)
Ltac run_with lem :=
  erewrite bind_done; [| eapply lem; side]; cbv beta iota.

Ltac wsimpl_in H :=
  cbn [_socket_map heap streams next_ptr _socket_base _socket_base_next
       _socket_base_size _socket_stream_vtable events trace
       world_with_map world_with_heap world_with_streams world_with_next_ptr
       world_with_base world_with_base_next world_with_base_size
       world_with_vtable world_with_events world_with_trace] in H.

Ltac mstep t :=
  rewrite ?bind_assoc; erewrite bind_done by t; cbv beta iota.

Section Running.
Context {cfg : Config} {krn : Kernel}.

Lemma world_eta w :
  w = {| _socket_map := _socket_map w; heap := heap w; streams := streams w;
         next_ptr := next_ptr w; _socket_base := _socket_base w;
         _socket_base_next := _socket_base_next w;
         _socket_base_size := _socket_base_size w;
         _socket_stream_vtable := _socket_stream_vtable w;
         events := events w; trace := trace w |}.
Proof. destruct w; reflexivity. Qed.

Lemma load_done w p r : heap w !! p = Some r -> load p w = Done r w.
Proof. intros E. unfold load. rewrite E. reflexivity. Qed.

Lemma store_done w p r0 r :
  heap w !! p = Some r0 ->
  store p r w = Done tt (world_with_heap (<[p := r]> (heap w)) w).
Proof. intros E. unfold store. rewrite E. reflexivity. Qed.

Lemma load_base_done w i b :
  0 <= i -> _socket_base w !! Z.to_nat i = Some b -> load_base i w = Done b w.
Proof.
  intros Hi E. unfold load_base. rewrite E.
  destruct (0 <=? i) eqn:C; [reflexivity | lia].
Qed.

Lemma store_base_done w i b0 b :
  0 <= i -> _socket_base w !! Z.to_nat i = Some b0 ->
  store_base i b w = Done tt (world_with_base (<[Z.to_nat i := b]> (_socket_base w)) w).
Proof.
  intros Hi E. unfold store_base. rewrite E.
  destruct (0 <=? i) eqn:C; [reflexivity | lia].
Qed.

Lemma the_map_done w m : _socket_map w = Some m -> the_map w = Done m w.
Proof. intros E. unfold the_map. rewrite E. reflexivity. Qed.

(** ** The reference count *)

Lemma s32_id x : - 2 ^ 31 <= x < 2 ^ 31 -> s32 x = x.
Proof. intros H. unfold s32. rewrite Z.mod_small; lia. Qed.

Lemma s32_incr_decr x : - 2 ^ 31 <= x < 2 ^ 31 -> s32 (s32 (x + 1) - 1) = x.
Proof.
  intros H. unfold s32.
  replace ((x + 1 + 2 ^ 31) mod 2 ^ 32 - 2 ^ 31 - 1 + 2 ^ 31)
    with ((x + 1 + 2 ^ 31) mod 2 ^ 32 - 1) by lia.
  destruct (Z.eq_dec x (2 ^ 31 - 1)) as [->|Hne].
  - reflexivity.
  - rewrite (Z.mod_small (x + 1 + 2 ^ 31)) by lia.
    rewrite Z.mod_small; lia.
Qed.



Lemma _socket_lookup_done w m id p r :
  _socket_map w = Some m -> om_entries m !! id = Some p -> heap w !! p = Some r ->
  _socket_lookup id w
  = Done (Some p) (world_with_heap (<[p := sock_with_ref (s32 (ref r + 1)) r]> (heap w)) w).
Proof.
  intros Hm Hid Hp. unfold _socket_lookup. munfold. mrewrite. reflexivity.
Qed.

Lemma _socket_lookup_none w m id :
  _socket_map w = Some m -> om_entries m !! id = None ->
  _socket_lookup id w = Done None w.
Proof.
  intros Hm Hid. unfold _socket_lookup. munfold. mrewrite. reflexivity.
Qed.

(** socket_destroy on a registered record that keeps a reference: one
    reference less, nothing else. *)
Lemma socket_destroy_done w m id p r :
  _socket_map w = Some m -> om_entries m !! id = Some p -> heap w !! p = Some r ->
  s32 (ref r - 1) <> 0 ->
  socket_destroy id w
  = Done tt (world_with_heap (<[p := sock_with_ref (s32 (ref r - 1)) r]> (heap w)) w).
Proof.
  intros Hm Hid Hp Hn. unfold socket_destroy, socket_destroy_gen. munfold. mrewrite.
  apply Z.eqb_neq in Hn. rewrite Hn. reflexivity.
Qed.

Lemma socket_destroy_none w m id :
  _socket_map w = Some m -> om_entries m !! id = None ->
  socket_destroy id w = Done tt w.
Proof.
  intros Hm Hid. unfold socket_destroy, socket_destroy_gen. munfold. mrewrite. reflexivity.
Qed.

Lemma _socket_close_slot w p r sb :
  heap w !! p = Some r -> 0 <= base r ->
  _socket_base w !! Z.to_nat (base r) = Some sb ->
  _socket_close p w
  = Done tt
      (world_with_trace (close_calls (fd sb) ++ trace w)
         (world_with_base (<[Z.to_nat (base r) := released_slot sb]> (_socket_base w))
            (world_with_heap (<[p := closed_record r]> (heap w)) w))).
Proof.
  intros Hp Hb Hs. unfold _socket_close, _socket_set_blocking_fd, _socket_close_fd.
  munfold. mrewrite.
  assert (C : (0 <=? base r) = true) by lia. rewrite C. mrewrite.
  unfold close_calls, closed_record. rewrite C.
  rewrite insert_insert_eq.
  destruct (fd sb =? SOCKET_INVALID) eqn:F; cbn [negb]; wsimpl;
    rewrite ?insert_insert_eq; destruct w; reflexivity.
Qed.

Lemma _socket_close_noslot w p r :
  heap w !! p = Some r -> base r < 0 ->
  _socket_close p w = Done tt (world_with_heap (<[p := closed_record r]> (heap w)) w).
Proof.
  intros Hp Hb. unfold _socket_close, _socket_set_blocking_fd, _socket_close_fd.
  munfold. mrewrite.
  assert (C : (0 <=? base r) = false) by lia. rewrite C. mrewrite.
  rewrite Z.eqb_refl. cbn [negb]. unfold closed_record. rewrite C. reflexivity.
Qed.


Lemma sock_with_ref_base v r : base (sock_with_ref v r) = base r.
Proof. reflexivity. Qed.

Lemma closed_record_base r : -1 <= base r -> base (closed_record r) = -1.
Proof.
  intros H. unfold closed_record. destruct (0 <=? base r) eqn:C; cbn; lia.
Qed.

Lemma closed_record_base_neg r : base (closed_record r) < 0.
Proof.
  unfold closed_record. destruct (0 <=? base r) eqn:C; cbn; lia.
Qed.

(** socket_close on a live record that holds a slot. *)
Lemma socket_close_slot w m id p r sb :
  _socket_map w = Some m -> om_entries m !! id = Some p -> heap w !! p = Some r ->
  0 < ref r < 2 ^ 31 -> 0 <= base r ->
  _socket_base w !! Z.to_nat (base r) = Some sb ->
  socket_close id w
  = Done tt
      (world_with_trace (close_calls (fd sb) ++ trace w)
         (world_with_base (<[Z.to_nat (base r) := released_slot sb]> (_socket_base w))
            (world_with_heap (<[p := closed_record r]> (heap w)) w))).
Proof.
  intros Hm Hid Hp Hr Hb Hs. unfold socket_close.
  run_with _socket_lookup_done.
  run_with _socket_close_slot.
  erewrite socket_destroy_done; try side.
  - wsimpl. rewrite !insert_insert_eq. cbn [ref closed_record sock_with_ref].
    rewrite sock_with_ref_base. 
    assert (C : (0 <=? base r) = true) by lia.
    unfold closed_record. rewrite sock_with_ref_base, C.
    cbn. rewrite s32_incr_decr by lia. destruct r; reflexivity.
  - unfold closed_record. rewrite sock_with_ref_base.
    destruct (0 <=? base r); cbn; rewrite s32_incr_decr; lia.
Qed.

Lemma socket_close_noslot w m id p r :
  _socket_map w = Some m -> om_entries m !! id = Some p -> heap w !! p = Some r ->
  0 < ref r < 2 ^ 31 -> base r < 0 ->
  socket_close id w = Done tt (world_with_heap (<[p := closed_record r]> (heap w)) w).
Proof.
  intros Hm Hid Hp Hr Hb. unfold socket_close.
  run_with _socket_lookup_done.
  run_with _socket_close_noslot.
  assert (C : (0 <=? base r) = false) by lia.
  erewrite socket_destroy_done; try side.
  - wsimpl. rewrite !insert_insert_eq.
    unfold closed_record. rewrite sock_with_ref_base, C.
    cbn. rewrite s32_incr_decr by lia. destruct r; reflexivity.
  - unfold closed_record. rewrite sock_with_ref_base, C.
    cbn. rewrite s32_incr_decr; lia.
Qed.

Lemma closed_record_closed r : closed_record (closed_record r) = closed_record r.
Proof.
  unfold closed_record at 1.
  assert (C : (0 <=? base (closed_record r)) = false)
    by (pose proof (closed_record_base_neg r); lia).
  rewrite C. unfold closed_record. destruct (0 <=? base r); reflexivity.
Qed.

Lemma record_of_Some w m id p r :
  _socket_map w = Some m -> om_entries m !! id = Some p -> heap w !! p = Some r ->
  record_of id w = Some r.
Proof. intros Hm Hid Hp. unfold record_of. rewrite Hm. cbn. rewrite Hid. cbn. exact Hp. Qed.

Lemma record_of_inv w id r :
  record_of id w = Some r ->
  exists m p, _socket_map w = Some m /\ om_entries m !! id = Some p /\ heap w !! p = Some r.
Proof.
  unfold record_of. intros H.
  destruct (_socket_map w) as [m|]; [|discriminate H]. cbn in H.
  destruct (om_entries m !! id) as [p|] eqn:E; [|discriminate H]. cbn in H.
  exists m, p. auto.
Qed.

Lemma slot_of_noslot w id r :
  record_of id w = Some r -> base r < 0 -> slot_of id w = None.
Proof.
  intros H Hb. unfold slot_of. rewrite H. cbn [mbind option_bind].
  assert (C : (0 <=? base r) = false) by lia. rewrite C. reflexivity.
Qed.

Lemma slot_of_slot w id r :
  record_of id w = Some r -> 0 <= base r ->
  slot_of id w = _socket_base w !! Z.to_nat (base r).
Proof.
  intros H Hb. unfold slot_of. rewrite H. cbn [mbind option_bind].
  assert (C : (0 <=? base r) = true) by lia. rewrite C. reflexivity.
Qed.

(** C7.  Closing a socket is idempotent.  socket_close returns on every
    id of an initialised registry: an id that is not registered is left
    alone, and a registered socket is left with base -1, no slot and no
    address, the slot it held reset and its reference count as before.
    Closing twice in a row returns as well and leaves the very world one
    close leaves: the second close finds the record without a slot and
    changes nothing. *)
Theorem socket_close_idempotent w m id :
  _socket_map w = Some m ->
  (forall p, om_entries m !! id = Some p ->
     exists r, heap w !! p = Some r /\ 0 < ref r < 2 ^ 31 /\ -1 <= base r /\
       (0 <= base r -> is_Some (_socket_base w !! Z.to_nat (base r)))) ->
  exists w',
    socket_close id w = Done tt w' /\
    (socket_close id;; socket_close id) w = Done tt w' /\
    socket_close id w' = Done tt w' /\
    (record_of id w = None -> w' = w) /\
    (forall r, record_of id w = Some r ->
       exists r', record_of id w' = Some r' /\ base r' = -1 /\ slot_of id w' = None /\
         address_local r' = None /\ address_remote r' = None /\ ref r' = ref r /\
         (forall sb, slot_of id w = Some sb ->
            _socket_base w' !! Z.to_nat (base r) = Some (released_slot sb))).
Proof.
  intros Hm Hwf.
  destruct (om_entries m !! id) as [p|] eqn:Hid.
  2:{ assert (E : socket_close id w = Done tt w).
      { unfold socket_close. erewrite bind_done by (eapply _socket_lookup_none; eassumption).
        reflexivity. }
      exists w. split; [exact E|]. split; [unfold bind; rewrite E; exact E|].
      split; [exact E|]. split; [reflexivity|].
      intros r H. apply record_of_inv in H. destruct H as (m' & p' & H1 & H2 & _).
      congruence. }
  destruct (Hwf _ eq_refl) as (r & Hp & Href & Hbase & Hslot).
  pose proof (record_of_Some _ _ _ _ _ Hm Hid Hp) as Hrec.
  assert (Hsecond : forall w1, _socket_map w1 = Some m -> heap w1 !! p = Some (closed_record r) ->
                      socket_close id w1 = Done tt w1).
  { intros w1 Hm1 Hp1.
    erewrite socket_close_noslot; try eassumption.
    - rewrite closed_record_closed, insert_id by assumption. destruct w1; reflexivity.
    - unfold closed_record. destruct (0 <=? base r); cbn; lia.
    - apply closed_record_base_neg. }
  assert (Hnone : record_of id w = None -> False) by (rewrite Hrec; discriminate).
  destruct (Z_lt_le_dec (base r) 0) as [Hneg|Hpos].
  - assert (E : socket_close id w
                = Done tt (world_with_heap (<[p := closed_record r]> (heap w)) w))
      by (eapply socket_close_noslot; eassumption).
    eexists. split; [exact E|].
    assert (E2 : socket_close id (world_with_heap (<[p := closed_record r]> (heap w)) w)
                 = Done tt (world_with_heap (<[p := closed_record r]> (heap w)) w))
      by (apply Hsecond; side).
    split; [unfold bind; rewrite E; exact E2|].
    split; [exact E2|].
    split; [intros H; destruct (Hnone H)|].
    intros r0 Hr0. rewrite Hrec in Hr0. injection Hr0 as <-.
    exists (closed_record r).
    assert (Hrec' : record_of id (world_with_heap (<[p:=closed_record r]> (heap w)) w)
                    = Some (closed_record r))
      by (eapply record_of_Some; side).
    split; [exact Hrec'|].
    split; [apply closed_record_base; lia|].
    split. { eapply slot_of_noslot; [exact Hrec' | apply closed_record_base_neg]. }
    split; [reflexivity|]. split; [reflexivity|].
    split. { unfold closed_record. destruct (0 <=? base r); reflexivity. }
    intros sb Hsb. rewrite (slot_of_noslot _ _ _ Hrec Hneg) in Hsb. discriminate Hsb.
  - destruct (Hslot Hpos) as [sb Hs].
    pose proof (socket_close_slot _ _ _ _ _ _ Hm Hid Hp Href Hpos Hs) as E.
    match type of E with _ = Done tt ?w1 =>
      assert (E2 : socket_close id w1 = Done tt w1) by (apply Hsecond; side) end.
    eexists. split; [exact E|].
    split; [unfold bind; rewrite E; exact E2|].
    split; [exact E2|].
    split; [intros H; destruct (Hnone H)|].
    intros r0 Hr0. rewrite Hrec in Hr0. injection Hr0 as <-.
    exists (closed_record r).
    match goal with |- record_of id ?w1 = _ /\ _ =>
      assert (Hrec' : record_of id w1 = Some (closed_record r))
        by (eapply record_of_Some; side) end.
    split; [exact Hrec'|].
    split; [apply closed_record_base; lia|].
    split. { eapply slot_of_noslot; [exact Hrec' | apply closed_record_base_neg]. }
    split; [reflexivity|]. split; [reflexivity|].
    split. { unfold closed_record. destruct (0 <=? base r); reflexivity. }
    intros sb' Hsb. rewrite (slot_of_slot _ _ _ Hrec Hpos), Hs in Hsb.
    injection Hsb as <-. wsimpl.
    apply list_lookup_insert_eq. eapply lookup_lt_Some; eassumption.
Qed.

Lemma s32_small x : - 2 ^ 31 <= x < 2 ^ 31 -> s32 x = x.
Proof. apply s32_id. Qed.

(** The record is freed by the release that takes its last reference:
    _socket_deallocate on a record without a stream. *)
Lemma _socket_deallocate_done w m p r :
  _socket_map w = Some m -> heap w !! p = Some r -> stream r = None ->
  (base r < 0 \/ exists sb, _socket_base w !! Z.to_nat (base r) = Some sb) ->
  exists w',
    _socket_deallocate p w = Done tt w' /\
    _socket_map w' = Some {| om_size := om_size m; om_next := om_next m;
                             om_entries := delete (sock_id r) (om_entries m) |} /\
    heap w' = delete p (heap w) /\
    streams w' = streams w /\
    (forall i, i <> Z.to_nat (base r) \/ base r < 0 ->
               _socket_base w' !! i = _socket_base w !! i).
Proof.
  intros Hm Hp Hst Hslot.
  unfold _socket_deallocate, _socket_deallocate_gen.
  erewrite bind_done by (apply load_done; eassumption). cbv beta.
  erewrite bind_done by (unfold objectmap_free; munfold; rewrite Hm; reflexivity). cbv beta.
  destruct (Z_lt_le_dec (base r) 0) as [Hneg|Hpos].
  - run_with _socket_close_noslot.
    erewrite bind_done by (apply load_done; side). cbv beta.
    assert (Hs' : stream (closed_record r) = None)
      by (unfold closed_record; destruct (0 <=? base r); exact Hst).
    rewrite Hs'. munfold. unfold stream_deallocate_gen.
    rewrite andb_false_r. wsimpl.
    eexists. split; [reflexivity|]. wsimpl.
    split; [reflexivity|]. split; [apply delete_insert_eq|]. split; [reflexivity|].
    intros; reflexivity.
  - destruct Hslot as [Hneg|[sb Hsb]]; [lia|].
    run_with _socket_close_slot.
    erewrite bind_done by (apply load_done; side). cbv beta.
    assert (Hs' : stream (closed_record r) = None)
      by (unfold closed_record; destruct (0 <=? base r); exact Hst).
    rewrite Hs'. munfold. unfold stream_deallocate_gen.
    rewrite andb_false_r. wsimpl.
    eexists. split; [reflexivity|]. wsimpl.
    split; [reflexivity|]. split; [apply delete_insert_eq|]. split; [reflexivity|].
    intros i [Hi|Hi]; [|lia]. apply list_lookup_insert_ne. congruence.
Qed.

(** C9.  The finalizer of a stream whose socket id is set, on a record that
    still points back to the stream: the back-pointer is cleared, the id in
    the stream is zeroed, and of the lookup and the two socket_destroy
    exactly one reference is given back (the one the stream held): the
    count drops by one, and a record whose count was 1 is freed. *)
Theorem _socket_stream_finalize_releases_once w s ss m p r :
  streams w !! s = Some ss -> stream_type_socket ss = true ->
  stream_socket ss <> 0 ->
  _socket_map w = Some m -> om_entries m !! stream_socket ss = Some p ->
  heap w !! p = Some r -> sock_id r = stream_socket ss ->
  stream r = Some s -> 0 < ref r < 2 ^ 31 - 1 ->
  (base r < 0 \/ exists sb, _socket_base w !! Z.to_nat (base r) = Some sb) ->
  exists w',
    _socket_stream_finalize s w = Done tt w' /\
    stream_socket <$> streams w' !! s = Some 0 /\
    (1 < ref r ->
       record_of (stream_socket ss) w'
       = Some (sock_with_ref (ref r - 1) (sock_with_stream None r)) /\
       _socket_base w' = _socket_base w) /\
    (ref r = 1 -> record_of (stream_socket ss) w' = None /\ heap w' !! p = None).
Proof.
  intros Hs Hty Hid Hm Hent Hp Hsid Hback Hr Hslot.
  unfold _socket_stream_finalize, _socket_stream_finalize_gen.
  erewrite bind_done by (unfold load_stream; rewrite Hs; reflexivity). cbv beta.
  erewrite bind_done
    by (unfold assert_; rewrite Hty, andb_false_r; reflexivity). cbv beta.
  assert (Hnz : nonzero (stream_socket ss) = true)
    by (unfold nonzero; apply negb_true_iff, Z.eqb_neq; exact Hid).
  rewrite Hnz. unfold when at 1 2.
  rewrite bind_assoc.
  run_with _socket_lookup_done.
  rewrite bind_assoc.
  erewrite bind_done by (apply load_done; side). cbv beta.
  rewrite bind_assoc.
  erewrite bind_done
    by (unfold assert_; cbn [stream sock_with_ref]; rewrite Hback, bool_decide_eq_true_2 by reflexivity;
        rewrite andb_false_r; reflexivity). cbv beta.
  rewrite bind_assoc.
  erewrite bind_done by (eapply store_done; side). cbv beta.
  set (r1 := sock_with_stream None (sock_with_ref (s32 (ref r + 1)) r)).
  assert (Hr1 : ref r1 = ref r + 1) by (cbn; apply s32_small; lia).
  erewrite bind_done.
  2:{ eapply socket_destroy_done; try side.
      rewrite Hr1. replace (ref r + 1 - 1) with (ref r) by lia.
      rewrite s32_small; lia. }
  cbv beta. wsimpl. rewrite !insert_insert_eq.
  rewrite Hr1. replace (ref r + 1 - 1) with (ref r) by lia. rewrite (s32_small (ref r)) by lia.
  erewrite bind_done by (unfold load_stream; wsimpl; rewrite Hs; reflexivity). cbv beta.
  erewrite bind_done by (unfold store_stream; wsimpl; rewrite Hs; reflexivity). cbv beta.
  set (r2 := sock_with_ref (ref r) r1).
  destruct (Z.eq_dec (ref r) 1) as [Hone|Hmany].
  - (* the last reference: the record is freed *)
    unfold socket_destroy, socket_destroy_gen, objectmap_lookup.
    erewrite bind_done by (erewrite bind_done by (apply the_map_done; side); reflexivity).
    cbv beta. rewrite Hent.
    erewrite bind_done by (unfold atomic_decr32;
      erewrite bind_done by (apply load_done; side); cbv beta;
      erewrite bind_done by (eapply store_done; side); reflexivity).
    cbv beta. cbn [ref r2 sock_with_ref]. rewrite Hone. change (s32 (1 - 1) =? 0) with true.
    unfold when.
    edestruct (_socket_deallocate_done) as (w' & E & Em & Eh & Es & Eb);
      [| | | | unfold _socket_deallocate in E; rewrite E ].
    + wsimpl. exact Hm.
    + wsimpl. rewrite insert_insert_eq. apply lookup_insert_eq.
    + reflexivity.
    + wsimpl. exact Hslot.
    + exists w'. split; [reflexivity|].
      rewrite Es. wsimpl. rewrite lookup_insert_eq. split; [reflexivity|].
      split; [intros; lia|]. intros _.
      split.
      * unfold record_of. rewrite Em. cbn [mbind option_bind om_entries].
        replace (sock_id (sock_with_ref (s32 (1 - 1)) r2)) with (stream_socket ss)
          by (symmetry; exact Hsid).
        rewrite lookup_delete_eq. reflexivity.
      * rewrite Eh. wsimpl. apply lookup_delete_eq.
  - unfold when. change (socket_destroy_gen _socket_stream_finalize_nested) with socket_destroy.
    erewrite socket_destroy_done; try side.
    2:{ cbn [ref r2 sock_with_ref]. rewrite s32_small; lia. }
    eexists. split; [reflexivity|]. wsimpl.
    rewrite lookup_insert_eq. split; [reflexivity|].
    split; [|intros; lia]. intros _.
    split; [|reflexivity].
    erewrite record_of_Some; [| side | side | wsimpl; apply lookup_insert_eq].
    f_equal. cbn [ref r2 sock_with_ref]. rewrite s32_small by lia.
    unfold r2, r1. destruct r; reflexivity.
Qed.
End Running.

(** ** The state poller *)

Section PollState.
Context {cfg : Config} {krn : Kernel}.

Lemma _socket_available_fd_invalid w :
  _socket_available_fd SOCKET_INVALID w = Done (-1) w.
Proof. unfold _socket_available_fd. rewrite Z.eqb_refl. reflexivity. Qed.

(** The value of the FIONREAD probe for the kernel's answer. *)
Lemma _socket_available_fd_valid w fd_ :
  fd_ <> SOCKET_INVALID ->
  _socket_available_fd fd_ w
  = Done (let a := k_fionread (length (trace w)) in
          if (snd a =? 0) && (fst a <? 0) then -1 else snd a)
         (world_with_trace (SYS_fionread fd_ :: trace w) w).
Proof.
  intros H. unfold _socket_available_fd.
  apply Z.eqb_neq in H. rewrite H. reflexivity.
Qed.

Lemma _socket_available_fd_done w fd_ :
  _socket_available_fd fd_ w
  = Done (probe_value fd_ (length (trace w)))
         (world_with_trace (probe_calls fd_ ++ trace w) w).
Proof.
  unfold _socket_available_fd, probe_value, probe_calls.
  destruct (fd_ =? SOCKET_INVALID); [destruct w|]; reflexivity.
Qed.

Lemma _socket_poll_state_exit_none w i sb :
  0 <= i -> _socket_base w !! Z.to_nat i = Some sb ->
  _socket_poll_state_exit i None w = Done (state sb) w.
Proof.
  intros Hi Hs. unfold _socket_poll_state_exit.
  erewrite bind_done by reflexivity.
  erewrite bind_done by (apply load_base_done; eassumption). reflexivity.
Qed.

Lemma _socket_poll_state_exit_some w i sb m p r :
  0 <= i -> _socket_base w !! Z.to_nat i = Some sb ->
  _socket_map w = Some m -> heap w !! p = Some r ->
  om_entries m !! sock_id r = Some p -> s32 (ref r - 1) <> 0 ->
  _socket_poll_state_exit i (Some p) w
  = Done (state sb) (world_with_heap (<[p := sock_with_ref (s32 (ref r - 1)) r]> (heap w)) w).
Proof.
  intros Hi Hs Hm Hp Hid Hr. unfold _socket_poll_state_exit.
  rewrite bind_assoc.
  erewrite bind_done by (apply load_done; eassumption). cbv beta.
  run_with socket_destroy_done.
  erewrite bind_done by (apply load_base_done; side). reflexivity.
Qed.

Variables (w : world) (i : Z) (sb : socket_base_t).
Hypothesis Hi : 0 <= i.
Hypothesis Hs : _socket_base w !! Z.to_nat i = Some sb.

Lemma _socket_poll_state_settled :
  state sb = SOCKETSTATE_NOTCONNECTED \/ state sb = SOCKETSTATE_DISCONNECTED ->
  _socket_poll_state i w = Done (state sb) w.
Proof.
  intros H. unfold _socket_poll_state.
  erewrite bind_done by (apply load_base_done; eassumption). cbv beta.
  destruct H as [E|E]; rewrite E; reflexivity.
Qed.

Lemma _socket_poll_state_listening :
  state sb = SOCKETSTATE_LISTENING ->
  _socket_poll_state i w = Done SOCKETSTATE_LISTENING w.
Proof.
  intros E. unfold _socket_poll_state.
  erewrite bind_done by (apply load_base_done; eassumption). cbv beta.
  rewrite E. erewrite _socket_poll_state_exit_none by eassumption.
  rewrite E. reflexivity.
Qed.

End PollState.

Section PollStateOwned.
Context {cfg : Config} {krn : Kernel}.

(** The slot is the one its owner names, and the owner is alive. *)
Variables (w : world) (sb : socket_base_t) (m : objectmap_t) (p : ptr) (r : socket_t).
Hypothesis Hi : 0 <= base r.
Hypothesis Hs : _socket_base w !! Z.to_nat (base r) = Some sb.
Hypothesis Hm : _socket_map w = Some m.
Hypothesis Hown : om_entries m !! object sb = Some p.
Hypothesis Hp : heap w !! p = Some r.
Hypothesis Hid : sock_id r = object sb.
Hypothesis Href : 0 < ref r < 2 ^ 31 - 1.

Lemma _socket_poll_state_connecting_error :
  state sb = SOCKETSTATE_CONNECTING ->
  snd (snd (k_select (length (trace w)))) = true ->
  _socket_poll_state (base r) w
  = Done SOCKETSTATE_NOTCONNECTED
      (world_with_trace (close_calls (fd sb) ++ poll_select sb :: trace w)
         (world_with_base (<[Z.to_nat (base r) := released_slot sb]> (_socket_base w))
            (world_with_heap (<[p := closed_record r]> (heap w)) w))).
Proof.
  intros E Hex. unfold _socket_poll_state.
  erewrite bind_done by (apply load_base_done; eassumption). cbv beta.
  rewrite E.
  erewrite bind_done by reflexivity. cbv beta. rewrite Hex.
  run_with _socket_lookup_done.
  erewrite bind_done by (eapply _socket_close_slot; side).
  cbv beta.
  assert (C : (0 <=? base r) = true) by lia.
  erewrite _socket_poll_state_exit_some; cycle 1.
  - exact Hi.
  - wsimpl. cbn [base sock_with_ref].
    apply list_lookup_insert_eq. eapply lookup_lt_Some; eassumption.
  - side.
  - wsimpl. rewrite insert_insert_eq. apply lookup_insert_eq.
  - unfold closed_record. cbn [base sock_with_ref]. rewrite C. cbn. rewrite Hid; exact Hown.
  - unfold closed_record. cbn [base sock_with_ref]. rewrite C. cbn. rewrite s32_incr_decr; lia.
  - wsimpl. cbn [state released_slot]. f_equal.
    rewrite !insert_insert_eq.
    unfold closed_record. cbn [base sock_with_ref]. rewrite C.
    cbn. rewrite s32_incr_decr by lia. destruct r; reflexivity.
Qed.


Lemma heap_round_trip (h : gmap ptr socket_t) :
  h !! p = Some r ->
  <[p := sock_with_ref (s32 (ref (sock_with_ref (s32 (ref r + 1)) r) - 1))
           (sock_with_ref (s32 (ref r + 1)) r)]>
    (<[p := sock_with_ref (s32 (ref r + 1)) r]> h) = h.
Proof.
  intros H. rewrite insert_insert_eq. cbn [ref sock_with_ref].
  rewrite s32_incr_decr by lia.
  apply insert_id. rewrite H. destruct r; reflexivity.
Qed.

Lemma _socket_poll_state_connecting_writable :
  state sb = SOCKETSTATE_CONNECTING ->
  snd (snd (k_select (length (trace w)))) = false ->
  snd (fst (snd (k_select (length (trace w))))) = true ->
  _socket_poll_state (base r) w
  = Done SOCKETSTATE_CONNECTED
      (world_with_base
         (<[Z.to_nat (base r) := base_with_state SOCKETSTATE_CONNECTED sb]> (_socket_base w))
         (world_with_trace (poll_select sb :: trace w) w)).
Proof.
  intros E Hex Hwr. unfold _socket_poll_state.
  erewrite bind_done by (apply load_base_done; eassumption). cbv beta.
  rewrite E.
  erewrite bind_done by reflexivity. cbv beta. rewrite Hex, Hwr.
  destruct BUILD_ENABLE_DEBUG_LOG.
  - run_with _socket_lookup_done.
    erewrite bind_done
      by (unfold update_base; erewrite bind_done by (apply load_base_done; side);
          eapply store_base_done; side).
    cbv beta.
    erewrite _socket_poll_state_exit_some; cycle 1.
    + exact Hi.
    + wsimpl. apply list_lookup_insert_eq. eapply lookup_lt_Some; eassumption.
    + side.
    + side.
    + cbn [sock_id sock_with_ref]. rewrite Hid. exact Hown.
    + cbn [ref sock_with_ref]. rewrite s32_incr_decr; lia.
    + wsimpl. rewrite heap_round_trip by exact Hp. destruct w; reflexivity.
  - erewrite bind_done by reflexivity. cbv beta.
    erewrite bind_done
      by (unfold update_base; erewrite bind_done by (apply load_base_done; side);
          eapply store_base_done; side).
    cbv beta.
    erewrite _socket_poll_state_exit_none; [| exact Hi |].
    2:{ wsimpl. apply list_lookup_insert_eq. eapply lookup_lt_Some; eassumption. }
    reflexivity.
Qed.

Lemma _socket_poll_state_connecting_pending :
  state sb = SOCKETSTATE_CONNECTING ->
  snd (snd (k_select (length (trace w)))) = false ->
  snd (fst (snd (k_select (length (trace w))))) = false ->
  _socket_poll_state (base r) w
  = Done SOCKETSTATE_CONNECTING (world_with_trace (poll_select sb :: trace w) w).
Proof.
  intros E Hex Hwr. unfold _socket_poll_state.
  erewrite bind_done by (apply load_base_done; eassumption). cbv beta.
  rewrite E.
  erewrite bind_done by reflexivity. cbv beta. rewrite Hex, Hwr.
  erewrite _socket_poll_state_exit_none by side. rewrite E. reflexivity.
Qed.

Lemma _socket_poll_state_connected_alive :
  state sb = SOCKETSTATE_CONNECTED ->
  0 <= probe_value (fd sb) (length (trace w)) ->
  _socket_poll_state (base r) w
  = Done SOCKETSTATE_CONNECTED (world_with_trace (probe_calls (fd sb) ++ trace w) w).
Proof.
  intros E Hav. unfold _socket_poll_state.
  erewrite bind_done by (apply load_base_done; eassumption). cbv beta.
  rewrite E.
  erewrite bind_done by apply _socket_available_fd_done. cbv beta.
  assert (C : (probe_value (fd sb) (length (trace w)) <? 0) = false) by lia.
  rewrite C.
  erewrite _socket_poll_state_exit_none by side. rewrite E. reflexivity.
Qed.

Lemma _socket_buffered_in_done w' p' r' :
  heap w' !! p' = Some r' ->
  _socket_buffered_in (Some p') w' = Done (buffered_in r') w'.
Proof.
  intros H. unfold _socket_buffered_in.
  erewrite bind_done
    by (unfold assert_; rewrite bool_decide_eq_true_2 by eauto; rewrite andb_false_r; reflexivity).
  erewrite bind_done by (apply load_done; eassumption). reflexivity.
Qed.

(** A connected descriptor found in error with bytes still buffered: the
    slot becomes DISCONNECTED and the record is kept. *)
Lemma _socket_poll_state_connected_hangup_buffered :
  state sb = SOCKETSTATE_CONNECTED ->
  probe_value (fd sb) (length (trace w)) < 0 ->
  buffered_in r <> 0 ->
  _socket_poll_state (base r) w
  = Done SOCKETSTATE_DISCONNECTED
      (world_with_base
         (<[Z.to_nat (base r) := base_with_state SOCKETSTATE_DISCONNECTED sb]> (_socket_base w))
         (world_with_trace (probe_calls (fd sb) ++ trace w) w)).
Proof.
  intros E Hav Hbuf. unfold _socket_poll_state.
  erewrite bind_done by (apply load_base_done; eassumption). cbv beta.
  rewrite E.
  erewrite bind_done by apply _socket_available_fd_done. cbv beta.
  assert (C : (probe_value (fd sb) (length (trace w)) <? 0) = true) by lia.
  rewrite C.
  assert (Hlt : (Z.to_nat (base r) < length (_socket_base w))%nat)
    by (eapply lookup_lt_Some; eassumption).
  assert (B : (buffered_in (sock_with_ref (s32 (ref r + 1)) r) =? 0) = false)
    by (apply Z.eqb_neq; exact Hbuf).
  destruct BUILD_ENABLE_DEBUG_LOG.
  - run_with _socket_lookup_done.
    erewrite bind_done
      by (unfold update_base; erewrite bind_done by (apply load_base_done; side);
          eapply store_base_done; side).
    cbv beta. unfold _socket_poll_state_disconnected.
    erewrite bind_done by reflexivity. cbv beta.
    erewrite bind_done by (apply _socket_buffered_in_done; side). cbv beta.
    rewrite B. unfold when. erewrite bind_done by reflexivity.
    erewrite _socket_poll_state_exit_some; cycle 1.
    + exact Hi.
    + wsimpl. apply list_lookup_insert_eq. exact Hlt.
    + side.
    + side.
    + cbn [sock_id sock_with_ref]. rewrite Hid. exact Hown.
    + cbn [ref sock_with_ref]. rewrite s32_incr_decr; lia.
    + wsimpl. rewrite heap_round_trip by exact Hp. destruct w; reflexivity.
  - erewrite bind_done by reflexivity. cbv beta.
    erewrite bind_done
      by (unfold update_base; erewrite bind_done by (apply load_base_done; side);
          eapply store_base_done; side).
    cbv beta. unfold _socket_poll_state_disconnected.
    erewrite bind_done.
    2:{ erewrite bind_done
          by (apply load_base_done; [exact Hi | wsimpl; apply list_lookup_insert_eq; exact Hlt]).
        cbv beta. cbn [object base_with_state].
        eapply _socket_lookup_done; side. }
    cbv beta.
    erewrite bind_done by (apply _socket_buffered_in_done; side). cbv beta.
    rewrite B. unfold when. erewrite bind_done by reflexivity.
    erewrite _socket_poll_state_exit_some; cycle 1.
    + exact Hi.
    + wsimpl. apply list_lookup_insert_eq. exact Hlt.
    + side.
    + side.
    + cbn [sock_id sock_with_ref]. rewrite Hid. exact Hown.
    + cbn [ref sock_with_ref]. rewrite s32_incr_decr; lia.
    + wsimpl. rewrite heap_round_trip by exact Hp. destruct w; reflexivity.
Qed.

(** A connected descriptor found in error with nothing buffered: the
    socket is closed. *)
Lemma _socket_poll_state_connected_hangup_drained :
  state sb = SOCKETSTATE_CONNECTED ->
  probe_value (fd sb) (length (trace w)) < 0 ->
  buffered_in r = 0 ->
  _socket_poll_state (base r) w
  = Done SOCKETSTATE_NOTCONNECTED
      (world_with_trace (close_calls (fd sb) ++ probe_calls (fd sb) ++ trace w)
         (world_with_base (<[Z.to_nat (base r) := released_slot sb]> (_socket_base w))
            (world_with_heap (<[p := closed_record r]> (heap w)) w))).
Proof.
  intros E Hav Hbuf. unfold _socket_poll_state.
  erewrite bind_done by (apply load_base_done; eassumption). cbv beta.
  rewrite E.
  erewrite bind_done by apply _socket_available_fd_done. cbv beta.
  assert (C : (probe_value (fd sb) (length (trace w)) <? 0) = true) by lia.
  rewrite C.
  assert (Hlt : (Z.to_nat (base r) < length (_socket_base w))%nat)
    by (eapply lookup_lt_Some; eassumption).
  assert (B : (buffered_in (sock_with_ref (s32 (ref r + 1)) r) =? 0) = true)
    by (apply Z.eqb_eq; exact Hbuf).
  assert (C0 : (0 <=? base r) = true) by lia.
  assert (Hfinish : forall w1,
    _socket_map w1 = Some m ->
    heap w1 = <[p := sock_with_ref (s32 (ref r + 1)) r]> (heap w) ->
    _socket_base w1
    = <[Z.to_nat (base r) := base_with_state SOCKETSTATE_DISCONNECTED sb]> (_socket_base w) ->
    trace w1 = probe_calls (fd sb) ++ trace w ->
    streams w1 = streams w -> next_ptr w1 = next_ptr w ->
    _socket_base_next w1 = _socket_base_next w -> _socket_base_size w1 = _socket_base_size w ->
    _socket_stream_vtable w1 = _socket_stream_vtable w -> events w1 = events w ->
    (buffered <- _socket_buffered_in (Some p);;
     when (buffered =? 0) (_socket_close p);;
     _socket_poll_state_exit (base r) (Some p)) w1
    = Done SOCKETSTATE_NOTCONNECTED
        (world_with_trace (close_calls (fd sb) ++ probe_calls (fd sb) ++ trace w)
           (world_with_base (<[Z.to_nat (base r) := released_slot sb]> (_socket_base w))
              (world_with_heap (<[p := closed_record r]> (heap w)) w)))).
  { intros w1 Hm1 Hh1 Hb1 Ht1 H1 H2 H3 H4 H5 H6.
    assert (Hp1 : heap w1 !! p = Some (sock_with_ref (s32 (ref r + 1)) r))
      by (rewrite Hh1; apply lookup_insert_eq).
    erewrite bind_done by (apply _socket_buffered_in_done; exact Hp1). cbv beta.
    rewrite B. unfold when.
    erewrite bind_done.
    2:{ eapply _socket_close_slot; [exact Hp1 | exact Hi |].
        cbn [base sock_with_ref]. rewrite Hb1. apply list_lookup_insert_eq. exact Hlt. }
    cbv beta.
    erewrite _socket_poll_state_exit_some; cycle 1.
    + exact Hi.
    + wsimpl. cbn [base sock_with_ref]. apply list_lookup_insert_eq.
      rewrite Hb1, length_insert. exact Hlt.
    + wsimpl. exact Hm1.
    + wsimpl. apply lookup_insert_eq.
    + unfold closed_record. cbn [base sock_with_ref]. rewrite C0. cbn. rewrite Hid; exact Hown.
    + unfold closed_record. cbn [base sock_with_ref]. rewrite C0. cbn.
      rewrite s32_incr_decr; lia.
    + wsimpl. cbn [state released_slot base sock_with_ref fd base_with_state last_event].
      f_equal.
      unfold world_with_trace, world_with_base, world_with_heap. wsimpl.
      rewrite Hh1, Hb1, Ht1, H1, H2, H3, H4, H5, H6, Hm1.
      rewrite !insert_insert_eq, list_insert_insert_eq.
      unfold closed_record. cbn [base sock_with_ref]. rewrite C0. cbn.
      rewrite s32_incr_decr by lia. rewrite Hm.
      destruct r; reflexivity. }
  destruct BUILD_ENABLE_DEBUG_LOG.
  - run_with _socket_lookup_done.
    erewrite bind_done
      by (unfold update_base; erewrite bind_done by (apply load_base_done; side);
          eapply store_base_done; side).
    cbv beta. unfold _socket_poll_state_disconnected.
    erewrite bind_done by reflexivity. cbv beta.
    apply Hfinish; reflexivity || exact Hm.
  - erewrite bind_done by reflexivity. cbv beta.
    erewrite bind_done
      by (unfold update_base; erewrite bind_done by (apply load_base_done; side);
          eapply store_base_done; side).
    cbv beta. unfold _socket_poll_state_disconnected.
    erewrite bind_done.
    2:{ erewrite bind_done
          by (apply load_base_done; [exact Hi | wsimpl; apply list_lookup_insert_eq; exact Hlt]).
        cbv beta. cbn [object base_with_state].
        eapply _socket_lookup_done; side. }
    cbv beta.
    apply Hfinish; reflexivity || exact Hm.
Qed.

End PollStateOwned.

Section PollSummary.
Context {cfg : Config} {krn : Kernel}.

Lemma base_with_state_same sb : base_with_state (state sb) sb = sb.
Proof. destruct sb; reflexivity. Qed.

(** Writing back what is there changes nothing. *)
Lemma world_rewritten w i sb p r :
  _socket_base w !! i = Some sb -> heap w !! p = Some r ->
  world_with_base (<[i := sb]> (_socket_base w))
    (world_with_heap (<[p := r]> (heap w)) w) = w.
Proof.
  intros Hs Hp. rewrite (insert_id _ _ _ Hp), (list_insert_id _ _ _ Hs).
  destruct w; reflexivity.
Qed.

Lemma world_with_trace_same w : world_with_trace (trace w) w = w.
Proof. destruct w; reflexivity. Qed.

(** Every outcome of a poll on an owned slot: either the record is as it
    was and the slot has the reported state, or the socket was closed. *)
Lemma _socket_poll_state_summary w sb m p r :
  0 <= base r -> _socket_base w !! Z.to_nat (base r) = Some sb ->
  _socket_map w = Some m -> om_entries m !! object sb = Some p ->
  heap w !! p = Some r -> sock_id r = object sb -> 0 < ref r < 2 ^ 31 - 1 ->
  exists st calls r' sb',
    _socket_poll_state (base r) w
    = Done st (world_with_trace (calls ++ trace w)
                 (world_with_base (<[Z.to_nat (base r) := sb']> (_socket_base w))
                    (world_with_heap (<[p := r']> (heap w)) w))) /\
    ((r' = r /\ sb' = base_with_state st sb) \/
     (r' = closed_record r /\ sb' = released_slot sb /\ st = SOCKETSTATE_NOTCONNECTED)).
Proof.
  intros Hi Hs Hm Hown Hp Hid Href.
  assert (Hsame : forall st calls, base_with_state st sb = sb ->
            world_with_trace (calls ++ trace w) w
            = world_with_trace (calls ++ trace w)
                (world_with_base (<[Z.to_nat (base r) := base_with_state st sb]> (_socket_base w))
                   (world_with_heap (<[p := r]> (heap w)) w))).
  { intros st calls ->. rewrite world_rewritten by assumption. reflexivity. }
  assert (Hsame' : forall st calls,
            world_with_base (<[Z.to_nat (base r) := base_with_state st sb]> (_socket_base w))
              (world_with_trace (calls ++ trace w) w)
            = world_with_trace (calls ++ trace w)
                (world_with_base (<[Z.to_nat (base r) := base_with_state st sb]> (_socket_base w))
                   (world_with_heap (<[p := r]> (heap w)) w))).
  { intros st calls. rewrite (insert_id _ _ _ Hp). destruct w; reflexivity. }
  destruct (state sb) eqn:E.
  - exists SOCKETSTATE_NOTCONNECTED, [], r, (base_with_state SOCKETSTATE_NOTCONNECTED sb).
    split; [|left; split; reflexivity].
    erewrite _socket_poll_state_settled by (eauto; rewrite E; auto). rewrite E.
    rewrite <- Hsame by (rewrite <- E; apply base_with_state_same). cbn [app]. rewrite world_with_trace_same. reflexivity.
  - destruct (snd (snd (k_select (length (trace w))))) eqn:Hex;
      [|destruct (snd (fst (snd (k_select (length (trace w)))))) eqn:Hwr].
    + exists SOCKETSTATE_NOTCONNECTED, (close_calls (fd sb) ++ [poll_select sb]),
        (closed_record r), (released_slot sb).
      split; [|right; repeat split; reflexivity].
      erewrite _socket_poll_state_connecting_error by eassumption.
      rewrite <- app_assoc. reflexivity.
    + exists SOCKETSTATE_CONNECTED, [poll_select sb], r,
        (base_with_state SOCKETSTATE_CONNECTED sb).
      split; [|left; split; reflexivity].
      erewrite _socket_poll_state_connecting_writable by eassumption.
      apply f_equal. apply (Hsame' SOCKETSTATE_CONNECTED [poll_select sb]).
    + exists SOCKETSTATE_CONNECTING, [poll_select sb], r,
        (base_with_state SOCKETSTATE_CONNECTING sb).
      split; [|left; split; reflexivity].
      erewrite _socket_poll_state_connecting_pending by eassumption.
      apply f_equal. apply (Hsame SOCKETSTATE_CONNECTING [poll_select sb]). rewrite <- E; apply base_with_state_same.
  - destruct (Z_lt_le_dec (probe_value (fd sb) (length (trace w))) 0) as [Hneg|Hpos];
      [destruct (Z.eq_dec (buffered_in r) 0) as [Hz|Hnz]|].
    + exists SOCKETSTATE_NOTCONNECTED, (close_calls (fd sb) ++ probe_calls (fd sb)),
        (closed_record r), (released_slot sb).
      split; [|right; repeat split; reflexivity].
      erewrite _socket_poll_state_connected_hangup_drained by eassumption.
      rewrite <- app_assoc. reflexivity.
    + exists SOCKETSTATE_DISCONNECTED, (probe_calls (fd sb)), r,
        (base_with_state SOCKETSTATE_DISCONNECTED sb).
      split; [|left; split; reflexivity].
      erewrite _socket_poll_state_connected_hangup_buffered by eassumption.
      apply f_equal. apply Hsame'.
    + exists SOCKETSTATE_CONNECTED, (probe_calls (fd sb)), r,
        (base_with_state SOCKETSTATE_CONNECTED sb).
      split; [|left; split; reflexivity].
      erewrite _socket_poll_state_connected_alive by eassumption.
      apply f_equal. apply Hsame. rewrite <- E; apply base_with_state_same.
  - exists SOCKETSTATE_LISTENING, [], r, (base_with_state SOCKETSTATE_LISTENING sb).
    split; [|left; split; reflexivity].
    erewrite _socket_poll_state_listening by eassumption.
    rewrite <- Hsame by (rewrite <- E; apply base_with_state_same). cbn [app]. rewrite world_with_trace_same. reflexivity.
  - exists SOCKETSTATE_DISCONNECTED, [], r, (base_with_state SOCKETSTATE_DISCONNECTED sb).
    split; [|left; split; reflexivity].
    erewrite _socket_poll_state_settled by (eauto; rewrite E; auto). rewrite E.
    rewrite <- Hsame by (rewrite <- E; apply base_with_state_same). cbn [app]. rewrite world_with_trace_same. reflexivity.
Qed.

(** C3 (amended).  Polling a slot in CONNECTING whose owner is alive makes
    one select with zero timeout on the write and exception sets of the
    descriptor.  If the exception set fires the socket is closed and the
    poll reports NOT_CONNECTED, the state the close leaves in the slot; if
    it does not and the write set fires, the slot becomes CONNECTED and the
    poll reports CONNECTED. *)
Theorem _socket_poll_state_connecting w sb m p r :
  0 <= base r -> _socket_base w !! Z.to_nat (base r) = Some sb ->
  _socket_map w = Some m -> om_entries m !! object sb = Some p ->
  heap w !! p = Some r -> sock_id r = object sb -> 0 < ref r < 2 ^ 31 - 1 ->
  state sb = SOCKETSTATE_CONNECTING ->
  let fderr := snd (snd (k_select (length (trace w)))) in
  let fdwrite := snd (fst (snd (k_select (length (trace w))))) in
  exists st w' calls,
    _socket_poll_state (base r) w = Done st w' /\
    trace w' = calls ++ poll_select sb :: trace w /\
    (fderr = true ->
       st = SOCKETSTATE_NOTCONNECTED /\ calls = close_calls (fd sb) /\
       record_of (object sb) w' = Some (closed_record r) /\
       _socket_base w' !! Z.to_nat (base r) = Some (released_slot sb)) /\
    (fderr = false -> fdwrite = true ->
       st = SOCKETSTATE_CONNECTED /\ calls = [] /\ heap w' = heap w /\
       _socket_base w' !! Z.to_nat (base r)
       = Some (base_with_state SOCKETSTATE_CONNECTED sb)).
Proof.
  intros Hi Hs Hm Hown Hp Hid Href E fderr fdwrite.
  assert (Hlt : (Z.to_nat (base r) < length (_socket_base w))%nat)
    by (eapply lookup_lt_Some; eassumption).
  destruct fderr eqn:Hex; [|destruct fdwrite eqn:Hwr].
  - eexists _, _, (close_calls (fd sb)).
    split; [eapply _socket_poll_state_connecting_error; eassumption|].
    split; [reflexivity|].
    split; [|intros H; discriminate H].
    intros _. split; [reflexivity|]. split; [reflexivity|].
    split.
    + eapply record_of_Some; wsimpl; [exact Hm | exact Hown | apply lookup_insert_eq].
    + wsimpl. apply list_lookup_insert_eq. exact Hlt.
  - eexists _, _, [].
    split; [eapply _socket_poll_state_connecting_writable; eassumption|].
    split; [reflexivity|].
    split; [intros H; discriminate H|].
    intros _ _. split; [reflexivity|]. split; [reflexivity|].
    split; [reflexivity|].
    wsimpl. apply list_lookup_insert_eq. exact Hlt.
  - eexists _, _, [].
    split; [eapply _socket_poll_state_connecting_pending; eassumption|].
    split; [reflexivity|].
    split; intros H; [discriminate H|]. intros H'. discriminate H'.
Qed.

(** C8 (amended).  _socket_initialize gives the registry room for
    max_sockets + 256 ids when max_sockets > 256 and for max_sockets + 8
    otherwise (the sum taken as an unsigned int), allocates exactly
    max_sockets zeroed slots, and zeroes the slot cursor. *)
Theorem _socket_initialize_sizes (max_sockets : Z) w :
  0 <= max_sockets < 2 ^ 32 ->
  exists w' registry,
    _socket_initialize max_sockets w = Done 0 w' /\
    _socket_map w' = Some registry /\
    om_size registry = u32 (max_sockets + (if 256 <? max_sockets then 256 else 8)) /\
    (max_sockets + 256 < 2 ^ 32 ->
     om_size registry = max_sockets + (if 256 <? max_sockets then 256 else 8)) /\
    om_entries registry = ∅ /\
    Z.of_nat (length (_socket_base w')) = max_sockets /\
    (forall i slot, _socket_base w' !! i = Some slot -> slot = zero_base) /\
    _socket_base_next w' = 0.
Proof.
  intros H. eexists _, _. split; [reflexivity|]. wsimpl.
  split; [reflexivity|]. cbn [om_size om_entries objectmap_allocate].
  split; [reflexivity|].
  split. { intros Hs. unfold u32. apply Z.mod_small. destruct (256 <? max_sockets); lia. }
  split; [reflexivity|].
  split. { rewrite repeat_length. lia. }
  split; [|reflexivity].
  intros i slot Hl. apply list_elem_of_lookup_2 in Hl.
  apply list_elem_of_In in Hl. eapply repeat_spec. exact Hl.
Qed.
End PollSummary.

(** ** End of stream *)

Section Eos.
Context {cfg : Config} {krn : Kernel}.

Lemma ring_buffered r :
  ring_ok r -> BUILD_SIZE_SOCKET_READBUFFER <= 2 ^ 32 ->
  buffered_in r
  = (offset_write_in r - offset_read_in r) mod BUILD_SIZE_SOCKET_READBUFFER /\
  0 <= buffered_in r < BUILD_SIZE_SOCKET_READBUFFER.
Proof.
  intros [[Hr1 Hr2] [Hw1 Hw2]] HN. unfold buffered_in, u32.
  destruct (offset_read_in r <=? offset_write_in r) eqn:C.
  - apply Z.leb_le in C.
    rewrite (Z.mod_small (offset_write_in r - offset_read_in r) (2 ^ 32)) by lia.
    rewrite (Z.mod_small _ BUILD_SIZE_SOCKET_READBUFFER) by lia. lia.
  - apply Z.leb_gt in C.
    rewrite (Z.mod_small (BUILD_SIZE_SOCKET_READBUFFER - offset_read_in r)) by lia.
    rewrite (Z.mod_small _ (2 ^ 32)) by lia.
    replace (offset_write_in r - offset_read_in r)
      with (BUILD_SIZE_SOCKET_READBUFFER - offset_read_in r + offset_write_in r
            + (-1) * BUILD_SIZE_SOCKET_READBUFFER) by lia.
    rewrite Z.mod_add by lia.
    rewrite (Z.mod_small _ BUILD_SIZE_SOCKET_READBUFFER) by lia. lia.
Qed.

Lemma buffered_in_with_ref v r : buffered_in (sock_with_ref v r) = buffered_in r.
Proof. reflexivity. Qed.

Lemma buffered_in_closed r : buffered_in (closed_record r) = buffered_in r.
Proof. unfold closed_record. destruct (0 <=? base r); reflexivity. Qed.

Lemma available_sum_zero (buffered pending : Z) :
  0 <= buffered < 2 ^ 31 -> pending < 2 ^ 31 ->
  (u32 (buffered + (if 0 <? pending then pending else 0)) =? 0) = true
  <-> buffered = 0 /\ pending <= 0.
Proof.
  intros Hb Hp. unfold u32. rewrite Z.eqb_eq.
  destruct (0 <? pending) eqn:C.
  - apply Z.ltb_lt in C. rewrite Z.mod_small by lia. lia.
  - apply Z.ltb_ge in C. rewrite Z.mod_small by lia. lia.
Qed.

Lemma probe_value_bound fd_ n :
  (forall k, snd (k_fionread k) < 2 ^ 31) -> probe_value fd_ n < 2 ^ 31.
Proof.
  intros H. unfold probe_value. specialize (H n).
  destruct (fd_ =? SOCKET_INVALID); [lia|].
  cbv zeta. destruct ((snd (k_fionread n) =? 0) && (fst (k_fionread n) <? 0)); lia.
Qed.

Lemma probe_value_invalid n : probe_value SOCKET_INVALID n = -1.
Proof. unfold probe_value. rewrite Z.eqb_refl. reflexivity. Qed.

Lemma length_probe_calls fd_ (t : list syscall_t) :
  fd_ <> SOCKET_INVALID ->
  (length (probe_calls fd_ ++ t) - 1)%nat = length t.
Proof.
  intros H. unfold probe_calls. apply Z.eqb_neq in H. rewrite H. cbn. lia.
Qed.

Lemma load_stream_done w s ss :
  streams w !! s = Some ss -> load_stream s w = Done ss w.
Proof. intros H. unfold load_stream. rewrite H. reflexivity. Qed.

Lemma assert_done w (c : bool) : c = true -> assert_ c w = Done tt w.
Proof. intros ->. unfold assert_. rewrite andb_false_r. reflexivity. Qed.

(** eos on a stream whose socket id does not resolve. *)
Lemma _socket_eos_unregistered w s ss m :
  streams w !! s = Some ss -> stream_type_socket ss = true ->
  _socket_map w = Some m -> om_entries m !! stream_socket ss = None ->
  _socket_eos s w = Done true w.
Proof.
  intros Hs Hty Hm Hn. unfold _socket_eos.
  erewrite bind_done by (apply load_stream_done; eassumption). cbv beta.
  erewrite bind_done by (apply assert_done; assumption). cbv beta.
  erewrite bind_done by (eapply _socket_lookup_none; eassumption). reflexivity.
Qed.

(** eos on a stream whose record has no slot: true, and the reference
    taken by the lookup is kept. *)
Lemma _socket_eos_noslot w s ss m p r :
  streams w !! s = Some ss -> stream_type_socket ss = true ->
  _socket_map w = Some m -> om_entries m !! stream_socket ss = Some p ->
  heap w !! p = Some r -> base r < 0 ->
  _socket_eos s w
  = Done true (world_with_heap (<[p := sock_with_ref (s32 (ref r + 1)) r]> (heap w)) w).
Proof.
  intros Hs Hty Hm Hn Hp Hb. unfold _socket_eos.
  erewrite bind_done by (apply load_stream_done; eassumption). cbv beta.
  erewrite bind_done by (apply assert_done; assumption). cbv beta.
  run_with _socket_lookup_done.
  erewrite bind_done by (apply load_done; side). cbv beta.
  cbn [base sock_with_ref].
  assert (C : (base r <? 0) = true) by lia. rewrite C. reflexivity.
Qed.


Lemma state_of_slot w id r sb :
  record_of id w = Some r -> 0 <= base r ->
  _socket_base w !! Z.to_nat (base r) = Some sb ->
  state_of id w = state sb /\ fd_of id w = fd sb.
Proof.
  intros Hr Hb Hs. unfold state_of, fd_of.
  rewrite (slot_of_slot _ _ _ Hr Hb), Hs. split; reflexivity.
Qed.

Lemma state_of_noslot w id r :
  record_of id w = Some r -> base r < 0 ->
  state_of id w = SOCKETSTATE_NOTCONNECTED /\ fd_of id w = SOCKET_INVALID.
Proof.
  intros Hr Hb. unfold state_of, fd_of.
  rewrite (slot_of_noslot _ _ _ Hr Hb). split; reflexivity.
Qed.

(** eos on a stream whose record holds a slot. *)
Lemma _socket_eos_slot w s ss m p r sb :
  streams w !! s = Some ss -> stream_type_socket ss = true ->
  _socket_map w = Some m -> om_entries m !! stream_socket ss = Some p ->
  heap w !! p = Some r -> sock_id r = stream_socket ss ->
  0 < ref r < 2 ^ 31 - 2 -> ring_ok r ->
  0 <= base r -> _socket_base w !! Z.to_nat (base r) = Some sb ->
  object sb = stream_socket ss ->
  BUILD_SIZE_SOCKET_READBUFFER <= 2 ^ 31 ->
  (forall n, snd (k_fionread n) < 2 ^ 31) ->
  exists e w',
    _socket_eos s w = Done e w' /\
    (e = true <->
     (state_of (stream_socket ss) w' <> SOCKETSTATE_CONNECTED \/
      fd_of (stream_socket ss) w' = SOCKET_INVALID) /\
     (forall r', record_of (stream_socket ss) w' = Some r' -> buffered_in r' = 0) /\
     probe_value (fd_of (stream_socket ss) w') (length (trace w') - 1) <= 0).
Proof.
  intros Hs Hty Hm Hent Hp Hid Href Hring Hi Hslot Hobj HN Hk.
  set (id := stream_socket ss) in *.
  set (r1 := sock_with_ref (s32 (ref r + 1)) r).
  pose (w1 := world_with_heap (<[p := r1]> (heap w)) w).
  assert (Hr1 : ref r1 = ref r + 1) by (cbn; apply s32_id; lia).
  assert (Hlt : (Z.to_nat (base r) < length (_socket_base w))%nat)
    by (eapply lookup_lt_Some; eassumption).
  destruct (ring_buffered r Hring) as [_ Hbuf]; [lia|].
  destruct (_socket_poll_state_summary w1 sb m p r1) as (st & calls & r' & sb' & E & Hcase).
  { exact Hi. } { exact Hslot. } { exact Hm. } { rewrite Hobj. exact Hent. }
  { apply lookup_insert_eq. } { rewrite <- Hobj in Hid. exact Hid. } { lia. }
  change (base r1) with (base r) in E. subst w1. wsimpl_in E.
  unfold _socket_eos.
  mstep ltac:(apply load_stream_done; eassumption).
  mstep ltac:(apply assert_done; assumption).
  run_with _socket_lookup_done. fold r1.
  mstep ltac:(apply load_done; apply lookup_insert_eq).
  change (base r1) with (base r).
  assert (C : (base r <? 0) = false) by lia. rewrite C.
  erewrite bind_done by exact E. cbv beta.
  mstep ltac:(apply load_base_done; [exact Hi | wsimpl; apply list_lookup_insert_eq; exact Hlt]).
  assert (Hfin : forall rX, sock_id rX = id -> ref rX = ref r + 1 ->
            forall w2, _socket_map w2 = Some m -> heap w2 !! p = Some rX ->
              socket_destroy id w2
              = Done tt (world_with_heap (<[p := sock_with_ref (ref r) rX]> (heap w2)) w2)).
  { intros rX HidX HrX w2 Hm2 Hp2.
    erewrite socket_destroy_done; try eassumption.
    - rewrite HrX. replace (ref r + 1 - 1) with (ref r) by lia.
      rewrite s32_id by lia. reflexivity.
    - rewrite HrX. replace (ref r + 1 - 1) with (ref r) by lia. rewrite s32_id; lia. }
  destruct Hcase as [[-> ->] | (-> & -> & ->)].
  - (* the record is as it was *)
    cbn [fd base_with_state].
    destruct (negb (state_eqb st SOCKETSTATE_CONNECTED) || (fd sb =? SOCKET_INVALID)) eqn:Hcond.
    + (* the buffered and pending bytes are counted *)
      unfold _socket_available_nonblock_read. rewrite ?bind_assoc.
      mstep ltac:(apply load_done; wsimpl; rewrite ?insert_insert_eq; apply lookup_insert_eq). change (base r1) with (base r).
      assert (C' : (0 <=? base r) = true) by lia. rewrite C'. rewrite ?bind_assoc.
      mstep ltac:(apply load_base_done; [exact Hi | wsimpl; apply list_lookup_insert_eq; exact Hlt]). cbn [fd base_with_state].
      erewrite bind_done by apply _socket_available_fd_done. cbv beta.
      mstep ltac:(apply _socket_buffered_in_done; wsimpl; rewrite ?insert_insert_eq; apply lookup_insert_eq).
      do 2 (mstep ltac:(reflexivity)).
      mstep ltac:(apply load_stream_done; side).
      mstep ltac:(apply (Hfin r1); [exact Hid | exact Hr1 | side | wsimpl; rewrite ?insert_insert_eq; apply lookup_insert_eq]).
      fold id. eexists _, _. split; [reflexivity|].
      wsimpl. rewrite !insert_insert_eq.
      set (wf := world_with_heap _ _).
      assert (Hrec : record_of id wf = Some (sock_with_ref (ref r) r1))
        by (eapply record_of_Some; subst wf; wsimpl; [exact Hm | exact Hent | apply lookup_insert_eq]).
      destruct (state_of_slot wf id _ (base_with_state st sb) Hrec) as [Est Efd].
      { exact Hi. } { subst wf. wsimpl. apply list_lookup_insert_eq. exact Hlt. }
      rewrite Est, Efd. cbn [state fd base_with_state].
      change (buffered_in r1) with (buffered_in r).
      rewrite available_sum_zero; [|lia|apply probe_value_bound; exact Hk].
      assert (Hidx : probe_value (fd sb) (length (probe_calls (fd sb) ++ calls ++ trace w) - 1)
                     = probe_value (fd sb) (length (calls ++ trace w))).
      { destruct (Z.eq_dec (fd sb) SOCKET_INVALID) as [Ei|Ei].
        - rewrite Ei, !probe_value_invalid. reflexivity.
        - rewrite length_probe_calls by exact Ei. reflexivity. }
      rewrite Hidx.
      split.
      * intros [Hb Hpv]. split; [|split].
        -- apply orb_true_iff in Hcond. destruct Hcond as [Hc|Hc].
           ++ left. intros ->. discriminate Hc.
           ++ right. apply Z.eqb_eq. exact Hc.
        -- intros r'' Hr''. rewrite Hrec in Hr''. injection Hr'' as <-. exact Hb.
        -- exact Hpv.
      * intros (_ & Hb & Hpv). split; [|exact Hpv].
        apply (Hb _ Hrec).
    + (* connected with a live descriptor: not at the end *)
      erewrite bind_done by reflexivity. cbv beta.
      mstep ltac:(apply load_stream_done; side).
      mstep ltac:(apply (Hfin r1); [exact Hid | exact Hr1 | side | wsimpl; rewrite ?insert_insert_eq; apply lookup_insert_eq]).
      fold id. eexists _, _. split; [reflexivity|].
      set (wf := world_with_heap _ _).
      assert (Hrec : record_of id wf = Some (sock_with_ref (ref r) r1)).
      { eapply record_of_Some; subst wf; wsimpl; [exact Hm | exact Hent |].
        apply lookup_insert_eq. }
      destruct (state_of_slot wf id _ (base_with_state st sb) Hrec) as [Est Efd].
      { exact Hi. } { subst wf. wsimpl. apply list_lookup_insert_eq. exact Hlt. }
      rewrite Est, Efd. cbn [state fd base_with_state].
      apply orb_false_iff in Hcond. destruct Hcond as [Hc1 Hc2].
      apply negb_false_iff in Hc1. apply Z.eqb_neq in Hc2.
      unfold state_eqb in Hc1. apply bool_decide_eq_true in Hc1.
      split; [intros H; discriminate H|].
      intros ([H|H] & _); [contradiction | contradiction].
  - (* the poll has closed the socket *)
    change (negb (state_eqb SOCKETSTATE_NOTCONNECTED SOCKETSTATE_CONNECTED)) with true.
    cbn [orb].
    assert (Hbc : base (closed_record r1) < 0) by apply closed_record_base_neg.
    unfold _socket_available_nonblock_read. rewrite ?bind_assoc.
    mstep ltac:(apply load_done; wsimpl; rewrite ?insert_insert_eq; apply lookup_insert_eq).
    assert (C' : (0 <=? base (closed_record r1)) = false) by lia. rewrite C'.
    mstep ltac:(reflexivity).
    mstep ltac:(apply _socket_buffered_in_done; wsimpl; rewrite ?insert_insert_eq; apply lookup_insert_eq).
    do 2 (mstep ltac:(reflexivity)).
    mstep ltac:(apply load_stream_done; side).
    erewrite bind_done.
    2:{ apply (Hfin (closed_record r1)).
        - unfold closed_record. destruct (0 <=? base r1); exact Hid.
        - unfold closed_record. destruct (0 <=? base r1); exact Hr1.
        - side.
        - wsimpl. rewrite ?insert_insert_eq. apply lookup_insert_eq. }
    cbv beta. eexists _, _. split; [reflexivity|].
    set (wf := world_with_heap _ _).
    assert (Hrec : record_of id wf = Some (sock_with_ref (ref r) (closed_record r1))).
    { eapply record_of_Some; subst wf; wsimpl; [exact Hm | exact Hent |].
      apply lookup_insert_eq. }
    destruct (state_of_noslot wf id _ Hrec) as [Est Efd]; [exact Hbc|].
    rewrite Est, Efd, probe_value_invalid.
    rewrite buffered_in_closed. change (buffered_in r1) with (buffered_in r).
    cbn [Z.ltb Z.compare]. rewrite Z.add_0_r.
    unfold u32. rewrite Z.mod_small by lia.
    split.
    + intros Hb. apply Z.eqb_eq in Hb. split; [left; discriminate|]. split; [|lia].
      intros r'' Hr''. rewrite Hrec in Hr''. injection Hr'' as <-.
      rewrite buffered_in_with_ref, buffered_in_closed. exact Hb.
    + intros (_ & Hb & _). apply Z.eqb_eq.
      specialize (Hb _ Hrec).
      rewrite buffered_in_with_ref, buffered_in_closed in Hb. exact Hb.
Qed.


(** C4 (amended).  eos() is true iff the socket has no slot when it is
    called (the id does not resolve, or the record has none) or, after the
    poll, (the state is not CONNECTED or the descriptor is invalid) and the
    in-ring is empty and the kernel reports no pending byte on the
    descriptor. *)
Theorem _socket_eos_true_iff w s ss m :
  streams w !! s = Some ss -> stream_type_socket ss = true ->
  _socket_map w = Some m ->
  BUILD_SIZE_SOCKET_READBUFFER <= 2 ^ 31 ->
  (forall n, snd (k_fionread n) < 2 ^ 31) ->
  (forall p, om_entries m !! stream_socket ss = Some p ->
     exists r, heap w !! p = Some r /\ sock_id r = stream_socket ss /\
       0 < ref r < 2 ^ 31 - 2 /\ ring_ok r /\
       (0 <= base r ->
        exists sb, _socket_base w !! Z.to_nat (base r) = Some sb /\
                   object sb = stream_socket ss)) ->
  exists e w',
    _socket_eos s w = Done e w' /\
    (e = true <->
     slot_of (stream_socket ss) w = None \/
     ((state_of (stream_socket ss) w' <> SOCKETSTATE_CONNECTED \/
       fd_of (stream_socket ss) w' = SOCKET_INVALID) /\
      (forall r', record_of (stream_socket ss) w' = Some r' -> buffered_in r' = 0) /\
      probe_value (fd_of (stream_socket ss) w') (length (trace w') - 1) <= 0)).
Proof.
  intros Hs Hty Hm HN Hk Hwf.
  destruct (om_entries m !! stream_socket ss) as [p|] eqn:Hent.
  - destruct (Hwf p eq_refl) as (r & Hp & Hid & Href & Hring & Hslot).
    pose proof (record_of_Some _ _ _ _ _ Hm Hent Hp) as Hrec.
    destruct (Z_lt_le_dec (base r) 0) as [Hneg|Hpos].
    + eexists _, _. split; [eapply _socket_eos_noslot; eassumption|].
      split; [|reflexivity]. intros _. left. eapply slot_of_noslot; eassumption.
    + destruct (Hslot Hpos) as (sb & Hsb & Hobj).
      destruct (_socket_eos_slot w s ss m p r sb) as (e & w' & E & Hiff); try assumption.
      exists e, w'. split; [exact E|].
      rewrite Hiff. split; [intros H; right; exact H|].
      intros [H|H]; [|exact H].
      rewrite (slot_of_slot _ _ _ Hrec Hpos), Hsb in H. discriminate H.
  - exists true, w. split; [eapply _socket_eos_unregistered; eassumption|].
    split; [|reflexivity]. intros _. left.
    unfold slot_of, record_of. rewrite Hm. cbn [mbind option_bind]. rewrite Hent. reflexivity.
Qed.

End Eos.

(** ** Triples *)

Section TripleRules.

Lemma triple_ret {A} (P : world -> Prop) (a : A) (Q : A -> world -> Prop) :
  (forall w, P w -> Q a w) -> triple P (ret a) Q.
Proof. intros H w a' w' HP E. injection E as <- <-. auto. Qed.

Lemma triple_bind {A B} (P : world -> Prop) (m : M A) (k : A -> M B)
    (Q : A -> world -> Prop) (R : B -> world -> Prop) :
  triple P m Q -> (forall a, triple (Q a) (k a) R) -> triple P (bind m k) R.
Proof.
  intros Hm Hk w b w' HP E. unfold bind in E.
  destruct (m w) as [a w1| |] eqn:E1; try discriminate E.
  eapply Hk; [eapply Hm; eassumption | exact E].
Qed.

Lemma triple_post {A} (P : world -> Prop) (m : M A) (Q Q' : A -> world -> Prop) :
  triple P m Q -> (forall a w, Q a w -> Q' a w) -> triple P m Q'.
Proof. intros H HQ w a w' HP E. eauto. Qed.

Lemma triple_pre {A} (P P' : world -> Prop) (m : M A) (Q : A -> world -> Prop) :
  triple P' m Q -> (forall w, P w -> P' w) -> triple P m Q.
Proof. intros H HP w a w' Hw E. eauto. Qed.

Lemma triple_pure {A} (I : world -> Prop) (phi : Prop) (m : M A) (Q : A -> world -> Prop) :
  (phi -> triple I m Q) -> triple (fun w => I w /\ phi) m Q.
Proof. intros H w a w' [HI Hphi] E. eapply H; eauto. Qed.

Lemma triple_fail {A} (P : world -> Prop) f (Q : A -> world -> Prop) :
  triple P (fail f) Q.
Proof. intros w a w' _ E. discriminate E. Qed.

Lemma triple_out_of_fuel {A} (P : world -> Prop) (Q : A -> world -> Prop) :
  triple P out_of_fuel Q.
Proof. intros w a w' _ E. discriminate E. Qed.

End TripleRules.



Lemma keeps_yields {A} (I : world -> Prop) (m : M A) :
  keeps I m -> yields I (fun _ => True) m.
Proof. intros H w a w' HI E. split; [eapply H; eauto | exact Logic.I]. Qed.

Lemma yields_keeps {A} (I : world -> Prop) phi (m : M A) :
  yields I phi m -> keeps I m.
Proof. intros H w a w' HI E. eapply H; eauto. Qed.

Lemma keeps_bind {A B} (I : world -> Prop) phi (m : M A) (k : A -> M B) :
  yields I phi m -> (forall a, phi a -> keeps I (k a)) -> keeps I (bind m k).
Proof.
  intros Hm Hk. eapply triple_bind; [exact Hm|].
  intros a. apply triple_pure. intros Hphi. apply Hk. exact Hphi.
Qed.

Lemma yields_bind {A B} (I : world -> Prop) phi psi (m : M A) (k : A -> M B) :
  yields I phi m -> (forall a, phi a -> yields I psi (k a)) -> yields I psi (bind m k).
Proof.
  intros Hm Hk. eapply triple_bind; [exact Hm|].
  intros a. apply triple_pure. intros Hphi. apply Hk. exact Hphi.
Qed.

Lemma keeps_ret {A} (I : world -> Prop) (a : A) : keeps I (ret a).
Proof. apply triple_ret. auto. Qed.

Lemma keeps_fail {A} (I : world -> Prop) f : keeps I (@fail A f).
Proof. apply triple_fail. Qed.

Lemma keeps_out_of_fuel {A} (I : world -> Prop) : keeps I (@out_of_fuel A).
Proof. apply triple_out_of_fuel. Qed.

Lemma keeps_when (I : world -> Prop) (c : bool) (m : M unit) :
  keeps I m -> keeps I (when c m).
Proof. intros H. destruct c; [exact H | apply keeps_ret]. Qed.


Lemma keeps_heap_untouched {A} (I : world -> Prop) (m : M A) :
  heap_only I ->
  (forall w a w', m w = Done a w' -> heap w' = heap w) ->
  keeps I m.
Proof. intros HI H w a w' Hw E. eapply HI; [eapply H; exact E | exact Hw]. Qed.

(** ** The in-ring *)


Create HintDb keeps.

#[export] Hint Extern 1 (ring_ok _) =>
  solve [unfold ring_ok in *;
         cbn [offset_read_in offset_write_in sock_with_ref sock_with_base sock_with_family
              sock_with_address_local sock_with_address_remote sock_with_in sock_with_out
              sock_with_counters sock_with_stream sock_with_tcp_hooks] in *;
         first [assumption | lia]] : keeps.
#[export] Hint Extern 1 (forall r, ring_ok r -> ring_ok _) =>
  let r := fresh "r" in let H := fresh "H" in
  intros r H;
  solve [unfold ring_ok in *;
         cbn [offset_read_in offset_write_in sock_with_ref sock_with_base sock_with_family
              sock_with_address_local sock_with_address_remote sock_with_in sock_with_out
              sock_with_counters sock_with_stream sock_with_tcp_hooks] in *;
         first [assumption | lia]] : keeps.
#[export] Hint Extern 1 (forall w, heap _ = heap w) => intros; reflexivity : keeps.

Ltac kstep :=
  cbv zeta;
  lazymatch goal with
  | |- keeps _ (bind _ _) =>
      eapply keeps_bind;
      [ first [ solve [eauto with keeps]
              | apply keeps_yields; solve [ksteps] ]
      | intros ? ? ]
  | |- keeps _ (ret _) => apply keeps_ret
  | |- keeps _ (fail _) => apply keeps_fail
  | |- keeps _ out_of_fuel => apply keeps_out_of_fuel
  | |- keeps _ (when _ _) => apply keeps_when
  | |- keeps _ (if ?c then _ else _) => destruct c eqn:?
  | |- keeps _ (match ?o with _ => _ end) => destruct o eqn:?
  | |- keeps _ _ => solve [eauto with keeps]
  end
with ksteps := repeat kstep.


(** A record update that leaves the cursors alone. *)
Ltac ring_tac :=
  unfold ring_ok in *;
  cbn [offset_read_in offset_write_in sock_with_ref sock_with_base sock_with_family
       sock_with_address_local sock_with_address_remote sock_with_in sock_with_out
       sock_with_counters sock_with_stream sock_with_tcp_hooks] in *;
  try assumption; try lia.

Section Rings.
Context {cfg : Config} {krn : Kernel}.

Lemma rings_heap_only : heap_only rings_ok.
Proof. intros w w' E H p r Hp. rewrite E in Hp. eapply H; exact Hp. Qed.

Lemma rings_load p : yields rings_ok ring_ok (load p).
Proof.
  intros w r w' H E. unfold load in E.
  destruct (heap w !! p) eqn:Hp; [|discriminate E].
  simplify_eq. split; [exact H | eapply H; exact Hp].
Qed.

Lemma rings_store p r : ring_ok r -> keeps rings_ok (store p r).
Proof.
  intros Hr w a w' H E. unfold store in E.
  destruct (heap w !! p) eqn:Hp; [|discriminate E].
  simplify_eq. intros q r' Hq. wsimpl_in Hq.
  destruct (decide (p = q)) as [->|Hne].
  - rewrite lookup_insert_eq in Hq. injection Hq as <-. exact Hr.
  - rewrite lookup_insert_ne in Hq by exact Hne. eapply H; exact Hq.
Qed.

Lemma rings_update p f :
  (forall r, ring_ok r -> ring_ok (f r)) -> keeps rings_ok (update p f).
Proof.
  intros Hf. unfold update. eapply keeps_bind; [apply rings_load|].
  intros r Hr. apply rings_store. auto.
Qed.

Ltac untouched :=
  apply keeps_heap_untouched;
  [ apply rings_heap_only
  | let E := fresh "E" in
    intros ? ? ? E;
    repeat (match type of E with
            | context [match ?x with _ => _ end] => destruct x eqn:?
            | context [if ?x then _ else _] => destruct x eqn:?
            end);
    try discriminate E; simplify_eq; reflexivity ].

Lemma rings_load_base i : keeps rings_ok (load_base i).
Proof. unfold load_base. untouched. Qed.

Lemma rings_store_base i b : keeps rings_ok (store_base i b).
Proof. unfold store_base. untouched. Qed.

Lemma rings_load_stream s : keeps rings_ok (load_stream s).
Proof. unfold load_stream. untouched. Qed.

Lemma rings_store_stream s v : keeps rings_ok (store_stream s v).
Proof. unfold store_stream. untouched. Qed.

Lemma rings_syscall {A} c (answer : nat -> A) : keeps rings_ok (syscall c answer).
Proof. unfold syscall. untouched. Qed.

Lemma rings_assert c : keeps rings_ok (assert_ c).
Proof. unfold assert_, fail, ret. untouched. Qed.

Lemma rings_gets {A} (f : world -> A) : keeps rings_ok (gets f).
Proof. unfold gets. untouched. Qed.

Lemma rings_the_map : keeps rings_ok the_map.
Proof. unfold the_map. untouched. Qed.

Lemma rings_modify f :
  (forall w, heap (f w) = heap w) -> keeps rings_ok (modify f).
Proof.
  intros Hf. apply keeps_heap_untouched; [apply rings_heap_only|].
  intros w a w' E. unfold modify in E. simplify_eq. apply Hf.
Qed.

Lemma rings_memory_deallocate p : keeps rings_ok (memory_deallocate p).
Proof.
  intros w a w' H E. unfold memory_deallocate, modify in E. simplify_eq.
  intros q r Hq. wsimpl_in Hq.
  apply lookup_delete_Some in Hq. destruct Hq as [_ Hq]. eapply H; exact Hq.
Qed.


#[local] Hint Resolve rings_load rings_store rings_update rings_load_base rings_store_base
  rings_load_stream rings_store_stream rings_syscall rings_assert rings_gets
  rings_the_map rings_memory_deallocate rings_modify : keeps.

Lemma rings_update_base i f : keeps rings_ok (update_base i f).
Proof. unfold update_base. ksteps. Qed.

Lemma rings_objectmap_lookup id : keeps rings_ok (objectmap_lookup id).
Proof. unfold objectmap_lookup. ksteps. Qed.

Lemma rings_objectmap_free id : keeps rings_ok (objectmap_free id).
Proof. unfold objectmap_free. ksteps. Qed.

Lemma rings_atomic_incr32 p : keeps rings_ok (atomic_incr32 p).
Proof. unfold atomic_incr32. ksteps. Qed.

Lemma rings_atomic_decr32 p : keeps rings_ok (atomic_decr32 p).
Proof. unfold atomic_decr32. ksteps. Qed.

Lemma rings_network_event_post k id : keeps rings_ok (network_event_post k id).
Proof. unfold network_event_post. ksteps. Qed.

Lemma rings_memory_deallocate_stream s : keeps rings_ok (memory_deallocate_stream s).
Proof. unfold memory_deallocate_stream. ksteps. Qed.

#[local] Hint Resolve rings_update_base rings_objectmap_lookup rings_objectmap_free
  rings_atomic_incr32 rings_atomic_decr32 rings_network_event_post
  rings_memory_deallocate_stream : keeps.

Lemma rings__socket_set_blocking_fd fd_ b : keeps rings_ok (_socket_set_blocking_fd fd_ b).
Proof. unfold _socket_set_blocking_fd. ksteps. Qed.

Lemma rings__socket_close_fd fd_ : keeps rings_ok (_socket_close_fd fd_).
Proof. unfold _socket_close_fd. ksteps. Qed.

Lemma rings__socket_available_fd fd_ : keeps rings_ok (_socket_available_fd fd_).
Proof. unfold _socket_available_fd. ksteps. Qed.

#[local] Hint Resolve rings__socket_set_blocking_fd rings__socket_close_fd
  rings__socket_available_fd : keeps.

Lemma rings__socket_close p : keeps rings_ok (_socket_close p).
Proof. unfold _socket_close. ksteps. Qed.

Lemma rings__socket_lookup id : keeps rings_ok (_socket_lookup id).
Proof. unfold _socket_lookup. ksteps. Qed.

#[local] Hint Resolve rings__socket_close rings__socket_lookup : keeps.

Section RingsLifetime.
Variable finalize : ptr -> M unit.
Hypothesis rings_finalize : forall s, keeps rings_ok (finalize s).
#[local] Hint Resolve rings_finalize : keeps.

Lemma rings_stream_deallocate_gen s : keeps rings_ok (stream_deallocate_gen finalize s).
Proof. unfold stream_deallocate_gen. ksteps. Qed.
#[local] Hint Resolve rings_stream_deallocate_gen : keeps.

Lemma rings__socket_deallocate_gen p : keeps rings_ok (_socket_deallocate_gen finalize p).
Proof. unfold _socket_deallocate_gen. ksteps. Qed.
#[local] Hint Resolve rings__socket_deallocate_gen : keeps.

Lemma rings_socket_destroy_gen id : keeps rings_ok (socket_destroy_gen finalize id).
Proof. unfold socket_destroy_gen. ksteps. Qed.
#[local] Hint Resolve rings_socket_destroy_gen : keeps.

Lemma rings__socket_stream_finalize_gen s :
  keeps rings_ok (_socket_stream_finalize_gen finalize s).
Proof. unfold _socket_stream_finalize_gen. ksteps. Qed.
End RingsLifetime.

Lemma rings__socket_stream_finalize_nested s :
  keeps rings_ok (_socket_stream_finalize_nested s).
Proof.
  apply rings__socket_stream_finalize_gen. intros. apply keeps_out_of_fuel.
Qed.

Lemma rings_socket_destroy id : keeps rings_ok (socket_destroy id).
Proof. apply rings_socket_destroy_gen. apply rings__socket_stream_finalize_nested. Qed.

#[local] Hint Resolve rings_socket_destroy : keeps.

Lemma rings__socket_buffered_in sock : keeps rings_ok (_socket_buffered_in sock).
Proof. unfold _socket_buffered_in. ksteps. Qed.
#[local] Hint Resolve rings__socket_buffered_in : keeps.

Lemma rings__socket_poll_state_exit i sock : keeps rings_ok (_socket_poll_state_exit i sock).
Proof. unfold _socket_poll_state_exit. ksteps. Qed.
#[local] Hint Resolve rings__socket_poll_state_exit : keeps.

Lemma rings__socket_poll_state_disconnected i sock :
  keeps rings_ok (_socket_poll_state_disconnected i sock).
Proof. unfold _socket_poll_state_disconnected. ksteps. Qed.
#[local] Hint Resolve rings__socket_poll_state_disconnected : keeps.

Lemma rings__socket_poll_state i : keeps rings_ok (_socket_poll_state i).
Proof. unfold _socket_poll_state. ksteps. Qed.
#[local] Hint Resolve rings__socket_poll_state : keeps.

Lemma rings_close_and_post_hangup p i : keeps rings_ok (close_and_post_hangup p i).
Proof. unfold close_and_post_hangup. ksteps. Qed.
#[local] Hint Resolve rings_close_and_post_hangup : keeps.


(** *** The cursors *)

Lemma u32_range x : 0 <= u32 x < 2 ^ 32.
Proof. unfold u32. apply Z.mod_pos_bound. lia. Qed.

Lemma u32_le x : 0 <= x -> u32 x <= x.
Proof. intros H. unfold u32. apply Z.mod_le; lia. Qed.

(** The write cursor after a recv, whatever the kernel returned. *)
Lemma rings_advance_offset_write_in p ret_ data :
  keeps rings_ok (advance_offset_write_in p ret_ data).
Proof.
  intros w a w' H E. unfold advance_offset_write_in in E.
  unfold bind, load in E. destruct (heap w !! p) as [r|] eqn:Hp; [|discriminate E].
  pose proof (H _ _ Hp) as [Hrd Hwr].
  unfold store in E. rewrite Hp in E. cbv zeta in E.
  set (wr := u32 (offset_write_in r + ret_)) in *.
  set (r1 := sock_with_in _ (offset_read_in r) wr r) in *.
  destruct (assert_ (wr <=? BUILD_SIZE_SOCKET_READBUFFER) _) as [[] w1| |] eqn:Ea;
    [|discriminate E|discriminate E].
  unfold assert_, fail, ret in Ea.
  destruct (BUILD_ENABLE_ASSERT && negb (wr <=? BUILD_SIZE_SOCKET_READBUFFER));
    [discriminate Ea|]. injection Ea as <-.
  pose proof (u32_range (offset_write_in r + ret_)) as Hu. fold wr in Hu.
  unfold when in E.
  destruct (BUILD_SIZE_SOCKET_READBUFFER <=? wr) eqn:C.
  - unfold update, bind, load, store in E. wsimpl_in E.
    rewrite lookup_insert_eq in E. wsimpl_in E. rewrite lookup_insert_eq in E.
    injection E as _ <-. intros q r' Hq. wsimpl_in Hq.
    rewrite insert_insert_eq in Hq.
    destruct (decide (p = q)) as [->|Hne].
    + rewrite lookup_insert_eq in Hq. injection Hq as <-.
      split; cbn [offset_read_in offset_write_in sock_with_in r1]; lia.
    + rewrite lookup_insert_ne in Hq by exact Hne. eapply H; exact Hq.
  - injection E as _ <-. intros q r' Hq. wsimpl_in Hq.
    destruct (decide (p = q)) as [->|Hne].
    + rewrite lookup_insert_eq in Hq. injection Hq as <-.
      split; cbn [offset_read_in offset_write_in sock_with_in r1]; lia.
    + rewrite lookup_insert_ne in Hq by exact Hne. eapply H; exact Hq.
Qed.
#[local] Hint Resolve rings_advance_offset_write_in : keeps.

Lemma drain_size_bound r want :
  ring_ok r -> 0 < drain_size r want ->
  offset_read_in r + drain_size r want
  <= (if offset_read_in r <=? offset_write_in r
      then offset_write_in r else BUILD_SIZE_SOCKET_READBUFFER).
Proof.
  intros [Hrd Hwr] Hpos. unfold drain_size in *. cbv zeta in *.
  destruct (offset_read_in r <=? offset_write_in r) eqn:C.
  - apply Z.leb_le in C.
    pose proof (u32_le (offset_write_in r - offset_read_in r)).
    destruct (want <? u32 (offset_write_in r - offset_read_in r)) eqn:D; lia.
  - apply Z.leb_gt in C.
    pose proof (u32_le (BUILD_SIZE_SOCKET_READBUFFER - offset_read_in r)).
    destruct (want <? u32 (BUILD_SIZE_SOCKET_READBUFFER - offset_read_in r)) eqn:D; lia.
Qed.

(** The read cursor after one round of the drain. *)
Lemma drain_cursor_ok r want :
  ring_ok r -> 0 < drain_size r want ->
  ring_ok (sock_with_in (buffer_in r) (drain_cursor r (drain_size r want))
             (offset_write_in r) r).
Proof.
  intros Hr Hpos. pose proof (drain_size_bound r want Hr Hpos) as Hb.
  destruct Hr as [Hrd Hwr].
  split; cbn [offset_read_in offset_write_in sock_with_in]; [|exact Hwr].
  unfold drain_cursor. cbv zeta.
  pose proof (u32_range (offset_read_in r + drain_size r want)) as Hu.
  pose proof (u32_le (offset_read_in r + drain_size r want)) as Hl.
  destruct (u32 (offset_read_in r + drain_size r want) =? BUILD_SIZE_SOCKET_READBUFFER) eqn:C.
  - lia.
  - apply Z.eqb_neq in C.
    destruct (offset_read_in r <=? offset_write_in r); lia.
Qed.

Lemma rings__socket_read_drain fuel p size was_read buffer try_again :
  keeps rings_ok (_socket_read_drain fuel p size was_read buffer try_again).
Proof.
  revert was_read buffer try_again.
  induction fuel as [|fuel IH]; intros was_read buffer try_again;
    cbn [_socket_read_drain]; [apply keeps_out_of_fuel|].
  eapply keeps_bind; [apply rings_load|]. intros r Hr. cbv zeta.
  destruct (0 <? drain_size r (u32 (u64 (size - was_read)))) eqn:C; [|apply keeps_ret].
  eapply keeps_bind; [apply keeps_yields, rings_store, drain_cursor_ok; [exact Hr|lia]|].
  intros _ _. apply IH.
Qed.
#[local] Hint Resolve rings__socket_read_drain : keeps.

Lemma rings__tcp_socket_buffer_read fuel p wanted :
  keeps rings_ok (_tcp_socket_buffer_read fuel p wanted).
Proof.
  revert wanted. induction fuel as [|fuel IH]; intros wanted;
    cbn [_tcp_socket_buffer_read]; [apply keeps_out_of_fuel|].
  ksteps.
Qed.
#[local] Hint Resolve rings__tcp_socket_buffer_read : keeps.

Lemma rings_call_read_fn fuel p wanted : keeps rings_ok (call_read_fn fuel p wanted).
Proof. unfold call_read_fn. ksteps. Qed.
#[local] Hint Resolve rings_call_read_fn : keeps.

Lemma rings__socket_read_loop fuel p size blocking polled was_read buffer loop_counter :
  keeps rings_ok (_socket_read_loop fuel p size blocking polled was_read buffer loop_counter).
Proof.
  revert was_read buffer loop_counter.
  induction fuel as [|fuel IH]; intros was_read buffer loop_counter;
    [apply keeps_out_of_fuel|].
  cbn [_socket_read_loop]. ksteps.
Qed.
#[local] Hint Resolve rings__socket_read_loop : keeps.

Lemma rings__socket_read fuel s buffer size : keeps rings_ok (_socket_read fuel s buffer size).
Proof. unfold _socket_read. ksteps. Qed.

Lemma rings__socket_buffer_read fuel s : keeps rings_ok (_socket_buffer_read fuel s).
Proof. unfold _socket_buffer_read. ksteps. Qed.

#[local] Hint Resolve rings__socket_read rings__socket_buffer_read : keeps.

Lemma rings_run_read fuel op : keeps rings_ok (run_read fuel op).
Proof. destruct op; cbn [run_read]; ksteps. Qed.

Lemma rings_run_reads fuel ops : keeps rings_ok (run_reads fuel ops).
Proof.
  induction ops as [|op ops IH]; cbn [run_reads]; [apply keeps_ret|].
  eapply keeps_bind; [apply keeps_yields, rings_run_read|]. intros _ _. exact IH.
Qed.

End Rings.
Section RingInvariant.
Context {cfg : Config} {krn : Kernel}.

(** C5.  Whatever the kernel answers, after any sequence of buffered reads
    (the transport's, and the stream's buffer_read) and stream reads that
    starts with every record's cursors inside the buffer, both cursors of
    every record are in [0, |buffer_in|), the buffered count that
    _socket_buffered_in computes is (offset_write_in - offset_read_in) mod
    |buffer_in|, and it is strictly less than |buffer_in|. *)
Theorem in_ring_invariant fuel ops w w' :
  BUILD_SIZE_SOCKET_READBUFFER <= 2 ^ 32 ->
  rings_ok w ->
  run_reads fuel ops w = Done tt w' ->
  forall p r, heap w' !! p = Some r ->
    0 <= offset_read_in r < BUILD_SIZE_SOCKET_READBUFFER /\
    0 <= offset_write_in r < BUILD_SIZE_SOCKET_READBUFFER /\
    buffered_in r
    = (offset_write_in r - offset_read_in r) mod BUILD_SIZE_SOCKET_READBUFFER /\
    buffered_in r < BUILD_SIZE_SOCKET_READBUFFER.
Proof.
  intros HN Hw E p r Hp.
  assert (Hr : ring_ok r) by (eapply (rings_run_reads fuel ops w tt w' Hw E); exact Hp).
  destruct (ring_buffered r Hr HN) as [Hb Hlt].
  destruct Hr as [Hrd Hwr]. split; [exact Hrd|]. split; [exact Hwr|]. split; [exact Hb|lia].
Qed.

End RingInvariant.

(** ** Connecting *)

Section CreateFd.
Context {cfg : Config} {krn : Kernel}.
Variables (m : objectmap_t) (p : ptr) (r0 : socket_t).

#[local] Abbreviation J := (unconnected m p r0).

Lemma same_identity_refl r : same_identity r r.
Proof. repeat split. Qed.

Lemma unconnected_load slot :
  yields (J slot)
    (fun r => same_identity r0 r /\
              match slot with Some b => base r = b /\ 0 <= b | None => True end)
    (load p).
Proof.
  intros w r w' (Hm & r' & Hp & Hid & Hb & Hs) E.
  unfold load in E. rewrite Hp in E. simplify_eq.
  split; [|auto]. split; [exact Hm|]. exists r. auto.
Qed.

Lemma unconnected_untouched {A} slot (c : M A) :
  (forall w a w', c w = Done a w' ->
     _socket_map w' = _socket_map w /\ heap w' = heap w /\ _socket_base w' = _socket_base w) ->
  keeps (J slot) c.
Proof.
  intros H w a w' (Hm & r' & Hp & Hid & Hb & Hs) E.
  destruct (H _ _ _ E) as (E1 & E2 & E3).
  split; [rewrite E1; exact Hm|]. exists r'. rewrite E2, E3. auto.
Qed.

Ltac untouched3 :=
  apply unconnected_untouched;
  let E := fresh "E" in
  intros ? ? ? E;
  repeat (match type of E with
          | context [match ?x with _ => _ end] => destruct x eqn:?
          | context [if ?x then _ else _] => destruct x eqn:?
          end);
  try discriminate E; simplify_eq; auto.

Lemma unconnected_load_base slot i : keeps (J slot) (load_base i).
Proof. unfold load_base. untouched3. Qed.

Lemma unconnected_syscall {A} slot c (answer : nat -> A) : keeps (J slot) (syscall c answer).
Proof. unfold syscall. untouched3. Qed.

Lemma unconnected_assert slot c : keeps (J slot) (assert_ c).
Proof. unfold assert_, fail, ret. untouched3. Qed.

Lemma unconnected_gets {A} slot (f : world -> A) : keeps (J slot) (gets f).
Proof. unfold gets. untouched3. Qed.

Lemma unconnected_cursor slot n : keeps (J slot) (atomic_exchange_and_add32_base_next n).
Proof. unfold atomic_exchange_and_add32_base_next. untouched3. Qed.

(** A store that keeps the identity and the slot number of the record. *)
Lemma unconnected_store b r :
  same_identity r0 r -> base r = b ->
  keeps (J (Some b)) (store p r).
Proof.
  intros Hid Hb w a w' (Hm & r' & Hp & Hid' & [Hb' Hpos] & Hs) E.
  subst b. unfold store in E. rewrite Hp in E. simplify_eq.
  split; [exact Hm|]. exists r. wsimpl. rewrite lookup_insert_eq.
  split; [reflexivity|]. split; [exact Hid|]. split; [auto|].
  rewrite <- Hb'. exact Hs.
Qed.

Lemma unconnected_update b f :
  (forall r, same_identity r0 r -> same_identity r0 (f r)) ->
  (forall r, base (f r) = base r) ->
  keeps (J (Some b)) (update p f).
Proof.
  intros Hf Hfb. unfold update. eapply keeps_bind; [apply unconnected_load|].
  intros r [Hid [Hb _]]. apply unconnected_store; [auto | rewrite Hfb; exact Hb].
Qed.

(** A slot update that keeps the state of the slot. *)
Lemma unconnected_update_base slot i f :
  (forall sb, state (f sb) = state sb) ->
  keeps (J slot) (update_base i f).
Proof.
  intros Hf w a w' (Hm & r' & Hp & Hid & Hb & Hs) E.
  unfold update_base, bind, load_base, store_base in E.
  destruct (0 <=? i) eqn:Hi; [|discriminate E].
  destruct (_socket_base w !! Z.to_nat i) as [sb|] eqn:Hsb; [|discriminate E].
  rewrite Hsb in E. simplify_eq.
  split; [exact Hm|]. exists r'. wsimpl.
  split; [exact Hp|]. split; [exact Hid|]. split; [exact Hb|].
  intros sb' Hpos Hl.
  destruct (decide (Z.to_nat i = Z.to_nat (base r'))) as [Heq|Hne].
  - rewrite Heq in Hl. rewrite list_lookup_insert_eq in Hl
      by (rewrite <- Heq; eapply lookup_lt_Some; exact Hsb).
    simplify_eq. rewrite Hf. apply Hs; [exact Hpos | rewrite <- Heq; exact Hsb].
  - rewrite list_lookup_insert_ne in Hl by exact Hne. apply Hs; assumption.
Qed.

(** The claim loop either moves the cursor or claims a free slot for the
    record. *)
Lemma unconnected_allocate_base_loop fuel maxbase :
  triple (fun w => J None w /\ exists r, heap w !! p = Some r /\ base r < 0)
    (_socket_allocate_base_loop fuel p maxbase)
    (fun b w => J (Some b) w).
Proof.
  induction fuel as [|fuel IH]; [apply triple_out_of_fuel|].
  intros w b w' [HJ Hneg] E. cbn [_socket_allocate_base_loop] in E.
  unfold bind at 1 in E. unfold atomic_exchange_and_add32_base_next in E.
  remember (world_with_base_next (s32 (_socket_base_next w + 1)) w) as w1 eqn:Hw1.
  assert (HJ1 : J None w1 /\ exists r, heap w1 !! p = Some r /\ base r < 0)
    by (subst w1; exact (conj HJ Hneg)).
  clear HJ Hneg Hw1.
  destruct (maxbase <=? _socket_base_next w) eqn:C; [eapply IH; eassumption|].
  unfold bind at 1 in E. unfold load_base at 1 in E.
  destruct (0 <=? _socket_base_next w) eqn:Hc; [|discriminate E].
  destruct (_socket_base w1 !! Z.to_nat (_socket_base_next w)) as [sb|] eqn:Hsb;
    [|discriminate E].
  destruct (nonzero (object sb)) eqn:Hobj; [eapply IH; eassumption|].
  pose proof HJ1 as [(Hm & r' & Hp & Hid & _ & Hs) _].
  unfold bind at 1 in E. unfold load in E. rewrite Hp in E.
  unfold bind at 1 in E. unfold load_base in E. rewrite Hc, Hsb in E.
  destruct (object sb =? 0) eqn:Hz; [|eapply IH; eassumption].
  unfold bind, store, store_base, ret in E. rewrite Hp in E. wsimpl_in E.
  rewrite Hc, Hsb in E. simplify_eq.
  split; [exact Hm|]. eexists. wsimpl. rewrite lookup_insert_eq.
  split; [reflexivity|].
  split. { destruct Hid as (H1 & H2 & H3 & H4 & H5 & H6). repeat split; assumption. }
  split. { cbn [base sock_with_base]. split; [reflexivity|lia]. }
  cbn [base sock_with_base]. intros sb' _ Hl.
  rewrite list_lookup_insert_eq in Hl by (eapply lookup_lt_Some; exact Hsb).
  simplify_eq. reflexivity.
Qed.

Lemma unconnected_weaken b w : J (Some b) w -> J None w.
Proof.
  intros (Hm & r' & Hp & Hid & Hb & Hs). split; [exact Hm|]. exists r'. auto.
Qed.

(** _socket_allocate_base gives the record a slot number. *)
Lemma unconnected_allocate_base fuel :
  triple (J None) (_socket_allocate_base fuel p) (fun b w => J (Some b) w).
Proof.
  intros w b w' HJ E. unfold _socket_allocate_base in E.
  pose proof HJ as (Hm & r' & Hp & Hid & _ & Hs).
  unfold bind at 1 in E. unfold load in E. rewrite Hp in E.
  destruct (0 <=? base r') eqn:C.
  - unfold ret in E. simplify_eq. split; [exact Hm|]. exists r'.
    split; [exact Hp|]. split; [exact Hid|]. split; [split; [reflexivity|lia]|exact Hs].
  - unfold bind, gets in E.
    eapply unconnected_allocate_base_loop; [|exact E].
    split; [exact HJ|]. exists r'. split; [exact Hp|lia].
Qed.

Lemma unconnected_allocate_base_again fuel b :
  yields (J (Some b)) (fun b' => b' = b) (_socket_allocate_base fuel p).
Proof.
  intros w b' w' HJ E. unfold _socket_allocate_base in E.
  pose proof HJ as (Hm & r' & Hp & Hid & [Hb Hpos] & Hs).
  unfold bind at 1 in E. unfold load in E. rewrite Hp in E.
  assert (C : (0 <=? base r') = true) by lia. rewrite C in E.
  unfold ret in E. simplify_eq. split; [exact HJ | reflexivity].
Qed.

#[local] Hint Resolve unconnected_load unconnected_load_base unconnected_syscall
  unconnected_assert unconnected_allocate_base_again : keeps.
#[local] Hint Extern 1 (keeps _ (update_base _ _)) =>
  apply unconnected_update_base; intros; reflexivity : keeps.
#[local] Hint Extern 1 (keeps _ (update _ _)) =>
  apply unconnected_update; [intros ? ?; assumption | intros; reflexivity] : keeps.

Lemma unconnected__socket_set_blocking_fd slot fd_ block :
  keeps (J slot) (_socket_set_blocking_fd fd_ block).
Proof. unfold _socket_set_blocking_fd. ksteps. Qed.
#[local] Hint Resolve unconnected__socket_set_blocking_fd : keeps.

Lemma unconnected__socket_set_blocking fuel b block :
  keeps (J (Some b)) (_socket_set_blocking fuel p block).
Proof. unfold _socket_set_blocking. ksteps. Qed.

Lemma unconnected__socket_set_reuse_address fuel b reuse :
  keeps (J (Some b)) (_socket_set_reuse_address fuel p reuse).
Proof. unfold _socket_set_reuse_address. ksteps. Qed.

Lemma unconnected__socket_set_reuse_port fuel b reuse :
  keeps (J (Some b)) (_socket_set_reuse_port fuel p reuse).
Proof. unfold _socket_set_reuse_port. ksteps. Qed.

Lemma unconnected__tcp_socket_set_delay b delay :
  keeps (J (Some b)) (_tcp_socket_set_delay p delay).
Proof. unfold _tcp_socket_set_delay. ksteps. Qed.
#[local] Hint Resolve unconnected__socket_set_blocking unconnected__socket_set_reuse_address
  unconnected__socket_set_reuse_port unconnected__tcp_socket_set_delay : keeps.

Lemma unconnected__tcp_socket_open fuel b family_ :
  keeps (J (Some b)) (_tcp_socket_open fuel p family_).
Proof. unfold _tcp_socket_open. ksteps. Qed.
#[local] Hint Resolve unconnected__tcp_socket_open : keeps.

Lemma unconnected_call_open_fn fuel b family_ :
  keeps (J (Some b)) (call_open_fn fuel p family_).
Proof. unfold call_open_fn. ksteps. Qed.
#[local] Hint Resolve unconnected_call_open_fn : keeps.

(** _socket_create_fd: when it returns a descriptor, the record has a slot
    that holds this descriptor, and the socket is as it was otherwise. *)
Lemma _socket_create_fd_frame fuel family_ :
  triple (J None) (_socket_create_fd fuel p family_)
    (fun fd_ w => fd_ <> SOCKET_INVALID ->
       exists b sb, J (Some b) w /\ _socket_base w !! Z.to_nat b = Some sb /\ fd sb = fd_).
Proof.
  unfold _socket_create_fd.
  eapply triple_bind; [apply unconnected_allocate_base|]. intros b.
  destruct (b <? 0); [apply triple_ret; intros w HJ H; destruct (H eq_refl)|].
  eapply triple_bind; [apply unconnected_load|]. intros r.
  apply triple_pure. intros [_ [Hb Hpos]]. cbv zeta. rewrite Hb.
  eapply triple_bind; [apply unconnected_load_base|]. intros sb.
  destruct (negb (fd sb =? SOCKET_INVALID) && negb (family r =? family_)).
  { eapply triple_bind; [apply unconnected_assert|]. intros [].
    apply triple_ret. intros w HJ H. destruct (H eq_refl). }
  eapply triple_bind.
  { assert (K : keeps (J (Some b))
        (when (fd sb =? SOCKET_INVALID)
           (call_open_fn fuel p family_;;
            sb0 <- load_base b;;
            when (negb (fd sb0 =? SOCKET_INVALID))
              (update p (sock_with_family family_);;
               _socket_set_blocking fuel p (has_flag SOCKETFLAG_BLOCKING (flags sb0));;
               sb1 <- load_base b;;
               _socket_set_reuse_address fuel p (has_flag SOCKETFLAG_REUSE_ADDR (flags sb1));;
               sb2 <- load_base b;;
               _socket_set_reuse_port fuel p (has_flag SOCKETFLAG_REUSE_PORT (flags sb2))))))
      by ksteps.
    exact K. }
  intros [] w fd_ w' HJ E Hfd.
  unfold bind, load_base, ret in E.
  destruct (0 <=? b); [|discriminate E].
  destruct (_socket_base w !! Z.to_nat b) as [sb'|] eqn:Hsb; [|discriminate E].
  simplify_eq. eexists _, sb'. split; [exact HJ|]. split; [exact Hsb|reflexivity].
Qed.

End CreateFd.

Section Connect.
Context {cfg : Config} {krn : Kernel}.

Lemma syscall_done {A} c (answer : nat -> A) w :
  syscall c answer w = Done (answer (length (trace w))) (world_with_trace (c :: trace w) w).
Proof. reflexivity. Qed.

Lemma update_done w p r f :
  heap w !! p = Some r ->
  update p f w = Done tt (world_with_heap (<[p := f r]> (heap w)) w).
Proof. intros E. unfold update. munfold. mrewrite. reflexivity. Qed.

Lemma update_base_done w i sb f :
  0 <= i -> _socket_base w !! Z.to_nat i = Some sb ->
  update_base i f w = Done tt (world_with_base (<[Z.to_nat i := f sb]> (_socket_base w)) w).
Proof.
  intros Hi E. assert (C : (0 <=? i) = true) by lia.
  unfold update_base. munfold. mrewrite. reflexivity.
Qed.

Lemma _socket_store_address_local_done w p r sb family_ :
  heap w !! p = Some r -> 0 <= base r ->
  _socket_base w !! Z.to_nat (base r) = Some sb ->
  family_ = NETWORK_ADDRESSFAMILY_IPV4 \/ family_ = NETWORK_ADDRESSFAMILY_IPV6 ->
  exists w' l,
    _socket_store_address_local p family_ w = Done tt w' /\
    _socket_map w' = _socket_map w /\ _socket_base w' = _socket_base w /\
    heap w' !! p = Some (sock_with_address_local (Some l) r).
Proof.
  intros Hp Hb Hs Hfam.
  assert (C1 : (base r <? 0) = false) by lia.
  unfold _socket_store_address_local.
  destruct (family_ =? NETWORK_ADDRESSFAMILY_IPV4) eqn:C4;
    [|assert (C6 : (family_ =? NETWORK_ADDRESSFAMILY_IPV6) = true) by lia];
    eexists _, _;
    (split;
     [ mstep ltac:(apply load_done; eassumption); rewrite C1;
       mstep ltac:(eapply load_base_done; eassumption);
       rewrite ?C4, ?C6;
       mstep ltac:(apply syscall_done);
       eapply update_done; side
     | wsimpl; split; [reflexivity|]; split; [reflexivity|]; apply lookup_insert_eq ]).
Qed.

Lemma _tcp_socket_connect_in_progress fuel w p r sb address :
  heap w !! p = Some r -> 0 <= base r ->
  _socket_base w !! Z.to_nat (base r) = Some sb ->
  fst (k_connect (length (trace w))) <> 0 ->
  snd (k_connect (length (trace w))) = EINPROGRESS ->
  addr_family address = NETWORK_ADDRESSFAMILY_IPV4 \/
  addr_family address = NETWORK_ADDRESSFAMILY_IPV6 ->
  exists w' r',
    _tcp_socket_connect fuel p address 0 w = Done 0 w' /\
    _socket_map w' = _socket_map w /\
    _socket_base w'
    = <[Z.to_nat (base r) := base_with_state SOCKETSTATE_CONNECTING sb]> (_socket_base w) /\
    heap w' !! p = Some r' /\ ref r' = ref r /\ base r' = base r /\
    address_remote r' = Some address.
Proof.
  intros Hp Hb Hs Hres Herr Hfam.
  assert (C1 : (base r <? 0) = false) by lia.
  assert (C2 : (fst (k_connect (length (trace w))) =? 0) = false) by lia.
  assert (C3 : (snd (k_connect (length (trace w))) =? EINPROGRESS) = true) by lia.
  pose (w1 := world_with_heap (<[p := sock_with_address_remote (Some address) r]> (heap w))
                (world_with_base
                   (<[Z.to_nat (base r) := base_with_state SOCKETSTATE_CONNECTING sb]>
                      (_socket_base w))
                   (world_with_trace (SYS_connect (fd sb) address :: trace w) w))).
  assert (E : _tcp_socket_connect fuel p address 0 w
              = (r1 <- load p;;
                 when (negb (bool_decide (is_Some (address_local r1))))
                   (_socket_store_address_local p (addr_family address));;
                 ret 0) w1).
  { unfold _tcp_socket_connect.
    mstep ltac:(apply load_done; eassumption). rewrite C1. cbv zeta.
    mstep ltac:(eapply load_base_done; eassumption).
    change (0 <? 0) with false. cbn [andb]. unfold when at 1 2.
    mstep ltac:(reflexivity).
    mstep ltac:(eapply load_base_done; eassumption).
    mstep ltac:(apply syscall_done).
    rewrite C2, C3. change (0 =? 0) with true. cbv iota.
    mstep ltac:(eapply update_base_done; side).
    mstep ltac:(reflexivity).
    mstep ltac:(reflexivity). cbn [fst].
    mstep ltac:(eapply update_done; side).
    reflexivity. }
  rewrite E. clear E.
  assert (Hp1 : heap w1 !! p = Some (sock_with_address_remote (Some address) r))
    by apply lookup_insert_eq.
  mstep ltac:(apply load_done; exact Hp1).
  cbn [address_local sock_with_address_remote].
  destruct (address_local r) as [l|] eqn:Hl.
  - exists w1, (sock_with_address_remote (Some address) r).
    split; [reflexivity|]. repeat split; try reflexivity. exact Hp1.
  - destruct (_socket_store_address_local_done w1 p _ (base_with_state SOCKETSTATE_CONNECTING sb)
                (addr_family address) Hp1 Hb) as (w2 & l & E2 & Hm2 & Hs2 & Hp2);
      [apply list_lookup_insert_eq; eapply lookup_lt_Some; exact Hs | exact Hfam |].
    exists w2. eexists. split.
    { unfold when. cbn [negb]. mstep ltac:(exact E2). reflexivity. }
    rewrite Hm2, Hs2. split; [reflexivity|]. split; [reflexivity|].
    split; [exact Hp2|]. repeat split; reflexivity.
Qed.

Lemma ref_of_record w id r : record_of id w = Some r -> ref_of id w = Some (ref r).
Proof.
  unfold ref_of, record_of. destruct (_socket_map w) as [m|]; [|discriminate 1].
  cbn. destruct (om_entries m !! id) as [p|]; [|discriminate 1].
  cbn. intros ->. reflexivity.
Qed.

Lemma state_of_unconnected w id r :
  record_of id w = Some r -> state_of id w = SOCKETSTATE_NOTCONNECTED ->
  forall sb, 0 <= base r -> _socket_base w !! Z.to_nat (base r) = Some sb ->
             state sb = SOCKETSTATE_NOTCONNECTED.
Proof.
  intros Hr Hst sb Hb Hs.
  destruct (state_of_slot w id r sb Hr Hb Hs) as [E _]. rewrite <- E. exact Hst.
Qed.

(** C6.  A connect on a socket that is not connected, with no timeout, whose
    kernel connect answers in-progress (the descriptor being there or having
    been opened on the way), returns true and leaves the socket in state
    CONNECTING, on the descriptor the connect was issued on, with the remote
    address recorded and the reference count as before the call. *)
Theorem socket_connect_in_progress fuel w id address m p r fd_ w2 :
  _socket_map w = Some m -> om_entries m !! id = Some p -> heap w !! p = Some r ->
  0 < ref r < 2 ^ 31 - 1 ->
  connect_fn r = true ->
  state_of id w = SOCKETSTATE_NOTCONNECTED ->
  addr_family address = NETWORK_ADDRESSFAMILY_IPV4 \/
  addr_family address = NETWORK_ADDRESSFAMILY_IPV6 ->
  _socket_create_fd fuel p (addr_family address) (after (_socket_lookup id) w) = Done fd_ w2 ->
  fd_ <> SOCKET_INVALID ->
  fst (k_connect (length (trace w2))) <> 0 ->
  snd (k_connect (length (trace w2))) = EINPROGRESS ->
  exists w',
    socket_connect fuel id address 0 w = Done true w' /\
    state_of id w' = SOCKETSTATE_CONNECTING /\
    fd_of id w' = fd_ /\
    ref_of id w' = Some (ref r) /\
    address_remote <$> record_of id w' = Some (Some address).
Proof.
  intros Hm Hid Hp Href Hfn Hst Hfam Hfd Hvalid Hres Herr.
  pose proof (_socket_lookup_done w m id p r Hm Hid Hp) as El.
  rewrite (s32_id (ref r + 1)) in El by lia.
  unfold after in Hfd. rewrite El in Hfd.
  set (r1 := sock_with_ref (ref r + 1) r) in *.
  set (w1 := world_with_heap (<[p := r1]> (heap w)) w) in *.
  assert (HJ : unconnected m p r1 None w1).
  { split; [exact Hm|]. exists r1. split; [apply lookup_insert_eq|].
    split; [repeat split|]. split; [exact I|].
    intros sb Hb Hs. eapply (state_of_unconnected w id r); eauto.
    eapply record_of_Some; eassumption. }
  destruct (_socket_create_fd_frame m p r1 fuel (addr_family address) w1 fd_ w2 HJ Hfd Hvalid)
    as (b & sb & (Hm2 & r2 & Hp2 & Hid2 & [Hb2 Hpos] & Hs2) & Hsb & Hfdsb).
  destruct Hid2 as (_ & Href2 & _ & Hfn2 & _ & _).
  cbn [ref connect_fn r1 sock_with_ref] in Href2, Hfn2.
  assert (Hnc : state sb = SOCKETSTATE_NOTCONNECTED)
    by (apply Hs2; rewrite Hb2; [exact Hpos | exact Hsb]).
  subst b.
  set (clear_pending := fun b : socket_base_t =>
         base_with_last_event 0
           (base_with_flags
              (Z.land (flags b)
                 (Z.lnot (Z.lor (Z.lor SOCKETFLAG_CONNECTION_PENDING SOCKETFLAG_ERROR_PENDING)
                                SOCKETFLAG_HANGUP_PENDING))) b)).
  pose (w3 := world_with_base (<[Z.to_nat (base r2) := clear_pending sb]> (_socket_base w2)) w2).
  assert (Hs3 : _socket_base w3 !! Z.to_nat (base r2) = Some (clear_pending sb))
    by (apply list_lookup_insert_eq; eapply lookup_lt_Some; exact Hsb).
  destruct (_tcp_socket_connect_in_progress fuel w3 p r2 (clear_pending sb) address
              Hp2 Hpos Hs3 Hres Herr Hfam)
    as (w4 & r4 & E4 & Hm4 & Hs4 & Hp4 & Href4 & Hb4 & Hrem4).
  set (r5 := sock_with_address_remote (Some address) r4).
  pose (w5 := world_with_heap (<[p := r5]> (heap w4)) w4).
  set (r6 := sock_with_ref (s32 (ref r5 - 1)) r5).
  assert (Href5 : s32 (ref r5 - 1) = ref r).
  { unfold r5. cbn [ref sock_with_address_remote]. rewrite Href4, Href2.
    replace (ref r + 1 - 1) with (ref r) by lia. apply s32_id. lia. }
  exists (world_with_heap (<[p := r6]> (heap w5)) w5).
  split.
  { unfold socket_connect.
    mstep ltac:(exact El).
    mstep ltac:(exact Hfd).
    apply Z.eqb_neq in Hvalid. rewrite Hvalid.
    mstep ltac:(apply load_done; exact Hp2). cbv zeta.
    mstep ltac:(eapply load_base_done; [exact Hpos | exact Hsb]).
    rewrite Hnc.
    change (negb (state_eqb SOCKETSTATE_NOTCONNECTED SOCKETSTATE_NOTCONNECTED)) with false.
    cbv iota.
    mstep ltac:(eapply update_base_done; [exact Hpos | exact Hsb]).
    rewrite Hfn2, Hfn.
    mstep ltac:(exact E4).
    change (nonzero 0) with false. cbv iota.
    mstep ltac:(eapply update_done; exact Hp4).
    mstep ltac:(reflexivity).
    mstep ltac:(eapply (socket_destroy_done w5 m id p r5);
                [ exact (eq_trans Hm4 Hm2) | exact Hid | apply lookup_insert_eq
                | rewrite Href5; lia ]).
    reflexivity. }
  assert (Hrec : record_of id (world_with_heap (<[p := r6]> (heap w5)) w5) = Some r6).
  { eapply record_of_Some; [exact (eq_trans Hm4 Hm2) | exact Hid | apply lookup_insert_eq]. }
  assert (Hb6 : base r6 = base r2) by exact Hb4.
  assert (Hslot : _socket_base (world_with_heap (<[p := r6]> (heap w5)) w5) !! Z.to_nat (base r6)
                  = Some (base_with_state SOCKETSTATE_CONNECTING (clear_pending sb))).
  { unfold w5. wsimpl. rewrite Hs4, Hb6. apply list_lookup_insert_eq.
    eapply lookup_lt_Some; exact Hs3. }
  destruct (state_of_slot _ id r6 _ Hrec ltac:(rewrite Hb6; exact Hpos) Hslot) as [Est Efd].
  split; [rewrite Est; reflexivity|].
  split; [rewrite Efd; exact Hfdsb|].
  split.
  { rewrite (ref_of_record _ _ _ Hrec). unfold r6. cbn [ref sock_with_ref].
    rewrite Href5. reflexivity. }
  rewrite Hrec. reflexivity.
Qed.
End Connect.

(** ** Evaluations on the small build *)

Section SmallBuildIdle.
#[local] Existing Instance small_build.
#[local] Existing Instance idle_kernel.

(** C1 (the code departs from the claim).  A blocking listener with nothing
    to accept: tcp_socket_accept returns 0 and the slot stays LISTENING, but
    the statement [sockbase->flags &= SOCKETFLAG_CONNECTION_PENDING] has
    wiped the BLOCKING flag, where the specification keeps every flag but
    CONNECTION_PENDING. *)
Theorem tcp_socket_accept_wipes_listener_flags :
  flags <$> slot_of 1 listening_world = Some SOCKETFLAG_BLOCKING /\
  exists w',
    tcp_socket_accept 8 1 0 listening_world = Done 0 w' /\
    state <$> slot_of 1 w' = Some SOCKETSTATE_LISTENING /\
    flags <$> slot_of 1 w' = Some 0 /\
    ~ accept_flags_as_specified SOCKETFLAG_BLOCKING 0.
Proof.
  split; [vm_compute; reflexivity|].
  exists (after (tcp_socket_accept 8 1 0) listening_world).
  split; [vm_compute; reflexivity|].
  repeat split; try (vm_compute; reflexivity).
  intros H. vm_compute in H. discriminate H.
Qed.

(** C2 (the code departs from the claim).  socket_set_multicast_group takes
    a reference with _socket_lookup and returns without socket_destroy: on a
    bound socket it succeeds and leaves the count at 2 where it was 1. *)
Theorem socket_set_multicast_group_leaks_reference :
  ref_of 1 bound_world = Some 1 /\
  exists w',
    socket_set_multicast_group 8 1 (any_ipv4 1) false bound_world = Done true w' /\
    ref_of 1 w' = Some 2 /\
    ~ ref_balanced (socket_set_multicast_group 8 1 (any_ipv4 1) false) 1 bound_world.
Proof.
  split; [vm_compute; reflexivity|].
  exists (after (socket_set_multicast_group 8 1 (any_ipv4 1) false) bound_world).
  split; [vm_compute; reflexivity|].
  split; [vm_compute; reflexivity|].
  intros H.
  assert (E : socket_set_multicast_group 8 1 (any_ipv4 1) false bound_world
              = Done true (after (socket_set_multicast_group 8 1 (any_ipv4 1) false) bound_world))
    by (vm_compute; reflexivity).
  specialize (H _ _ E).
  assert (E1 : ref_of 1 (after (socket_set_multicast_group 8 1 (any_ipv4 1) false) bound_world)
               = Some 2) by (vm_compute; reflexivity).
  assert (E2 : ref_of 1 bound_world = Some 1) by (vm_compute; reflexivity).
  rewrite E1, E2 in H. discriminate H.
Qed.

(** The stream callbacks leave through [return] without socket_destroy when
    the record has no slot: eos on a closed socket takes a reference too. *)
Lemma socket_eos_leaks_reference_without_slot :
  ref_of 1 closed_with_data_world = Some 2 /\
  exists w',
    _socket_eos 1001 closed_with_data_world = Done true w' /\
    ref_of 1 w' = Some 3.
Proof.
  split; [vm_compute; reflexivity|].
  exists (after (_socket_eos 1001) closed_with_data_world).
  split; vm_compute; reflexivity.
Qed.

(** C4 (counterexample).  A stream whose socket was closed with five bytes
    still in the in-ring: eos is true although the ring is not empty. *)
Lemma eos_true_with_buffered_bytes :
  ~ eos_as_specified closed_with_data_world 1001.
Proof.
  intros H.
  pose (w' := after (_socket_eos 1001) closed_with_data_world).
  assert (Hs : streams closed_with_data_world !! 1001
               = Some {| stream_type_socket := true; stream_sequential := true;
                         stream_vtable := true; stream_socket := 1 |})
    by (vm_compute; reflexivity).
  assert (He : _socket_eos 1001 closed_with_data_world = Done true w')
    by (vm_compute; reflexivity).
  assert (Hb : buffered_in <$> record_of 1 w' = Some 5) by (vm_compute; reflexivity).
  destruct (record_of 1 w') as [r|] eqn:Hr; [|discriminate Hb].
  simpl in Hb. injection Hb as Hbuf.
  destruct (H _ _ _ _ Hs He Hr) as [Hto _].
  destruct (Hto eq_refl) as [_ Hbuf'].
  rewrite Hbuf in Hbuf'. discriminate Hbuf'.
Qed.

(** C8 (counterexample).  For four sockets the registry is given room for
    twelve ids, not eight. *)
Lemma registry_size_for_four_sockets :
  ~ registry_size_as_specified 4.
Proof.
  intros H.
  assert (E : om_size <$> _socket_map (after (_socket_initialize 4) empty_world) = Some 12)
    by (vm_compute; reflexivity).
  specialize (H empty_world 0 (after (_socket_initialize 4) empty_world) eq_refl).
  rewrite E in H. discriminate H.
Qed.

End SmallBuildIdle.

Section SmallBuildFailing.
#[local] Existing Instance small_build.
#[local] Existing Instance failing_kernel.

(** C3 (counterexample).  A connecting socket whose select flags the
    exception set: the poll closes it and reports what the slot holds
    after the close, NOT_CONNECTED. *)
Lemma poll_connecting_exception_is_not_disconnected :
  ~ poll_connecting_as_specified connecting_world 0.
Proof.
  intros H.
  assert (Hs : _socket_base connecting_world !! Z.to_nat 0
               = Some {| object := 1; fd := 3; flags := 0;
                         state := SOCKETSTATE_CONNECTING; last_event := 0 |})
    by (vm_compute; reflexivity).
  destruct (H _ Hs eq_refl) as [Hex _].
  destruct (Hex eq_refl) as [w' Hw'].
  assert (E : _socket_poll_state 0 connecting_world
              = Done SOCKETSTATE_NOTCONNECTED (after (_socket_poll_state 0) connecting_world))
    by (vm_compute; reflexivity).
  rewrite E in Hw'. discriminate Hw'.
Qed.

End SmallBuildFailing.

(** ** The theorems at work on the small build *)

Section InstancesIdle.
#[local] Existing Instance small_build.
#[local] Existing Instance idle_kernel.

(** Initialization for four sockets: a registry of twelve entries. *)
Lemma _socket_initialize_sizes_witness :
  exists w' registry,
    _socket_initialize 4 empty_world = Done 0 w' /\
    _socket_map w' = Some registry /\ om_size registry = 12.
Proof.
  destruct (_socket_initialize_sizes 4 empty_world ltac:(lia))
    as (w' & registry & E & Hm & Hsize & _).
  exists w', registry. split; [exact E|]. split; [exact Hm|]. exact Hsize.
Defined.

(** The bound socket, closed once and closed twice. *)
Lemma socket_close_idempotent_witness :
  exists w' r',
    socket_close 1 bound_world = Done tt w' /\
    (socket_close 1;; socket_close 1) bound_world = Done tt w' /\
    base <$> record_of 1 bound_world = Some 0 /\
    record_of 1 w' = Some r' /\ base r' = -1 /\ slot_of 1 w' = None /\
    address_local r' = None /\ address_remote r' = None.
Proof.
  assert (E : record_of 1 bound_world = Some (record_at 1000 bound_world))
    by (vm_compute; reflexivity).
  destruct (socket_close_idempotent bound_world (registry_in bound_world) 1)
    as (w' & Honce & Htwice & _ & _ & Hrec).
  - vm_compute; reflexivity.
  - intros p Hp.
    assert (Ep : Some 1000 = Some p) by (rewrite <- Hp; vm_compute; reflexivity).
    apply (inj Some) in Ep. subst p.
    exists (record_at 1000 bound_world).
    split; [vm_compute; reflexivity|].
    assert (Er : ref (record_at 1000 bound_world) = 1) by (vm_compute; reflexivity).
    assert (Eb : base (record_at 1000 bound_world) = 0) by (vm_compute; reflexivity).
    rewrite Er, Eb. split; [lia|]. split; [lia|].
    intros _. vm_compute. eexists; reflexivity.
  - destruct (Hrec _ E) as (r' & Hr' & Hb & Hs & Hl & Hr & _).
    exists w', r'. split; [exact Honce|]. split; [exact Htwice|].
    split; [vm_compute; reflexivity|].
    split; [exact Hr'|]. split; [exact Hb|]. split; [exact Hs|].
    split; [exact Hl | exact Hr].
Defined.

(** The stream of a socket nobody else holds: the finalizer takes the
    count from two to one. *)
Lemma _socket_stream_finalize_releases_once_witness :
  exists w', _socket_stream_finalize 1001 streamed_world = Done tt w' /\
    stream_socket <$> streams w' !! 1001 = Some 0 /\
    ref_of 1 streamed_world = Some 2 /\ ref_of 1 w' = Some 1.
Proof.
  destruct (_socket_stream_finalize_releases_once streamed_world 1001
              (stream_at 1001 streamed_world) (registry_in streamed_world) 1000
              (record_at 1000 streamed_world))
    as (w' & E & Hs & Hmany & _).
  - vm_compute; reflexivity.
  - vm_compute; reflexivity.
  - vm_compute; discriminate.
  - vm_compute; reflexivity.
  - vm_compute; reflexivity.
  - vm_compute; reflexivity.
  - vm_compute; reflexivity.
  - vm_compute; reflexivity.
  - vm_compute. split; reflexivity.
  - left. vm_compute. reflexivity.
  - exists w'. split; [exact E|]. split; [exact Hs|].
    split; [vm_compute; reflexivity|].
    destruct Hmany as [Hrec _]; [vm_compute; reflexivity|].
    assert (Eid : stream_socket (stream_at 1001 streamed_world) = 1)
      by (vm_compute; reflexivity).
    rewrite Eid in Hrec.
    rewrite (ref_of_record _ _ _ Hrec). vm_compute. reflexivity.
Defined.



(** A fresh socket connects without timeout: the descriptor is opened on
    the way, the kernel answers in-progress. *)
Lemma socket_connect_in_progress_witness :
  exists w',
    socket_connect 8 1 (any_ipv4 8080) 0 created_world = Done true w' /\
    state_of 1 w' = SOCKETSTATE_CONNECTING /\ fd_of 1 w' = 3.
Proof.
  destruct (socket_connect_in_progress 8 created_world 1 (any_ipv4 8080)
              (registry_in created_world) 1000 (record_at 1000 created_world) 3
              (after (_socket_create_fd 8 1000 0) (after (_socket_lookup 1) created_world)))
    as (w' & E & Hst & Hfd & _).
  - vm_compute; reflexivity.
  - vm_compute; reflexivity.
  - vm_compute; reflexivity.
  - vm_compute. split; reflexivity.
  - vm_compute; reflexivity.
  - vm_compute; reflexivity.
  - left. reflexivity.
  - vm_compute; reflexivity.
  - vm_compute; discriminate.
  - vm_compute; discriminate.
  - vm_compute; reflexivity.
  - exists w'. split; [exact E|]. split; [exact Hst | exact Hfd].
Defined.
End InstancesIdle.

Section InstancesFailing.
#[local] Existing Instance small_build.
#[local] Existing Instance failing_kernel.

(** The connecting socket, polled when select flags the exception set. *)
Lemma _socket_poll_state_connecting_witness :
  exists w',
    _socket_poll_state 0 connecting_world = Done SOCKETSTATE_NOTCONNECTED w' /\
    record_of 1 w' = Some (closed_record (record_at 1000 connecting_world)) /\
    _socket_base w' !! 0%nat = Some (released_slot (slot_at 0 connecting_world)).
Proof.
  destruct (_socket_poll_state_connecting connecting_world (slot_at 0 connecting_world)
              (registry_in connecting_world) 1000 (record_at 1000 connecting_world))
    as (st & w' & calls & E & _ & Herr & _).
  - vm_compute; discriminate.
  - vm_compute; reflexivity.
  - vm_compute; reflexivity.
  - vm_compute; reflexivity.
  - vm_compute; reflexivity.
  - vm_compute; reflexivity.
  - vm_compute. split; reflexivity.
  - vm_compute; reflexivity.
  - destruct Herr as (-> & _ & Hrec & Hslot); [vm_compute; reflexivity|].
    exists w'. split; [exact E|]. split; [exact Hrec | exact Hslot].
Defined.
End InstancesFailing.

Section InstancesData.
#[local] Existing Instance small_build.
#[local] Existing Instance data_kernel.

(** The stream of a connected socket. *)
Lemma _socket_eos_true_iff_witness :
  exists e w', _socket_eos 1001 receiving_world = Done e w' /\
    (e = true <->
     slot_of 1 receiving_world = None \/
     ((state_of 1 w' <> SOCKETSTATE_CONNECTED \/ fd_of 1 w' = SOCKET_INVALID) /\
      (forall r', record_of 1 w' = Some r' -> buffered_in r' = 0) /\
      probe_value (fd_of 1 w') (length (trace w') - 1) <= 0)).
Proof.
  apply (_socket_eos_true_iff receiving_world 1001 (stream_at 1001 receiving_world)
           (registry_in receiving_world)).
  - vm_compute; reflexivity.
  - vm_compute; reflexivity.
  - vm_compute; reflexivity.
  - vm_compute; discriminate.
  - intros n. vm_compute. reflexivity.
  - intros p Hp.
    assert (E : Some 1000 = Some p) by (rewrite <- Hp; vm_compute; reflexivity).
    apply (inj Some) in E. subst p.
    exists (record_at 1000 receiving_world).
    split; [vm_compute; reflexivity|].
    split; [vm_compute; reflexivity|].
    split; [vm_compute; split; reflexivity|].
    split; [vm_compute; repeat split; (reflexivity || discriminate)|].
    intros _. exists (slot_at 0 receiving_world).
    split; vm_compute; reflexivity.
Defined.

(** Four reads on a connected socket with five bytes pending at each
    receive. *)
Lemma in_ring_invariant_witness :
  run_reads 8 some_reads receiving_world
  = Done tt (after (run_reads 8 some_reads) receiving_world) /\
  let r := record_at 1000 (after (run_reads 8 some_reads) receiving_world) in
  0 <= offset_read_in r < BUILD_SIZE_SOCKET_READBUFFER /\
  0 <= offset_write_in r < BUILD_SIZE_SOCKET_READBUFFER /\
  buffered_in r = (offset_write_in r - offset_read_in r) mod BUILD_SIZE_SOCKET_READBUFFER /\
  buffered_in r < BUILD_SIZE_SOCKET_READBUFFER.
Proof.
  split; [vm_compute; reflexivity|].
  apply (in_ring_invariant 8 some_reads receiving_world
           (after (run_reads 8 some_reads) receiving_world)) with (p := 1000).
  - vm_compute; discriminate.
  - intros p r H.
    assert (E : heap receiving_world = {[1000 := record_at 1000 receiving_world]})
      by (vm_compute; reflexivity).
    rewrite E in H. apply lookup_singleton_Some in H as [_ <-].
    vm_compute. repeat split; (reflexivity || discriminate).
  - vm_compute; reflexivity.
  - vm_compute; reflexivity.
Defined.
End InstancesData.
(** * More of the code: properties beyond the specification's sentences *)

(** ** Taking and giving back a reference *)

Section Bracket.
Context {cfg : Config} {krn : Kernel}.

Lemma sock_with_ref_same r : sock_with_ref (ref r) r = r.
Proof. destruct r; reflexivity. Qed.

Lemma sock_with_ref_twice a b r : sock_with_ref a (sock_with_ref b r) = sock_with_ref a r.
Proof. reflexivity. Qed.

Lemma world_with_heap_same w : world_with_heap (heap w) w = w.
Proof. destruct w; reflexivity. Qed.

Lemma world_with_heap_twice h h' w :
  world_with_heap h (world_with_heap h' w) = world_with_heap h w.
Proof. reflexivity. Qed.

(** The world in which [p] has one more reference: what _socket_lookup
    leaves. *)
Lemma looked_up_heap w p r :
  heap w !! p = Some r ->
  heap (world_with_heap (<[p := sock_with_ref (s32 (ref r + 1)) r]> (heap w)) w) !! p
  = Some (sock_with_ref (s32 (ref r + 1)) r).
Proof. intros _. apply lookup_insert_eq. Qed.

(** Giving back the reference just taken restores the world. *)
Lemma socket_destroy_after_lookup w m id p r :
  _socket_map w = Some m -> om_entries m !! id = Some p -> heap w !! p = Some r ->
  0 < ref r < 2 ^ 31 ->
  socket_destroy id (world_with_heap (<[p := sock_with_ref (s32 (ref r + 1)) r]> (heap w)) w)
  = Done tt w.
Proof.
  intros Hm Hid Hp Href.
  erewrite (socket_destroy_done _ m id p (sock_with_ref (s32 (ref r + 1)) r));
    [ | exact Hm | exact Hid | apply lookup_insert_eq
      | cbn [ref sock_with_ref]; rewrite s32_incr_decr by lia; lia ].
  f_equal. cbn [ref sock_with_ref heap world_with_heap].
  rewrite s32_incr_decr by lia. rewrite insert_insert_eq.
  rewrite sock_with_ref_twice, sock_with_ref_same.
  rewrite insert_id by exact Hp. rewrite world_with_heap_twice.
  apply world_with_heap_same.
Qed.

End Bracket.

(** Run a lookup that finds the record. *)
Ltac run_lookup Hm Hid Hp :=
  mstep ltac:(eapply _socket_lookup_done; [exact Hm | exact Hid | exact Hp]).

Section Observers.
Context {cfg : Config} {krn : Kernel}.
Variables (w : world) (m : objectmap_t) (id : Z) (p : ptr) (r : socket_t).
Hypothesis Hm : _socket_map w = Some m.
Hypothesis Hid : om_entries m !! id = Some p.
Hypothesis Hp : heap w !! p = Some r.
Hypothesis Href : 0 < ref r < 2 ^ 31.

Lemma socket_is_socket_registered : socket_is_socket id w = Done true w.
Proof.
  unfold socket_is_socket. run_lookup Hm Hid Hp.
  mstep ltac:(eapply socket_destroy_after_lookup; eassumption).
  reflexivity.
Qed.

Lemma socket_address_local_done : socket_address_local id w = Done (address_local r) w.
Proof.
  unfold socket_address_local. run_lookup Hm Hid Hp.
  mstep ltac:(apply load_done; apply lookup_insert_eq).
  mstep ltac:(eapply socket_destroy_after_lookup; eassumption).
  reflexivity.
Qed.

Lemma socket_address_remote_done : socket_address_remote id w = Done (address_remote r) w.
Proof.
  unfold socket_address_remote. run_lookup Hm Hid Hp.
  mstep ltac:(apply load_done; apply lookup_insert_eq).
  mstep ltac:(eapply socket_destroy_after_lookup; eassumption).
  reflexivity.
Qed.

Lemma socket_flag_getter_noslot flag :
  base r < 0 -> socket_flag_getter flag id w = Done false w.
Proof.
  intros Hb. assert (C : (0 <=? base r) = false) by lia.
  unfold socket_flag_getter. run_lookup Hm Hid Hp.
  mstep ltac:(apply load_done; apply lookup_insert_eq).
  cbn [base sock_with_ref]. rewrite C.
  mstep ltac:(reflexivity).
  mstep ltac:(eapply socket_destroy_after_lookup; eassumption).
  reflexivity.
Qed.

Lemma socket_flag_getter_slot flag sb :
  0 <= base r -> _socket_base w !! Z.to_nat (base r) = Some sb ->
  socket_flag_getter flag id w = Done (has_flag flag (flags sb)) w.
Proof.
  intros Hb Hs. assert (C : (0 <=? base r) = true) by lia.
  unfold socket_flag_getter. run_lookup Hm Hid Hp.
  mstep ltac:(apply load_done; apply lookup_insert_eq).
  cbn [base sock_with_ref]. rewrite C.
  mstep ltac:(eapply load_base_done; [exact Hb | exact Hs]).
  mstep ltac:(reflexivity).
  mstep ltac:(eapply socket_destroy_after_lookup; eassumption).
  reflexivity.
Qed.

Lemma socket_state_noslot :
  base r < 0 -> socket_state id w = Done SOCKETSTATE_NOTCONNECTED w.
Proof.
  intros Hb. assert (C : (0 <=? base r) = false) by lia.
  unfold socket_state. run_lookup Hm Hid Hp.
  mstep ltac:(apply load_done; apply lookup_insert_eq).
  cbn [base sock_with_ref]. rewrite C.
  mstep ltac:(reflexivity).
  mstep ltac:(eapply socket_destroy_after_lookup; eassumption).
  reflexivity.
Qed.

End Observers.
Section Unregistered.
Context {cfg : Config} {krn : Kernel}.
Variables (w : world) (m : objectmap_t) (id : Z).
Hypothesis Hm : _socket_map w = Some m.
Hypothesis Hid : om_entries m !! id = None.

Tactic Notation "miss" reference(op) :=
  unfold op; mstep ltac:(eapply _socket_lookup_none; [exact Hm | exact Hid]);
  try reflexivity.

(** X2.  An id that is not registered is refused by every public operation
    of socket.c: each returns its failure value and leaves the world as it
    was; socket_close and the setters do nothing. *)
Theorem unregistered_id_is_refused fuel address timeout flag :
  socket_ref id w = Done 0 w /\
  socket_is_socket id w = Done false w /\
  socket_bind fuel id address w = Done false w /\
  socket_connect fuel id address timeout w = Done false w /\
  socket_blocking id w = Done false w /\
  socket_reuse_address id w = Done false w /\
  socket_reuse_port id w = Done false w /\
  socket_set_blocking fuel id flag w = Done tt w /\
  socket_set_reuse_address fuel id flag w = Done tt w /\
  socket_set_reuse_port fuel id flag w = Done tt w /\
  socket_set_multicast_group fuel id address flag w = Done false w /\
  socket_address_local id w = Done None w /\
  socket_address_remote id w = Done None w /\
  socket_state id w = Done SOCKETSTATE_NOTCONNECTED w /\
  socket_close id w = Done tt w /\
  socket_stream id w = Done None w.
Proof.
  repeat split.
  - miss socket_ref.
  - miss socket_is_socket.
    mstep ltac:(eapply socket_destroy_none; [exact Hm | exact Hid]). reflexivity.
  - miss socket_bind.
  - miss socket_connect.
  - unfold socket_blocking. miss socket_flag_getter.
  - unfold socket_reuse_address. miss socket_flag_getter.
  - unfold socket_reuse_port. miss socket_flag_getter.
  - miss socket_set_blocking.
  - miss socket_set_reuse_address.
  - miss socket_set_reuse_port.
  - miss socket_set_multicast_group.
  - miss socket_address_local.
  - miss socket_address_remote.
  - miss socket_state.
  - miss socket_close.
  - miss socket_stream.
Qed.

(** X3.  The same for the public operations of tcp.c. *)
Theorem unregistered_id_is_refused_tcp fuel timeoutms flag :
  tcp_socket_listen id w = Done false w /\
  tcp_socket_accept fuel id timeoutms w = Done 0 w /\
  tcp_socket_delay id w = Done false w /\
  tcp_socket_set_delay id flag w = Done tt w.
Proof.
  repeat split.
  - miss tcp_socket_listen.
  - miss tcp_socket_accept.
  - miss tcp_socket_delay.
  - miss tcp_socket_set_delay.
Qed.

End Unregistered.

Section Orphan.
Context {cfg : Config} {krn : Kernel}.
Variables (w : world) (m : objectmap_t) (s : ptr) (ss : socket_stream_t).
Hypothesis Hs : streams w !! s = Some ss.
Hypothesis Hty : stream_type_socket ss = true.
Hypothesis Hm : _socket_map w = Some m.
Hypothesis Hid : om_entries m !! stream_socket ss = None.

Tactic Notation "orphan" reference(op) :=
  unfold op;
  mstep ltac:(apply load_stream_done; exact Hs);
  mstep ltac:(apply assert_done; exact Hty);
  mstep ltac:(eapply _socket_lookup_none; [exact Hm | exact Hid]);
  try reflexivity.

(** X4.  A stream that has outlived its socket (its id no longer
    resolves): read and write transfer nothing, eos is true, nothing is
    available, tell is 0, and no callback changes the world. *)
Theorem orphan_stream_callbacks fuel buffer size offset direction :
  _socket_read fuel s buffer size w = Done (0, buffer) w /\
  _socket_write fuel s buffer size w = Done 0 w /\
  _socket_eos s w = Done true w /\
  _socket_available_read s w = Done 0 w /\
  _socket_buffer_read fuel s w = Done tt w /\
  _socket_flush fuel s w = Done tt w /\
  _socket_seek fuel s offset direction w = Done tt w /\
  _socket_tell s w = Done 0 w.
Proof.
  repeat split.
  - orphan _socket_read.
  - orphan _socket_write.
  - orphan _socket_eos.
  - orphan _socket_available_read.
  - orphan _socket_buffer_read.
  - orphan _socket_flush.
  - orphan _socket_seek.
  - orphan _socket_tell.
Qed.
End Orphan.
Section ObserversThm.
Context {cfg : Config} {krn : Kernel}.

Lemma flag_of_slot flag w id r sb :
  record_of id w = Some r -> 0 <= base r ->
  _socket_base w !! Z.to_nat (base r) = Some sb ->
  flag_of flag id w = has_flag flag (flags sb).
Proof.
  intros Hr Hb Hs. unfold flag_of. rewrite (slot_of_slot _ _ _ Hr Hb), Hs. reflexivity.
Qed.

Lemma flag_of_noslot flag w id r :
  record_of id w = Some r -> base r < 0 -> flag_of flag id w = false.
Proof.
  intros Hr Hb. unfold flag_of. rewrite (slot_of_noslot _ _ _ Hr Hb). reflexivity.
Qed.

Lemma socket_flag_getter_done flag w id r :
  record_of id w = Some r -> 0 < ref r < 2 ^ 31 ->
  (0 <= base r -> is_Some (_socket_base w !! Z.to_nat (base r))) ->
  socket_flag_getter flag id w = Done (flag_of flag id w) w.
Proof.
  intros Hr Href Hslot.
  destruct (record_of_inv _ _ _ Hr) as (m & p & Hm & Hid & Hp).
  destruct (Z_lt_le_dec (base r) 0) as [Hb|Hb].
  - rewrite (flag_of_noslot _ _ _ _ Hr Hb).
    eapply socket_flag_getter_noslot; eassumption.
  - destruct (Hslot Hb) as [sb Hs].
    rewrite (flag_of_slot _ _ _ _ _ Hr Hb Hs).
    eapply socket_flag_getter_slot; eassumption.
Qed.

(** X1.  The observers of a registered socket are pure: socket_is_socket,
    the two address getters and the three flag getters return what the
    record and its slot hold, and leave the world, the reference count
    included, exactly as it was. *)
Theorem observers_leave_the_world w id r :
  record_of id w = Some r -> 0 < ref r < 2 ^ 31 ->
  (0 <= base r -> is_Some (_socket_base w !! Z.to_nat (base r))) ->
  socket_is_socket id w = Done true w /\
  socket_address_local id w = Done (address_local r) w /\
  socket_address_remote id w = Done (address_remote r) w /\
  socket_blocking id w = Done (flag_of SOCKETFLAG_BLOCKING id w) w /\
  socket_reuse_address id w = Done (flag_of SOCKETFLAG_REUSE_ADDR id w) w /\
  socket_reuse_port id w = Done (flag_of SOCKETFLAG_REUSE_PORT id w) w.
Proof.
  intros Hr Href Hslot.
  destruct (record_of_inv _ _ _ Hr) as (m & p & Hm & Hid & Hp).
  split; [eapply socket_is_socket_registered; eassumption|].
  split; [eapply socket_address_local_done; eassumption|].
  split; [eapply socket_address_remote_done; eassumption|].
  repeat split; apply socket_flag_getter_done with (r := r); assumption.
Qed.

End ObserversThm.
Section Delay.
Context {cfg : Config} {krn : Kernel}.

(** X5.  tcp_socket_delay reads the TCPDELAY bit of the slot and changes
    nothing; on a registered socket that has no slot it returns false and
    does not give back the reference its lookup took. *)
Theorem tcp_socket_delay_keeps_reference_without_slot w id r :
  record_of id w = Some r -> 0 < ref r < 2 ^ 31 - 1 ->
  (0 <= base r -> is_Some (_socket_base w !! Z.to_nat (base r))) ->
  (0 <= base r ->
     tcp_socket_delay id w = Done (flag_of SOCKETFLAG_TCPDELAY id w) w) /\
  (base r < 0 ->
     exists w', tcp_socket_delay id w = Done false w' /\
                record_of id w' = Some (sock_with_ref (ref r + 1) r)).
Proof.
  intros Hr Href Hslot.
  destruct (record_of_inv _ _ _ Hr) as (m & p & Hm & Hid & Hp).
  split; intros Hb.
  - destruct (Hslot Hb) as [sb Hs].
    rewrite (flag_of_slot _ _ _ _ _ Hr Hb Hs).
    assert (C : (0 <=? base r) = true) by lia.
    unfold tcp_socket_delay. run_lookup Hm Hid Hp.
    mstep ltac:(apply load_done; apply lookup_insert_eq).
    cbn [base sock_with_ref]. rewrite C.
    mstep ltac:(eapply load_base_done; [exact Hb | exact Hs]).
    mstep ltac:(eapply socket_destroy_after_lookup; [exact Hm | exact Hid | exact Hp | lia]).
    reflexivity.
  - assert (C : (0 <=? base r) = false) by lia.
    eexists. split.
    + unfold tcp_socket_delay. run_lookup Hm Hid Hp.
      mstep ltac:(apply load_done; apply lookup_insert_eq).
      cbn [base sock_with_ref]. rewrite C. reflexivity.
    + rewrite s32_id by lia.
      eapply record_of_Some; [exact Hm | exact Hid | apply lookup_insert_eq].
Qed.

End Delay.

Section Listen.
Context {cfg : Config} {krn : Kernel}.

Lemma tcp_socket_listen_noslot w m id p r :
  _socket_map w = Some m -> om_entries m !! id = Some p -> heap w !! p = Some r ->
  0 < ref r < 2 ^ 31 -> base r < 0 ->
  tcp_socket_listen id w = Done false w.
Proof.
  intros Hm Hid Hp Href Hb. assert (C : (base r <? 0) = true) by lia.
  unfold tcp_socket_listen. run_lookup Hm Hid Hp.
  mstep ltac:(apply load_done; apply lookup_insert_eq).
  cbn [base sock_with_ref]. rewrite C.
  mstep ltac:(eapply socket_destroy_after_lookup; eassumption).
  reflexivity.
Qed.

Lemma tcp_socket_accept_noslot fuel timeoutms w m id p r :
  _socket_map w = Some m -> om_entries m !! id = Some p -> heap w !! p = Some r ->
  0 < ref r < 2 ^ 31 -> base r < 0 ->
  tcp_socket_accept fuel id timeoutms w = Done 0 w.
Proof.
  intros Hm Hid Hp Href Hb. assert (C : (base r <? 0) = true) by lia.
  unfold tcp_socket_accept. run_lookup Hm Hid Hp.
  mstep ltac:(apply load_done; apply lookup_insert_eq).
  cbn [base sock_with_ref]. rewrite C.
  mstep ltac:(eapply socket_destroy_after_lookup; eassumption).
  reflexivity.
Qed.

(** X6.  tcp_socket_listen asks the kernel only for a socket that has a
    slot in state NOT_CONNECTED, a descriptor and a local address; any
    other socket is refused without a system call and without a change.
    When the kernel's listen succeeds the slot goes to LISTENING and the
    call returns true; when it fails, only the system call is left. *)
Theorem tcp_socket_listen_effect w id r sb :
  record_of id w = Some r -> 0 < ref r < 2 ^ 31 ->
  0 <= base r -> _socket_base w !! Z.to_nat (base r) = Some sb ->
  let ready := bool_decide (state sb = SOCKETSTATE_NOTCONNECTED) &&
               negb (fd sb =? SOCKET_INVALID) &&
               bool_decide (is_Some (address_local r)) in
  let asked := world_with_trace (SYS_listen (fd sb) SOMAXCONN :: trace w) w in
  (ready = false -> tcp_socket_listen id w = Done false w) /\
  (ready = true -> k_listen (length (trace w)) <> 0 ->
     tcp_socket_listen id w = Done false asked) /\
  (ready = true -> k_listen (length (trace w)) = 0 ->
     tcp_socket_listen id w
     = Done true
         (world_with_base
            (<[Z.to_nat (base r) := base_with_state SOCKETSTATE_LISTENING sb]> (_socket_base w))
            asked)).
Proof.
  intros Hr Href Hb Hs ready asked.
  destruct (record_of_inv _ _ _ Hr) as (m & p & Hm & Hid & Hp).
  assert (C : (base r <? 0) = false) by lia.
  assert (Hcond : negb (state_eqb (state sb) SOCKETSTATE_NOTCONNECTED)
                  || (fd sb =? SOCKET_INVALID)
                  || negb (bool_decide (is_Some (address_local r))) = negb ready).
  { unfold ready, state_eqb. rewrite !negb_andb, negb_involutive. reflexivity. }
  assert (Head :
    tcp_socket_listen id w
    = (if negb ready then socket_free id;; ret false
       else
         listening <- syscall (SYS_listen (fd sb) SOMAXCONN) k_listen;;
         if listening =? 0 then
           update_base (base r) (base_with_state SOCKETSTATE_LISTENING);;
           socket_free id;; ret true
         else socket_free id;; ret false)
        (world_with_heap (<[p := sock_with_ref (s32 (ref r + 1)) r]> (heap w)) w)).
  { unfold tcp_socket_listen. run_lookup Hm Hid Hp.
    mstep ltac:(apply load_done; apply lookup_insert_eq).
    cbn [base sock_with_ref address_local]. rewrite C. cbv zeta.
    mstep ltac:(eapply load_base_done; [exact Hb | exact Hs]).
    rewrite Hcond. reflexivity. }
  rewrite Head. clear Head.
  split; [|split].
  - intros ->. cbn [negb].
    mstep ltac:(eapply socket_destroy_after_lookup; eassumption). reflexivity.
  - intros -> Hk. cbn [negb].
    mstep ltac:(apply syscall_done). wsimpl.
    apply Z.eqb_neq in Hk. rewrite Hk.
    mstep ltac:(eapply (socket_destroy_after_lookup asked); eassumption).
    reflexivity.
  - intros -> Hk. cbn [negb].
    mstep ltac:(apply syscall_done). wsimpl.
    rewrite Hk. change (0 =? 0) with true. cbv iota.
    mstep ltac:(eapply update_base_done; [exact Hb | exact Hs]).
    mstep ltac:(eapply (socket_destroy_after_lookup
                  (world_with_base
                     (<[Z.to_nat (base r) := base_with_state SOCKETSTATE_LISTENING sb]>
                        (_socket_base w)) asked)); eassumption).
    reflexivity.
Qed.

End Listen.
Section Closed.
Context {cfg : Config} {krn : Kernel}.

Lemma closed_record_ref r : ref (closed_record r) = ref r.
Proof. unfold closed_record. destruct (0 <=? base r); reflexivity. Qed.

Lemma closed_record_addresses r :
  address_local (closed_record r) = None /\ address_remote (closed_record r) = None.
Proof. split; reflexivity. Qed.

(** socket_close on a registered socket, in one statement for both shapes
    of the record. *)
Lemma socket_close_done w m id p r :
  _socket_map w = Some m -> om_entries m !! id = Some p -> heap w !! p = Some r ->
  0 < ref r < 2 ^ 31 ->
  (0 <= base r -> is_Some (_socket_base w !! Z.to_nat (base r))) ->
  exists w', socket_close id w = Done tt w' /\
    _socket_map w' = Some m /\ heap w' !! p = Some (closed_record r).
Proof.
  intros Hm Hid Hp Href Hslot.
  destruct (Z_lt_le_dec (base r) 0) as [Hb|Hb].
  - eexists. split; [eapply socket_close_noslot; eassumption|].
    split; [exact Hm | apply lookup_insert_eq].
  - destruct (Hslot Hb) as [sb Hs].
    eexists. split; [eapply socket_close_slot; eassumption|].
    split; [exact Hm | apply lookup_insert_eq].
Qed.

(** X7.  After socket_close the record lives on without a slot, and every
    later operation sees that and returns at once: the socket is still a
    socket, its state reads NOT_CONNECTED, it has no addresses and no
    flags, it cannot listen or accept, and none of these calls changes
    anything. *)
Theorem closed_socket_reads_as_unconnected w id r fuel timeoutms :
  record_of id w = Some r -> 0 < ref r < 2 ^ 31 ->
  (0 <= base r -> is_Some (_socket_base w !! Z.to_nat (base r))) ->
  exists w',
    socket_close id w = Done tt w' /\
    socket_is_socket id w' = Done true w' /\
    socket_state id w' = Done SOCKETSTATE_NOTCONNECTED w' /\
    socket_address_local id w' = Done None w' /\
    socket_address_remote id w' = Done None w' /\
    socket_blocking id w' = Done false w' /\
    socket_reuse_address id w' = Done false w' /\
    socket_reuse_port id w' = Done false w' /\
    tcp_socket_listen id w' = Done false w' /\
    tcp_socket_accept fuel id timeoutms w' = Done 0 w'.
Proof.
  intros Hr Href Hslot.
  destruct (record_of_inv _ _ _ Hr) as (m & p & Hm & Hid & Hp).
  destruct (socket_close_done w m id p r Hm Hid Hp Href Hslot) as (w' & E & Hm' & Hp').
  pose proof (closed_record_base_neg r) as Hneg.
  assert (Href' : 0 < ref (closed_record r) < 2 ^ 31) by (rewrite closed_record_ref; exact Href).
  exists w'. split; [exact E|].
  split; [eapply socket_is_socket_registered; eassumption|].
  split; [eapply socket_state_noslot; eassumption|].
  split; [eapply (socket_address_local_done w' m id p (closed_record r)); eassumption|].
  split; [eapply (socket_address_remote_done w' m id p (closed_record r)); eassumption|].
  split; [eapply socket_flag_getter_noslot; eassumption|].
  split; [eapply socket_flag_getter_noslot; eassumption|].
  split; [eapply socket_flag_getter_noslot; eassumption|].
  split; [eapply tcp_socket_listen_noslot; eassumption|].
  eapply tcp_socket_accept_noslot; eassumption.
Qed.

End Closed.
Section LastReference.
Context {cfg : Config} {krn : Kernel}.

Lemma closed_record_stream r : stream (closed_record r) = stream r.
Proof. unfold closed_record. destruct (0 <=? base r); reflexivity. Qed.

Lemma closed_record_sock_id r : sock_id (closed_record r) = sock_id r.
Proof. unfold closed_record. destruct (0 <=? base r); reflexivity. Qed.

(** _socket_deallocate on a record without a stream: the id leaves the
    registry, the slot and the descriptor are given back as by
    _socket_close, and the record leaves the heap. *)
Lemma _socket_deallocate_effect w m p r :
  _socket_map w = Some m -> heap w !! p = Some r -> stream r = None ->
  (0 <= base r -> is_Some (_socket_base w !! Z.to_nat (base r))) ->
  exists w',
    _socket_deallocate p w = Done tt w' /\
    _socket_map w' = Some {| om_size := om_size m; om_next := om_next m;
                             om_entries := delete (sock_id r) (om_entries m) |} /\
    heap w' = delete p (heap w) /\
    streams w' = streams w /\
    (base r < 0 -> _socket_base w' = _socket_base w /\ trace w' = trace w) /\
    (forall sb, 0 <= base r -> _socket_base w !! Z.to_nat (base r) = Some sb ->
       _socket_base w' = <[Z.to_nat (base r) := released_slot sb]> (_socket_base w) /\
       trace w' = close_calls (fd sb) ++ trace w).
Proof.
  intros Hm Hp Hst Hslot.
  unfold _socket_deallocate, _socket_deallocate_gen.
  mstep ltac:(apply load_done; exact Hp).
  mstep ltac:(unfold objectmap_free; munfold; rewrite Hm; reflexivity).
  assert (Hs' : stream (closed_record r) = None) by (rewrite closed_record_stream; exact Hst).
  destruct (Z_lt_le_dec (base r) 0) as [Hneg|Hpos].
  - mstep ltac:(eapply _socket_close_noslot; [wsimpl; exact Hp | exact Hneg]).
    mstep ltac:(apply load_done; apply lookup_insert_eq).
    rewrite Hs'.
    mstep ltac:(apply assert_done; reflexivity).
    unfold stream_deallocate_gen. mstep ltac:(reflexivity).
    eexists. split; [reflexivity|]. wsimpl.
    split; [reflexivity|]. split; [apply delete_insert_eq|]. split; [reflexivity|].
    split; [intros _; split; reflexivity | intros sb Hb; lia].
  - destruct (Hslot Hpos) as [sb Hsb].
    mstep ltac:(eapply _socket_close_slot; [wsimpl; exact Hp | exact Hpos | wsimpl; exact Hsb]).
    mstep ltac:(apply load_done; apply lookup_insert_eq).
    rewrite Hs'.
    mstep ltac:(apply assert_done; reflexivity).
    unfold stream_deallocate_gen. mstep ltac:(reflexivity).
    eexists. split; [reflexivity|]. wsimpl.
    split; [reflexivity|]. split; [apply delete_insert_eq|]. split; [reflexivity|].
    split; [intros Hb; lia|].
    intros sb' _ Hsb'. rewrite Hsb in Hsb'. injection Hsb' as <-. split; reflexivity.
Qed.

(** X8.  Giving back the last reference of a socket without a stream frees
    it: the id no longer resolves, the record is gone from the heap, its
    slot is released and its descriptor shut down and closed; and
    socket_is_socket says so. *)
Theorem socket_destroy_last_reference w m id p r :
  _socket_map w = Some m -> om_entries m !! id = Some p -> heap w !! p = Some r ->
  sock_id r = id -> ref r = 1 -> stream r = None ->
  (0 <= base r -> is_Some (_socket_base w !! Z.to_nat (base r))) ->
  exists w',
    socket_destroy id w = Done tt w' /\
    record_of id w' = None /\ heap w' !! p = None /\
    (base r < 0 -> _socket_base w' = _socket_base w /\ trace w' = trace w) /\
    (forall sb, 0 <= base r -> _socket_base w !! Z.to_nat (base r) = Some sb ->
       _socket_base w' !! Z.to_nat (base r) = Some (released_slot sb) /\
       trace w' = close_calls (fd sb) ++ trace w) /\
    socket_is_socket id w' = Done false w'.
Proof.
  intros Hm Hid Hp Hsid Href Hst Hslot.
  set (r1 := sock_with_ref (s32 (ref r - 1)) r).
  set (w1 := world_with_heap (<[p := r1]> (heap w)) w).
  destruct (_socket_deallocate_effect w1 m p r1) as (w' & E & Hm' & Hh' & _ & Hno & Hyes).
  { exact Hm. } { apply lookup_insert_eq. } { exact Hst. } { exact Hslot. }
  assert (Hent : om_entries {| om_size := om_size m; om_next := om_next m;
                               om_entries := delete (sock_id r1) (om_entries m) |} !! id = None).
  { cbn [om_entries]. change (sock_id r1) with (sock_id r). rewrite Hsid.
    apply lookup_delete_eq. }
  exists w'. split.
  { unfold socket_destroy, socket_destroy_gen.
    mstep ltac:(unfold objectmap_lookup; munfold; rewrite Hm; reflexivity).
    rewrite Hid.
    mstep ltac:(unfold atomic_decr32; mstep ltac:(apply load_done; exact Hp);
                mstep ltac:(eapply store_done; exact Hp); reflexivity).
    assert (C : (s32 (ref r - 1) =? 0) = true) by (rewrite Href; reflexivity).
    rewrite C. unfold when. exact E. }
  split. { unfold record_of. rewrite Hm'. cbn [mbind option_bind]. rewrite Hent. reflexivity. }
  split. { rewrite Hh'. apply lookup_delete_eq. }
  split. { exact Hno. }
  split.
  { intros sb Hb Hsb. destruct (Hyes sb Hb Hsb) as [Eb Et].
    split; [|exact Et]. rewrite Eb.
    apply list_lookup_insert_eq. eapply lookup_lt_Some. exact Hsb. }
  unfold socket_is_socket.
  mstep ltac:(eapply _socket_lookup_none; [exact Hm' | exact Hent]).
  mstep ltac:(eapply socket_destroy_none; [exact Hm' | exact Hent]).
  reflexivity.
Qed.

End LastReference.
Section Create.
Context {cfg : Config} {krn : Kernel}.

(** X9.  tcp_socket_create on a registry that is absent (before
    _socket_initialize, after _socket_shutdown) or full returns 0 and
    allocates nothing. *)
Theorem tcp_socket_create_refused w :
  (_socket_map w = None \/
   exists m, _socket_map w = Some m /\ om_size m <= Z.of_nat (size (om_entries m))) ->
  tcp_socket_create w = Done 0 w.
Proof.
  intros [Hm|(m & Hm & Hfull)];
    unfold tcp_socket_create, _tcp_socket_allocate, _socket_allocate.
  - rewrite !bind_assoc.
    mstep ltac:(unfold gets; rewrite Hm; reflexivity).
    rewrite bool_decide_eq_false_2 by (intros [? ?]; discriminate).
    mstep ltac:(reflexivity). reflexivity.
  - rewrite !bind_assoc.
    mstep ltac:(unfold gets; rewrite Hm; reflexivity).
    rewrite bool_decide_eq_true_2 by (eexists; reflexivity).
    assert (C : (om_size m <=? Z.of_nat (size (om_entries m))) = true) by lia.
    mstep ltac:(unfold objectmap_reserve; mstep ltac:(apply the_map_done; exact Hm);
                rewrite C; reflexivity).
    reflexivity.
Qed.

(** X10.  tcp_socket_create on a registry with room hands out the next id
    and registers a fresh record under it: one reference, no slot, no
    addresses, no stream, empty rings, the TCP hooks installed.  Nothing
    else is touched: the other ids and records, the slot table and the
    kernel. *)
Theorem tcp_socket_create_fresh w m :
  _socket_map w = Some m -> Z.of_nat (size (om_entries m)) < om_size m ->
  om_next m <> 0 ->
  exists w' r,
    tcp_socket_create w = Done (om_next m) w' /\
    record_of (om_next m) w' = Some r /\
    sock_id r = om_next m /\ ref r = 1 /\ base r = -1 /\
    address_local r = None /\ address_remote r = None /\ stream r = None /\
    offset_read_in r = 0 /\ offset_write_in r = 0 /\ offset_write_out r = 0 /\
    bytes_read r = 0 /\ bytes_written r = 0 /\
    open_fn r = true /\ connect_fn r = true /\ read_fn r = true /\ write_fn r = true /\
    (forall id, id <> om_next m ->
       (_socket_map w' ≫= fun m' => om_entries m' !! id) = om_entries m !! id) /\
    (forall p, p <> next_ptr w -> heap w' !! p = heap w !! p) /\
    _socket_base w' = _socket_base w /\ trace w' = trace w.
Proof.
  intros Hm Hroom Hnext.
  assert (C : (om_size m <=? Z.of_nat (size (om_entries m))) = false) by lia.
  apply Z.eqb_neq in Hnext.
  eexists _, _. split.
  { unfold tcp_socket_create, _tcp_socket_allocate, _socket_allocate.
    rewrite !bind_assoc.
    mstep ltac:(unfold gets; rewrite Hm; reflexivity).
    rewrite bool_decide_eq_true_2 by (eexists; reflexivity).
    mstep ltac:(unfold objectmap_reserve; mstep ltac:(apply the_map_done; exact Hm);
                rewrite C; mstep ltac:(reflexivity); reflexivity).
    rewrite Hnext.
    mstep ltac:(reflexivity).
    mstep ltac:(eapply update_done; apply lookup_insert_eq).
    mstep ltac:(unfold objectmap_set; mstep ltac:(apply the_map_done; reflexivity);
                reflexivity).
    mstep ltac:(reflexivity).
    mstep ltac:(eapply update_done; apply lookup_insert_eq).
    mstep ltac:(reflexivity).
    mstep ltac:(apply load_done; apply lookup_insert_eq).
    reflexivity. }
  wsimpl. rewrite !insert_insert_eq.
  split.
  { unfold record_of. wsimpl. cbn [mbind option_bind om_entries].
    rewrite lookup_insert_eq. cbn [mbind option_bind]. apply lookup_insert_eq. }
  repeat (split; [reflexivity|]).
  split. { intros id Hne. cbn [mbind option_bind om_entries]. apply lookup_insert_ne. congruence. }
  split. { intros p Hne. apply lookup_insert_ne. congruence. }
  split; reflexivity.
Qed.

End Create.

Section Stream.
Context {cfg : Config} {krn : Kernel}.

Lemma socket_stream_first w m id p r :
  _socket_map w = Some m -> om_entries m !! id = Some p -> heap w !! p = Some r ->
  stream r = None -> stream_initialize_fn r = false ->
  socket_stream id w
  = Done (Some (next_ptr w))
      (world_with_heap
         (<[p := sock_with_stream (Some (next_ptr w)) (sock_with_ref (s32 (ref r + 1)) r)]> (heap w))
         (world_with_next_ptr (next_ptr w + 1)
            (world_with_streams
               (<[next_ptr w := {| stream_type_socket := true; stream_sequential := true;
                                   stream_vtable := true; stream_socket := id |}]> (streams w))
               w))).
Proof.
  intros Hm Hid Hp Hst Hinit.
  unfold socket_stream. run_lookup Hm Hid Hp.
  mstep ltac:(apply load_done; apply lookup_insert_eq).
  cbn [stream sock_with_ref stream_initialize_fn]. rewrite Hst, Hinit.
  mstep ltac:(reflexivity).
  mstep ltac:(eapply update_done; apply lookup_insert_eq).
  mstep ltac:(reflexivity).
  wsimpl. rewrite insert_insert_eq. reflexivity.
Qed.

Lemma socket_stream_again w m id p r s :
  _socket_map w = Some m -> om_entries m !! id = Some p -> heap w !! p = Some r ->
  stream r = Some s -> 0 < ref r < 2 ^ 31 ->
  socket_stream id w = Done (Some s) w.
Proof.
  intros Hm Hid Hp Hst Href.
  unfold socket_stream. run_lookup Hm Hid Hp.
  mstep ltac:(apply load_done; apply lookup_insert_eq).
  cbn [stream sock_with_ref]. rewrite Hst.
  mstep ltac:(eapply socket_destroy_after_lookup; eassumption).
  reflexivity.
Qed.

End Stream.

Section StreamRoundTrip.
Context {cfg : Config} {krn : Kernel}.

(** The finalizer on a record that others hold too. *)
Lemma _socket_stream_finalize_shared w s ss m p r :
  streams w !! s = Some ss -> stream_type_socket ss = true ->
  stream_socket ss <> 0 ->
  _socket_map w = Some m -> om_entries m !! stream_socket ss = Some p ->
  heap w !! p = Some r -> stream r = Some s -> 1 < ref r < 2 ^ 31 - 1 ->
  _socket_stream_finalize s w
  = Done tt
      (world_with_heap (<[p := sock_with_ref (ref r - 1) (sock_with_stream None r)]> (heap w))
         (world_with_streams
            (<[s := {| stream_type_socket := stream_type_socket ss;
                       stream_sequential := stream_sequential ss;
                       stream_vtable := stream_vtable ss; stream_socket := 0 |}]> (streams w))
            w)).
Proof.
  intros Hs Hty Hnz Hm Hid Hp Hback Href.
  assert (Cnz : nonzero (stream_socket ss) = true)
    by (unfold nonzero; apply negb_true_iff, Z.eqb_neq; exact Hnz).
  unfold _socket_stream_finalize, _socket_stream_finalize_gen.
  mstep ltac:(apply load_stream_done; exact Hs).
  mstep ltac:(apply assert_done; exact Hty).
  rewrite Cnz. unfold when at 1 2.
  run_lookup Hm Hid Hp.
  mstep ltac:(apply load_done; apply lookup_insert_eq).
  mstep ltac:(apply assert_done; cbn [stream sock_with_ref]; rewrite Hback;
              apply bool_decide_eq_true_2; reflexivity).
  mstep ltac:(eapply store_done; apply lookup_insert_eq).
  change (socket_destroy_gen _socket_stream_finalize_nested) with socket_destroy.
  mstep ltac:(eapply (socket_destroy_done _ m (stream_socket ss) p);
              [ exact Hm | exact Hid | apply lookup_insert_eq
              | cbn [ref sock_with_ref sock_with_stream]; rewrite s32_incr_decr by lia; lia ]).
  mstep ltac:(apply load_stream_done; exact Hs).
  mstep ltac:(unfold store_stream; wsimpl; rewrite Hs; reflexivity).
  erewrite (socket_destroy_done _ m (stream_socket ss) p);
    [ | exact Hm | exact Hid | apply lookup_insert_eq
      | cbn [ref sock_with_ref sock_with_stream]; rewrite s32_incr_decr by lia;
        rewrite s32_id by lia; lia ].
  f_equal. wsimpl. rewrite !insert_insert_eq.
  cbn [ref sock_with_ref sock_with_stream]. rewrite s32_incr_decr by lia.
  rewrite (s32_id (ref r - 1)) by lia.
  reflexivity.
Qed.

(** X11.  socket_stream wraps a socket in a stream once: the first call
    allocates the adapter and keeps the reference of its lookup for it; a
    second call returns the same adapter and changes nothing.  The
    finalizer of the adapter undoes the first call: the record is again
    exactly as it was before the stream was made, and the adapter no
    longer names the socket. *)
Theorem socket_stream_round_trip w id r :
  record_of id w = Some r -> id <> 0 ->
  stream r = None -> stream_initialize_fn r = false ->
  0 < ref r < 2 ^ 31 - 2 ->
  exists s w1 w2,
    socket_stream id w = Done (Some s) w1 /\
    record_of id w1 = Some (sock_with_stream (Some s) (sock_with_ref (ref r + 1) r)) /\
    socket_stream id w1 = Done (Some s) w1 /\
    _socket_stream_finalize s w1 = Done tt w2 /\
    heap w2 = heap w /\ _socket_map w2 = _socket_map w /\
    _socket_base w2 = _socket_base w /\ trace w2 = trace w /\
    stream_socket <$> streams w2 !! s = Some 0.
Proof.
  intros Hr Hnz Hst Hinit Href.
  destruct (record_of_inv _ _ _ Hr) as (m & p & Hm & Hid & Hp).
  pose proof (socket_stream_first w m id p r Hm Hid Hp Hst Hinit) as E1.
  rewrite (s32_id (ref r + 1)) in E1 by lia.
  set (s := next_ptr w) in *.
  set (r1 := sock_with_stream (Some s) (sock_with_ref (ref r + 1) r)) in *.
  match type of E1 with _ = Done _ ?w1' => set (w1 := w1') in * end.
  assert (Hp1 : heap w1 !! p = Some r1) by apply lookup_insert_eq.
  assert (Hs1 : streams w1 !! s
                = Some {| stream_type_socket := true; stream_sequential := true;
                          stream_vtable := true; stream_socket := id |})
    by apply lookup_insert_eq.
  exists s, w1. eexists. split; [exact E1|].
  split. { eapply record_of_Some; [exact Hm | exact Hid | exact Hp1]. }
  split. { eapply (socket_stream_again w1 m id p r1 s); [exact Hm | exact Hid | exact Hp1 | reflexivity | ].
           cbn [ref r1 sock_with_stream sock_with_ref]. lia. }
  split.
  { eapply (_socket_stream_finalize_shared w1 s _ m p r1);
      [ exact Hs1 | reflexivity | exact Hnz | exact Hm | exact Hid | exact Hp1 | reflexivity | ].
    cbn [ref r1 sock_with_stream sock_with_ref]. lia. }
  subst w1. wsimpl. rewrite insert_insert_eq.
  split.
  { cbn [ref r1 sock_with_stream sock_with_ref].
    replace (ref r + 1 - 1) with (ref r) by lia.
    apply insert_id. rewrite Hp. f_equal. rewrite <- Hst. destruct r; reflexivity. }
  split; [reflexivity|]. split; [reflexivity|]. split; [reflexivity|].
  rewrite lookup_insert_eq. reflexivity.
Qed.

End StreamRoundTrip.
Section Poll.
Context {cfg : Config} {krn : Kernel}.

(** X12.  Polling a slot whose state is NOT_CONNECTED, DISCONNECTED or
    LISTENING reports that state and does nothing else: no system call, no
    lookup, no change. *)
Theorem _socket_poll_state_at_rest w i sb :
  0 <= i -> _socket_base w !! Z.to_nat i = Some sb ->
  state sb <> SOCKETSTATE_CONNECTING -> state sb <> SOCKETSTATE_CONNECTED ->
  _socket_poll_state i w = Done (state sb) w.
Proof.
  intros Hi Hs Hc1 Hc2.
  destruct (state sb) eqn:E; try congruence.
  - rewrite <- E. eapply _socket_poll_state_settled; eauto.
  - eapply _socket_poll_state_listening; eauto.
  - rewrite <- E. eapply _socket_poll_state_settled; eauto.
Qed.

(** X13.  Polling a CONNECTED slot probes the descriptor with FIONREAD.
    While the probe is not negative the slot stays CONNECTED.  When it is
    negative (hang-up) and bytes are still buffered, the slot goes to
    DISCONNECTED and the socket is kept, so that the bytes can be read;
    when nothing is buffered the socket is closed and the poll reports
    NOT_CONNECTED. *)
Theorem _socket_poll_state_connected w sb m p r :
  0 <= base r -> _socket_base w !! Z.to_nat (base r) = Some sb ->
  _socket_map w = Some m -> om_entries m !! object sb = Some p ->
  heap w !! p = Some r -> sock_id r = object sb -> 0 < ref r < 2 ^ 31 - 1 ->
  state sb = SOCKETSTATE_CONNECTED ->
  let probe := probe_value (fd sb) (length (trace w)) in
  let probed := world_with_trace (probe_calls (fd sb) ++ trace w) w in
  (0 <= probe -> _socket_poll_state (base r) w = Done SOCKETSTATE_CONNECTED probed) /\
  (probe < 0 -> buffered_in r <> 0 ->
     _socket_poll_state (base r) w
     = Done SOCKETSTATE_DISCONNECTED
         (world_with_base
            (<[Z.to_nat (base r) := base_with_state SOCKETSTATE_DISCONNECTED sb]>
               (_socket_base w))
            probed)) /\
  (probe < 0 -> buffered_in r = 0 ->
     exists w', _socket_poll_state (base r) w = Done SOCKETSTATE_NOTCONNECTED w' /\
       record_of (object sb) w' = Some (closed_record r) /\
       _socket_base w' !! Z.to_nat (base r) = Some (released_slot sb) /\
       trace w' = close_calls (fd sb) ++ probe_calls (fd sb) ++ trace w).
Proof.
  intros Hi Hs Hm Hown Hp Hid Href Hst probe probed.
  split; [|split].
  - intros Hprobe. eapply _socket_poll_state_connected_alive; eassumption.
  - intros Hprobe Hbuf. eapply _socket_poll_state_connected_hangup_buffered; eassumption.
  - intros Hprobe Hbuf. eexists. split.
    + eapply _socket_poll_state_connected_hangup_drained; eassumption.
    + wsimpl. split.
      * eapply record_of_Some; [exact Hm | exact Hown | apply lookup_insert_eq].
      * split; [|reflexivity]. apply list_lookup_insert_eq. eapply lookup_lt_Some. exact Hs.
Qed.

End Poll.
Section AllocateBase.
Context {cfg : Config} {krn : Kernel}.

(** One round of the claim loop that finds the cursor past the table or on
    a slot that is taken: the cursor moves on, nothing else does. *)
Lemma _socket_allocate_base_loop_skip fuel p maxbase w :
  (maxbase <= _socket_base_next w \/
   exists sb, 0 <= _socket_base_next w /\
     _socket_base w !! Z.to_nat (_socket_base_next w) = Some sb /\ object sb <> 0) ->
  _socket_allocate_base_loop (S fuel) p maxbase w
  = _socket_allocate_base_loop fuel p maxbase
      (world_with_base_next (s32 (_socket_base_next w + 1)) w).
Proof.
  intros H. cbn [_socket_allocate_base_loop].
  mstep ltac:(reflexivity).
  destruct (maxbase <=? _socket_base_next w) eqn:C; [reflexivity|].
  destruct H as [H|(sb & Hc & Hs & Hobj)]; [lia|].
  mstep ltac:(eapply load_base_done; [exact Hc | exact Hs]).
  assert (Cn : nonzero (object sb) = true)
    by (unfold nonzero; apply negb_true_iff, Z.eqb_neq; exact Hobj).
  rewrite Cn. reflexivity.
Qed.

(** One round that finds a free slot under the cursor. *)
Lemma _socket_allocate_base_loop_claim fuel p r maxbase w sb :
  heap w !! p = Some r ->
  0 <= _socket_base_next w < maxbase ->
  _socket_base w !! Z.to_nat (_socket_base_next w) = Some sb -> object sb = 0 ->
  _socket_allocate_base_loop (S fuel) p maxbase w
  = Done (_socket_base_next w)
      (world_with_base
         (<[Z.to_nat (_socket_base_next w) :=
              {| object := sock_id r; fd := SOCKET_INVALID; flags := 0;
                 state := SOCKETSTATE_NOTCONNECTED; last_event := 0 |}]> (_socket_base w))
         (world_with_heap (<[p := sock_with_base (_socket_base_next w) r]> (heap w))
            (world_with_base_next (s32 (_socket_base_next w + 1)) w))).
Proof.
  intros Hp Hc Hs Hobj. cbn [_socket_allocate_base_loop].
  mstep ltac:(reflexivity).
  assert (C : (maxbase <=? _socket_base_next w) = false) by lia. rewrite C.
  mstep ltac:(eapply load_base_done; [lia | exact Hs]).
  unfold nonzero. rewrite Hobj. cbn [Z.eqb negb].
  mstep ltac:(apply load_done; exact Hp).
  mstep ltac:(eapply load_base_done; [lia | exact Hs]).
  rewrite Hobj. cbn [Z.eqb].
  mstep ltac:(eapply store_done; exact Hp).
  mstep ltac:(eapply store_base_done; [lia | exact Hs]).
  reflexivity.
Qed.

(** The loop spins as long as every slot from the cursor to the end of the
    table is taken. *)
Lemma _socket_allocate_base_loop_spins fuel : forall p maxbase w,
  _socket_base_next w + Z.of_nat fuel < 2 ^ 31 -> 0 <= _socket_base_next w ->
  (forall i, _socket_base_next w <= i < maxbase ->
     exists sb, _socket_base w !! Z.to_nat i = Some sb /\ object sb <> 0) ->
  _socket_allocate_base_loop fuel p maxbase w = OutOfFuel.
Proof.
  induction fuel as [|fuel IH]; intros p maxbase w Hwrap Hc Htaken; [reflexivity|].
  rewrite _socket_allocate_base_loop_skip.
  - apply IH; wsimpl; rewrite s32_id by lia; try lia.
    intros i Hi. apply Htaken. lia.
  - destruct (Z_le_gt_dec maxbase (_socket_base_next w)) as [Hle|Hgt]; [left; exact Hle|].
    right. destruct (Htaken (_socket_base_next w)) as (sb & Hs & Hobj); [lia|].
    exists sb. auto.
Qed.

(** X14.  _socket_allocate_base looks for a free slot from the cursor
    upwards only, and the cursor never goes back: once every slot from the
    cursor to the end of the table is taken (in particular once the cursor
    has passed the end), a socket without a slot is never given one,
    whatever slots were released below the cursor: the loop does not
    finish in any number of rounds (short of wrapping the 32-bit cursor). *)
Theorem _socket_allocate_base_never_looks_back fuel w p r :
  heap w !! p = Some r -> base r < 0 ->
  0 <= _socket_base_next w -> _socket_base_next w + Z.of_nat fuel < 2 ^ 31 ->
  (forall i, _socket_base_next w <= i < _socket_base_size w ->
     exists sb, _socket_base w !! Z.to_nat i = Some sb /\ object sb <> 0) ->
  _socket_allocate_base fuel p w = OutOfFuel.
Proof.
  intros Hp Hb Hc Hwrap Htaken.
  assert (C : (0 <=? base r) = false) by lia.
  unfold _socket_allocate_base.
  mstep ltac:(apply load_done; exact Hp). rewrite C.
  mstep ltac:(reflexivity).
  apply _socket_allocate_base_loop_spins; assumption.
Qed.

(** The loop reaches the first free slot at or above the cursor. *)
Lemma _socket_allocate_base_loop_finds n : forall fuel p r maxbase w i sb,
  heap w !! p = Some r ->
  0 <= _socket_base_next w -> i = _socket_base_next w + Z.of_nat n ->
  i < maxbase -> i < 2 ^ 31 - 1 ->
  (n < fuel)%nat ->
  (forall j, _socket_base_next w <= j < i ->
     exists sb', _socket_base w !! Z.to_nat j = Some sb' /\ object sb' <> 0) ->
  _socket_base w !! Z.to_nat i = Some sb -> object sb = 0 ->
  _socket_allocate_base_loop fuel p maxbase w
  = Done i
      (world_with_base
         (<[Z.to_nat i :=
              {| object := sock_id r; fd := SOCKET_INVALID; flags := 0;
                 state := SOCKETSTATE_NOTCONNECTED; last_event := 0 |}]> (_socket_base w))
         (world_with_heap (<[p := sock_with_base i r]> (heap w))
            (world_with_base_next (i + 1) w))).
Proof.
  induction n as [|n IH]; intros fuel p r maxbase w i sb Hp Hc Hi Hmax Hwrap Hfuel Htaken Hs Hobj.
  - destruct fuel as [|fuel]; [lia|].
    assert (E : i = _socket_base_next w) by lia. clear Hi. subst i.
    erewrite _socket_allocate_base_loop_claim; [| exact Hp | lia | exact Hs | exact Hobj].
    rewrite s32_id by lia. reflexivity.
  - destruct fuel as [|fuel]; [lia|].
    rewrite _socket_allocate_base_loop_skip.
    2:{ right. destruct (Htaken (_socket_base_next w)) as (sb' & Hs' & Hobj'); [lia|].
        exists sb'. auto. }
    erewrite (IH fuel p r maxbase _ i sb); wsimpl; rewrite ?s32_id by lia;
      try eassumption; try lia.
    + reflexivity.
    + intros j Hj. apply Htaken. lia.
Qed.

(** A record without a slot claims the first free one at or behind the
    cursor. *)
Lemma _socket_allocate_base_finds fuel w p r i sb :
  heap w !! p = Some r -> base r < 0 ->
  0 <= _socket_base_next w <= i -> i < _socket_base_size w -> i < 2 ^ 31 - 1 ->
  i - _socket_base_next w < Z.of_nat fuel ->
  (forall j, _socket_base_next w <= j < i ->
     exists sb', _socket_base w !! Z.to_nat j = Some sb' /\ object sb' <> 0) ->
  _socket_base w !! Z.to_nat i = Some sb -> object sb = 0 ->
  _socket_allocate_base fuel p w
  = Done i
      (world_with_base
         (<[Z.to_nat i :=
              {| object := sock_id r; fd := SOCKET_INVALID; flags := 0;
                 state := SOCKETSTATE_NOTCONNECTED; last_event := 0 |}]> (_socket_base w))
         (world_with_heap (<[p := sock_with_base i r]> (heap w))
            (world_with_base_next (i + 1) w))).
Proof.
  intros Hp Hb Hc Hmax Hwrap Hfuel Htaken Hs Hobj.
  assert (C : (0 <=? base r) = false) by lia.
  unfold _socket_allocate_base.
  mstep ltac:(apply load_done; exact Hp). rewrite C.
  mstep ltac:(reflexivity).
  eapply (_socket_allocate_base_loop_finds (Z.to_nat (i - _socket_base_next w)));
    try eassumption; lia.
Qed.

(** X15.  A socket without a slot is given the first free slot at or above
    the cursor: the slot is initialised for it (owner, no descriptor, no
    flags, NOT_CONNECTED), the record names the slot, the cursor is left
    just above it, and the slots passed over are untouched.  A socket that
    has a slot keeps it, and the call changes nothing. *)
Theorem _socket_allocate_base_first_free fuel w p r i sb :
  heap w !! p = Some r ->
  0 <= _socket_base_next w <= i -> i < _socket_base_size w -> i < 2 ^ 31 - 1 ->
  i - _socket_base_next w < Z.of_nat fuel ->
  (forall j, _socket_base_next w <= j < i ->
     exists sb', _socket_base w !! Z.to_nat j = Some sb' /\ object sb' <> 0) ->
  _socket_base w !! Z.to_nat i = Some sb -> object sb = 0 ->
  (base r < 0 ->
   _socket_allocate_base fuel p w
   = Done i
       (world_with_base
          (<[Z.to_nat i :=
               {| object := sock_id r; fd := SOCKET_INVALID; flags := 0;
                  state := SOCKETSTATE_NOTCONNECTED; last_event := 0 |}]> (_socket_base w))
          (world_with_heap (<[p := sock_with_base i r]> (heap w))
             (world_with_base_next (i + 1) w)))) /\
  (0 <= base r -> _socket_allocate_base fuel p w = Done (base r) w).
Proof.
  intros Hp Hc Hmax Hwrap Hfuel Htaken Hs Hobj. split; intros Hb.
  - eapply _socket_allocate_base_finds; eassumption.
  - assert (C : (0 <=? base r) = true) by lia.
    unfold _socket_allocate_base.
    mstep ltac:(apply load_done; exact Hp). rewrite C. reflexivity.
Qed.

End AllocateBase.
Section Shutdown.
Context {cfg : Config} {krn : Kernel}.

(** X16.  _socket_shutdown drops the registry and the slot table and does
    nothing else: no descriptor is closed and no record is freed, so what
    the sockets alive at shutdown held stays held.  Afterwards
    tcp_socket_create returns 0; and a new _socket_initialize starts from
    an empty registry in which no earlier id resolves, while the earlier
    records are still on the heap. *)
Theorem _socket_shutdown_releases_nothing w max_sockets :
  exists w',
    _socket_shutdown w = Done tt w' /\
    _socket_map w' = None /\ _socket_base w' = [] /\
    heap w' = heap w /\ streams w' = streams w /\ trace w' = trace w /\
    tcp_socket_create w' = Done 0 w' /\
    exists w'',
      _socket_initialize max_sockets w' = Done 0 w'' /\
      heap w'' = heap w /\ trace w'' = trace w /\
      forall id, record_of id w'' = None.
Proof.
  eexists. split; [reflexivity|]. wsimpl.
  do 5 (split; [reflexivity|]).
  split; [reflexivity|].
  eexists. split; [reflexivity|]. wsimpl.
  do 2 (split; [reflexivity|]).
  intros id. reflexivity.
Qed.

End Shutdown.

Section SeekTell.
Context {cfg : Config} {krn : Kernel}.

(** X17.  Only a forward seek from the current position moves a socket
    stream: a seek from the beginning or the end, or backwards, reads
    nothing and changes nothing.  tell is the count of bytes read so far
    (as a signed 64-bit value), and it changes nothing either. *)
Theorem _socket_seek_only_forward w s ss r fuel offset direction :
  streams w !! s = Some ss -> stream_type_socket ss = true ->
  record_of (stream_socket ss) w = Some r -> 0 < ref r < 2 ^ 31 ->
  (direction <> STREAM_SEEK_CURRENT \/ offset < 0 ->
     _socket_seek fuel s offset direction w = Done tt w) /\
  _socket_tell s w = Done ((bytes_read r + 2 ^ 63) mod 2 ^ 64 - 2 ^ 63) w.
Proof.
  intros Hs Hty Hr Href.
  destruct (record_of_inv _ _ _ Hr) as (m & p & Hm & Hid & Hp).
  split.
  - intros Hdir. unfold _socket_seek.
    mstep ltac:(apply load_stream_done; exact Hs).
    mstep ltac:(apply assert_done; exact Hty).
    run_lookup Hm Hid Hp.
    assert (E : (match direction with
                 | STREAM_SEEK_CURRENT =>
                     if offset <? 0 then ret tt
                     else _socket_read fuel s None offset;; ret tt
                 | _ => ret tt
                 end) = ret tt).
    { destruct direction; try reflexivity.
      destruct Hdir as [Hd|Ho]; [congruence|].
      assert (C : (offset <? 0) = true) by lia. rewrite C. reflexivity. }
    rewrite E.
    mstep ltac:(reflexivity).
    mstep ltac:(apply load_stream_done; exact Hs).
    eapply socket_destroy_after_lookup; eassumption.
  - unfold _socket_tell.
    mstep ltac:(apply load_stream_done; exact Hs).
    mstep ltac:(apply assert_done; exact Hty).
    run_lookup Hm Hid Hp.
    mstep ltac:(apply load_done; apply lookup_insert_eq).
    mstep ltac:(apply load_stream_done; exact Hs).
    mstep ltac:(eapply socket_destroy_after_lookup; eassumption).
    reflexivity.
Qed.

End SeekTell.
Section ConnectOutcomes.
Context {cfg : Config} {krn : Kernel}.

(** _tcp_socket_connect without a timeout when the kernel connects at
    once. *)
Lemma _tcp_socket_connect_at_once fuel w p r sb address :
  heap w !! p = Some r -> 0 <= base r ->
  _socket_base w !! Z.to_nat (base r) = Some sb ->
  fst (k_connect (length (trace w))) = 0 ->
  addr_family address = NETWORK_ADDRESSFAMILY_IPV4 \/
  addr_family address = NETWORK_ADDRESSFAMILY_IPV6 ->
  exists w' r',
    _tcp_socket_connect fuel p address 0 w = Done 0 w' /\
    _socket_map w' = _socket_map w /\
    _socket_base w'
    = <[Z.to_nat (base r) := base_with_state SOCKETSTATE_CONNECTED sb]> (_socket_base w) /\
    heap w' !! p = Some r' /\ ref r' = ref r /\ base r' = base r /\
    address_remote r' = Some address.
Proof.
  intros Hp Hb Hs Hres Hfam.
  assert (C1 : (base r <? 0) = false) by lia.
  pose (w1 := world_with_heap (<[p := sock_with_address_remote (Some address) r]> (heap w))
                (world_with_base
                   (<[Z.to_nat (base r) := base_with_state SOCKETSTATE_CONNECTED sb]>
                      (_socket_base w))
                   (world_with_trace (SYS_connect (fd sb) address :: trace w) w))).
  assert (E : _tcp_socket_connect fuel p address 0 w
              = (r1 <- load p;;
                 when (negb (bool_decide (is_Some (address_local r1))))
                   (_socket_store_address_local p (addr_family address));;
                 ret 0) w1).
  { unfold _tcp_socket_connect.
    mstep ltac:(apply load_done; eassumption). rewrite C1. cbv zeta.
    mstep ltac:(eapply load_base_done; eassumption).
    change (0 <? 0) with false. cbn [andb]. unfold when at 1 2.
    mstep ltac:(reflexivity).
    mstep ltac:(eapply load_base_done; eassumption).
    mstep ltac:(apply syscall_done).
    rewrite Hres. change (0 =? 0) with true. cbv iota.
    mstep ltac:(eapply update_base_done; side).
    mstep ltac:(reflexivity).
    mstep ltac:(reflexivity). cbn [fst].
    mstep ltac:(eapply update_done; side).
    reflexivity. }
  rewrite E. clear E.
  assert (Hp1 : heap w1 !! p = Some (sock_with_address_remote (Some address) r))
    by apply lookup_insert_eq.
  mstep ltac:(apply load_done; exact Hp1).
  cbn [address_local sock_with_address_remote].
  destruct (address_local r) as [l|] eqn:Hl.
  - exists w1, (sock_with_address_remote (Some address) r).
    split; [reflexivity|]. repeat split; try reflexivity. exact Hp1.
  - destruct (_socket_store_address_local_done w1 p _ (base_with_state SOCKETSTATE_CONNECTED sb)
                (addr_family address) Hp1 Hb) as (w2 & l & E2 & Hm2 & Hs2 & Hp2);
      [apply list_lookup_insert_eq; eapply lookup_lt_Some; exact Hs | exact Hfam |].
    exists w2. eexists. split.
    { unfold when. cbn [negb]. mstep ltac:(exact E2). reflexivity. }
    rewrite Hm2, Hs2. split; [reflexivity|]. split; [reflexivity|].
    split; [exact Hp2|]. repeat split; reflexivity.
Qed.

(** _tcp_socket_connect without a timeout when the kernel refuses. *)
Lemma _tcp_socket_connect_refused fuel w p r sb address :
  heap w !! p = Some r -> 0 <= base r ->
  _socket_base w !! Z.to_nat (base r) = Some sb ->
  fst (k_connect (length (trace w))) <> 0 ->
  snd (k_connect (length (trace w))) <> EINPROGRESS ->
  _tcp_socket_connect fuel p address 0 w
  = Done (snd (k_connect (length (trace w))))
      (world_with_trace (SYS_connect (fd sb) address :: trace w) w).
Proof.
  intros Hp Hb Hs Hres Herr.
  assert (C1 : (base r <? 0) = false) by lia.
  assert (C2 : (fst (k_connect (length (trace w))) =? 0) = false) by lia.
  assert (C3 : (snd (k_connect (length (trace w))) =? EINPROGRESS) = false) by lia.
  unfold _tcp_socket_connect.
  mstep ltac:(apply load_done; eassumption). rewrite C1. cbv zeta.
  mstep ltac:(eapply load_base_done; eassumption).
  change (0 <? 0) with false. cbn [andb]. unfold when at 1 2.
  mstep ltac:(reflexivity).
  mstep ltac:(eapply load_base_done; eassumption).
  mstep ltac:(apply syscall_done).
  rewrite C2, C3.
  mstep ltac:(reflexivity).
  mstep ltac:(reflexivity). cbn [fst snd].
  reflexivity.
Qed.

(** X18.  The two other outcomes of a connect without a timeout on a
    socket that is not connected.  When the kernel connects at once, the
    call returns true, the socket is CONNECTED and the remote address is
    recorded.  When the kernel refuses (an error other than in-progress),
    the call returns false, the socket stays NOT_CONNECTED with its
    descriptor open, and the remote address is left as it was.  The
    reference count is as before in both. *)
Theorem socket_connect_at_once_or_refused fuel w id address m p r fd_ w2 :
  _socket_map w = Some m -> om_entries m !! id = Some p -> heap w !! p = Some r ->
  0 < ref r < 2 ^ 31 - 1 ->
  connect_fn r = true ->
  state_of id w = SOCKETSTATE_NOTCONNECTED ->
  addr_family address = NETWORK_ADDRESSFAMILY_IPV4 \/
  addr_family address = NETWORK_ADDRESSFAMILY_IPV6 ->
  _socket_create_fd fuel p (addr_family address) (after (_socket_lookup id) w) = Done fd_ w2 ->
  fd_ <> SOCKET_INVALID ->
  let answer := k_connect (length (trace w2)) in
  (fst answer = 0 ->
   exists w',
     socket_connect fuel id address 0 w = Done true w' /\
     state_of id w' = SOCKETSTATE_CONNECTED /\ fd_of id w' = fd_ /\
     ref_of id w' = Some (ref r) /\
     address_remote <$> record_of id w' = Some (Some address)) /\
  (fst answer <> 0 -> snd answer <> EINPROGRESS -> snd answer <> 0 ->
   exists w',
     socket_connect fuel id address 0 w = Done false w' /\
     state_of id w' = SOCKETSTATE_NOTCONNECTED /\ fd_of id w' = fd_ /\
     ref_of id w' = Some (ref r) /\
     address_remote <$> record_of id w' = Some (address_remote r)).
Proof.
  intros Hm Hid Hp Href Hfn Hst Hfam Hfd Hvalid answer.
  pose proof (_socket_lookup_done w m id p r Hm Hid Hp) as El.
  rewrite (s32_id (ref r + 1)) in El by lia.
  unfold after in Hfd. rewrite El in Hfd.
  set (r1 := sock_with_ref (ref r + 1) r) in *.
  set (w1 := world_with_heap (<[p := r1]> (heap w)) w) in *.
  assert (HJ : unconnected m p r1 None w1).
  { split; [exact Hm|]. exists r1. split; [apply lookup_insert_eq|].
    split; [repeat split|]. split; [exact I|].
    intros sb Hb Hs. eapply (state_of_unconnected w id r); eauto.
    eapply record_of_Some; eassumption. }
  destruct (_socket_create_fd_frame m p r1 fuel (addr_family address) w1 fd_ w2 HJ Hfd Hvalid)
    as (b & sb & (Hm2 & r2 & Hp2 & Hid2 & [Hb2 Hpos] & Hs2) & Hsb & Hfdsb).
  destruct Hid2 as (_ & Href2 & _ & Hfn2 & _ & Hrem2).
  cbn [ref connect_fn address_remote r1 sock_with_ref] in Href2, Hfn2, Hrem2.
  assert (Hnc : state sb = SOCKETSTATE_NOTCONNECTED)
    by (apply Hs2; rewrite Hb2; [exact Hpos | exact Hsb]).
  subst b.
  set (clear_pending := fun b : socket_base_t =>
         base_with_last_event 0
           (base_with_flags
              (Z.land (flags b)
                 (Z.lnot (Z.lor (Z.lor SOCKETFLAG_CONNECTION_PENDING SOCKETFLAG_ERROR_PENDING)
                                SOCKETFLAG_HANGUP_PENDING))) b)).
  pose (w3 := world_with_base (<[Z.to_nat (base r2) := clear_pending sb]> (_socket_base w2)) w2).
  assert (Hs3 : _socket_base w3 !! Z.to_nat (base r2) = Some (clear_pending sb))
    by (apply list_lookup_insert_eq; eapply lookup_lt_Some; exact Hsb).
  assert (Head :
    socket_connect fuel id address 0 w
    = (err <- _tcp_socket_connect fuel p address 0;;
       success <- (if nonzero err then ret false
                   else update p (sock_with_address_remote (Some address));; ret true);;
       socket_destroy id;; ret success) w3).
  { unfold socket_connect.
    mstep ltac:(exact El).
    mstep ltac:(exact Hfd).
    apply Z.eqb_neq in Hvalid. rewrite Hvalid.
    mstep ltac:(apply load_done; exact Hp2). cbv zeta.
    mstep ltac:(eapply load_base_done; [exact Hpos | exact Hsb]).
    rewrite Hnc.
    change (negb (state_eqb SOCKETSTATE_NOTCONNECTED SOCKETSTATE_NOTCONNECTED)) with false.
    cbv iota.
    mstep ltac:(eapply update_base_done; [exact Hpos | exact Hsb]).
    rewrite Hfn2, Hfn. rewrite ?bind_assoc. reflexivity. }
  rewrite Head. clear Head.
  split.
  - intros Hres.
    destruct (_tcp_socket_connect_at_once fuel w3 p r2 (clear_pending sb) address
                Hp2 Hpos Hs3 Hres Hfam)
      as (w4 & r4 & E4 & Hm4 & Hs4 & Hp4 & Href4 & Hb4 & Hrem4).
    set (r5 := sock_with_address_remote (Some address) r4).
    pose (w5 := world_with_heap (<[p := r5]> (heap w4)) w4).
    set (r6 := sock_with_ref (s32 (ref r5 - 1)) r5).
    assert (Href5 : s32 (ref r5 - 1) = ref r).
    { unfold r5. cbn [ref sock_with_address_remote]. rewrite Href4, Href2.
      replace (ref r + 1 - 1) with (ref r) by lia. apply s32_id. lia. }
    exists (world_with_heap (<[p := r6]> (heap w5)) w5).
    split.
    { mstep ltac:(exact E4).
      change (nonzero 0) with false. cbv iota.
      mstep ltac:(eapply update_done; exact Hp4).
      mstep ltac:(reflexivity).
      mstep ltac:(eapply (socket_destroy_done w5 m id p r5);
                  [ exact (eq_trans Hm4 Hm2) | exact Hid | apply lookup_insert_eq
                  | rewrite Href5; lia ]).
      reflexivity. }
    assert (Hrec : record_of id (world_with_heap (<[p := r6]> (heap w5)) w5) = Some r6).
    { eapply record_of_Some; [exact (eq_trans Hm4 Hm2) | exact Hid | apply lookup_insert_eq]. }
    assert (Hb6 : base r6 = base r2) by exact Hb4.
    assert (Hslot : _socket_base (world_with_heap (<[p := r6]> (heap w5)) w5)
                      !! Z.to_nat (base r6)
                    = Some (base_with_state SOCKETSTATE_CONNECTED (clear_pending sb))).
    { unfold w5. wsimpl. rewrite Hs4, Hb6. apply list_lookup_insert_eq.
      eapply lookup_lt_Some; exact Hs3. }
    destruct (state_of_slot _ id r6 _ Hrec ltac:(rewrite Hb6; exact Hpos) Hslot) as [Est Efd].
    split; [rewrite Est; reflexivity|].
    split; [rewrite Efd; exact Hfdsb|].
    split.
    { rewrite (ref_of_record _ _ _ Hrec). unfold r6. cbn [ref sock_with_ref].
      rewrite Href5. reflexivity. }
    rewrite Hrec. reflexivity.
  - intros Hres Herr Hnz.
    pose proof (_tcp_socket_connect_refused fuel w3 p r2 (clear_pending sb) address
                  Hp2 Hpos Hs3 Hres Herr) as E4.
    set (w4 := world_with_trace (SYS_connect (fd (clear_pending sb)) address :: trace w3) w3) in *.
    set (r6 := sock_with_ref (s32 (ref r2 - 1)) r2).
    assert (Href5 : s32 (ref r2 - 1) = ref r).
    { rewrite Href2. replace (ref r + 1 - 1) with (ref r) by lia. apply s32_id. lia. }
    exists (world_with_heap (<[p := r6]> (heap w4)) w4).
    split.
    { mstep ltac:(exact E4).
      assert (Cn : nonzero (snd (k_connect (length (trace w3)))) = true)
        by (unfold nonzero; apply negb_true_iff, Z.eqb_neq; exact Hnz).
      rewrite Cn.
      mstep ltac:(reflexivity).
      mstep ltac:(eapply (socket_destroy_done w4 m id p r2);
                  [ exact Hm2 | exact Hid | exact Hp2 | rewrite Href5; lia ]).
      reflexivity. }
    assert (Hrec : record_of id (world_with_heap (<[p := r6]> (heap w4)) w4) = Some r6).
    { eapply record_of_Some; [exact Hm2 | exact Hid | apply lookup_insert_eq]. }
    assert (Hslot : _socket_base (world_with_heap (<[p := r6]> (heap w4)) w4)
                      !! Z.to_nat (base r6) = Some (clear_pending sb)) by exact Hs3.
    destruct (state_of_slot _ id r6 _ Hrec Hpos Hslot) as [Est Efd].
    split; [rewrite Est; exact Hnc|].
    split; [rewrite Efd; exact Hfdsb|].
    split.
    { rewrite (ref_of_record _ _ _ Hrec). unfold r6. cbn [ref sock_with_ref].
      rewrite Href5. reflexivity. }
    rewrite Hrec. cbn [fmap option_fmap option_map]. f_equal. exact Hrem2.
Qed.

End ConnectOutcomes.
Section Write.
Context {cfg : Config} {krn : Kernel}.

Lemma u32_small x : 0 <= x < 2 ^ 32 -> u32 x = x.
Proof. intros H. unfold u32. apply Z.mod_small. exact H. Qed.

Lemma u64_small x : 0 <= x < 2 ^ 64 -> u64 x = x.
Proof. intros H. unfold u64. apply Z.mod_small. exact H. Qed.

Lemma socket_write_head w s ss m p r sb buffer size n :
  streams w !! s = Some ss -> stream_type_socket ss = true ->
  _socket_map w = Some m -> om_entries m !! stream_socket ss = Some p ->
  heap w !! p = Some r ->
  0 <= base r -> _socket_base w !! Z.to_nat (base r) = Some sb ->
  _socket_write n s buffer size w
  = (out <-
       (if negb (state_eqb (state sb) SOCKETSTATE_CONNECTED) then ret 0
        else
          match buffer with
          | None => ret 0
          | Some data =>
              if size =? 0 then ret 0
              else
                was_written <- _socket_write_loop n p (base r) data size
                                 (u32 (BUILD_SIZE_SOCKET_WRITEBUFFER - offset_write_out r)) 0;;
                update p (fun r => sock_with_counters (bytes_read r)
                                     (u64 (bytes_written r + was_written)) r);;
                ret was_written
          end);;
     sockstream <- load_stream s;;
     socket_destroy (stream_socket sockstream);;
     ret out)
      (world_with_heap (<[p := sock_with_ref (s32 (ref r + 1)) r]> (heap w)) w).
Proof.
  intros Hs Hty Hm Hid Hp Hb Hsb.
  assert (C : (base r <? 0) = false) by lia.
  unfold _socket_write.
  mstep ltac:(apply load_stream_done; exact Hs).
  mstep ltac:(apply assert_done; exact Hty).
  run_lookup Hm Hid Hp.
  mstep ltac:(apply load_done; apply lookup_insert_eq).
  cbn [base sock_with_ref offset_write_out]. rewrite C. cbv zeta.
  mstep ltac:(eapply load_base_done; [exact Hb | exact Hsb]).
  reflexivity.
Qed.

Lemma _socket_write_fits w s ss m p r sb fuel data size :
  streams w !! s = Some ss -> stream_type_socket ss = true ->
  _socket_map w = Some m -> om_entries m !! stream_socket ss = Some p ->
  heap w !! p = Some r -> 0 < ref r < 2 ^ 31 - 1 ->
  0 <= base r -> _socket_base w !! Z.to_nat (base r) = Some sb ->
  0 <= offset_write_out r -> BUILD_SIZE_SOCKET_WRITEBUFFER < 2 ^ 32 ->
  state sb = SOCKETSTATE_CONNECTED ->
  0 < size <= BUILD_SIZE_SOCKET_WRITEBUFFER - offset_write_out r ->
  _socket_write (S fuel) s (Some data) size w
  = Done size
      (world_with_heap
         (<[p := sock_with_counters (bytes_read r) (u64 (bytes_written r + size))
                   (sock_with_out
                      (write_at (offset_write_out r) (take (Z.to_nat size) data) (buffer_out r))
                      (offset_write_out r + size) r)]> (heap w)) w).
Proof.
  intros Hs Hty Hm Hid Hp Href Hb Hsb Hoff Hwb Hst Hsize.
  erewrite socket_write_head by eassumption.
  rewrite Hst.
  change (negb (state_eqb SOCKETSTATE_CONNECTED SOCKETSTATE_CONNECTED)) with false.
  cbv iota.
  assert (C0 : (size =? 0) = false) by lia. rewrite C0.
  rewrite (u32_small (BUILD_SIZE_SOCKET_WRITEBUFFER - offset_write_out r)) by lia.
  assert (C1 : (size <=? BUILD_SIZE_SOCKET_WRITEBUFFER - offset_write_out r) = true) by lia.
  cbn [_socket_write_loop].
  mstep ltac:(apply load_done; apply lookup_insert_eq).
  rewrite C1.
  mstep ltac:(eapply store_done; apply lookup_insert_eq).
  mstep ltac:(reflexivity).
  mstep ltac:(eapply update_done; apply lookup_insert_eq).
  mstep ltac:(reflexivity).
  mstep ltac:(apply load_stream_done; exact Hs).
  cbn [offset_write_out buffer_out sock_with_ref bytes_read bytes_written sock_with_out].
  rewrite (u32_small (offset_write_out r + size)) by lia.
  rewrite (u64_small (0 + size)) by lia. rewrite Z.add_0_l.
  rewrite s32_id by lia.
  mstep ltac:(eapply (socket_destroy_done _ m (stream_socket ss) p);
              [ exact Hm | exact Hid | apply lookup_insert_eq
              | cbn [ref sock_with_counters sock_with_out sock_with_ref];
                replace (ref r + 1 - 1) with (ref r) by lia; rewrite s32_id by lia; lia ]).
  unfold ret. f_equal. wsimpl. rewrite !insert_insert_eq.
  cbn [ref sock_with_counters sock_with_out sock_with_ref].
  replace (ref r + 1 - 1) with (ref r) by lia. rewrite s32_id by lia.
  reflexivity.
Qed.

Lemma socket_write_tail {A} w s ss m p r (v : A) :
  streams w !! s = Some ss ->
  _socket_map w = Some m -> om_entries m !! stream_socket ss = Some p ->
  heap w !! p = Some r -> 0 < ref r < 2 ^ 31 ->
  (sockstream <- load_stream s;; socket_destroy (stream_socket sockstream);; ret v)
    (world_with_heap (<[p := sock_with_ref (s32 (ref r + 1)) r]> (heap w)) w)
  = Done v w.
Proof.
  intros Hs Hm Hid Hp Href.
  mstep ltac:(apply load_stream_done; exact Hs).
  mstep ltac:(eapply socket_destroy_after_lookup; [exact Hm | exact Hid | exact Hp | lia]).
  reflexivity.
Qed.

(** X19.  _socket_write on a connected socket whose out-buffer has room
    for the whole of the data only copies: the bytes go into the buffer
    behind the ones already there, the write cursor and the count of bytes
    written advance by the size, the size is returned, and the kernel is
    not called.  On a socket that is not CONNECTED, with a null buffer, or
    for no bytes, it returns 0 and changes nothing. *)
Theorem _socket_write_buffers w s ss r sb fuel data size :
  streams w !! s = Some ss -> stream_type_socket ss = true ->
  record_of (stream_socket ss) w = Some r -> 0 < ref r < 2 ^ 31 - 1 ->
  0 <= base r -> _socket_base w !! Z.to_nat (base r) = Some sb ->
  0 <= offset_write_out r <= BUILD_SIZE_SOCKET_WRITEBUFFER ->
  BUILD_SIZE_SOCKET_WRITEBUFFER < 2 ^ 32 ->
  (state sb = SOCKETSTATE_CONNECTED ->
   0 < size <= BUILD_SIZE_SOCKET_WRITEBUFFER - offset_write_out r ->
   exists w',
     _socket_write (S fuel) s (Some data) size w = Done size w' /\
     record_of (stream_socket ss) w'
     = Some (sock_with_counters (bytes_read r) (u64 (bytes_written r + size))
               (sock_with_out
                  (write_at (offset_write_out r) (take (Z.to_nat size) data) (buffer_out r))
                  (offset_write_out r + size) r)) /\
     _socket_base w' = _socket_base w /\ trace w' = trace w) /\
  (state sb <> SOCKETSTATE_CONNECTED \/ size = 0 ->
   _socket_write fuel s (Some data) size w = Done 0 w) /\
  _socket_write fuel s None size w = Done 0 w.
Proof.
  intros Hs Hty Hr Href Hb Hsb Hoff Hwb.
  destruct (record_of_inv _ _ _ Hr) as (m & p & Hm & Hid & Hp).
  assert (Tail : forall v : Z,
    (sockstream <- load_stream s;; socket_destroy (stream_socket sockstream);; ret v)
      (world_with_heap (<[p := sock_with_ref (s32 (ref r + 1)) r]> (heap w)) w)
    = Done v w)
    by (intros v; eapply socket_write_tail; try eassumption; lia).
  split; [|split].
  - intros Hst Hsize. eexists. split.
    + eapply _socket_write_fits; try eassumption. lia.
    + wsimpl. split; [|split; reflexivity].
      eapply record_of_Some; [exact Hm | exact Hid | apply lookup_insert_eq].
  - intros Hcase. erewrite socket_write_head by eassumption.
    destruct Hcase as [Hst|Hz].
    + assert (Cs : negb (state_eqb (state sb) SOCKETSTATE_CONNECTED) = true).
      { unfold state_eqb. rewrite bool_decide_eq_false_2 by exact Hst. reflexivity. }
      rewrite Cs. mstep ltac:(reflexivity). apply Tail.
    + subst size. destruct (negb (state_eqb (state sb) SOCKETSTATE_CONNECTED)).
      * mstep ltac:(reflexivity). apply Tail.
      * change (0 =? 0) with true. cbv iota. mstep ltac:(reflexivity). apply Tail.
  - erewrite socket_write_head by eassumption.
    destruct (negb (state_eqb (state sb) SOCKETSTATE_CONNECTED));
      mstep ltac:(reflexivity); apply Tail.
Qed.

End Write.
Section Flush.
Context {cfg : Config} {krn : Kernel}.

(** _socket_doflush when the kernel takes everything at the first send. *)
Lemma _socket_doflush_all_sent fuel w p r sb :
  heap w !! p = Some r -> 0 <= base r ->
  _socket_base w !! Z.to_nat (base r) = Some sb ->
  state sb = SOCKETSTATE_CONNECTED -> write_fn r = true ->
  0 < offset_write_out r < 2 ^ 32 ->
  fst (k_send (length (trace w)) (offset_write_out r)) = offset_write_out r ->
  _socket_doflush (S (S fuel)) p w
  = Done tt
      (world_with_heap (<[p := sock_with_out (buffer_out r) 0 r]> (heap w))
         (world_with_base
            (<[Z.to_nat (base r) :=
                 base_with_flags (Z.land (flags sb) (Z.lnot SOCKETFLAG_REFLUSH)) sb]>
               (_socket_base w))
            (world_with_trace
               (SYS_send (fd sb) (take (Z.to_nat (offset_write_out r)) (buffer_out r))
                  :: trace w) w))).
Proof.
  intros Hp Hb Hs Hst Hfn Hoff Hsend.
  assert (C : (base r <? 0) = false) by lia.
  assert (C0 : (offset_write_out r =? 0) = false) by lia.
  assert (C1 : (0 <? offset_write_out r) = true) by lia.
  assert (C2 : (offset_write_out r <? offset_write_out r) = false) by lia.
  unfold _socket_doflush, _socket_doflush_gen.
  mstep ltac:(apply load_done; exact Hp). rewrite C, C0.
  mstep ltac:(eapply load_base_done; [exact Hb | exact Hs]).
  rewrite Hst.
  change (negb (state_eqb SOCKETSTATE_CONNECTED SOCKETSTATE_CONNECTED)) with false.
  cbv iota. rewrite Hfn.
  unfold _tcp_socket_buffer_write.
  mstep ltac:(apply load_done; exact Hp). rewrite C.
  cbn [_tcp_socket_buffer_write_loop].
  mstep ltac:(apply load_done; exact Hp). rewrite C1.
  mstep ltac:(eapply load_base_done; [exact Hb | exact Hs]).
  cbv zeta. rewrite Z.sub_0_r. rewrite (u32_small (offset_write_out r)) by lia.
  mstep ltac:(apply syscall_done).
  rewrite Hsend, C1. rewrite Z.add_0_l, (u32_small (offset_write_out r)) by lia.
  mstep ltac:(apply load_done; exact Hp). rewrite C2.
  mstep ltac:(eapply update_base_done; [exact Hb | exact Hs]).
  erewrite update_done by exact Hp.
  reflexivity.
Qed.

Lemma length_write_at off (data buf : list Z) :
  (Z.to_nat off + length data <= length buf)%nat ->
  length (write_at off data buf) = length buf.
Proof.
  intros H. unfold write_at. rewrite !length_app, length_take, length_drop. lia.
Qed.

Lemma take_write_at_0 (data buf : list Z) :
  take (length data) (write_at 0 data buf) = data.
Proof.
  unfold write_at. change (Z.to_nat 0) with 0%nat.
  replace (take 0 buf) with (@nil Z) by reflexivity.
  cbn [app]. apply take_app_length.
Qed.

(** X20.  What is written is what is sent.  On a connected socket with an
    empty out-buffer, a write that fits in the buffer followed by a flush
    hands the kernel exactly the bytes written, in one send on the
    socket's descriptor; when the kernel takes them all the out-buffer is
    empty again, and the count of bytes written has advanced by the size. *)
Theorem write_then_flush_sends_the_bytes w s ss r sb fuel data :
  streams w !! s = Some ss -> stream_type_socket ss = true ->
  record_of (stream_socket ss) w = Some r -> 0 < ref r < 2 ^ 31 - 1 ->
  0 <= base r -> _socket_base w !! Z.to_nat (base r) = Some sb ->
  state sb = SOCKETSTATE_CONNECTED -> write_fn r = true ->
  offset_write_out r = 0 ->
  0 < Z.of_nat (length data) <= BUILD_SIZE_SOCKET_WRITEBUFFER ->
  BUILD_SIZE_SOCKET_WRITEBUFFER < 2 ^ 32 ->
  fst (k_send (length (trace w)) (Z.of_nat (length data))) = Z.of_nat (length data) ->
  exists w' r',
    (_socket_write (S fuel) s (Some data) (Z.of_nat (length data));;
     _socket_flush (S (S fuel)) s) w = Done tt w' /\
    trace w' = SYS_send (fd sb) data :: trace w /\
    record_of (stream_socket ss) w' = Some r' /\
    offset_write_out r' = 0 /\
    bytes_written r' = u64 (bytes_written r + Z.of_nat (length data)) /\
    ref r' = ref r.
Proof.
  intros Hs Hty Hr Href Hb Hsb Hst Hfn Hoff Hlen Hwb Hsend.
  destruct (record_of_inv _ _ _ Hr) as (m & p & Hm & Hid & Hp).
  set (size := Z.of_nat (length data)) in *.
  pose proof (_socket_write_fits w s ss m p r sb fuel data size
                Hs Hty Hm Hid Hp Href Hb Hsb ltac:(lia) Hwb Hst ltac:(lia)) as E1.
  set (r1 := sock_with_counters (bytes_read r) (u64 (bytes_written r + size))
               (sock_with_out
                  (write_at (offset_write_out r) (take (Z.to_nat size) data) (buffer_out r))
                  (offset_write_out r + size) r)) in *.
  set (w1 := world_with_heap (<[p := r1]> (heap w)) w) in *.
  assert (Hp1 : heap w1 !! p = Some r1) by apply lookup_insert_eq.
  set (r2 := sock_with_ref (s32 (ref r1 + 1)) r1).
  set (w2 := world_with_heap (<[p := r2]> (heap w1)) w1).
  assert (Hp2 : heap w2 !! p = Some r2) by apply lookup_insert_eq.
  assert (Hoff2 : offset_write_out r2 = size)
    by (cbn [offset_write_out r2 r1 sock_with_ref sock_with_counters sock_with_out]; lia).
  assert (Hbuf2 : take (Z.to_nat (offset_write_out r2)) (buffer_out r2) = data).
  { rewrite Hoff2. cbn [buffer_out r2 r1 sock_with_ref sock_with_counters sock_with_out].
    rewrite Hoff. unfold size. rewrite Nat2Z.id, firstn_all. apply take_write_at_0. }
  pose proof (_socket_doflush_all_sent fuel w2 p r2 sb Hp2 Hb Hsb Hst Hfn
                ltac:(rewrite Hoff2; lia) ltac:(rewrite Hoff2; exact Hsend)) as E3.
  rewrite Hbuf2 in E3.
  set (r3 := sock_with_out (buffer_out r2) 0 r2) in *.
  match type of E3 with _ = Done tt ?w3' => set (w3 := w3') in * end.
  assert (Href3 : s32 (ref r3 - 1) = ref r).
  { cbn [ref r3 r2 r1 sock_with_out sock_with_ref sock_with_counters].
    rewrite s32_incr_decr by lia. reflexivity. }
  exists (world_with_heap (<[p := sock_with_ref (s32 (ref r3 - 1)) r3]> (heap w3)) w3).
  exists (sock_with_ref (s32 (ref r3 - 1)) r3).
  split.
  { mstep ltac:(exact E1).
    unfold _socket_flush.
    mstep ltac:(apply load_stream_done; exact Hs).
    mstep ltac:(apply assert_done; exact Hty).
    mstep ltac:(eapply (_socket_lookup_done w1 m _ p r1); [exact Hm | exact Hid | exact Hp1]).
    mstep ltac:(exact E3).
    mstep ltac:(apply load_stream_done; exact Hs).
    eapply (socket_destroy_done w3 m _ p r3);
      [ exact Hm | exact Hid | apply lookup_insert_eq | rewrite Href3; lia ]. }
  split; [reflexivity|].
  split. { eapply record_of_Some; [exact Hm | exact Hid | apply lookup_insert_eq]. }
  split; [reflexivity|]. split; [reflexivity|].
  cbn [ref sock_with_ref]. exact Href3.
Qed.

End Flush.
(** ** Reference balance *)

Section Holds.
Context {cfg : Config} {krn : Kernel}.
Variables (m : objectmap_t) (p : ptr) (n : Z).

#[local] Abbreviation H_ := (holds m p n).

Lemma holds_load q : yields H_ (fun r => q = p -> ref r = n) (load q).
Proof.
  intros w r w' (Hm & r' & Hp & Hn) E. unfold load in E.
  destruct (heap w !! q) eqn:Hq; [|discriminate E]. simplify_eq.
  split; [split; [exact Hm|]; exists r'; auto|].
  intros ->. rewrite Hp in Hq. congruence.
Qed.

Lemma holds_store q r : (q = p -> ref r = n) -> keeps H_ (store q r).
Proof.
  intros Hr w a w' (Hm & r' & Hp & Hn) E. unfold store in E.
  destruct (heap w !! q) eqn:Hq; [|discriminate E]. simplify_eq.
  split; [exact Hm|]. wsimpl.
  destruct (decide (q = p)) as [->|Hne].
  - exists r. rewrite lookup_insert_eq. auto.
  - exists r'. rewrite lookup_insert_ne by exact Hne. auto.
Qed.

Lemma holds_update q f : (forall r, ref (f r) = ref r) -> keeps H_ (update q f).
Proof.
  intros Hf. unfold update. eapply keeps_bind; [apply holds_load|].
  intros r Hr. apply holds_store. intros E. rewrite Hf. auto.
Qed.

Lemma holds_untouched {A} (c : M A) :
  (forall w a w', c w = Done a w' -> _socket_map w' = _socket_map w /\ heap w' = heap w) ->
  keeps H_ c.
Proof.
  intros H w a w' (Hm & r' & Hp & Hn) E.
  destruct (H _ _ _ E) as (E1 & E2).
  split; [rewrite E1; exact Hm|]. exists r'. rewrite E2. auto.
Qed.

Ltac untouched2 :=
  apply holds_untouched;
  let E := fresh "E" in
  intros ? ? ? E;
  repeat (match type of E with
          | context [match ?x with _ => _ end] => destruct x eqn:?
          | context [if ?x then _ else _] => destruct x eqn:?
          end);
  try discriminate E; simplify_eq; auto.

Lemma holds_load_base i : keeps H_ (load_base i).
Proof. unfold load_base. untouched2. Qed.

Lemma holds_store_base i b : keeps H_ (store_base i b).
Proof. unfold store_base. untouched2. Qed.

Lemma holds_syscall {A} c (answer : nat -> A) : keeps H_ (syscall c answer).
Proof. unfold syscall. untouched2. Qed.

Lemma holds_assert c : keeps H_ (assert_ c).
Proof. unfold assert_, fail, ret. untouched2. Qed.

Lemma holds_gets {A} (f : world -> A) : keeps H_ (gets f).
Proof. unfold gets. untouched2. Qed.

Lemma holds_cursor k : keeps H_ (atomic_exchange_and_add32_base_next k).
Proof. unfold atomic_exchange_and_add32_base_next. untouched2. Qed.

#[local] Hint Resolve holds_load holds_load_base holds_store_base holds_syscall holds_assert
  holds_gets holds_cursor : keeps.
#[local] Hint Extern 1 (keeps _ (update _ _)) =>
  apply holds_update; intros; reflexivity : keeps.
#[local] Hint Extern 1 (keeps _ (store _ _)) =>
  apply holds_store; cbn [ref sock_with_base sock_with_family sock_with_address_local
                          sock_with_address_remote sock_with_in sock_with_out
                          sock_with_counters sock_with_stream]; solve [auto] : keeps.

Lemma holds_update_base i f : keeps H_ (update_base i f).
Proof. unfold update_base. ksteps. Qed.
#[local] Hint Resolve holds_update_base : keeps.

Lemma holds__socket_allocate_base_loop fuel q maxbase :
  keeps H_ (_socket_allocate_base_loop fuel q maxbase).
Proof.
  induction fuel as [|fuel IH]; [apply keeps_out_of_fuel|].
  cbn [_socket_allocate_base_loop]. ksteps.
Qed.
#[local] Hint Resolve holds__socket_allocate_base_loop : keeps.

Lemma holds__socket_allocate_base fuel q : keeps H_ (_socket_allocate_base fuel q).
Proof. unfold _socket_allocate_base. ksteps. Qed.
#[local] Hint Resolve holds__socket_allocate_base : keeps.

Lemma holds__socket_set_blocking_fd fd_ block : keeps H_ (_socket_set_blocking_fd fd_ block).
Proof. unfold _socket_set_blocking_fd. ksteps. Qed.
#[local] Hint Resolve holds__socket_set_blocking_fd : keeps.

Lemma holds__socket_set_blocking fuel q block : keeps H_ (_socket_set_blocking fuel q block).
Proof. unfold _socket_set_blocking. ksteps. Qed.

Lemma holds__socket_set_reuse_address fuel q reuse :
  keeps H_ (_socket_set_reuse_address fuel q reuse).
Proof. unfold _socket_set_reuse_address. ksteps. Qed.

Lemma holds__socket_set_reuse_port fuel q reuse :
  keeps H_ (_socket_set_reuse_port fuel q reuse).
Proof. unfold _socket_set_reuse_port. ksteps. Qed.

Lemma holds__tcp_socket_set_delay q delay : keeps H_ (_tcp_socket_set_delay q delay).
Proof. unfold _tcp_socket_set_delay. ksteps. Qed.
#[local] Hint Resolve holds__socket_set_blocking holds__socket_set_reuse_address
  holds__socket_set_reuse_port holds__tcp_socket_set_delay : keeps.

Lemma holds__tcp_socket_open fuel q family_ : keeps H_ (_tcp_socket_open fuel q family_).
Proof. unfold _tcp_socket_open. ksteps. Qed.
#[local] Hint Resolve holds__tcp_socket_open : keeps.

Lemma holds_call_open_fn fuel q family_ : keeps H_ (call_open_fn fuel q family_).
Proof. unfold call_open_fn. ksteps. Qed.
#[local] Hint Resolve holds_call_open_fn : keeps.

Lemma holds__socket_create_fd fuel q family_ : keeps H_ (_socket_create_fd fuel q family_).
Proof. unfold _socket_create_fd. ksteps. Qed.

Lemma holds__socket_store_address_local q family_ :
  keeps H_ (_socket_store_address_local q family_).
Proof. unfold _socket_store_address_local. ksteps. Qed.
#[local] Hint Resolve holds__socket_create_fd holds__socket_store_address_local : keeps.

Lemma holds__tcp_socket_connect fuel q address timeoutms :
  keeps H_ (_tcp_socket_connect fuel q address timeoutms).
Proof. unfold _tcp_socket_connect. ksteps. Qed.

End Holds.

Section Balance.
Context {cfg : Config} {krn : Kernel}.

Lemma holds_lookup m id p n :
  om_entries m !! id = Some p ->
  triple (holds m p n) (_socket_lookup id)
    (fun sock w => sock = Some p /\ holds m p (s32 (n + 1)) w).
Proof.
  intros Hid w sock w' (Hm & r & Hp & Hn) E.
  rewrite (_socket_lookup_done w m id p r Hm Hid Hp) in E. simplify_eq.
  split; [reflexivity|]. split; [exact Hm|].
  eexists. split; [apply lookup_insert_eq | reflexivity].
Qed.

Lemma holds_destroy m id p n :
  om_entries m !! id = Some p -> s32 (n - 1) <> 0 ->
  triple (holds m p n) (socket_destroy id) (fun _ w => holds m p (s32 (n - 1)) w).
Proof.
  intros Hid Hn w a w' (Hm & r & Hp & <-) E.
  rewrite (socket_destroy_done w m id p r Hm Hid Hp Hn) in E. simplify_eq.
  split; [exact Hm|]. eexists. split; [apply lookup_insert_eq | reflexivity].
Qed.

Lemma holds_ref_of m id p n w :
  om_entries m !! id = Some p -> holds m p n w -> ref_of id w = Some n.
Proof.
  intros Hid (Hm & r & Hp & Hn).
  rewrite (ref_of_record w id r); [rewrite Hn; reflexivity|].
  eapply record_of_Some; eassumption.
Qed.

Lemma holds_release m id p n :
  om_entries m !! id = Some p -> 0 < n < 2 ^ 31 - 1 ->
  triple (holds m p (n + 1)) (socket_destroy id) (fun _ w => holds m p n w).
Proof.
  intros Hid Hn.
  eapply triple_post.
  - apply holds_destroy; [exact Hid|].
    replace (n + 1 - 1) with n by lia. rewrite s32_id by lia. lia.
  - intros a w H. cbv beta in H.
    replace (n + 1 - 1) with n in H by lia. rewrite s32_id in H by lia. exact H.
Qed.

Lemma holds_take m id p n :
  om_entries m !! id = Some p -> 0 < n < 2 ^ 31 - 1 ->
  triple (holds m p n) (_socket_lookup id)
    (fun sock w => holds m p (n + 1) w /\ sock = Some p).
Proof.
  intros Hid Hn.
  eapply triple_post; [apply holds_lookup; exact Hid|].
  intros sock w [-> H]. rewrite s32_id in H by lia. auto.
Qed.

#[local] Hint Resolve holds_load holds_load_base holds_store_base holds_syscall holds_assert
  holds_gets holds_cursor holds_update_base holds__socket_allocate_base
  holds__socket_set_blocking holds__socket_set_reuse_address holds__socket_set_reuse_port
  holds__tcp_socket_set_delay holds__socket_create_fd holds__socket_store_address_local
  holds__tcp_socket_connect : keeps.
#[local] Hint Extern 1 (keeps _ (update _ _)) =>
  apply holds_update; intros; reflexivity : keeps.

(** Steps through an operation that takes a reference, works under it and
    gives it back. *)
Ltac bstep Hid Href :=
  lazymatch goal with
  | |- triple _ (bind (_socket_lookup _) _) _ =>
      eapply triple_bind; [apply holds_take; [exact Hid | exact Href]|];
      intros ?; apply triple_pure; intros ->
  | |- triple _ (bind (socket_destroy _) _) _ =>
      eapply triple_bind; [apply holds_release; [exact Hid | exact Href]|]; intros ?
  | |- triple _ (socket_destroy _) _ =>
      apply holds_release; [exact Hid | exact Href]
  | |- triple ?I (bind ?c _) _ =>
      eapply triple_bind;
      [ let K := fresh "K" in assert (K : keeps I c) by (solve [ksteps]); exact K
      | intros ? ]
  | |- triple _ (ret _) _ => apply triple_ret; intros ? ?; assumption
  end.

(** X21.  socket_bind, socket_connect, the three flag setters and
    tcp_socket_set_delay give back the reference they take on every path
    on which they return, whatever the kernel answers and whatever the
    timeout: the reference count of the socket is the same after the call
    as before. *)
Theorem setters_bind_and_connect_are_balanced fuel w id r address timeout flag :
  record_of id w = Some r -> 0 < ref r < 2 ^ 31 - 1 ->
  ref_balanced (socket_bind fuel id address) id w /\
  ref_balanced (socket_connect fuel id address timeout) id w /\
  ref_balanced (socket_set_blocking fuel id flag) id w /\
  ref_balanced (socket_set_reuse_address fuel id flag) id w /\
  ref_balanced (socket_set_reuse_port fuel id flag) id w /\
  ref_balanced (tcp_socket_set_delay id flag) id w.
Proof.
  intros Hr Href.
  destruct (record_of_inv _ _ _ Hr) as (m & p & Hm & Hid & Hp).
  assert (H0 : holds m p (ref r) w) by (split; [exact Hm|]; exists r; auto).
  assert (Enough : forall {A} (op : M A),
            triple (holds m p (ref r)) op (fun _ w1 => holds m p (ref r) w1) ->
            ref_balanced op id w).
  { intros A op T a w' E.
    rewrite (holds_ref_of m id p (ref r) w Hid H0).
    apply (holds_ref_of m id p (ref r) w' Hid). exact (T w a w' H0 E). }
  repeat split; apply Enough.
  - unfold socket_bind. repeat bstep Hid Href.
  - unfold socket_connect. repeat bstep Hid Href.
  - unfold socket_set_blocking. repeat bstep Hid Href.
  - unfold socket_set_reuse_address. repeat bstep Hid Href.
  - unfold socket_set_reuse_port. repeat bstep Hid Href.
  - unfold tcp_socket_set_delay, socket_free. repeat bstep Hid Href.
Qed.

End Balance.
Section Bind.
Context {cfg : Config} {krn : Kernel}.

(** _socket_store_address_local for a socket with a slot: the kernel is
    asked for the name of the descriptor, and the answer becomes the local
    address. *)
Lemma _socket_store_address_local_effect w p r sb family_ :
  heap w !! p = Some r -> 0 <= base r ->
  _socket_base w !! Z.to_nat (base r) = Some sb ->
  family_ = NETWORK_ADDRESSFAMILY_IPV4 \/ family_ = NETWORK_ADDRESSFAMILY_IPV6 ->
  exists l,
    _socket_store_address_local p family_ w
    = Done tt (world_with_heap (<[p := sock_with_address_local (Some l) r]> (heap w))
                 (world_with_trace (SYS_getsockname (fd sb) :: trace w) w)) /\
    addr_family l = family_ /\ saddr l = k_getsockname (length (trace w)).
Proof.
  intros Hp Hb Hs Hfam.
  assert (C1 : (base r <? 0) = false) by lia.
  unfold _socket_store_address_local.
  destruct (family_ =? NETWORK_ADDRESSFAMILY_IPV4) eqn:C4;
    [|assert (C6 : (family_ =? NETWORK_ADDRESSFAMILY_IPV6) = true) by lia];
    eexists;
    (split;
     [ mstep ltac:(apply load_done; eassumption); rewrite C1;
       mstep ltac:(eapply load_base_done; eassumption);
       rewrite ?C4, ?C6;
       mstep ltac:(apply syscall_done);
       erewrite update_done by side; reflexivity
     | cbn [addr_family saddr]; split; [lia | reflexivity] ]).
Qed.

(** X22.  socket_bind on a socket that is not connected, once the
    descriptor is there: when the kernel binds, the call returns true and
    the local address of the socket is the name the kernel reports for the
    descriptor, in the family asked for; when the kernel refuses, the call
    returns false and the local address is as it was.  In both cases the
    socket stays NOT_CONNECTED, and its remote address and its reference
    count are untouched. *)
Theorem socket_bind_outcomes fuel w id address m p r fd_ w2 :
  _socket_map w = Some m -> om_entries m !! id = Some p -> heap w !! p = Some r ->
  0 < ref r < 2 ^ 31 - 1 ->
  state_of id w = SOCKETSTATE_NOTCONNECTED ->
  addr_family address = NETWORK_ADDRESSFAMILY_IPV4 \/
  addr_family address = NETWORK_ADDRESSFAMILY_IPV6 ->
  _socket_create_fd fuel p (addr_family address) (after (_socket_lookup id) w) = Done fd_ w2 ->
  fd_ <> SOCKET_INVALID ->
  exists w' r',
    socket_bind fuel id address w = Done (k_bind (length (trace w2)) =? 0) w' /\
    record_of id w' = Some r' /\
    (k_bind (length (trace w2)) = 0 ->
       exists l, address_local r' = Some l /\ addr_family l = addr_family address /\
                 saddr l = k_getsockname (S (length (trace w2)))) /\
    (k_bind (length (trace w2)) <> 0 -> address_local r' = address_local r) /\
    address_remote r' = address_remote r /\ ref r' = ref r /\
    state_of id w' = SOCKETSTATE_NOTCONNECTED /\ fd_of id w' = fd_.
Proof.
  intros Hm Hid Hp Href Hst Hfam Hfd Hvalid.
  pose proof (_socket_lookup_done w m id p r Hm Hid Hp) as El.
  rewrite (s32_id (ref r + 1)) in El by lia.
  unfold after in Hfd. rewrite El in Hfd.
  set (r1 := sock_with_ref (ref r + 1) r) in *.
  set (w1 := world_with_heap (<[p := r1]> (heap w)) w) in *.
  assert (HJ : unconnected m p r1 None w1).
  { split; [exact Hm|]. exists r1. split; [apply lookup_insert_eq|].
    split; [repeat split|]. split; [exact I|].
    intros sb Hb Hs. eapply (state_of_unconnected w id r); eauto.
    eapply record_of_Some; eassumption. }
  destruct (_socket_create_fd_frame m p r1 fuel (addr_family address) w1 fd_ w2 HJ Hfd Hvalid)
    as (b & sb & (Hm2 & r2 & Hp2 & Hid2 & [Hb2 Hpos] & Hs2) & Hsb & Hfdsb).
  destruct Hid2 as (_ & Href2 & _ & _ & Hloc2 & Hrem2).
  cbn [ref address_local address_remote r1 sock_with_ref] in Href2, Hloc2, Hrem2.
  assert (Hnc : state sb = SOCKETSTATE_NOTCONNECTED)
    by (apply Hs2; rewrite Hb2; [exact Hpos | exact Hsb]).
  subst b.
  set (w3 := world_with_trace (SYS_bind (fd sb) address :: trace w2) w2).
  assert (Head :
    socket_bind fuel id address w
    = (success <- (if k_bind (length (trace w2)) =? 0
                   then _socket_store_address_local p (addr_family address);; ret true
                   else ret false);;
       socket_destroy id;; ret success) w3).
  { unfold socket_bind.
    mstep ltac:(exact El).
    mstep ltac:(exact Hfd).
    apply Z.eqb_neq in Hvalid. rewrite Hvalid.
    mstep ltac:(apply load_done; exact Hp2).
    mstep ltac:(eapply load_base_done; [exact Hpos | exact Hsb]).
    mstep ltac:(apply syscall_done).
    rewrite ?bind_assoc. reflexivity. }
  rewrite Head. clear Head.
  destruct (Z.eq_dec (k_bind (length (trace w2))) 0) as [Hk|Hk].
  - rewrite Hk. change (0 =? 0) with true. cbv iota.
    destruct (_socket_store_address_local_effect w3 p r2 sb (addr_family address)
                Hp2 Hpos Hsb Hfam) as (l & E3 & Hlf & Hls).
    set (r4 := sock_with_address_local (Some l) r2) in *.
    match type of E3 with _ = Done tt ?w4' => set (w4 := w4') in * end.
    assert (Href4 : s32 (ref r4 - 1) = ref r).
    { cbn [ref r4 sock_with_address_local]. rewrite Href2.
      replace (ref r + 1 - 1) with (ref r) by lia. apply s32_id. lia. }
    set (r5 := sock_with_ref (s32 (ref r4 - 1)) r4).
    exists (world_with_heap (<[p := r5]> (heap w4)) w4), r5.
    split.
    { mstep ltac:(exact E3). mstep ltac:(reflexivity).
      mstep ltac:(eapply (socket_destroy_done w4 m id p r4);
                  [ exact Hm2 | exact Hid | apply lookup_insert_eq | rewrite Href4; lia ]).
      reflexivity. }
    assert (Hrec : record_of id (world_with_heap (<[p := r5]> (heap w4)) w4) = Some r5).
    { eapply record_of_Some; [exact Hm2 | exact Hid | apply lookup_insert_eq]. }
    split; [exact Hrec|].
    split. { intros _. exists l. split; [reflexivity|]. split; [exact Hlf | exact Hls]. }
    split. { intros Hne. congruence. }
    split; [exact Hrem2|]. split; [exact Href4|].
    assert (Hslot : _socket_base (world_with_heap (<[p := r5]> (heap w4)) w4)
                      !! Z.to_nat (base r5) = Some sb) by exact Hsb.
    destruct (state_of_slot _ id r5 _ Hrec Hpos Hslot) as [Est Efd].
    split; [rewrite Est; exact Hnc | rewrite Efd; exact Hfdsb].
  - assert (C : (k_bind (length (trace w2)) =? 0) = false) by lia. rewrite C.
    assert (Href4 : s32 (ref r2 - 1) = ref r).
    { rewrite Href2. replace (ref r + 1 - 1) with (ref r) by lia. apply s32_id. lia. }
    set (r5 := sock_with_ref (s32 (ref r2 - 1)) r2).
    exists (world_with_heap (<[p := r5]> (heap w3)) w3), r5.
    split.
    { mstep ltac:(reflexivity).
      mstep ltac:(eapply (socket_destroy_done w3 m id p r2);
                  [ exact Hm2 | exact Hid | exact Hp2 | rewrite Href4; lia ]).
      reflexivity. }
    assert (Hrec : record_of id (world_with_heap (<[p := r5]> (heap w3)) w3) = Some r5).
    { eapply record_of_Some; [exact Hm2 | exact Hid | apply lookup_insert_eq]. }
    split; [exact Hrec|].
    split. { intros Hz. contradiction. }
    split. { intros _. exact Hloc2. }
    split; [exact Hrem2|]. split; [exact Href4|].
    assert (Hslot : _socket_base (world_with_heap (<[p := r5]> (heap w3)) w3)
                      !! Z.to_nat (base r5) = Some sb) by exact Hsb.
    destruct (state_of_slot _ id r5 _ Hrec Hpos Hslot) as [Est Efd].
    split; [rewrite Est; exact Hnc | rewrite Efd; exact Hfdsb].
Qed.

End Bind.
Section FlagRoundTrip.
Context {cfg : Config} {krn : Kernel}.

Lemma has_flag_set flag v (on : bool) :
  flag <> 0 -> has_flag flag (set_flag on flag v) = on.
Proof.
  intros Hf. unfold has_flag, set_flag, nonzero. destruct on.
  - replace (Z.land (Z.lor v flag) flag) with flag.
    + apply negb_true_iff, Z.eqb_neq. exact Hf.
    + apply Z.bits_inj'. intros n Hn. rewrite Z.land_spec, Z.lor_spec.
      destruct (Z.testbit v n), (Z.testbit flag n); reflexivity.
  - replace (Z.land (Z.land v (Z.lnot flag)) flag) with 0; [reflexivity|].
    apply Z.bits_inj'. intros n Hn.
    rewrite !Z.land_spec, Z.lnot_spec, Z.bits_0 by exact Hn.
    destruct (Z.testbit v n), (Z.testbit flag n); reflexivity.
Qed.

(** A slot number handed out by _socket_allocate_base is never negative. *)
Lemma _socket_allocate_base_loop_nonneg fuel : forall q maxbase w b w',
  _socket_allocate_base_loop fuel q maxbase w = Done b w' -> 0 <= b.
Proof.
  induction fuel as [|fuel IH]; intros q maxbase w b w' E; [discriminate E|].
  cbn [_socket_allocate_base_loop] in E.
  unfold bind at 1 in E. unfold atomic_exchange_and_add32_base_next in E.
  remember (world_with_base_next (s32 (_socket_base_next w + 1)) w) as w1 eqn:Hw1.
  clear Hw1.
  destruct (maxbase <=? _socket_base_next w); [eapply IH; exact E|].
  unfold bind at 1 in E. unfold load_base at 1 in E.
  destruct (0 <=? _socket_base_next w) eqn:Hc; [|discriminate E].
  destruct (_socket_base w1 !! Z.to_nat (_socket_base_next w)) as [sb|] eqn:Hsb;
    [|discriminate E].
  destruct (nonzero (object sb)); [eapply IH; exact E|].
  unfold bind at 1 in E. unfold load at 1 in E.
  destruct (heap w1 !! q) as [r|] eqn:Hq; [|discriminate E].
  unfold bind at 1 in E. unfold load_base at 1 in E. rewrite Hc, Hsb in E.
  destruct (object sb =? 0); [|eapply IH; exact E].
  unfold bind, store, store_base, ret in E. rewrite Hq in E. wsimpl_in E.
  rewrite Hc, Hsb in E. simplify_eq. lia.
Qed.

Lemma _socket_allocate_base_nonneg fuel q w b w' :
  _socket_allocate_base fuel q w = Done b w' -> 0 <= b.
Proof.
  intros E. unfold _socket_allocate_base in E.
  unfold bind at 1 in E. unfold load at 1 in E.
  destruct (heap w !! q) as [r|]; [|discriminate E].
  destruct (0 <=? base r) eqn:C.
  - unfold ret in E. simplify_eq. lia.
  - unfold bind, gets in E. eapply _socket_allocate_base_loop_nonneg. exact E.
Qed.

Lemma set_slot_flag_flagged fuel m p n flag on then_ :
  flag <> 0 ->
  (forall sb w a w', then_ sb w = Done a w' ->
     _socket_map w' = _socket_map w /\ heap w' = heap w /\ _socket_base w' = _socket_base w) ->
  triple (holds m p n) (set_slot_flag fuel p flag on then_)
    (fun _ w => flagged m p n flag on w).
Proof.
  intros Hflag Hthen w a w' H E. unfold set_slot_flag in E.
  unfold bind at 1 in E.
  destruct (_socket_allocate_base fuel p w) as [b w1| |] eqn:E1; try discriminate E.
  pose proof (_socket_allocate_base_nonneg _ _ _ _ _ E1) as Hb.
  pose proof (holds__socket_allocate_base m p n fuel p w b w1 H E1) as (Hm1 & r1 & Hp1 & Hn1).
  assert (C : (b <? 0) = false) by lia. rewrite C in E.
  unfold bind at 1 in E. unfold load in E. rewrite Hp1 in E.
  unfold bind at 1 in E. unfold update_base, bind, load_base, store_base in E.
  destruct (0 <=? base r1) eqn:Cb; [|discriminate E].
  destruct (_socket_base w1 !! Z.to_nat (base r1)) as [sb1|] eqn:Hs1; [|discriminate E].
  wsimpl_in E. rewrite Hs1 in E. wsimpl_in E.
  rewrite list_lookup_insert_eq in E by (eapply lookup_lt_Some; exact Hs1).
  destruct (Hthen _ _ _ _ E) as (Em & Eh & Eb). wsimpl_in Em. wsimpl_in Eh. wsimpl_in Eb.
  split; [rewrite Em; exact Hm1|].
  exists r1. eexists. rewrite Eh, Eb.
  split; [exact Hp1|]. split; [exact Hn1|]. split; [lia|].
  split; [apply list_lookup_insert_eq; eapply lookup_lt_Some; exact Hs1|].
  cbn [flags base_with_flags]. apply has_flag_set. exact Hflag.
Qed.

Lemma flagged_release m id p n flag v :
  om_entries m !! id = Some p -> 0 < n < 2 ^ 31 - 1 ->
  triple (flagged m p (n + 1) flag v) (socket_destroy id)
    (fun _ w => flagged m p n flag v w).
Proof.
  intros Hid Hn w a w' (Hm & r & sb & Hp & Href & Hb & Hs & Hf) E.
  rewrite (socket_destroy_done w m id p r Hm Hid Hp) in E
    by (rewrite Href; replace (n + 1 - 1) with n by lia; rewrite s32_id by lia; lia).
  simplify_eq. split; [exact Hm|].
  eexists. exists sb. wsimpl. rewrite lookup_insert_eq.
  split; [reflexivity|]. cbn [ref base sock_with_ref].
  replace (ref r - 1) with (ref r - 1) by reflexivity.
  split; [rewrite Href; replace (n + 1 - 1) with n by lia; apply s32_id; lia|].
  auto.
Qed.

Lemma flagged_getter m id p n flag v w :
  om_entries m !! id = Some p -> 0 < n < 2 ^ 31 ->
  flagged m p n flag v w -> socket_flag_getter flag id w = Done v w.
Proof.
  intros Hid Hn (Hm & r & sb & Hp & Href & Hb & Hs & Hf).
  rewrite <- Hf. eapply socket_flag_getter_slot; try eassumption. lia.
Qed.

Lemma syscalls_only_set_blocking_fd fd_ block w a w' :
  _socket_set_blocking_fd fd_ block w = Done a w' ->
  _socket_map w' = _socket_map w /\ heap w' = heap w /\ _socket_base w' = _socket_base w.
Proof. intros E. unfold _socket_set_blocking_fd, bind, syscall in E. simplify_eq. auto. Qed.


(** With a slot in place the setters return: the slot search is skipped
    and what follows are kernel calls. *)
Lemma set_slot_flag_returns fuel m id p r sb flag on then_ w :
  _socket_map w = Some m -> om_entries m !! id = Some p -> heap w !! p = Some r ->
  0 < ref r < 2 ^ 31 - 1 -> 0 <= base r ->
  _socket_base w !! Z.to_nat (base r) = Some sb ->
  (forall sb w, exists w', then_ sb w = Done tt w' /\
                           _socket_map w' = _socket_map w /\ heap w' = heap w) ->
  exists w',
    (sock <- _socket_lookup id;;
     match sock with
     | None => ret tt
     | Some q => set_slot_flag fuel q flag on then_;; socket_destroy id
     end) w = Done tt w'.
Proof.
  intros Hm Hid Hp Href Hb Hsb Hthen.
  assert (C : (0 <=? base r) = true) by lia.
  assert (C' : (base r <? 0) = false) by lia.
  set (r1 := sock_with_ref (s32 (ref r + 1)) r).
  set (w1 := world_with_heap (<[p := r1]> (heap w)) w).
  set (sb1 := base_with_flags (set_flag on flag (flags sb)) sb).
  set (w2 := world_with_base (<[Z.to_nat (base r) := sb1]> (_socket_base w1)) w1).
  destruct (Hthen sb1 w2) as (w3 & E3 & Em3 & Eh3).
  assert (Hp3 : heap w3 !! p = Some r1) by (rewrite Eh3; apply lookup_insert_eq).
  assert (Hm3 : _socket_map w3 = Some m) by (rewrite Em3; exact Hm).
  eexists.
  run_lookup Hm Hid Hp.
  unfold set_slot_flag, _socket_allocate_base.
  mstep ltac:(apply load_done; apply lookup_insert_eq).
  cbn [base sock_with_ref]. rewrite C.
  mstep ltac:(reflexivity).
  rewrite C'.
  mstep ltac:(apply load_done; apply lookup_insert_eq).
  cbn [base sock_with_ref].
  mstep ltac:(eapply update_base_done; [exact Hb | exact Hsb]).
  mstep ltac:(eapply load_base_done;
              [exact Hb | apply list_lookup_insert_eq; eapply lookup_lt_Some; exact Hsb]).
  mstep ltac:(exact E3).
  eapply (socket_destroy_done w3 m id p r1); [exact Hm3 | exact Hid | exact Hp3 |].
  unfold r1. cbn [ref sock_with_ref]. rewrite s32_incr_decr by lia. lia.
Qed.

(** X23.  A flag that is set reads back.  After socket_set_blocking,
    socket_set_reuse_address or socket_set_reuse_port has returned,
    whatever the kernel made of it, the matching getter returns the value
    that was set; the setter gives the socket a slot if it had none.  On a
    socket that has its slot the three setters do return. *)
Theorem flag_setters_read_back fuel w id r on :
  record_of id w = Some r -> 0 < ref r < 2 ^ 31 - 1 ->
  (SOCKETFLAG_BLOCKING <> 0 ->
   forall w', socket_set_blocking fuel id on w = Done tt w' ->
              socket_blocking id w' = Done on w') /\
  (SOCKETFLAG_REUSE_ADDR <> 0 ->
   forall w', socket_set_reuse_address fuel id on w = Done tt w' ->
              socket_reuse_address id w' = Done on w') /\
  (SOCKETFLAG_REUSE_PORT <> 0 ->
   forall w', socket_set_reuse_port fuel id on w = Done tt w' ->
              socket_reuse_port id w' = Done on w') /\
  (0 <= base r -> is_Some (_socket_base w !! Z.to_nat (base r)) ->
   exists w1 w2 w3,
     socket_set_blocking fuel id on w = Done tt w1 /\
     socket_set_reuse_address fuel id on w = Done tt w2 /\
     socket_set_reuse_port fuel id on w = Done tt w3).
Proof.
  intros Hr Href.
  destruct (record_of_inv _ _ _ Hr) as (m & p & Hm & Hid & Hp).
  assert (H0 : holds m p (ref r) w) by (split; [exact Hm|]; exists r; auto).
  assert (Enough : forall flag then_,
    flag <> 0 ->
    (forall sb w a w', then_ sb w = Done a w' ->
       _socket_map w' = _socket_map w /\ heap w' = heap w /\ _socket_base w' = _socket_base w) ->
    forall w',
      (sock <- _socket_lookup id;;
       match sock with
       | None => ret tt
       | Some q => set_slot_flag fuel q flag on then_;; socket_destroy id
       end) w = Done tt w' ->
      socket_flag_getter flag id w' = Done on w').
  { intros flag then_ Hflag Hthen w' E.
    apply (flagged_getter m id p (ref r) flag on w' Hid ltac:(lia)).
    assert (T : triple (holds m p (ref r))
              (sock <- _socket_lookup id;;
               match sock with
               | None => ret tt
               | Some q => set_slot_flag fuel q flag on then_;; socket_destroy id
               end)
              (fun _ w' => flagged m p (ref r) flag on w')).
    { eapply triple_bind; [apply holds_take; [exact Hid | exact Href]|].
      intros sock. apply triple_pure. intros ->.
      eapply triple_bind; [apply set_slot_flag_flagged; [exact Hflag | exact Hthen]|].
      intros []. apply flagged_release; [exact Hid | exact Href]. }
    exact (T w tt w' H0 E). }
  split; [|split; [|split]]; [intros Hflag w' E..|intros Hb [sb Hsb]].
  - apply (Enough SOCKETFLAG_BLOCKING
             (fun sockbase => when (negb (fd sockbase =? SOCKET_INVALID))
                                (_socket_set_blocking_fd (fd sockbase) on)) Hflag);
      [|exact E].
    intros sb w0 a w0' E0. unfold when in E0.
    destruct (negb (fd sb =? SOCKET_INVALID)).
    + eapply syscalls_only_set_blocking_fd. exact E0.
    + unfold ret in E0. simplify_eq. auto.
  - apply (Enough SOCKETFLAG_REUSE_ADDR
             (fun sockbase => when (negb (fd sockbase =? SOCKET_INVALID))
                (syscall (SYS_setsockopt (fd sockbase) (1, 2) (if on then 1 else 0)) k_setsockopt;;
                 ret tt)) Hflag);
      [|exact E].
    intros sb w0 a w0' E0. unfold when in E0.
    destruct (negb (fd sb =? SOCKET_INVALID)).
    + unfold bind, syscall, ret in E0. simplify_eq. auto.
    + unfold ret in E0. simplify_eq. auto.
  - apply (Enough SOCKETFLAG_REUSE_PORT
             (fun sockbase => when (negb (fd sockbase =? SOCKET_INVALID))
                (syscall (SYS_setsockopt (fd sockbase) (1, 15) (if on then 1 else 0)) k_setsockopt;;
                 ret tt)) Hflag);
      [|exact E].
    intros sb w0 a w0' E0. unfold when in E0.
    destruct (negb (fd sb =? SOCKET_INVALID)).
    + unfold bind, syscall, ret in E0. simplify_eq. auto.
    + unfold ret in E0. simplify_eq. auto.
  - destruct (set_slot_flag_returns fuel m id p r sb SOCKETFLAG_BLOCKING on
                (fun sockbase => when (negb (fd sockbase =? SOCKET_INVALID))
                                   (_socket_set_blocking_fd (fd sockbase) on))
                w Hm Hid Hp Href Hb Hsb) as (w1 & E1).
    { intros sb0 w0. unfold when.
      destruct (negb (fd sb0 =? SOCKET_INVALID)); eexists; (split; [reflexivity|]); auto. }
    destruct (set_slot_flag_returns fuel m id p r sb SOCKETFLAG_REUSE_ADDR on
                (fun sockbase => when (negb (fd sockbase =? SOCKET_INVALID))
                   (syscall (SYS_setsockopt (fd sockbase) (1, 2) (if on then 1 else 0))
                      k_setsockopt;;
                    ret tt))
                w Hm Hid Hp Href Hb Hsb) as (w2 & E2).
    { intros sb0 w0. unfold when.
      destruct (negb (fd sb0 =? SOCKET_INVALID)); eexists; (split; [reflexivity|]); auto. }
    destruct (set_slot_flag_returns fuel m id p r sb SOCKETFLAG_REUSE_PORT on
                (fun sockbase => when (negb (fd sockbase =? SOCKET_INVALID))
                   (syscall (SYS_setsockopt (fd sockbase) (1, 15) (if on then 1 else 0))
                      k_setsockopt;;
                    ret tt))
                w Hm Hid Hp Href Hb Hsb) as (w3 & E3).
    { intros sb0 w0. unfold when.
      destruct (negb (fd sb0 =? SOCKET_INVALID)); eexists; (split; [reflexivity|]); auto. }
    exists w1, w2, w3. auto.
Qed.

End FlagRoundTrip.
Section ReadBuffered.
Context {cfg : Config} {krn : Kernel}.

Lemma u32_nonneg x : 0 <= u32 x.
Proof. unfold u32. apply Z.mod_pos_bound. lia. Qed.

Lemma drain_size_zero r : (0 <? drain_size r 0) = false.
Proof.
  unfold drain_size.
  destruct (offset_read_in r <=? offset_write_in r);
    match goal with |- context [0 <? u32 ?x] =>
      pose proof (u32_nonneg x); destruct (0 <? u32 x) eqn:C end; lia.
Qed.

Lemma drain_size_contiguous r size :
  ring_ok r -> BUILD_SIZE_SOCKET_READBUFFER <= 2 ^ 32 ->
  0 <= size <= contiguous_in r -> drain_size r size = size.
Proof.
  intros [Hr Hw] HN Hsize. unfold drain_size, contiguous_in in *.
  destruct (offset_read_in r <=? offset_write_in r) eqn:C.
  - rewrite u32_small by lia.
    destruct (size <? offset_write_in r - offset_read_in r) eqn:C2; lia.
  - rewrite u32_small by lia.
    destruct (size <? BUILD_SIZE_SOCKET_READBUFFER - offset_read_in r) eqn:C2; lia.
Qed.

(** The drain loop when the bytes asked for are there in one piece. *)
Lemma _socket_read_drain_contiguous fuel w p r size buffer :
  heap w !! p = Some r -> ring_ok r -> BUILD_SIZE_SOCKET_READBUFFER <= 2 ^ 32 ->
  0 < size <= contiguous_in r ->
  _socket_read_drain (S (S fuel)) p size 0 buffer false w
  = Done (size,
          write_at 0 (take (Z.to_nat size) (drop (Z.to_nat (offset_read_in r)) (buffer_in r)))
            <$> buffer,
          true)
      (world_with_heap
         (<[p := sock_with_in (buffer_in r) (drain_cursor r size) (offset_write_in r) r]>
            (heap w)) w).
Proof.
  intros Hp Hring HN Hsize.
  assert (Hc : contiguous_in r < BUILD_SIZE_SOCKET_READBUFFER).
  { destruct Hring as [Hr Hw]. unfold contiguous_in.
    destruct (offset_read_in r <=? offset_write_in r) eqn:Cc; lia. }
  assert (H64 : 2 ^ 32 < 2 ^ 64) by reflexivity.
  cbn [_socket_read_drain].
  mstep ltac:(apply load_done; exact Hp).
  rewrite Z.sub_0_r, (u64_small size), (u32_small size) by lia.
  rewrite (drain_size_contiguous r size Hring HN) by lia.
  assert (C : (0 <? size) = true) by lia. rewrite C.
  mstep ltac:(eapply store_done; exact Hp).
  mstep ltac:(apply load_done; apply lookup_insert_eq).
  rewrite Z.add_0_l, (u64_small size) by lia.
  rewrite Z.sub_diag. change (u32 (u64 0)) with 0.
  rewrite drain_size_zero.
  reflexivity.
Qed.

(** X24.  A read that the in-ring can serve in one piece is served from
    the ring: the bytes at the read cursor are copied to the caller's
    buffer, the read cursor moves on by the size (wrapping to 0 at the end
    of the buffer), the count of bytes read, which tell reports, advances
    by the size, and the size is returned.  The kernel is not called, the
    state is not polled, and nothing else changes but the slot's
    last_event, which is cleared. *)
Theorem _socket_read_served_from_ring w s ss r sb fuel buffer size :
  streams w !! s = Some ss -> stream_type_socket ss = true ->
  record_of (stream_socket ss) w = Some r -> 0 < ref r < 2 ^ 31 - 1 ->
  0 <= base r -> _socket_base w !! Z.to_nat (base r) = Some sb ->
  state sb = SOCKETSTATE_CONNECTED \/ state sb = SOCKETSTATE_DISCONNECTED ->
  ring_ok r -> BUILD_SIZE_SOCKET_READBUFFER <= 2 ^ 32 ->
  0 < size <= contiguous_in r ->
  exists w',
    _socket_read (S (S fuel)) s buffer size w
    = Done (size,
            write_at 0 (take (Z.to_nat size) (drop (Z.to_nat (offset_read_in r)) (buffer_in r)))
              <$> buffer) w' /\
    record_of (stream_socket ss) w'
    = Some (sock_with_counters (u64 (bytes_read r + size)) (bytes_written r)
              (sock_with_in (buffer_in r) (drain_cursor r size) (offset_write_in r) r)) /\
    _socket_base w' = <[Z.to_nat (base r) := base_with_last_event 0 sb]> (_socket_base w) /\
    trace w' = trace w /\
    _socket_tell s w' = Done ((u64 (bytes_read r + size) + 2 ^ 63) mod 2 ^ 64 - 2 ^ 63) w'.
Proof.
  intros Hs Hty Hr Href Hb Hsb Hst Hring HN Hsize.
  destruct (record_of_inv _ _ _ Hr) as (m & p & Hm & Hid & Hp).
  assert (C : (base r <? 0) = false) by lia.
  assert (C0 : (size =? 0) = false) by lia.
  assert (C1 : (size <? size) = false) by lia.
  assert (Cst : negb (state_eqb (state sb) SOCKETSTATE_CONNECTED)
                && negb (state_eqb (state sb) SOCKETSTATE_DISCONNECTED) = false)
    by (destruct Hst as [-> | ->]; reflexivity).
  set (r1 := sock_with_ref (s32 (ref r + 1)) r).
  set (w1 := world_with_heap (<[p := r1]> (heap w)) w).
  set (w2 := world_with_base (<[Z.to_nat (base r) := base_with_last_event 0 sb]>
                                (_socket_base w1)) w1).
  assert (Hp2 : heap w2 !! p = Some r1) by apply lookup_insert_eq.
  pose proof (_socket_read_drain_contiguous fuel w2 p r1 size buffer Hp2 Hring HN Hsize) as Ed.
  set (r3 := sock_with_in (buffer_in r1) (drain_cursor r1 size) (offset_write_in r1) r1) in *.
  match type of Ed with _ = Done _ ?w3' => set (w3 := w3') in * end.
  set (r4 := sock_with_counters (u64 (bytes_read r3 + size)) (bytes_written r3) r3).
  set (w4 := world_with_heap (<[p := r4]> (heap w3)) w3).
  assert (Href4 : s32 (ref r4 - 1) = ref r).
  { cbn [ref r4 r3 r1 sock_with_counters sock_with_in sock_with_ref].
    rewrite s32_incr_decr by lia. reflexivity. }
  set (r5 := sock_with_ref (s32 (ref r4 - 1)) r4).
  exists (world_with_heap (<[p := r5]> (heap w4)) w4).
  assert (Hrec : record_of (stream_socket ss) (world_with_heap (<[p := r5]> (heap w4)) w4)
                 = Some r5).
  { eapply record_of_Some; [exact Hm | exact Hid | apply lookup_insert_eq]. }
  split; [|split; [|split; [|split]]].
  - unfold _socket_read.
    mstep ltac:(apply load_stream_done; exact Hs).
    mstep ltac:(apply assert_done; exact Hty).
    run_lookup Hm Hid Hp.
    mstep ltac:(apply load_done; apply lookup_insert_eq).
    cbn [base sock_with_ref]. rewrite C. cbv zeta.
    mstep ltac:(eapply load_base_done; [exact Hb | exact Hsb]).
    mstep ltac:(eapply update_base_done; [exact Hb | exact Hsb]).
    rewrite Cst, C0.
    cbn [_socket_read_loop].
    mstep ltac:(exact Ed).
    cbn [fst snd]. rewrite C1. cbn [andb].
    mstep ltac:(reflexivity).
    mstep ltac:(reflexivity).
    cbn [fst snd]. rewrite C1. unfold when at 1.
    mstep ltac:(reflexivity).
    mstep ltac:(eapply update_done; apply lookup_insert_eq).
    mstep ltac:(reflexivity).
    mstep ltac:(apply load_stream_done; exact Hs).
    mstep ltac:(eapply (socket_destroy_done w4 m (stream_socket ss) p r4);
                [ exact Hm | exact Hid | apply lookup_insert_eq | rewrite Href4; lia ]).
    reflexivity.
  - rewrite Hrec. f_equal. unfold r5. rewrite Href4.
    cbn [r4 r3 r1 bytes_read bytes_written buffer_in offset_write_in sock_with_in
         sock_with_ref sock_with_counters].
    unfold drain_cursor. cbn [offset_read_in sock_with_ref].
    destruct r; reflexivity.
  - reflexivity.
  - reflexivity.
  - unfold _socket_tell.
    mstep ltac:(apply load_stream_done; exact Hs).
    mstep ltac:(apply assert_done; exact Hty).
    mstep ltac:(eapply (_socket_lookup_done _ m (stream_socket ss) p r5);
                [ exact Hm | exact Hid | apply lookup_insert_eq ]).
    mstep ltac:(apply load_done; apply lookup_insert_eq).
    mstep ltac:(apply load_stream_done; exact Hs).
    mstep ltac:(eapply (socket_destroy_after_lookup _ m (stream_socket ss) p r5);
                [ exact Hm | exact Hid | apply lookup_insert_eq
                | unfold r5; cbn [ref sock_with_ref]; rewrite Href4; lia ]).
    reflexivity.
Qed.

End ReadBuffered.
Section ReadWrapped.
Context {cfg : Config} {krn : Kernel}.

(** The drain loop when the bytes asked for lie across the end of the
    buffer: two rounds, and both copy to the start of the caller's
    buffer. *)
Lemma _socket_read_drain_wrapped fuel w p r k buffer :
  heap w !! p = Some r -> ring_ok r -> BUILD_SIZE_SOCKET_READBUFFER <= 2 ^ 32 ->
  offset_write_in r < offset_read_in r -> 0 < k <= offset_write_in r ->
  let first := BUILD_SIZE_SOCKET_READBUFFER - offset_read_in r in
  _socket_read_drain (S (S (S fuel))) p (first + k) 0 buffer false w
  = Done (first + k,
          write_at 0 (take (Z.to_nat k) (buffer_in r))
            <$> (write_at 0 (take (Z.to_nat first)
                               (drop (Z.to_nat (offset_read_in r)) (buffer_in r)))
                   <$> buffer),
          true)
      (world_with_heap
         (<[p := sock_with_in (buffer_in r) k (offset_write_in r) r]> (heap w)) w).
Proof.
  intros Hp [Hr Hw] HN Hwrap Hk first.
  assert (H64 : 2 ^ 32 < 2 ^ 64) by reflexivity.
  assert (Hfirst : 0 < first < BUILD_SIZE_SOCKET_READBUFFER) by (unfold first; lia).
  assert (Hfk : first + k < BUILD_SIZE_SOCKET_READBUFFER) by (unfold first; lia).
  cbn [_socket_read_drain].
  (* the piece up to the end of the buffer *)
  mstep ltac:(apply load_done; exact Hp).
  rewrite Z.sub_0_r. rewrite (u64_small (first + k)) by lia.
  rewrite (u32_small (first + k)) by lia.
  assert (D1 : drain_size r (first + k) = first).
  { unfold drain_size. assert (C : (offset_read_in r <=? offset_write_in r) = false) by lia.
    rewrite C. fold first. rewrite (u32_small first) by lia.
    assert (C2 : (first + k <? first) = false) by lia. rewrite C2. reflexivity. }
  rewrite D1. assert (C1 : (0 <? first) = true) by lia. rewrite C1.
  mstep ltac:(eapply store_done; exact Hp).
  assert (W1 : drain_cursor r first = 0).
  { unfold drain_cursor, first.
    replace (offset_read_in r + (BUILD_SIZE_SOCKET_READBUFFER - offset_read_in r))
      with BUILD_SIZE_SOCKET_READBUFFER by lia.
    destruct (Z.eq_dec BUILD_SIZE_SOCKET_READBUFFER (2 ^ 32)) as [E|E].
    - rewrite E. reflexivity.
    - rewrite u32_small by lia. rewrite Z.eqb_refl. reflexivity. }
  rewrite W1.
  (* the piece from the start of the buffer *)
  mstep ltac:(apply load_done; apply lookup_insert_eq).
  rewrite Z.add_0_l, (u64_small first) by lia.
  replace (first + k - first) with k by lia.
  rewrite (u64_small k), (u32_small k) by lia.
  assert (D2 : drain_size (sock_with_in (buffer_in r) 0 (offset_write_in r) r) k = k).
  { unfold drain_size. cbn [offset_read_in offset_write_in sock_with_in].
    assert (C : (0 <=? offset_write_in r) = true) by lia. rewrite C.
    rewrite Z.sub_0_r, u32_small by lia.
    destruct (k <? offset_write_in r) eqn:C2; lia. }
  rewrite D2. assert (C2 : (0 <? k) = true) by lia. rewrite C2.
  mstep ltac:(eapply store_done; apply lookup_insert_eq).
  assert (W2 : drain_cursor (sock_with_in (buffer_in r) 0 (offset_write_in r) r) k = k).
  { unfold drain_cursor. cbn [offset_read_in sock_with_in].
    rewrite Z.add_0_l, u32_small by lia.
    assert (C : (k =? BUILD_SIZE_SOCKET_READBUFFER) = false) by lia. rewrite C. reflexivity. }
  rewrite W2.
  (* nothing is left to ask for *)
  mstep ltac:(apply load_done; apply lookup_insert_eq).
  rewrite (u64_small (first + k)) by lia.
  rewrite Z.sub_diag. change (u32 (u64 0)) with 0.
  rewrite drain_size_zero.
  cbn [buffer_in offset_read_in offset_write_in sock_with_in].
  change (Z.to_nat 0) with 0%nat. rewrite drop_0.
  wsimpl. rewrite insert_insert_eq.
  reflexivity.
Qed.


(** X25.  A read whose bytes lie across the end of the in-ring is served
    in two pieces, and both are copied to the start of the caller's
    buffer: the piece from the start of the ring overwrites the piece
    that ran up to its end.  The full size is returned all the same, the
    read cursor ends behind the second piece, and the kernel is not
    called. *)
Theorem _socket_read_across_the_end w s ss r sb fuel buffer k :
  streams w !! s = Some ss -> stream_type_socket ss = true ->
  record_of (stream_socket ss) w = Some r -> 0 < ref r < 2 ^ 31 - 1 ->
  0 <= base r -> _socket_base w !! Z.to_nat (base r) = Some sb ->
  state sb = SOCKETSTATE_CONNECTED \/ state sb = SOCKETSTATE_DISCONNECTED ->
  ring_ok r -> BUILD_SIZE_SOCKET_READBUFFER <= 2 ^ 32 ->
  offset_write_in r < offset_read_in r -> 0 < k <= offset_write_in r ->
  let first := BUILD_SIZE_SOCKET_READBUFFER - offset_read_in r in
  exists w',
    _socket_read (S (S (S fuel))) s buffer (first + k) w
    = Done (first + k,
            write_at 0 (take (Z.to_nat k) (buffer_in r))
              <$> (write_at 0 (take (Z.to_nat first)
                                 (drop (Z.to_nat (offset_read_in r)) (buffer_in r)))
                     <$> buffer)) w' /\
    record_of (stream_socket ss) w'
    = Some (sock_with_counters (u64 (bytes_read r + (first + k))) (bytes_written r)
              (sock_with_in (buffer_in r) k (offset_write_in r) r)) /\
    trace w' = trace w.
Proof.
  intros Hs Hty Hr Href Hb Hsb Hst Hring HN Hwrap Hk first.
  destruct (record_of_inv _ _ _ Hr) as (m & p & Hm & Hid & Hp).
  assert (Hfirst : 0 < first) by (destruct Hring; unfold first; lia).
  assert (C : (base r <? 0) = false) by lia.
  assert (C0 : (first + k =? 0) = false) by lia.
  assert (C1 : (first + k <? first + k) = false) by lia.
  assert (Cst : negb (state_eqb (state sb) SOCKETSTATE_CONNECTED)
                && negb (state_eqb (state sb) SOCKETSTATE_DISCONNECTED) = false)
    by (destruct Hst as [-> | ->]; reflexivity).
  set (r1 := sock_with_ref (s32 (ref r + 1)) r).
  set (w1 := world_with_heap (<[p := r1]> (heap w)) w).
  set (w2 := world_with_base (<[Z.to_nat (base r) := base_with_last_event 0 sb]>
                                (_socket_base w1)) w1).
  assert (Hp2 : heap w2 !! p = Some r1) by apply lookup_insert_eq.
  pose proof (_socket_read_drain_wrapped fuel w2 p r1 k buffer Hp2 Hring HN Hwrap Hk) as Ed.
  cbv zeta in Ed.
  change (BUILD_SIZE_SOCKET_READBUFFER - offset_read_in r1) with first in Ed.
  set (r3 := sock_with_in (buffer_in r1) k (offset_write_in r1) r1) in *.
  match type of Ed with _ = Done _ ?w3' => set (w3 := w3') in * end.
  set (r4 := sock_with_counters (u64 (bytes_read r3 + (first + k))) (bytes_written r3) r3).
  set (w4 := world_with_heap (<[p := r4]> (heap w3)) w3).
  assert (Href4 : s32 (ref r4 - 1) = ref r).
  { cbn [ref r4 r3 r1 sock_with_counters sock_with_in sock_with_ref].
    rewrite s32_incr_decr by lia. reflexivity. }
  set (r5 := sock_with_ref (s32 (ref r4 - 1)) r4).
  exists (world_with_heap (<[p := r5]> (heap w4)) w4).
  assert (Hrec : record_of (stream_socket ss) (world_with_heap (<[p := r5]> (heap w4)) w4)
                 = Some r5).
  { eapply record_of_Some; [exact Hm | exact Hid | apply lookup_insert_eq]. }
  split; [|split].
  - unfold _socket_read.
    mstep ltac:(apply load_stream_done; exact Hs).
    mstep ltac:(apply assert_done; exact Hty).
    run_lookup Hm Hid Hp.
    mstep ltac:(apply load_done; apply lookup_insert_eq).
    cbn [base sock_with_ref]. rewrite C. cbv zeta.
    mstep ltac:(eapply load_base_done; [exact Hb | exact Hsb]).
    mstep ltac:(eapply update_base_done; [exact Hb | exact Hsb]).
    rewrite Cst. fold first. rewrite C0.
    cbn [_socket_read_loop].
    mstep ltac:(exact Ed).
    cbn [fst snd]. rewrite C1. cbn [andb].
    mstep ltac:(reflexivity).
    mstep ltac:(reflexivity).
    cbn [fst snd]. rewrite C1. unfold when at 1.
    mstep ltac:(reflexivity).
    mstep ltac:(eapply update_done; apply lookup_insert_eq).
    mstep ltac:(reflexivity).
    mstep ltac:(apply load_stream_done; exact Hs).
    mstep ltac:(eapply (socket_destroy_done w4 m (stream_socket ss) p r4);
                [ exact Hm | exact Hid | apply lookup_insert_eq | rewrite Href4; lia ]).
    reflexivity.
  - rewrite Hrec. f_equal. unfold r5. rewrite Href4.
    cbn [r4 r3 r1 bytes_read bytes_written buffer_in offset_write_in sock_with_in
         sock_with_ref sock_with_counters].
    destruct r; reflexivity.
  - reflexivity.
Qed.

End ReadWrapped.
Section Accept.
Context {cfg : Config} {krn : Kernel}.

(** _tcp_socket_allocate on a registry with room: the record is put at the
    allocator's next address and registered under the next id. *)
Lemma _tcp_socket_allocate_done w m :
  _socket_map w = Some m -> Z.of_nat (size (om_entries m)) < om_size m ->
  om_next m <> 0 ->
  exists a,
    _tcp_socket_allocate w
    = Done (Some (next_ptr w))
        (world_with_map
           (Some {| om_size := om_size m; om_next := om_next m + 1;
                    om_entries := <[om_next m := next_ptr w]> (om_entries m) |})
           (world_with_heap (<[next_ptr w := a]> (heap w))
              (world_with_next_ptr (next_ptr w + 1) w))) /\
    sock_id a = om_next m /\ ref a = 1 /\ base a = -1 /\
    address_local a = None /\ address_remote a = None.
Proof.
  intros Hm Hroom Hnext.
  assert (C : (om_size m <=? Z.of_nat (size (om_entries m))) = false) by lia.
  apply Z.eqb_neq in Hnext.
  eexists. split.
  { unfold _tcp_socket_allocate, _socket_allocate.
    rewrite !bind_assoc.
    mstep ltac:(unfold gets; rewrite Hm; reflexivity).
    rewrite bool_decide_eq_true_2 by (eexists; reflexivity).
    mstep ltac:(unfold objectmap_reserve; mstep ltac:(apply the_map_done; exact Hm);
                rewrite C; mstep ltac:(reflexivity); reflexivity).
    rewrite Hnext.
    mstep ltac:(reflexivity).
    mstep ltac:(eapply update_done; apply lookup_insert_eq).
    mstep ltac:(unfold objectmap_set; mstep ltac:(apply the_map_done; reflexivity);
                reflexivity).
    mstep ltac:(reflexivity).
    mstep ltac:(eapply update_done; apply lookup_insert_eq).
    unfold ret. wsimpl. rewrite !insert_insert_eq. reflexivity. }
  repeat split; reflexivity.
Qed.


(** X26.  A listening socket accepts a connection the kernel has ready
    (no timeout given): a new socket is created under the next id, with
    one reference, the first free slot, the accepted descriptor in state
    CONNECTED, the peer's address as its remote address and the address
    getsockname reports as its local one.  The listener keeps its
    reference count and stays LISTENING.  The kernel is asked to accept
    and for the socket name, and nothing else: the accepted descriptor is
    left as the kernel handed it out, and the new slot has no flags. *)
Theorem tcp_socket_accept_connection fuel w id m p r sb local_ i free timeoutms :
  _socket_map w = Some m -> om_entries m !! id = Some p -> heap w !! p = Some r ->
  0 < ref r < 2 ^ 31 - 1 ->
  0 <= base r -> _socket_base w !! Z.to_nat (base r) = Some sb -> object sb <> 0 ->
  address_local r = Some local_ ->
  addr_family local_ = NETWORK_ADDRESSFAMILY_IPV4 \/
  addr_family local_ = NETWORK_ADDRESSFAMILY_IPV6 ->
  state sb = SOCKETSTATE_LISTENING -> fd sb <> SOCKET_INVALID -> timeoutms <= 0 ->
  Z.of_nat (size (om_entries m)) < om_size m -> om_next m <> 0 ->
  heap w !! next_ptr w = None -> om_entries m !! om_next m = None ->
  0 <= _socket_base_next w <= i -> i < _socket_base_size w -> i < 2 ^ 31 - 1 ->
  i - _socket_base_next w < Z.of_nat fuel ->
  (forall j, _socket_base_next w <= j < i ->
     exists sb', _socket_base w !! Z.to_nat j = Some sb' /\ object sb' <> 0) ->
  _socket_base w !! Z.to_nat i = Some free -> object free = 0 ->
  let answer := k_accept (length (trace w)) in
  0 <= answer.1.1 ->
  exists w' a l,
    tcp_socket_accept fuel id timeoutms w = Done (om_next m) w' /\
    record_of (om_next m) w' = Some a /\
    ref a = 1 /\ base a = i /\
    address_remote a
    = Some {| addr_family := addr_family local_; address_size := address_size local_;
              saddr := answer.2 |} /\
    address_local a = Some l /\ addr_family l = addr_family local_ /\
    saddr l = k_getsockname (S (length (trace w))) /\
    _socket_base w' !! Z.to_nat i
    = Some {| object := om_next m; fd := answer.1.1; flags := 0;
              state := SOCKETSTATE_CONNECTED; last_event := 0 |} /\
    ref_of id w' = Some (ref r) /\ state_of id w' = SOCKETSTATE_LISTENING /\
    trace w' = SYS_getsockname answer.1.1 :: SYS_accept (fd sb) :: trace w.
Proof.
  intros Hm Hid Hp Href Hb Hsb Hobj Hlocal Hfam Hst Hfd Htime Hroom Hnext Hfresh Hunused
         Hc Hmax Hwrap Hfuel Htaken Hfree Hzero answer Hans.
  assert (Hpq : p <> next_ptr w) by (intros E; subst p; assert (X : Some r = None) by (rewrite <- Hp; exact Hfresh);
        discriminate X).
  assert (Hib : Z.to_nat i <> Z.to_nat (base r)).
  { intros E. assert (i = base r) by lia. subst i. rewrite Hsb in Hfree.
    apply (inj Some) in Hfree. subst free. contradiction. }
  assert (Cb : (base r <? 0) = false) by lia.
  assert (Ct : (0 <? timeoutms) = false) by lia.
  assert (Cf : (answer.1.1 <? 0) = false) by lia.
  assert (Cfd : (fd sb =? SOCKET_INVALID) = false) by lia.
  set (r1 := sock_with_ref (s32 (ref r + 1)) r).
  set (w1 := world_with_heap (<[p := r1]> (heap w)) w).
  set (w2 := world_with_trace (SYS_accept (fd sb) :: trace w1) w1).
  set (sb3 := base_with_flags (Z.land (flags sb) SOCKETFLAG_CONNECTION_PENDING) sb).
  set (w3 := world_with_base (<[Z.to_nat (base r) := sb3]> (_socket_base w2)) w2).
  destruct (_tcp_socket_allocate_done w3 m Hm Hroom Hnext)
    as (a & Ea & Ha_id & Ha_ref & Ha_base & Ha_local & Ha_remote).
  match type of Ea with _ = Done _ ?w4' => set (w4 := w4') in * end.
  set (q := next_ptr w) in *.
  assert (Hq4 : heap w4 !! q = Some a) by apply lookup_insert_eq.
  assert (Eb : _socket_allocate_base fuel q w4
               = Done i
                   (world_with_base
                      (<[Z.to_nat i :=
                           {| object := sock_id a; fd := SOCKET_INVALID; flags := 0;
                              state := SOCKETSTATE_NOTCONNECTED; last_event := 0 |}]>
                         (_socket_base w4))
                      (world_with_heap (<[q := sock_with_base i a]> (heap w4))
                         (world_with_base_next (i + 1) w4)))).
  { apply (_socket_allocate_base_finds fuel w4 q a i free); try assumption.
    - lia.
    - intros j Hj. cbn in Hj. destruct (Htaken j Hj) as (sb' & Hs' & Ho').
      destruct (decide (Z.to_nat j = Z.to_nat (base r))) as [E|E].
      + exists sb3. split.
        * cbn. rewrite E. apply list_lookup_insert_eq. eapply lookup_lt_Some. exact Hsb.
        * exact Hobj.
      + exists sb'. split; [|exact Ho'].
        cbn. rewrite list_lookup_insert_ne by congruence. exact Hs'.
    - cbn. rewrite list_lookup_insert_ne by congruence. exact Hfree. }
  match type of Eb with _ = Done _ ?w5' => set (w5 := w5') in * end.
  assert (Ci : (i <? 0) = false) by lia.
  assert (Hlen : (Z.to_nat i < length (_socket_base w))%nat)
    by (eapply lookup_lt_Some; exact Hfree).
  assert (Hs5 : _socket_base w5 !! Z.to_nat i
                = Some {| object := sock_id a; fd := SOCKET_INVALID; flags := 0;
                          state := SOCKETSTATE_NOTCONNECTED; last_event := 0 |}).
  { unfold w5, w4, w3, w2, w1. wsimpl. apply list_lookup_insert_eq.
    rewrite length_insert. exact Hlen. }
  set (sa := {| object := sock_id a; fd := answer.1.1; flags := 0;
                state := SOCKETSTATE_CONNECTED; last_event := 0 |}).
  set (w6 := world_with_base (<[Z.to_nat i := sa]> (_socket_base w5)) w5).
  set (remote := {| addr_family := addr_family local_; address_size := address_size local_;
                    saddr := answer.2 |}).
  set (a7 := sock_with_address_remote (Some remote) (sock_with_base i a)).
  set (w7 := world_with_heap (<[q := a7]> (heap w6)) w6).
  destruct (_socket_store_address_local_effect w7 q a7 sa (addr_family local_))
    as (l & El & Hl1 & Hl2).
  { apply lookup_insert_eq. }
  { cbn. lia. }
  { unfold w6. wsimpl. cbn [base a7 sock_with_address_remote sock_with_base].
    apply list_lookup_insert_eq. eapply lookup_lt_Some. exact Hs5. }
  { exact Hfam. }
  match type of El with _ = Done _ ?w8' => set (w8 := w8') in * end.
  assert (Hidq : id <> om_next m) by (intros E; subst id; assert (X : Some p = None) by (rewrite <- Hid; exact Hunused);
        discriminate X).
  assert (Hqp : q <> p) by (intros E; apply Hpq; symmetry; exact E).
  assert (Hp8 : heap w8 !! p = Some r1).
  { cbn. rewrite !insert_insert_eq. rewrite lookup_insert_ne by exact Hqp.
    apply lookup_insert_eq. }
  set (w9 := world_with_heap (<[p := sock_with_ref (s32 (ref r1 - 1)) r1]> (heap w8)) w8).
  assert (Hq9 : heap w9 !! q = Some (sock_with_address_local (Some l) a7)).
  { unfold w9. wsimpl. rewrite lookup_insert_ne by exact Hpq.
    unfold w8. wsimpl. apply lookup_insert_eq. }
  exists w9, (sock_with_address_local (Some l) a7), l.
  split.
  { unfold tcp_socket_accept.
    run_lookup Hm Hid Hp.
    mstep ltac:(apply load_done; apply lookup_insert_eq).
    cbn [base sock_with_ref]. rewrite Cb. cbv zeta.
    mstep ltac:(eapply load_base_done; [exact Hb | exact Hsb]).
    cbn [address_local sock_with_ref]. rewrite Hlocal, Hst, Cfd.
    change (negb (state_eqb SOCKETSTATE_LISTENING SOCKETSTATE_LISTENING) || false) with false.
    cbv iota. rewrite Ct. cbn [andb]. unfold when at 1.
    mstep ltac:(reflexivity).
    mstep ltac:(eapply load_base_done; [exact Hb | exact Hsb]).
    mstep ltac:(apply syscall_done).
    wsimpl. fold answer. rewrite Cf. cbn [andb].
    mstep ltac:(reflexivity).
    cbn [fst snd]. unfold when at 1.
    mstep ltac:(reflexivity).
    mstep ltac:(eapply update_base_done; [exact Hb | exact Hsb]).
    rewrite Cf.
    mstep ltac:(exact Ea).
    mstep ltac:(exact Eb).
    rewrite Ci.
    mstep ltac:(apply load_done; apply lookup_insert_eq).
    cbn [base sock_with_base].
    mstep ltac:(eapply update_base_done; [lia | exact Hs5]).
    mstep ltac:(eapply update_done; apply lookup_insert_eq).
    mstep ltac:(exact El).
    mstep ltac:(eapply (socket_destroy_done w8 _ id p r1);
                [ reflexivity
                | cbn [om_entries]; rewrite lookup_insert_ne by congruence; exact Hid
                | exact Hp8
                | unfold r1; cbn [ref sock_with_ref]; rewrite s32_incr_decr by lia; lia ]).
    mstep ltac:(apply load_done; exact Hq9).
    cbn [sock_id sock_with_address_local sock_with_address_remote sock_with_base a7].
    rewrite Ha_id. reflexivity. }
  assert (Hrec : record_of (om_next m) w9 = Some (sock_with_address_local (Some l) a7)).
  { eapply record_of_Some; [reflexivity | apply lookup_insert_eq | exact Hq9]. }
  assert (Hp9 : heap w9 !! p = Some (sock_with_ref (s32 (ref r1 - 1)) r1))
    by apply lookup_insert_eq.
  assert (Hrec' : record_of id w9 = Some (sock_with_ref (s32 (ref r1 - 1)) r1)).
  { eapply record_of_Some; [reflexivity | | exact Hp9].
    cbn [om_entries]. rewrite lookup_insert_ne by congruence. exact Hid. }
  split; [exact Hrec|].
  split; [exact Ha_ref|].
  split; [reflexivity|].
  split; [reflexivity|].
  split; [reflexivity|].
  split; [exact Hl1|].
  split; [rewrite Hl2; reflexivity|].
  split.
  { unfold w9, w8, w7, w6. wsimpl. unfold sa. rewrite Ha_id.
    apply list_lookup_insert_eq. eapply lookup_lt_Some. exact Hs5. }
  split.
  { rewrite (ref_of_record _ _ _ Hrec'). f_equal. unfold r1. cbn [ref sock_with_ref].
    apply s32_incr_decr. lia. }
  split; [|reflexivity].
  unfold state_of, slot_of. rewrite Hrec'. cbn [mbind option_bind base sock_with_ref r1].
  assert (Cb' : (0 <=? base r) = true) by lia. rewrite Cb'.
  unfold w9, w8, w7, w6, w5, w4, w3, w2, w1. wsimpl.
  rewrite list_insert_insert_eq, list_lookup_insert_ne by congruence.
  rewrite list_lookup_insert_eq by (eapply lookup_lt_Some; exact Hsb).
  exact Hst.
Qed.

End Accept.
Section PeerShutdown.
Context {cfg : Config} {krn : Kernel}.

(** X27.  When recv returns 0 (the peer has shut the connection down) on a
    socket whose in-ring has room, and that is not blocking or is asked
    for a size, _tcp_socket_buffer_read closes the socket and posts one HANGUP event
    for its id: the descriptor is shut down and closed, the slot is
    released, the record loses its slot and its addresses, and the
    released slot is left carrying the HANGUP_PENDING flag.  The check of
    that flag comes after the close has cleared the flags, so it never
    holds the event back.  No byte is reported as received. *)
Theorem _tcp_socket_buffer_read_peer_shutdown fuel w p r sb wanted_size :
  heap w !! p = Some r -> 0 <= base r ->
  _socket_base w !! Z.to_nat (base r) = Some sb ->
  ring_ok r -> 1 < BUILD_SIZE_SOCKET_READBUFFER < 2 ^ 32 ->
  buffered_in r < BUILD_SIZE_SOCKET_READBUFFER - 1 ->
  has_flag SOCKETFLAG_BLOCKING (flags sb) = false \/ wanted_size <> 0 ->
  let probed := probe_calls (fd sb) ++ trace w in
  (forall len, (k_recv (length probed) len).1.1 = 0) ->
  exists len w',
    _tcp_socket_buffer_read (S fuel) p wanted_size w = Done 0 w' /\
    _socket_map w' = _socket_map w /\
    heap w' = <[p := closed_record r]> (heap w) /\
    _socket_base w'
    = <[Z.to_nat (base r) := base_with_flags SOCKETFLAG_HANGUP_PENDING (released_slot sb)]>
        (_socket_base w) /\
    events w' = (NETWORKEVENT_HANGUP, sock_id r) :: events w /\
    trace w' = close_calls (fd sb) ++ SYS_recv (fd sb) len :: probed.
Proof.
  intros Hp Hb Hsb [Hr Hw] HN Hroom Hgo probed Hrecv.
  assert (Cb : (base r <? 0) = false) by lia.
  cbn [_tcp_socket_buffer_read].
  mstep ltac:(apply load_done; exact Hp).
  rewrite Cb. cbv zeta.
  match goal with |- context [if ?m =? 0 then ret 0 else _] => set (max_read := m) end.
  assert (Cm : (max_read =? 0) = false).
  { apply Z.eqb_neq. unfold max_read. unfold buffered_in in Hroom.
    destruct (offset_read_in r <=? offset_write_in r) eqn:Cw.
    - rewrite u32_small in Hroom by lia.
      rewrite (u32_small (BUILD_SIZE_SOCKET_READBUFFER - offset_write_in r)) by lia.
      destruct (offset_read_in r =? 0) eqn:C0; [rewrite u32_small by lia|]; lia.
    - rewrite (u32_small (BUILD_SIZE_SOCKET_READBUFFER - offset_read_in r)) in Hroom by lia.
      rewrite u32_small in Hroom by lia. rewrite u32_small by lia. lia. }
  rewrite Cm.
  mstep ltac:(eapply load_base_done; [exact Hb | exact Hsb]).
  mstep ltac:(apply _socket_available_fd_done).
  fold probed.
  assert (Cgo : (u32 (probe_value (fd sb) (length (trace w))) =? 0) && (wanted_size =? 0)
                && has_flag SOCKETFLAG_BLOCKING (flags sb) = false).
  { destruct Hgo as [-> | Hwanted]; [apply andb_false_r|].
    assert (C : (wanted_size =? 0) = false) by lia. rewrite C, andb_false_r. reflexivity. }
  rewrite Cgo.
  mstep ltac:(apply syscall_done).
  wsimpl. rewrite Hrecv. change (0 =? 0) with true. cbv iota.
  eexists _, _. split.
  { unfold close_and_post_hangup.
    mstep ltac:(eapply _socket_close_slot; [exact Hp | exact Hb | exact Hsb]).
    mstep ltac:(eapply load_base_done;
                [exact Hb | apply list_lookup_insert_eq; eapply lookup_lt_Some; exact Hsb]).
    change (has_flag SOCKETFLAG_HANGUP_PENDING (flags (released_slot sb))) with false.
    unfold when at 1. cbv iota. cbn [negb].
    mstep ltac:(eapply update_base_done;
                [exact Hb | apply list_lookup_insert_eq; eapply lookup_lt_Some; exact Hsb]).
    mstep ltac:(apply load_done; apply lookup_insert_eq).
    mstep ltac:(reflexivity).
    reflexivity. }
  wsimpl. rewrite list_insert_insert_eq.
  split; [reflexivity|]. split; [reflexivity|]. split; [reflexivity|].
  split; [rewrite closed_record_sock_id; reflexivity | reflexivity].
Qed.

End PeerShutdown.
Section Available.
Context {cfg : Config} {krn : Kernel}.

(** X28.  available_read on the stream of a socket with a slot is the
    count of bytes buffered in the in-ring plus what the kernel reports as
    pending on the descriptor (nothing for a negative report).  It asks
    the kernel once (not at all without a descriptor) and changes nothing
    else: the reference it takes is given back. *)
Theorem _socket_available_read_counts w s ss r sb :
  streams w !! s = Some ss -> stream_type_socket ss = true ->
  record_of (stream_socket ss) w = Some r -> 0 < ref r < 2 ^ 31 ->
  0 <= base r -> _socket_base w !! Z.to_nat (base r) = Some sb ->
  let pending := probe_value (fd sb) (length (trace w)) in
  _socket_available_read s w
  = Done (u32 (buffered_in r + Z.max 0 pending))
      (world_with_trace (probe_calls (fd sb) ++ trace w) w).
Proof.
  intros Hs Hty Hr Href Hb Hsb pending.
  destruct (record_of_inv _ _ _ Hr) as (m & p & Hm & Hid & Hp).
  assert (Cb : (base r <? 0) = false) by lia.
  assert (Cb' : (0 <=? base r) = true) by lia.
  unfold _socket_available_read.
  mstep ltac:(apply load_stream_done; exact Hs).
  mstep ltac:(apply assert_done; exact Hty).
  run_lookup Hm Hid Hp.
  mstep ltac:(apply load_done; apply lookup_insert_eq).
  cbn [base sock_with_ref]. rewrite Cb.
  unfold _socket_available_nonblock_read.
  mstep ltac:(apply load_done; apply lookup_insert_eq).
  cbn [base sock_with_ref]. rewrite Cb'.
  mstep ltac:(eapply load_base_done; [exact Hb | exact Hsb]).
  mstep ltac:(apply _socket_available_fd_done).
  unfold _socket_buffered_in.
  mstep ltac:(apply assert_done; apply bool_decide_eq_true_2; eexists; reflexivity).
  mstep ltac:(apply load_done; apply lookup_insert_eq).
  mstep ltac:(reflexivity).
  mstep ltac:(reflexivity).
  mstep ltac:(apply load_stream_done; exact Hs).
  mstep ltac:(exact (socket_destroy_after_lookup
                       (world_with_trace (probe_calls (fd sb) ++ trace w) w)
                       m (stream_socket ss) p r Hm Hid Hp Href)).
  wsimpl. fold pending.
  replace (if 0 <? pending then pending else 0) with (Z.max 0 pending)
    by (destruct (0 <? pending) eqn:C; lia).
  reflexivity.
Qed.

End Available.
(** ** More of the code at work on the small build *)

Section MoreInstancesIdle.
#[local] Existing Instance small_build.
#[local] Existing Instance idle_kernel.

(** The bound socket, observed. *)
Lemma observers_leave_the_world_witness :
  socket_is_socket 1 bound_world = Done true bound_world /\
  socket_address_local 1 bound_world = Done (Some (any_ipv4 4242)) bound_world /\
  socket_blocking 1 bound_world = Done false bound_world.
Proof.
  destruct (observers_leave_the_world bound_world 1 (record_at 1000 bound_world))
    as (H1 & H2 & _ & H4 & _).
  - vm_compute; reflexivity.
  - vm_compute. split; reflexivity.
  - intros _. vm_compute. eexists; reflexivity.
  - split; [exact H1|]. split; [exact H2 | exact H4].
Defined.

(** An id that was never handed out. *)
Lemma unregistered_id_is_refused_witness :
  socket_bind 8 7 (any_ipv4 8080) bound_world = Done false bound_world /\
  socket_close 7 bound_world = Done tt bound_world /\
  socket_stream 7 bound_world = Done None bound_world.
Proof.
  destruct (unregistered_id_is_refused bound_world (registry_in bound_world) 7
              ltac:(vm_compute; reflexivity) ltac:(vm_compute; reflexivity)
              8%nat (any_ipv4 8080) 0 true)
    as (_ & _ & H3 & _ & _ & _ & _ & _ & _ & _ & _ & _ & _ & _ & H15 & H16).
  split; [exact H3|]. split; [exact H15 | exact H16].
Defined.

Lemma unregistered_id_is_refused_tcp_witness :
  tcp_socket_listen 7 bound_world = Done false bound_world /\
  tcp_socket_accept 8 7 0 bound_world = Done 0 bound_world.
Proof.
  destruct (unregistered_id_is_refused_tcp bound_world (registry_in bound_world) 7
              ltac:(vm_compute; reflexivity) ltac:(vm_compute; reflexivity)
              8%nat 0 true)
    as (H1 & H2 & _).
  split; [exact H1 | exact H2].
Defined.

(** The stream left behind by its finalizer. *)
Lemma orphan_stream_callbacks_witness :
  _socket_read 8 1001 (Some [0; 0]) 2 orphaned_world = Done (0, Some [0; 0]) orphaned_world /\
  _socket_write 8 1001 (Some [1; 2]) 2 orphaned_world = Done 0 orphaned_world /\
  _socket_eos 1001 orphaned_world = Done true orphaned_world.
Proof.
  destruct (orphan_stream_callbacks orphaned_world (registry_in orphaned_world) 1001
              (stream_at 1001 orphaned_world)
              ltac:(vm_compute; reflexivity) ltac:(vm_compute; reflexivity)
              ltac:(vm_compute; reflexivity) ltac:(vm_compute; reflexivity)
              8%nat (Some [0; 0]) 2 0 STREAM_SEEK_CURRENT)
    as (H1 & _ & H3 & _).
  destruct (orphan_stream_callbacks orphaned_world (registry_in orphaned_world) 1001
              (stream_at 1001 orphaned_world)
              ltac:(vm_compute; reflexivity) ltac:(vm_compute; reflexivity)
              ltac:(vm_compute; reflexivity) ltac:(vm_compute; reflexivity)
              8%nat (Some [1; 2]) 2 0 STREAM_SEEK_CURRENT)
    as (_ & H2 & _).
  split; [exact H1|]. split; [exact H2 | exact H3].
Defined.

(** A socket without a slot, asked for its delay flag. *)
Lemma tcp_socket_delay_keeps_reference_without_slot_witness :
  exists w', tcp_socket_delay 1 created_world = Done false w' /\
    ref_of 1 created_world = Some 1 /\ ref_of 1 w' = Some 2.
Proof.
  destruct (tcp_socket_delay_keeps_reference_without_slot created_world 1
              (record_at 1000 created_world))
    as (_ & H).
  - vm_compute; reflexivity.
  - vm_compute. split; reflexivity.
  - intros Hb. vm_compute in Hb. exfalso. apply Hb. reflexivity.
  - destruct H as (w' & E & Hrec); [vm_compute; reflexivity|].
    exists w'. split; [exact E|]. split; [vm_compute; reflexivity|].
    rewrite (ref_of_record _ _ _ Hrec). vm_compute. reflexivity.
Defined.

End MoreInstancesIdle.
Section MoreInstancesIdle2.
#[local] Existing Instance small_build.
#[local] Existing Instance idle_kernel.

(** The bound socket starts to listen. *)
Lemma tcp_socket_listen_effect_witness :
  exists w', tcp_socket_listen 1 bound_world = Done true w' /\
    state_of 1 w' = SOCKETSTATE_LISTENING.
Proof.
  destruct (tcp_socket_listen_effect bound_world 1 (record_at 1000 bound_world)
              (slot_at 0 bound_world))
    as (_ & _ & H).
  - vm_compute; reflexivity.
  - vm_compute. split; reflexivity.
  - vm_compute; discriminate.
  - vm_compute; reflexivity.
  - eexists. split; [apply H; vm_compute; reflexivity|]. vm_compute. reflexivity.
Defined.

(** The bound socket, closed and then observed. *)
Lemma closed_socket_reads_as_unconnected_witness :
  exists w', socket_close 1 bound_world = Done tt w' /\
    socket_is_socket 1 w' = Done true w' /\
    socket_address_local 1 w' = Done None w' /\
    tcp_socket_listen 1 w' = Done false w'.
Proof.
  destruct (closed_socket_reads_as_unconnected bound_world 1 (record_at 1000 bound_world)
              8%nat 0)
    as (w' & E & H1 & _ & H3 & _ & _ & _ & _ & H8 & _).
  - vm_compute; reflexivity.
  - vm_compute. split; reflexivity.
  - intros _. vm_compute. eexists; reflexivity.
  - exists w'. split; [exact E|]. split; [exact H1|]. split; [exact H3 | exact H8].
Defined.

(** The bound socket gives up its only reference. *)
Lemma socket_destroy_last_reference_witness :
  exists w', socket_destroy 1 bound_world = Done tt w' /\
    record_of 1 w' = None /\ heap w' !! 1000 = None /\
    _socket_base w' !! 0%nat = Some (released_slot (slot_at 0 bound_world)) /\
    socket_is_socket 1 w' = Done false w'.
Proof.
  destruct (socket_destroy_last_reference bound_world (registry_in bound_world) 1 1000
              (record_at 1000 bound_world))
    as (w' & E & H1 & H2 & _ & H4 & H5).
  - vm_compute; reflexivity.
  - vm_compute; reflexivity.
  - vm_compute; reflexivity.
  - vm_compute; reflexivity.
  - vm_compute; reflexivity.
  - vm_compute; reflexivity.
  - intros _. vm_compute. eexists; reflexivity.
  - exists w'. split; [exact E|]. split; [exact H1|]. split; [exact H2|].
    split; [|exact H5].
    apply (H4 (slot_at 0 bound_world)); [vm_compute; discriminate | vm_compute; reflexivity].
Defined.

(** Before _socket_initialize there is nothing to create a socket in. *)
Lemma tcp_socket_create_refused_witness :
  tcp_socket_create empty_world = Done 0 empty_world.
Proof. apply tcp_socket_create_refused. left. reflexivity. Defined.

(** A second socket beside the bound one. *)
Lemma tcp_socket_create_fresh_witness :
  exists w' r, tcp_socket_create bound_world = Done 2 w' /\
    record_of 2 w' = Some r /\ ref r = 1 /\ base r = -1 /\
    heap w' !! 1000 = heap bound_world !! 1000.
Proof.
  destruct (tcp_socket_create_fresh bound_world (registry_in bound_world))
    as (w' & r & E & Hrec & _ & Href & Hbase & _ & _ & _ & _ & _ & _ & _ & _ & _ & _ & _ & _
        & Hids & Hheap & _).
  - vm_compute; reflexivity.
  - vm_compute; reflexivity.
  - vm_compute; discriminate.
  - exists w', r. split; [exact E|]. split; [exact Hrec|]. split; [exact Href|].
    split; [exact Hbase|].
    apply Hheap. vm_compute. discriminate.
Defined.

(** A stream is made for the fresh socket, asked for again and
    finalized. *)
Lemma socket_stream_round_trip_witness :
  exists s w1 w2,
    socket_stream 1 created_world = Done (Some s) w1 /\
    socket_stream 1 w1 = Done (Some s) w1 /\
    _socket_stream_finalize s w1 = Done tt w2 /\
    heap w2 = heap created_world.
Proof.
  destruct (socket_stream_round_trip created_world 1 (record_at 1000 created_world))
    as (s & w1 & w2 & E1 & _ & E2 & E3 & Hh & _).
  - vm_compute; reflexivity.
  - discriminate.
  - vm_compute; reflexivity.
  - vm_compute; reflexivity.
  - vm_compute. split; reflexivity.
  - exists s, w1, w2. split; [exact E1|]. split; [exact E2|]. split; [exact E3 | exact Hh].
Defined.

(** The slot of the bound socket, polled. *)
Lemma _socket_poll_state_at_rest_witness :
  _socket_poll_state 0 bound_world = Done SOCKETSTATE_NOTCONNECTED bound_world.
Proof.
  apply (_socket_poll_state_at_rest bound_world 0 (slot_at 0 bound_world)).
  - lia.
  - vm_compute; reflexivity.
  - vm_compute; discriminate.
  - vm_compute; discriminate.
Defined.

(** Every slot is free, and the fifth socket finds none. *)
Lemma _socket_allocate_base_never_looks_back_witness :
  (forall i, (i < 4)%nat -> object <$> _socket_base used_up_world !! i = Some 0) /\
  _socket_allocate_base 1000 1004 used_up_world = OutOfFuel.
Proof.
  split.
  - intros i Hi. do 4 (destruct i as [|i]; [vm_compute; reflexivity|]). lia.
  - apply (_socket_allocate_base_never_looks_back 1000 used_up_world 1004
             (record_at 1004 used_up_world)).
    + vm_compute; reflexivity.
    + vm_compute; reflexivity.
    + vm_compute; discriminate.
    + vm_compute; reflexivity.
    + intros i Hi. exfalso.
      assert (E1 : _socket_base_next used_up_world = 4) by (vm_compute; reflexivity).
      assert (E2 : _socket_base_size used_up_world = 4) by (vm_compute; reflexivity).
      lia.
Defined.

(** The fresh socket takes the first slot. *)
Lemma _socket_allocate_base_first_free_witness :
  exists w', _socket_allocate_base 8 1000 created_world = Done 0 w' /\
    object <$> _socket_base w' !! 0%nat = Some 1.
Proof.
  destruct (_socket_allocate_base_first_free 8 created_world 1000
              (record_at 1000 created_world) 0 (slot_at 0 created_world))
    as (H & _).
  - vm_compute; reflexivity.
  - vm_compute. split; discriminate.
  - vm_compute; reflexivity.
  - lia.
  - vm_compute; reflexivity.
  - intros j Hj. exfalso.
    assert (E1 : _socket_base_next created_world = 0) by (vm_compute; reflexivity).
    lia.
  - vm_compute; reflexivity.
  - vm_compute; reflexivity.
  - eexists. split; [apply H; vm_compute; reflexivity|]. vm_compute. reflexivity.
Defined.

(** The stream of the fresh socket: a seek from the beginning. *)
Lemma _socket_seek_only_forward_witness :
  _socket_seek 8 1001 4 STREAM_SEEK_BEGIN streamed_world = Done tt streamed_world /\
  _socket_tell 1001 streamed_world = Done 0 streamed_world.
Proof.
  destruct (_socket_seek_only_forward streamed_world 1001 (stream_at 1001 streamed_world)
              (record_at 1000 streamed_world) 8 4 STREAM_SEEK_BEGIN)
    as (H1 & H2).
  - vm_compute; reflexivity.
  - vm_compute; reflexivity.
  - vm_compute; reflexivity.
  - vm_compute. split; reflexivity.
  - split; [apply H1; left; discriminate | exact H2].
Defined.

End MoreInstancesIdle2.
Section MoreInstancesIdle3.
#[local] Existing Instance small_build.
#[local] Existing Instance idle_kernel.

(** The bound socket is connected and made blocking: one reference
    before, one after. *)
Lemma setters_bind_and_connect_are_balanced_witness :
  socket_connect 8 1 (any_ipv4 8080) 0 bound_world
  = Done true (after (socket_connect 8 1 (any_ipv4 8080) 0) bound_world) /\
  ref_of 1 (after (socket_connect 8 1 (any_ipv4 8080) 0) bound_world) = ref_of 1 bound_world /\
  socket_set_blocking 8 1 true bound_world
  = Done tt (after (socket_set_blocking 8 1 true) bound_world) /\
  ref_of 1 (after (socket_set_blocking 8 1 true) bound_world) = ref_of 1 bound_world.
Proof.
  destruct (setters_bind_and_connect_are_balanced 8 bound_world 1 (record_at 1000 bound_world)
              (any_ipv4 8080) 0 true)
    as (_ & H2 & H3 & _).
  - vm_compute; reflexivity.
  - vm_compute. split; reflexivity.
  - assert (E2 : socket_connect 8 1 (any_ipv4 8080) 0 bound_world
                 = Done true (after (socket_connect 8 1 (any_ipv4 8080) 0) bound_world))
      by (vm_compute; reflexivity).
    assert (E3 : socket_set_blocking 8 1 true bound_world
                 = Done tt (after (socket_set_blocking 8 1 true) bound_world))
      by (vm_compute; reflexivity).
    split; [exact E2|]. split; [exact (H2 _ _ E2)|]. split; [exact E3 | exact (H3 _ _ E3)].
Defined.

(** The fresh socket is bound: the descriptor is opened on the way, and
    the local address is the one the kernel reports. *)
Lemma socket_bind_outcomes_witness :
  exists w' r',
    socket_bind 8 1 (any_ipv4 8080) created_world = Done true w' /\
    record_of 1 w' = Some r' /\
    (exists l, address_local r' = Some l /\ saddr l = 4242) /\
    fd_of 1 w' = 3.
Proof.
  destruct (socket_bind_outcomes 8 created_world 1 (any_ipv4 8080)
              (registry_in created_world) 1000 (record_at 1000 created_world) 3
              (after (_socket_create_fd 8 1000 0) (after (_socket_lookup 1) created_world)))
    as (w' & r' & E & Hrec & Hok & _ & _ & _ & _ & Hfd).
  - vm_compute; reflexivity.
  - vm_compute; reflexivity.
  - vm_compute; reflexivity.
  - vm_compute. split; reflexivity.
  - vm_compute; reflexivity.
  - left. reflexivity.
  - vm_compute; reflexivity.
  - vm_compute; discriminate.
  - exists w', r'. split; [exact E|]. split; [exact Hrec|]. split; [|exact Hfd].
    destruct Hok as (l & Hl & _ & Hs); [reflexivity|].
    exists l. split; [exact Hl | exact Hs].
Defined.

(** The bound socket is made blocking, and says so. *)
Lemma flag_setters_read_back_witness :
  exists w1, socket_set_blocking 8 1 true bound_world = Done tt w1 /\
    socket_blocking 1 bound_world = Done false bound_world /\
    socket_blocking 1 w1 = Done true w1.
Proof.
  destruct (flag_setters_read_back 8 bound_world 1 (record_at 1000 bound_world) true)
    as (H1 & _ & _ & H4).
  - vm_compute; reflexivity.
  - vm_compute. split; reflexivity.
  - destruct H4 as (w1 & _ & _ & E1 & _).
    + vm_compute; discriminate.
    + vm_compute. eexists; reflexivity.
    + exists w1. split; [exact E1|]. split; [vm_compute; reflexivity|].
      apply H1; [vm_compute; discriminate | exact E1].
Defined.

End MoreInstancesIdle3.

Section MoreInstancesData.
#[local] Existing Instance small_build.
#[local] Existing Instance data_kernel.

(** The connected socket, polled while bytes are pending. *)
Lemma _socket_poll_state_connected_witness :
  exists w', _socket_poll_state 0 connected_world = Done SOCKETSTATE_CONNECTED w' /\
    _socket_base w' = _socket_base connected_world.
Proof.
  destruct (_socket_poll_state_connected connected_world (slot_at 0 connected_world)
              (registry_in connected_world) 1000 (record_at 1000 connected_world))
    as (H & _).
  - vm_compute; discriminate.
  - vm_compute; reflexivity.
  - vm_compute; reflexivity.
  - vm_compute; reflexivity.
  - vm_compute; reflexivity.
  - vm_compute; reflexivity.
  - vm_compute. split; reflexivity.
  - vm_compute; reflexivity.
  - eexists. split; [apply H; vm_compute; discriminate|]. reflexivity.
Defined.

(** A fresh socket connects and the kernel completes the connection at
    once. *)
Lemma socket_connect_at_once_or_refused_witness :
  exists w',
    socket_connect 8 1 (any_ipv4 8080) 0 created_world = Done true w' /\
    state_of 1 w' = SOCKETSTATE_CONNECTED /\ fd_of 1 w' = 3.
Proof.
  destruct (socket_connect_at_once_or_refused 8 created_world 1 (any_ipv4 8080)
              (registry_in created_world) 1000 (record_at 1000 created_world) 3
              (after (_socket_create_fd 8 1000 0) (after (_socket_lookup 1) created_world)))
    as (H & _).
  - vm_compute; reflexivity.
  - vm_compute; reflexivity.
  - vm_compute; reflexivity.
  - vm_compute. split; reflexivity.
  - vm_compute; reflexivity.
  - vm_compute; reflexivity.
  - left. reflexivity.
  - vm_compute; reflexivity.
  - vm_compute; discriminate.
  - destruct H as (w' & E & Hst & Hfd & _); [vm_compute; reflexivity|].
    exists w'. split; [exact E|]. split; [exact Hst | exact Hfd].
Defined.

End MoreInstancesData.
Section MoreInstancesData2.
#[local] Existing Instance small_build.
#[local] Existing Instance data_kernel.

(** Three bytes written to the stream of the connected socket. *)
Lemma _socket_write_buffers_witness :
  exists w' r',
    _socket_write 8 1001 (Some [1; 2; 3]) 3 receiving_world = Done 3 w' /\
    record_of 1 w' = Some r' /\
    buffer_out r' = [1; 2; 3; 0; 0; 0; 0; 0] /\ offset_write_out r' = 3 /\
    trace w' = trace receiving_world.
Proof.
  destruct (_socket_write_buffers receiving_world 1001 (stream_at 1001 receiving_world)
              (record_at 1000 receiving_world) (slot_at 0 receiving_world) 7 [1; 2; 3] 3)
    as (H & _).
  - vm_compute; reflexivity.
  - vm_compute; reflexivity.
  - vm_compute; reflexivity.
  - vm_compute. split; reflexivity.
  - vm_compute; discriminate.
  - vm_compute; reflexivity.
  - vm_compute. split; discriminate.
  - vm_compute; reflexivity.
  - destruct H as (w' & E & Hrec & _ & Htr).
    + vm_compute; reflexivity.
    + vm_compute. split; [reflexivity | discriminate].
    + exists w'. eexists. split; [exact E|]. split; [exact Hrec|].
      split; [vm_compute; reflexivity|]. split; [vm_compute; reflexivity | exact Htr].
Defined.

(** The same three bytes, written and flushed. *)
Lemma write_then_flush_sends_the_bytes_witness :
  exists w' r',
    (_socket_write 8 1001 (Some [1; 2; 3]) 3;; _socket_flush 9 1001) receiving_world
    = Done tt w' /\
    trace w' = SYS_send 3 [1; 2; 3] :: trace receiving_world /\
    record_of 1 w' = Some r' /\ offset_write_out r' = 0 /\ bytes_written r' = 3.
Proof.
  destruct (write_then_flush_sends_the_bytes receiving_world 1001
              (stream_at 1001 receiving_world) (record_at 1000 receiving_world)
              (slot_at 0 receiving_world) 7 [1; 2; 3])
    as (w' & r' & E & Htr & Hrec & Hout & Hwritten & _).
  - vm_compute; reflexivity.
  - vm_compute; reflexivity.
  - vm_compute; reflexivity.
  - vm_compute. split; reflexivity.
  - vm_compute; discriminate.
  - vm_compute; reflexivity.
  - vm_compute; reflexivity.
  - vm_compute; reflexivity.
  - vm_compute; reflexivity.
  - vm_compute. split; [reflexivity | discriminate].
  - vm_compute; reflexivity.
  - vm_compute; reflexivity.
  - exists w', r'. split; [exact E|]. split; [exact Htr|]. split; [exact Hrec|].
    split; [exact Hout | exact Hwritten].
Defined.

(** Three of the five buffered bytes are read. *)
Lemma _socket_read_served_from_ring_witness :
  exists w',
    _socket_read 8 1001 (Some [0; 0; 0; 0]) 3 buffered_world
    = Done (3, Some [72; 101; 108; 0]) w' /\
    trace w' = trace buffered_world /\
    _socket_tell 1001 w' = Done 3 w'.
Proof.
  destruct (_socket_read_served_from_ring buffered_world 1001 (stream_at 1001 buffered_world)
              (record_at 1000 buffered_world) (slot_at 0 buffered_world) 6
              (Some [0; 0; 0; 0]) 3)
    as (w' & E & _ & _ & Htr & Htell).
  - vm_compute; reflexivity.
  - vm_compute; reflexivity.
  - vm_compute; reflexivity.
  - vm_compute. split; reflexivity.
  - vm_compute; discriminate.
  - vm_compute; reflexivity.
  - left. vm_compute; reflexivity.
  - vm_compute. repeat split; (reflexivity || discriminate).
  - vm_compute; discriminate.
  - vm_compute. split; [reflexivity | discriminate].
  - exists w'. split; [exact E|]. split; [exact Htr | exact Htell].
Defined.

(** Seven bytes are read from a ring that holds l, o, H, e, l up to its
    end and H, e from its start: the caller finds H, e, H, e, l. *)
Lemma _socket_read_across_the_end_witness :
  exists w',
    take 5 (drop 3 (buffer_in (record_at 1000 wrapped_world))) = [108; 111; 72; 101; 108] /\
    take 2 (buffer_in (record_at 1000 wrapped_world)) = [72; 101] /\
    _socket_read 8 1001 (Some [0; 0; 0; 0; 0; 0; 0; 0]) 7 wrapped_world
    = Done (7, Some [72; 101; 72; 101; 108; 0; 0; 0]) w' /\
    trace w' = trace wrapped_world.
Proof.
  destruct (_socket_read_across_the_end wrapped_world 1001 (stream_at 1001 wrapped_world)
              (record_at 1000 wrapped_world) (slot_at 0 wrapped_world) 5
              (Some [0; 0; 0; 0; 0; 0; 0; 0]) 2)
    as (w' & E & _ & Htr).
  - vm_compute; reflexivity.
  - vm_compute; reflexivity.
  - vm_compute; reflexivity.
  - vm_compute. split; reflexivity.
  - vm_compute; discriminate.
  - vm_compute; reflexivity.
  - left. vm_compute; reflexivity.
  - vm_compute. repeat split; (reflexivity || discriminate).
  - vm_compute; discriminate.
  - vm_compute; reflexivity.
  - vm_compute. split; [reflexivity | discriminate].
  - exists w'. split; [vm_compute; reflexivity|]. split; [vm_compute; reflexivity|].
    split; [exact E | exact Htr].
Defined.

(** Five bytes buffered, five more pending in the kernel. *)
Lemma _socket_available_read_counts_witness :
  exists w', _socket_available_read 1001 buffered_world = Done 10 w' /\
    heap w' = heap buffered_world /\
    trace w' = SYS_fionread 3 :: trace buffered_world.
Proof.
  assert (E : _socket_available_read 1001 buffered_world
              = Done 10 (world_with_trace (SYS_fionread 3 :: trace buffered_world)
                           buffered_world)).
  { etransitivity.
    - apply (_socket_available_read_counts buffered_world 1001
               (stream_at 1001 buffered_world) (record_at 1000 buffered_world)
               (slot_at 0 buffered_world)).
      + vm_compute; reflexivity.
      + vm_compute; reflexivity.
      + vm_compute; reflexivity.
      + vm_compute. split; reflexivity.
      + vm_compute; discriminate.
      + vm_compute; reflexivity.
    - vm_compute. reflexivity. }
  eexists. split; [exact E|]. split; reflexivity.
Defined.

End MoreInstancesData2.
Section MoreInstancesAccepting.
#[local] Existing Instance small_build.
#[local] Existing Instance accepting_kernel.

(** The listening socket accepts the peer at port 9090. *)
Lemma tcp_socket_accept_connection_witness :
  exists w' a,
    tcp_socket_accept 8 1 0 listening_world = Done 2 w' /\
    record_of 2 w' = Some a /\ ref a = 1 /\ base a = 1 /\
    address_remote a = Some (any_ipv4 9090) /\
    state_of 2 w' = SOCKETSTATE_CONNECTED /\ fd_of 2 w' = 7 /\
    state_of 1 w' = SOCKETSTATE_LISTENING /\ ref_of 1 w' = Some 1.
Proof.
  destruct (tcp_socket_accept_connection 8 listening_world 1 (registry_in listening_world)
              1000 (record_at 1000 listening_world) (slot_at 0 listening_world)
              (any_ipv4 4242) 1 (slot_at 1 listening_world) 0)
    as (w' & a & l & E & Hrec & Href & Hbase & Hremote & _ & _ & _ & Hslot & Hlref & Hlst & _).
  - vm_compute; reflexivity.
  - vm_compute; reflexivity.
  - vm_compute; reflexivity.
  - vm_compute. split; reflexivity.
  - vm_compute; discriminate.
  - vm_compute; reflexivity.
  - vm_compute; discriminate.
  - vm_compute; reflexivity.
  - left. reflexivity.
  - vm_compute; reflexivity.
  - vm_compute; discriminate.
  - lia.
  - vm_compute; reflexivity.
  - vm_compute; discriminate.
  - vm_compute; reflexivity.
  - vm_compute; reflexivity.
  - vm_compute. split; discriminate.
  - vm_compute; reflexivity.
  - lia.
  - vm_compute; reflexivity.
  - intros j Hj.
    assert (E1 : _socket_base_next listening_world = 1) by (vm_compute; reflexivity).
    exfalso. lia.
  - vm_compute; reflexivity.
  - vm_compute; reflexivity.
  - vm_compute; discriminate.
  - assert (En : om_next (registry_in listening_world) = 2) by (vm_compute; reflexivity).
    rewrite En in E, Hrec, Hslot.
    exists w', a. split; [exact E|]. split; [exact Hrec|]. split; [exact Href|].
    split; [exact Hbase|]. split; [exact Hremote|].
    assert (Es : slot_of 2 w' = Some {| object := 2; fd := 7; flags := 0;
                                        state := SOCKETSTATE_CONNECTED; last_event := 0 |}).
    { unfold slot_of. rewrite Hrec. cbn [mbind option_bind]. rewrite Hbase. exact Hslot. }
    split; [unfold state_of; rewrite Es; reflexivity|].
    split; [unfold fd_of; rewrite Es; reflexivity|].
    split; [exact Hlst | exact Hlref].
Defined.

End MoreInstancesAccepting.
Section MoreInstancesHangup.
#[local] Existing Instance small_build.
#[local] Existing Instance hangup_kernel.

(** The connected socket reads after the peer has gone. *)
Lemma _tcp_socket_buffer_read_peer_shutdown_witness :
  exists w',
    _tcp_socket_buffer_read 8 1000 0 connected_world = Done 0 w' /\
    events w' = [(NETWORKEVENT_HANGUP, 1)] /\
    base <$> heap w' !! 1000 = Some (-1) /\
    _socket_base w' !! 0%nat
    = Some {| object := 0; fd := SOCKET_INVALID; flags := SOCKETFLAG_HANGUP_PENDING;
              state := SOCKETSTATE_NOTCONNECTED; last_event := 0 |}.
Proof.
  destruct (_tcp_socket_buffer_read_peer_shutdown 7 connected_world 1000
              (record_at 1000 connected_world) (slot_at 0 connected_world) 0)
    as (len & w' & E & _ & Hh & Hs & He & _).
  - vm_compute; reflexivity.
  - vm_compute; discriminate.
  - vm_compute; reflexivity.
  - vm_compute. repeat split; (reflexivity || discriminate).
  - vm_compute. split; reflexivity.
  - vm_compute; reflexivity.
  - left. vm_compute; reflexivity.
  - intros len. reflexivity.
  - exists w'. split; [exact E|]. split; [exact He|].
    split; [rewrite Hh; vm_compute; reflexivity|].
    rewrite Hs. vm_compute. reflexivity.
Defined.
End MoreInstancesHangup.
(** ** The worlds the interface builds *)

(** *** How the invariant fares under the updates the code makes *)

Section ConsistentWorlds.
Context {cfg : Config}.

Lemma registered_frame w w' id p :
  _socket_map w' = _socket_map w -> registered w id p -> registered w' id p.
Proof. intros E (m & Hm & Hid). exists m. rewrite E. auto. Qed.

Lemma registered_record w id p :
  consistent w -> registered w id p -> exists r, heap w !! p = Some r /\ sock_id r = id.
Proof. intros (HA & _) (m & Hm & Hid). destruct (HA m id p Hm Hid) as (_ & _ & H). exact H. Qed.

Lemma registered_inj w id id' p :
  consistent w -> registered w id p -> registered w id' p -> id = id'.
Proof.
  intros H H1 H2.
  destruct (registered_record _ _ _ H H1) as (r & Hr & E1).
  destruct (registered_record _ _ _ H H2) as (r' & Hr' & E2).
  congruence.
Qed.

Lemma registered_fun w id p p' :
  registered w id p -> registered w id p' -> p = p'.
Proof. intros (m & Hm & Hid) (m' & Hm' & Hid'). congruence. Qed.

(** Nothing the invariant speaks of has changed. *)
Lemma consistent_frame w w' :
  _socket_map w' = _socket_map w -> heap w' = heap w ->
  _socket_base w' = _socket_base w -> next_ptr w <= next_ptr w' ->
  consistent w -> consistent w'.
Proof.
  intros Em Eh Eb En (HA & HC & HH & HB).
  split; [|split; [|split]].
  - intros m id p Hm Hid. rewrite Em in Hm. rewrite Eh. eauto.
  - intros p Hp. rewrite Eh. apply HC. lia.
  - intros p r Hp Hb. rewrite Eh in Hp. rewrite Eb.
    destruct (HH p r Hp Hb) as (Hreg & Hs).
    split; [eapply registered_frame; eassumption | exact Hs].
  - intros i sb Hs Hst. rewrite Eb in Hs.
    destruct (HB i sb Hs Hst) as (p & r & Hreg & Hp & Hbase).
    exists p, r. rewrite Eh. split; [eapply registered_frame; eassumption | auto].
Qed.

(** A record is replaced by one with the same id and the same slot. *)
Lemma consistent_update_record w p r r' :
  consistent w -> heap w !! p = Some r ->
  sock_id r' = sock_id r -> base r' = base r ->
  consistent (world_with_heap (<[p := r']> (heap w)) w).
Proof.
  intros (HA & HC & HH & HB) Hp Eid Eb.
  split; [|split; [|split]].
  - intros m id q Hm Hid. wsimpl. wsimpl_in Hm.
    destruct (HA m id q Hm Hid) as (H0 & H1 & r0 & Hq & Hr0).
    split; [exact H0|]. split; [exact H1|].
    destruct (decide (q = p)) as [->|Hne].
    + exists r'. rewrite lookup_insert_eq. split; [reflexivity|]. congruence.
    + exists r0. rewrite lookup_insert_ne by congruence. auto.
  - intros q Hq. wsimpl. wsimpl_in Hq.
    destruct (decide (q = p)) as [->|Hne].
    + rewrite (HC p Hq) in Hp. discriminate Hp.
    + rewrite lookup_insert_ne by congruence. apply HC. exact Hq.
  - intros q r0 Hq Hb. wsimpl. wsimpl_in Hq.
    destruct (decide (q = p)) as [->|Hne].
    + rewrite lookup_insert_eq in Hq. apply (inj Some) in Hq. subst r0.
      rewrite Eid, Eb. rewrite Eb in Hb. exact (HH p r Hp Hb).
    + rewrite lookup_insert_ne in Hq by congruence. exact (HH q r0 Hq Hb).
  - intros i sb Hs Hst. wsimpl_in Hs.
    destruct (HB i sb Hs Hst) as (q & r0 & Hreg & Hq & Hbase).
    destruct (decide (q = p)) as [->|Hne].
    + exists p, r'. wsimpl. rewrite lookup_insert_eq.
      split; [exact Hreg|]. split; [reflexivity|]. congruence.
    + exists q, r0. wsimpl. rewrite lookup_insert_ne by congruence. auto.
Qed.

(** A slot is rewritten; its owner stays, and it does not come alive. *)
Lemma consistent_update_slot w i sb sb' :
  consistent w -> _socket_base w !! i = Some sb ->
  object sb' = object sb ->
  (state sb' <> SOCKETSTATE_NOTCONNECTED -> state sb <> SOCKETSTATE_NOTCONNECTED) ->
  consistent (world_with_base (<[i := sb']> (_socket_base w)) w).
Proof.
  intros (HA & HC & HH & HB) Hs Eo Est.
  assert (Hlen : (i < length (_socket_base w))%nat) by (eapply lookup_lt_Some; exact Hs).
  split; [|split; [|split]].
  - exact HA.
  - exact HC.
  - intros q r0 Hq Hb. wsimpl. wsimpl_in Hq.
    destruct (HH q r0 Hq Hb) as (Hreg & sb0 & Hs0 & Ho).
    split; [exact Hreg|].
    destruct (decide (Z.to_nat (base r0) = i)) as [E|Hne].
    + exists sb'. rewrite E. rewrite list_lookup_insert_eq by exact Hlen.
      split; [reflexivity|]. rewrite E in Hs0. congruence.
    + exists sb0. rewrite list_lookup_insert_ne by congruence. auto.
  - intros j sbj Hj Hst. wsimpl_in Hj.
    destruct (decide (j = i)) as [->|Hne].
    + rewrite list_lookup_insert_eq in Hj by exact Hlen. apply (inj Some) in Hj. subst sbj.
      rewrite Eo. exact (HB i sb Hs (Est Hst)).
    + rewrite list_lookup_insert_ne in Hj by congruence. exact (HB j sbj Hj Hst).
Qed.

(** The slot of a record is rewritten; its owner stays. *)
Lemma consistent_update_own_slot w p r sb sb' :
  consistent w -> heap w !! p = Some r -> 0 <= base r ->
  _socket_base w !! Z.to_nat (base r) = Some sb ->
  object sb' = object sb ->
  consistent (world_with_base (<[Z.to_nat (base r) := sb']> (_socket_base w)) w).
Proof.
  intros H Hp Hb Hs Eo. pose proof H as (HA & HC & HH & HB).
  assert (Hlen : (Z.to_nat (base r) < length (_socket_base w))%nat)
    by (eapply lookup_lt_Some; exact Hs).
  destruct (HH p r Hp Hb) as (Hreg & sb0 & Hs0 & Ho).
  assert (sb0 = sb) by congruence. subst sb0.
  split; [|split; [|split]].
  - exact HA.
  - exact HC.
  - intros q r0 Hq Hb0. wsimpl. wsimpl_in Hq.
    destruct (HH q r0 Hq Hb0) as (Hreg0 & sb0 & Hs0' & Ho0).
    split; [exact Hreg0|].
    destruct (decide (Z.to_nat (base r0) = Z.to_nat (base r))) as [E|Hne].
    + exists sb'. rewrite E. rewrite list_lookup_insert_eq by exact Hlen.
      split; [reflexivity|]. rewrite E in Hs0'. congruence.
    + exists sb0. rewrite list_lookup_insert_ne by congruence. auto.
  - intros j sbj Hj Hst. wsimpl_in Hj.
    destruct (decide (j = Z.to_nat (base r))) as [->|Hne].
    + rewrite list_lookup_insert_eq in Hj by exact Hlen. apply (inj Some) in Hj. subst sbj.
      exists p, r. wsimpl. rewrite Eo, Ho.
      split; [exact Hreg|]. split; [exact Hp | lia].
    + rewrite list_lookup_insert_ne in Hj by congruence. exact (HB j sbj Hj Hst).
Qed.

End ConsistentWorlds.
Section ConsistentLifetime.
Context {cfg : Config}.

(** Two records that name the same slot are one record. *)
Lemma records_share_no_slot w (p q : ptr) r r0 :
  consistent w -> heap w !! p = Some r -> heap w !! q = Some r0 ->
  0 <= base r -> Z.to_nat (base r0) = Z.to_nat (base r) -> 0 <= base r0 -> q = p.
Proof.
  intros H Hp Hq Hb E Hb0. pose proof H as (HA & HC & HH & HB).
  destruct (HH p r Hp Hb) as (Hreg & sb & Hs & Ho).
  destruct (HH q r0 Hq Hb0) as (Hreg0 & sb0 & Hs0 & Ho0).
  rewrite E in Hs0. assert (sb0 = sb) by congruence. subst sb0.
  rewrite <- Ho0, Ho in Hreg0. eapply registered_fun; eassumption.
Qed.

(** _socket_close: the record lets go of its slot and the slot is
    released. *)
Lemma consistent_close_slot w (p : ptr) r sb sb' r' :
  consistent w -> heap w !! p = Some r -> 0 <= base r ->
  _socket_base w !! Z.to_nat (base r) = Some sb ->
  state sb' = SOCKETSTATE_NOTCONNECTED ->
  sock_id r' = sock_id r -> base r' < 0 ->
  consistent (world_with_base (<[Z.to_nat (base r) := sb']> (_socket_base w))
                (world_with_heap (<[p := r']> (heap w)) w)).
Proof.
  intros H Hp Hb Hs Est Eid Eb. pose proof H as (HA & HC & HH & HB).
  assert (Hlen : (Z.to_nat (base r) < length (_socket_base w))%nat)
    by (eapply lookup_lt_Some; exact Hs).
  split; [|split; [|split]].
  - intros m id q Hm Hid. wsimpl. wsimpl_in Hm.
    destruct (HA m id q Hm Hid) as (H0 & H1 & r0 & Hq & Hr0).
    split; [exact H0|]. split; [exact H1|].
    destruct (decide (q = p)) as [->|Hne].
    + exists r'. rewrite lookup_insert_eq. split; [reflexivity|]. congruence.
    + exists r0. rewrite lookup_insert_ne by congruence. auto.
  - intros q Hq. wsimpl. wsimpl_in Hq.
    destruct (decide (q = p)) as [->|Hne].
    + assert (X : Some r = None) by (rewrite <- Hp; exact (HC p Hq)). discriminate X.
    + rewrite lookup_insert_ne by congruence. apply HC. exact Hq.
  - intros q r0 Hq Hb0. wsimpl. wsimpl_in Hq.
    destruct (decide (q = p)) as [->|Hne].
    + rewrite lookup_insert_eq in Hq. apply (inj Some) in Hq. subst r0. lia.
    + rewrite lookup_insert_ne in Hq by congruence.
      destruct (HH q r0 Hq Hb0) as (Hreg0 & sb0 & Hs0 & Ho0).
      split; [exact Hreg0|].
      destruct (decide (Z.to_nat (base r0) = Z.to_nat (base r))) as [E|Hne'].
      * destruct Hne. eapply records_share_no_slot; eassumption.
      * exists sb0. rewrite list_lookup_insert_ne by congruence. auto.
  - intros j sbj Hj Hst. wsimpl_in Hj.
    destruct (decide (j = Z.to_nat (base r))) as [->|Hne].
    + rewrite list_lookup_insert_eq in Hj by exact Hlen. apply (inj Some) in Hj. subst sbj.
      contradiction.
    + rewrite list_lookup_insert_ne in Hj by congruence.
      destruct (HB j sbj Hj Hst) as (q & r0 & Hreg & Hq & Hbase).
      destruct (decide (q = p)) as [->|Hne'].
      * assert (r0 = r) by congruence. subst r0. lia.
      * exists q, r0. wsimpl. rewrite lookup_insert_ne by congruence. auto.
Qed.

(** _socket_allocate_base: a registered record without a slot claims a
    free one. *)
Lemma consistent_claim w id (p : ptr) r i sb sb' :
  consistent w -> registered w id p -> heap w !! p = Some r -> base r < 0 ->
  0 <= i -> _socket_base w !! Z.to_nat i = Some sb -> object sb = 0 ->
  object sb' = sock_id r -> state sb' = SOCKETSTATE_NOTCONNECTED ->
  consistent (world_with_base (<[Z.to_nat i := sb']> (_socket_base w))
                (world_with_heap (<[p := sock_with_base i r]> (heap w)) w)).
Proof.
  intros H Hreg Hp Hb Hi Hs Ho Eo Est. pose proof H as (HA & HC & HH & HB).
  assert (Hlen : (Z.to_nat i < length (_socket_base w))%nat)
    by (eapply lookup_lt_Some; exact Hs).
  destruct (registered_record _ _ _ H Hreg) as (r1 & Hp1 & Eid).
  assert (r1 = r) by congruence. subst r1.
  split; [|split; [|split]].
  - intros m id0 q Hm Hid. wsimpl. wsimpl_in Hm.
    destruct (HA m id0 q Hm Hid) as (H0 & H1 & r0 & Hq & Hr0).
    split; [exact H0|]. split; [exact H1|].
    destruct (decide (q = p)) as [->|Hne].
    + exists (sock_with_base i r). rewrite lookup_insert_eq. split; [reflexivity|].
      assert (r0 = r) by congruence. subst r0. exact Hr0.
    + exists r0. rewrite lookup_insert_ne by congruence. auto.
  - intros q Hq. wsimpl. wsimpl_in Hq.
    destruct (decide (q = p)) as [->|Hne].
    + assert (X : Some r = None) by (rewrite <- Hp; exact (HC p Hq)). discriminate X.
    + rewrite lookup_insert_ne by congruence. apply HC. exact Hq.
  - intros q r0 Hq Hb0. wsimpl. wsimpl_in Hq.
    destruct (decide (q = p)) as [->|Hne].
    + rewrite lookup_insert_eq in Hq. apply (inj Some) in Hq. subst r0.
      cbn [sock_id base sock_with_base].
      split; [rewrite Eid; exact Hreg|].
      exists sb'. rewrite list_lookup_insert_eq by exact Hlen. auto.
    + rewrite lookup_insert_ne in Hq by congruence.
      destruct (HH q r0 Hq Hb0) as (Hreg0 & sb0 & Hs0 & Ho0).
      split; [exact Hreg0|].
      destruct (decide (Z.to_nat (base r0) = Z.to_nat i)) as [E|Hne'].
      * exfalso. rewrite E in Hs0. assert (sb0 = sb) by congruence. subst sb0.
        destruct Hreg0 as (m & Hm & Hid).
        destruct (HA m _ _ Hm Hid) as (Hz & _). congruence.
      * exists sb0. rewrite list_lookup_insert_ne by congruence. auto.
  - intros j sbj Hj Hst. wsimpl_in Hj.
    destruct (decide (j = Z.to_nat i)) as [->|Hne].
    + rewrite list_lookup_insert_eq in Hj by exact Hlen. apply (inj Some) in Hj. subst sbj.
      contradiction.
    + rewrite list_lookup_insert_ne in Hj by congruence.
      destruct (HB j sbj Hj Hst) as (q & r0 & Hreg0 & Hq & Hbase).
      destruct (decide (q = p)) as [->|Hne'].
      * assert (r0 = r) by congruence. subst r0. lia.
      * exists q, r0. wsimpl. rewrite lookup_insert_ne by congruence. auto.
Qed.

(** _socket_allocate: a record at the allocator's next address, under the
    registry's next id. *)
Lemma consistent_allocate w m r :
  consistent w -> _socket_map w = Some m -> om_next m <> 0 ->
  sock_id r = om_next m -> base r < 0 ->
  consistent
    (world_with_map
       (Some {| om_size := om_size m; om_next := om_next m + 1;
                om_entries := <[om_next m := next_ptr w]> (om_entries m) |})
       (world_with_heap (<[next_ptr w := r]> (heap w))
          (world_with_next_ptr (next_ptr w + 1) w))).
Proof.
  intros H Hm Hnext Eid Eb. pose proof H as (HA & HC & HH & HB).
  assert (Hfresh : heap w !! next_ptr w = None) by (apply HC; lia).
  assert (Hold : forall id (q : ptr), om_entries m !! id = Some q ->
                   id <> om_next m /\ q <> next_ptr w).
  { intros id q Hid. destruct (HA m id q Hm Hid) as (_ & Hlt & r0 & Hq & _).
    split; [lia|]. intros ->.
    assert (X : Some r0 = None) by (rewrite <- Hq; exact Hfresh). discriminate X. }
  assert (Hkeep : forall id (q : ptr), registered w id q ->
            registered
              (world_with_map
                 (Some {| om_size := om_size m; om_next := om_next m + 1;
                          om_entries := <[om_next m := next_ptr w]> (om_entries m) |})
                 (world_with_heap (<[next_ptr w := r]> (heap w))
                    (world_with_next_ptr (next_ptr w + 1) w))) id q).
  { intros id q (m0 & Hm0 & Hid). assert (m0 = m) by congruence. subst m0.
    eexists. split; [reflexivity|]. cbn [om_entries].
    rewrite lookup_insert_ne by (apply not_eq_sym, (Hold id q Hid)). exact Hid. }
  split; [|split; [|split]].
  - intros m' id q Hm' Hid. wsimpl_in Hm'. apply (inj Some) in Hm'. subst m'.
    cbn [om_entries om_next] in *. wsimpl.
    destruct (decide (id = om_next m)) as [->|Hne].
    + rewrite lookup_insert_eq in Hid. apply (inj Some) in Hid. subst q.
      split; [exact Hnext|]. split; [lia|].
      exists r. rewrite lookup_insert_eq. auto.
    + rewrite lookup_insert_ne in Hid by congruence.
      destruct (HA m id q Hm Hid) as (H0 & H1 & r0 & Hq & Hr0).
      split; [exact H0|]. split; [lia|].
      exists r0. rewrite lookup_insert_ne by (apply not_eq_sym, (Hold id q Hid)). auto.
  - intros q Hq. wsimpl. wsimpl_in Hq.
    rewrite lookup_insert_ne by lia. apply HC. lia.
  - intros q r0 Hq Hb0. wsimpl_in Hq.
    destruct (decide (q = next_ptr w)) as [->|Hne].
    + rewrite lookup_insert_eq in Hq. apply (inj Some) in Hq. subst r0. lia.
    + rewrite lookup_insert_ne in Hq by congruence.
      destruct (HH q r0 Hq Hb0) as (Hreg0 & Hs0).
      split; [apply Hkeep; exact Hreg0 | exact Hs0].
  - intros j sbj Hj Hst. wsimpl_in Hj.
    destruct (HB j sbj Hj Hst) as (q & r0 & Hreg0 & Hq & Hbase).
    exists q, r0. split; [apply Hkeep; exact Hreg0|]. wsimpl.
    split; [|exact Hbase].
    rewrite lookup_insert_ne; [exact Hq|].
    intros E. subst q. assert (X : Some r0 = None) by (rewrite <- Hq; exact Hfresh).
    discriminate X.
Qed.

End ConsistentLifetime.
Section ConsistentFree.
Context {cfg : Config}.

(** objectmap_free for a record that has no slot. *)
Lemma consistent_unregister w m id (p : ptr) r :
  consistent w -> _socket_map w = Some m -> om_entries m !! id = Some p ->
  heap w !! p = Some r -> base r < 0 ->
  let w' := world_with_map
              (Some {| om_size := om_size m; om_next := om_next m;
                       om_entries := delete id (om_entries m) |}) w in
  consistent w' /\ unregistered p w'.
Proof.
  intros H Hm Hid Hp Hb w'. pose proof H as (HA & HC & HH & HB).
  assert (Hreg : registered w id p) by (exists m; auto).
  assert (Hkeep : forall id0 (q : ptr), registered w id0 q -> q <> p -> registered w' id0 q).
  { intros id0 q (m0 & Hm0 & Hid0) Hne. assert (m0 = m) by congruence. subst m0.
    eexists. split; [reflexivity|]. cbn [om_entries].
    rewrite lookup_delete_ne; [exact Hid0|]. intros ->. congruence. }
  split.
  - split; [|split; [|split]].
    + intros m' id0 q Hm' Hid0. unfold w' in Hm'. wsimpl_in Hm'.
      apply (inj Some) in Hm'. subst m'. cbn [om_entries om_next] in *.
      apply lookup_delete_Some in Hid0 as [_ Hid0]. exact (HA m id0 q Hm Hid0).
    + exact HC.
    + intros q r0 Hq Hb0. unfold w' in Hq. wsimpl_in Hq.
      destruct (HH q r0 Hq Hb0) as (Hreg0 & Hs0).
      split; [|exact Hs0]. apply Hkeep; [exact Hreg0|].
      intros ->. assert (r0 = r) by congruence. subst r0. lia.
    + intros j sbj Hj Hst. unfold w' in Hj. wsimpl_in Hj.
      destruct (HB j sbj Hj Hst) as (q & r0 & Hreg0 & Hq & Hbase).
      exists q, r0. split; [|split; [exact Hq | exact Hbase]].
      apply Hkeep; [exact Hreg0|].
      intros ->. assert (r0 = r) by congruence. subst r0. lia.
  - intros id0 (m' & Hm' & Hid0). unfold w' in Hm'. wsimpl_in Hm'.
    apply (inj Some) in Hm'. subst m'. cbn [om_entries] in Hid0.
    apply lookup_delete_Some in Hid0 as [Hne Hid0].
    assert (Hreg0 : registered w id0 p) by (exists m; auto).
    apply Hne. symmetry. eapply registered_inj; eassumption.
Qed.

(** memory_deallocate of a record that is not registered. *)
Lemma consistent_free w (p : ptr) :
  consistent w -> unregistered p w ->
  consistent (world_with_heap (delete p (heap w)) w).
Proof.
  intros (HA & HC & HH & HB) Hun.
  assert (Hne : forall id (q : ptr), registered w id q -> q <> p).
  { intros id q Hreg ->. exact (Hun id Hreg). }
  split; [|split; [|split]].
  - intros m id q Hm Hid. wsimpl. wsimpl_in Hm.
    destruct (HA m id q Hm Hid) as (H0 & H1 & r0 & Hq & Hr0).
    split; [exact H0|]. split; [exact H1|].
    exists r0. rewrite lookup_delete_ne; [auto|].
    apply not_eq_sym. apply (Hne id). exists m. auto.
  - intros q Hq. wsimpl. wsimpl_in Hq.
    apply lookup_delete_None. right. apply HC. exact Hq.
  - intros q r0 Hq Hb0. wsimpl_in Hq.
    apply lookup_delete_Some in Hq as [_ Hq]. exact (HH q r0 Hq Hb0).
  - intros j sbj Hj Hst. wsimpl_in Hj.
    destruct (HB j sbj Hj Hst) as (q & r0 & Hreg0 & Hq & Hbase).
    exists q, r0. split; [exact Hreg0|]. wsimpl. split; [|exact Hbase].
    rewrite lookup_delete_ne; [exact Hq|].
    apply not_eq_sym. eapply Hne. exact Hreg0.
Qed.

(** _socket_initialize on a heap that holds no record. *)
Lemma consistent_initialize registry slots_ w :
  heap w = ∅ -> 0 <= next_ptr w -> om_entries registry = ∅ ->
  (forall i sb, slots_ !! i = Some sb -> state sb = SOCKETSTATE_NOTCONNECTED) ->
  _socket_map w = Some registry -> _socket_base w = slots_ ->
  consistent w.
Proof.
  intros Hh Hn He Hs Hm Hb.
  split; [|split; [|split]].
  - intros m id p Hm' Hid. assert (m = registry) by congruence. subst m.
    rewrite He in Hid. rewrite lookup_empty in Hid. discriminate Hid.
  - intros p _. rewrite Hh. apply lookup_empty.
  - intros p r Hp. rewrite Hh, lookup_empty in Hp. discriminate Hp.
  - intros i sb Hi Hst. rewrite Hb in Hi. destruct Hst. eapply Hs. exact Hi.
Qed.

End ConsistentFree.
(** *** The steps of the model *)

Section Steps.
Context {cfg : Config} {krn : Kernel}.

Lemma keeps_leaves_tables {A} (I : world -> Prop) (m : M A) :
  of_tables I -> leaves_tables m -> keeps I m.
Proof. intros HI Hm w a w' Hw E. eapply HI; [eapply Hm; exact E | exact Hw]. Qed.

Lemma keeps_leaves_registry {A} (I : world -> Prop) (m : M A) :
  of_registry I -> leaves_registry m -> keeps I m.
Proof. intros HI Hm w a w' Hw E. eapply HI; [eapply Hm; exact E | exact Hw]. Qed.

Lemma keeps_both {A} (F : world -> Prop) (m : M A) :
  keeps consistent m -> keeps F m -> keeps (consistent_with F) m.
Proof. intros H1 H2 w a w' [Hc HF] E. split; [eapply H1 | eapply H2]; eassumption. Qed.

Lemma of_registry_of_tables I : of_registry I -> of_tables I.
Proof. intros H w w' (Em & _). apply H. exact Em. Qed.

Lemma of_tables_consistent : of_tables consistent.
Proof. intros w w' (Em & Eh & Eb & En). apply consistent_frame; assumption. Qed.

Lemma of_tables_with F : of_tables F -> of_tables (consistent_with F).
Proof.
  intros HF w w' Hs [Hc Hf]. split; [eapply of_tables_consistent | eapply HF]; eassumption.
Qed.

Lemma of_registry_unregistered p : of_registry (unregistered p).
Proof.
  intros w w' E H id (m & Hm & Hid). apply (H id). exists m. rewrite <- E. auto.
Qed.

Lemma of_tables_record_is p r : of_tables (record_is p r).
Proof. intros w w' (_ & Eh & _) H. unfold record_is in *. rewrite Eh. exact H. Qed.

Lemma of_tables_slot_is i sb : of_tables (slot_is i sb).
Proof. intros w w' (_ & _ & Eb & _) H. unfold slot_is in *. rewrite Eb. exact H. Qed.

End Steps.

Create HintDb tables.
#[export] Hint Resolve of_tables_consistent of_tables_with of_tables_record_is
  of_tables_slot_is : tables.
#[export] Hint Extern 1 (of_tables (unregistered _)) =>
  apply of_registry_of_tables, of_registry_unregistered : tables.
#[export] Hint Resolve of_registry_unregistered : tables.

(** Steps that leave the tables alone. *)
Ltac leaves_tac :=
  let E := fresh "E" in
  intros ? ? ? E;
  repeat (match type of E with
          | context [match ?x with _ => _ end] => destruct x eqn:?
          | context [if ?x then _ else _] => destruct x eqn:?
          end);
  try discriminate E; simplify_eq;
  first [ reflexivity | repeat split; wsimpl; first [reflexivity | lia] ].

Section FrameSteps.
Context {cfg : Config} {krn : Kernel}.

Lemma leaves_tables_ret {A} (a : A) : leaves_tables (ret a).
Proof. unfold ret. leaves_tac. Qed.

Lemma leaves_tables_bind {A B} (m : M A) (k : A -> M B) :
  leaves_tables m -> (forall a, leaves_tables (k a)) -> leaves_tables (bind m k).
Proof.
  intros Hm Hk w b w' E. unfold bind in E.
  destruct (m w) as [a w1| |] eqn:E1; try discriminate E.
  destruct (Hm _ _ _ E1) as (A1 & A2 & A3 & A4).
  destruct (Hk _ _ _ _ E) as (B1 & B2 & B3 & B4).
  repeat split; try congruence. lia.
Qed.

Lemma leaves_tables_load p : leaves_tables (load p).
Proof. unfold load. leaves_tac. Qed.

Lemma leaves_tables_load_base i : leaves_tables (load_base i).
Proof. unfold load_base. leaves_tac. Qed.

Lemma leaves_tables_load_stream s : leaves_tables (load_stream s).
Proof. unfold load_stream. leaves_tac. Qed.

Lemma leaves_tables_store_stream s v : leaves_tables (store_stream s v).
Proof. unfold store_stream. leaves_tac. Qed.

Lemma leaves_tables_syscall {A} c (answer : nat -> A) : leaves_tables (syscall c answer).
Proof. unfold syscall. leaves_tac. Qed.

Lemma leaves_tables_assert c : leaves_tables (assert_ c).
Proof. unfold assert_, fail, ret. leaves_tac. Qed.

Lemma leaves_tables_gets {A} (f : world -> A) : leaves_tables (gets f).
Proof. unfold gets. leaves_tac. Qed.

Lemma leaves_tables_the_map : leaves_tables the_map.
Proof. unfold the_map. leaves_tac. Qed.

Lemma leaves_tables_objectmap_lookup id : leaves_tables (objectmap_lookup id).
Proof.
  unfold objectmap_lookup.
  apply leaves_tables_bind; [apply leaves_tables_the_map | intros; apply leaves_tables_ret].
Qed.

Lemma leaves_tables_network_event_post kind id : leaves_tables (network_event_post kind id).
Proof. unfold network_event_post, modify. leaves_tac. Qed.

Lemma leaves_tables_cursor n : leaves_tables (atomic_exchange_and_add32_base_next n).
Proof. unfold atomic_exchange_and_add32_base_next. leaves_tac. Qed.

Lemma leaves_tables_memory_allocate_stream v : leaves_tables (memory_allocate_stream v).
Proof. unfold memory_allocate_stream. leaves_tac. Qed.

Lemma leaves_tables_memory_deallocate_stream s : leaves_tables (memory_deallocate_stream s).
Proof. unfold memory_deallocate_stream, modify. leaves_tac. Qed.

Lemma leaves_tables__socket_set_blocking_fd fd_ block :
  leaves_tables (_socket_set_blocking_fd fd_ block).
Proof.
  unfold _socket_set_blocking_fd. apply leaves_tables_bind; intros; apply leaves_tables_syscall.
Qed.

Lemma leaves_tables__socket_close_fd fd_ : leaves_tables (_socket_close_fd fd_).
Proof.
  unfold _socket_close_fd. apply leaves_tables_bind; intros; apply leaves_tables_syscall.
Qed.

Lemma leaves_tables__socket_available_fd fd_ : leaves_tables (_socket_available_fd fd_).
Proof.
  unfold _socket_available_fd. destruct (fd_ =? SOCKET_INVALID); [apply leaves_tables_ret|].
  apply leaves_tables_bind; [apply leaves_tables_syscall | intros; apply leaves_tables_ret].
Qed.

Lemma leaves_tables__socket_stream_allocate id : leaves_tables (_socket_stream_allocate id).
Proof. unfold _socket_stream_allocate. apply leaves_tables_memory_allocate_stream. Qed.

End FrameSteps.

#[export] Hint Resolve leaves_tables_ret leaves_tables_load leaves_tables_load_base
  leaves_tables_load_stream leaves_tables_store_stream leaves_tables_syscall
  leaves_tables_assert leaves_tables_gets leaves_tables_the_map
  leaves_tables_objectmap_lookup leaves_tables_network_event_post leaves_tables_cursor
  leaves_tables_memory_allocate_stream leaves_tables_memory_deallocate_stream
  leaves_tables__socket_set_blocking_fd leaves_tables__socket_close_fd
  leaves_tables__socket_available_fd leaves_tables__socket_stream_allocate : tables.

#[export] Hint Extern 3 (keeps _ _) =>
  apply keeps_leaves_tables; [solve [auto with tables] | solve [auto with tables]] : keeps.
(** *** Steps that change one table *)

Ltac leaves_one_tac :=
  let E := fresh "E" in
  intros ? ? ? E;
  repeat (match type of E with
          | context [match ?x with _ => _ end] => destruct x eqn:?
          | context [if ?x then _ else _] => destruct x eqn:?
          end);
  try discriminate E; simplify_eq; reflexivity.

Section OneTable.
Context {cfg : Config} {krn : Kernel}.

Lemma keeps_leaves_heap {A} (I : world -> Prop) (m : M A) :
  heap_only I -> leaves_heap m -> keeps I m.
Proof. intros HI Hm w a w' Hw E. eapply HI; [eapply Hm; exact E | exact Hw]. Qed.

Lemma keeps_leaves_slots {A} (I : world -> Prop) (m : M A) :
  of_slots I -> leaves_slots m -> keeps I m.
Proof. intros HI Hm w a w' Hw E. eapply HI; [eapply Hm; exact E | exact Hw]. Qed.

Lemma of_registry_is_registered id p : of_registry (is_registered id p).
Proof. intros w w' E H. unfold is_registered in *. eapply registered_frame; eassumption. Qed.

Lemma heap_only_record_is p r : heap_only (record_is p r).
Proof. intros w w' E H. unfold record_is in *. rewrite E. exact H. Qed.

Lemma of_slots_slot_is i sb : of_slots (slot_is i sb).
Proof. intros w w' E H. unfold slot_is in *. rewrite E. exact H. Qed.

Lemma leaves_registry_store p r : leaves_registry (store p r).
Proof. unfold store. leaves_one_tac. Qed.

Lemma leaves_registry_store_base i b : leaves_registry (store_base i b).
Proof. unfold store_base. leaves_one_tac. Qed.

Lemma leaves_registry_memory_deallocate p : leaves_registry (memory_deallocate p).
Proof. unfold memory_deallocate, modify. leaves_one_tac. Qed.

Lemma leaves_registry_update p f : leaves_registry (update p f).
Proof.
  intros w a w' E. unfold update, load, store, bind in E.
  destruct (heap w !! p) eqn:Hp; [|discriminate E]. rewrite Hp in E. simplify_eq. reflexivity.
Qed.

Lemma leaves_registry_update_base i f : leaves_registry (update_base i f).
Proof.
  intros w a w' E. unfold update_base, load_base, store_base, bind in E.
  destruct (0 <=? i); [|discriminate E].
  destruct (_socket_base w !! Z.to_nat i) eqn:Hi; [|discriminate E].
  rewrite Hi in E. simplify_eq. reflexivity.
Qed.

Lemma leaves_registry_atomic_incr32 p : leaves_registry (atomic_incr32 p).
Proof.
  intros w a w' E. unfold atomic_incr32, load, store, bind, ret in E.
  destruct (heap w !! p) eqn:Hp; [|discriminate E]. rewrite Hp in E. simplify_eq. reflexivity.
Qed.

Lemma leaves_registry_atomic_decr32 p : leaves_registry (atomic_decr32 p).
Proof.
  intros w a w' E. unfold atomic_decr32, load, store, bind, ret in E.
  destruct (heap w !! p) eqn:Hp; [|discriminate E]. rewrite Hp in E. simplify_eq. reflexivity.
Qed.

Lemma leaves_heap_store_base i b : leaves_heap (store_base i b).
Proof. unfold store_base. leaves_one_tac. Qed.

Lemma leaves_heap_update_base i f : leaves_heap (update_base i f).
Proof.
  intros w a w' E. unfold update_base, load_base, store_base, bind in E.
  destruct (0 <=? i); [|discriminate E].
  destruct (_socket_base w !! Z.to_nat i) eqn:Hi; [|discriminate E].
  rewrite Hi in E. simplify_eq. reflexivity.
Qed.

Lemma leaves_heap_objectmap_free id : leaves_heap (objectmap_free id).
Proof.
  intros w a w' E. unfold objectmap_free, the_map, modify, bind in E.
  destruct (_socket_map w); [|discriminate E]. simplify_eq. reflexivity.
Qed.

Lemma leaves_slots_store p r : leaves_slots (store p r).
Proof. unfold store. leaves_one_tac. Qed.

Lemma leaves_slots_update p f : leaves_slots (update p f).
Proof.
  intros w a w' E. unfold update, load, store, bind in E.
  destruct (heap w !! p) eqn:Hp; [|discriminate E]. rewrite Hp in E. simplify_eq. reflexivity.
Qed.

Lemma leaves_slots_atomic_incr32 p : leaves_slots (atomic_incr32 p).
Proof.
  intros w a w' E. unfold atomic_incr32, load, store, bind, ret in E.
  destruct (heap w !! p) eqn:Hp; [|discriminate E]. rewrite Hp in E. simplify_eq. reflexivity.
Qed.

Lemma leaves_slots_atomic_decr32 p : leaves_slots (atomic_decr32 p).
Proof.
  intros w a w' E. unfold atomic_decr32, load, store, bind, ret in E.
  destruct (heap w !! p) eqn:Hp; [|discriminate E]. rewrite Hp in E. simplify_eq. reflexivity.
Qed.

(** objectmap_free only takes entries away. *)
Lemma unregistered_objectmap_free p id : keeps (unregistered p) (objectmap_free id).
Proof.
  intros w a w' H E. unfold objectmap_free, the_map, modify, bind in E.
  destruct (_socket_map w) as [m|] eqn:Hm; [|discriminate E]. simplify_eq.
  intros id' (m' & Hm' & Hid). cbn in Hm'. simplify_eq. cbn [om_entries] in Hid.
  apply lookup_delete_Some in Hid as [_ Hid]. apply (H id'). exists m. auto.
Qed.

End OneTable.

#[export] Hint Resolve of_registry_is_registered heap_only_record_is of_slots_slot_is
  leaves_registry_store leaves_registry_store_base leaves_registry_memory_deallocate
  leaves_registry_update leaves_registry_update_base leaves_registry_atomic_incr32
  leaves_registry_atomic_decr32 leaves_heap_store_base leaves_heap_update_base
  leaves_heap_objectmap_free leaves_slots_store leaves_slots_update
  leaves_slots_atomic_incr32 leaves_slots_atomic_decr32 : tables.
#[export] Hint Extern 1 (of_tables (is_registered _ _)) =>
  apply of_registry_of_tables, of_registry_is_registered : tables.
#[export] Hint Extern 4 (keeps _ _) =>
  apply keeps_leaves_registry; [solve [auto with tables] | solve [auto with tables]] : keeps.
#[export] Hint Extern 4 (keeps _ _) =>
  apply keeps_leaves_heap; [solve [auto with tables] | solve [auto with tables]] : keeps.
#[export] Hint Extern 4 (keeps _ _) =>
  apply keeps_leaves_slots; [solve [auto with tables] | solve [auto with tables]] : keeps.
#[export] Hint Resolve unregistered_objectmap_free : keeps.

(** *** The invariant, step by step *)

Section ConsistentSteps.
Context {cfg : Config} {krn : Kernel}.

Lemma cons_update p f :
  (forall r, sock_id (f r) = sock_id r) -> (forall r, base (f r) = base r) ->
  keeps consistent (update p f).
Proof.
  intros H1 H2 w a w' Hc E. unfold update, load, store, bind in E.
  destruct (heap w !! p) as [r|] eqn:Hp; [|discriminate E]. rewrite Hp in E. simplify_eq.
  eapply consistent_update_record; eauto.
Qed.

Lemma cons_atomic_incr32 p : keeps consistent (atomic_incr32 p).
Proof.
  intros w a w' Hc E. unfold atomic_incr32, load, store, bind, ret in E.
  destruct (heap w !! p) as [r|] eqn:Hp; [|discriminate E]. rewrite Hp in E. simplify_eq.
  eapply consistent_update_record; eauto.
Qed.

Lemma cons_atomic_decr32 p : keeps consistent (atomic_decr32 p).
Proof.
  intros w a w' Hc E. unfold atomic_decr32, load, store, bind, ret in E.
  destruct (heap w !! p) as [r|] eqn:Hp; [|discriminate E]. rewrite Hp in E. simplify_eq.
  eapply consistent_update_record; eauto.
Qed.

Lemma cons_update_base i f :
  (forall sb, object (f sb) = object sb) -> (forall sb, state (f sb) = state sb) ->
  keeps consistent (update_base i f).
Proof.
  intros H1 H2 w a w' Hc E. unfold update_base, load_base, store_base, bind in E.
  destruct (0 <=? i); [|discriminate E].
  destruct (_socket_base w !! Z.to_nat i) as [sb|] eqn:Hi; [|discriminate E].
  rewrite Hi in E. simplify_eq.
  eapply consistent_update_slot; eauto. rewrite H2. auto.
Qed.

(** A store that follows the load of the same record. *)
Lemma forgets_store p r r' :
  sock_id r' = sock_id r -> base r' = base r -> forgets (record_is p r) (store p r').
Proof.
  intros H1 H2 w a w' [Hc Hr] E. unfold record_is in Hr. unfold store in E.
  rewrite Hr in E. simplify_eq. eapply consistent_update_record; eauto.
Qed.

(** The slot of a record that has one. *)
Lemma cons_own_slot p r f :
  (forall sb, object (f sb) = object sb) ->
  keeps (consistent_with (record_is p r)) (update_base (base r) f).
Proof.
  intros H1 w a w' [Hc Hr] E. unfold record_is in Hr.
  unfold update_base, load_base, store_base, bind in E.
  destruct (0 <=? base r) eqn:Hb; [|discriminate E].
  destruct (_socket_base w !! Z.to_nat (base r)) as [sb|] eqn:Hi; [|discriminate E].
  rewrite Hi in E. simplify_eq. split.
  - eapply consistent_update_own_slot; eauto. lia.
  - exact Hr.
Qed.

(** A slot that is in use. *)
Lemma forgets_live_slot i sb f :
  state sb <> SOCKETSTATE_NOTCONNECTED -> (forall sb, object (f sb) = object sb) ->
  forgets (slot_is (Z.to_nat i) sb) (update_base i f).
Proof.
  intros Hs H1 w a w' [Hc Hi] E. unfold slot_is in Hi.
  unfold update_base, load_base, store_base, bind in E.
  destruct (0 <=? i); [|discriminate E].
  rewrite Hi in E. rewrite Hi in E. simplify_eq.
  eapply consistent_update_slot; eauto.
Qed.

Lemma record_is_load p r :
  yields (consistent_with (record_is p r)) (fun r' => r' = r) (load p).
Proof.
  intros w a w' [Hc Hr] E. unfold load in E.
  assert (Hr' : heap w !! p = Some r) by exact Hr. rewrite Hr' in E.
  simplify_eq. split; [split; assumption | reflexivity].
Qed.

Lemma slot_is_load_base i sb :
  yields (consistent_with (slot_is (Z.to_nat i) sb)) (fun sb' => sb' = sb) (load_base i).
Proof.
  intros w a w' [Hc Hi] E. unfold load_base in E.
  assert (Hi' : _socket_base w !! Z.to_nat i = Some sb) by exact Hi.
  destruct (0 <=? i); [|discriminate E]. rewrite Hi' in E.
  simplify_eq. split; [split; assumption | reflexivity].
Qed.

(** *** Rules for what is followed *)

Lemma forgets_bind {A B} F phi (m : M A) (k : A -> M B) :
  yields (consistent_with F) phi m -> (forall a, phi a -> forgets F (k a)) ->
  forgets F (bind m k).
Proof.
  intros Hm Hk. eapply triple_bind; [exact Hm|].
  intros a. apply triple_pure. intros Hphi. apply Hk. exact Hphi.
Qed.

Lemma forgets_drop {A} F (m : M A) : keeps consistent m -> forgets F m.
Proof. intros H w a w' [Hc _] E. eapply H; eassumption. Qed.

Lemma forgets_then {A B} F (m : M A) (k : A -> M B) :
  forgets F m -> (forall a, keeps consistent (k a)) -> forgets F (bind m k).
Proof. intros Hm Hk. eapply triple_bind; [exact Hm|]. intros a. apply Hk. Qed.

Lemma forgets_when F (c : bool) (m : M unit) : forgets F m -> forgets F (when c m).
Proof. intros H. destruct c; [exact H | apply forgets_drop, keeps_ret]. Qed.

Lemma cons_load_bind {B} p (k : socket_t -> M B) :
  (forall r, forgets (record_is p r) (k r)) -> keeps consistent (bind (load p) k).
Proof.
  intros H w b w' Hc E. unfold bind, load in E.
  destruct (heap w !! p) as [r|] eqn:Hp; [|discriminate E].
  eapply (H r); [split; [exact Hc | exact Hp] | exact E].
Qed.

Lemma cons_load_base_bind {B} i (k : socket_base_t -> M B) :
  (forall sb, forgets (slot_is (Z.to_nat i) sb) (k sb)) -> keeps consistent (bind (load_base i) k).
Proof.
  intros H w b w' Hc E. unfold bind, load_base in E.
  destruct (0 <=? i); [|discriminate E].
  destruct (_socket_base w !! Z.to_nat i) as [sb|] eqn:Hi; [|discriminate E].
  eapply (H sb); [split; [exact Hc | exact Hi] | exact E].
Qed.

End ConsistentSteps.

#[export] Hint Resolve cons_atomic_incr32 cons_atomic_decr32 record_is_load slot_is_load_base
  : keeps.
#[export] Hint Extern 2 (keeps consistent (update _ _)) =>
  apply cons_update; intros; reflexivity : keeps.
#[export] Hint Extern 2 (keeps consistent (update_base _ _)) =>
  apply cons_update_base; intros; reflexivity : keeps.
#[export] Hint Extern 2 (forgets (record_is _ _) (store _ _)) =>
  apply forgets_store; reflexivity : keeps.
#[export] Hint Extern 2 (keeps (consistent_with (record_is _ ?r)) (update_base (base ?r) _)) =>
  apply cons_own_slot; intros; reflexivity : keeps.
#[export] Hint Extern 2 (forgets (slot_is _ _) (update_base _ _)) =>
  apply forgets_live_slot; [congruence | intros; reflexivity] : keeps.
#[export] Hint Extern 6 (keeps (consistent_with _) _) =>
  apply keeps_both; [solve [eauto with keeps] | solve [eauto with keeps]] : keeps.

(** One step of a computation under the invariant and a fact that is
    followed. *)
Ltac fstep :=
  cbv zeta;
  lazymatch goal with
  | |- forgets _ (bind _ _) =>
      first [ eapply forgets_bind;
              [ first [ solve [eauto with keeps]
                      | apply keeps_yields; solve [ksteps] ]
              | intros ? ? ]
            | apply forgets_drop; solve [ksteps]
            | eapply forgets_then; [ solve [fsteps] | intros; solve [ksteps] ] ]
  | |- forgets _ (when _ _) => apply forgets_when
  | |- forgets _ (if ?c then _ else _) => destruct c eqn:?
  | |- forgets _ (match ?o with _ => _ end) => destruct o eqn:?
  | |- forgets _ _ =>
      first [ apply forgets_drop; solve [ksteps]
            | solve [eauto with keeps] ]
  end
with fsteps := repeat fstep.

Section ConsistentClose.
Context {cfg : Config} {krn : Kernel}.

Lemma cons__socket_close p : keeps consistent (_socket_close p).
Proof.
  unfold _socket_close. apply cons_load_bind. intros r.
  eapply forgets_then.
  - destruct (0 <=? base r) eqn:Hb; [|apply forgets_drop, keeps_ret].
    intros w a w' [Hc Hr] E. unfold record_is in Hr.
    unfold bind, load_base, store, store_base, ret in E. rewrite Hb in E.
    destruct (_socket_base w !! Z.to_nat (base r)) as [sb|] eqn:Hi; [|discriminate E].
    rewrite Hr in E. revert E. wsimpl. rewrite Hi. intros E. simplify_eq.
    eapply consistent_close_slot; eauto; try reflexivity; try lia.
  - intros fd_. ksteps.
Qed.

End ConsistentClose.

#[export] Hint Resolve cons__socket_close : keeps.
(** *** Lookups *)

Section ConsistentLookup.
Context {cfg : Config} {krn : Kernel}.

Lemma cons__socket_lookup id : keeps consistent (_socket_lookup id).
Proof. unfold _socket_lookup. ksteps. Qed.

Lemma is_registered__socket_lookup id p id' : keeps (is_registered id p) (_socket_lookup id').
Proof. unfold _socket_lookup. ksteps. Qed.

Lemma unregistered__socket_lookup p id : keeps (unregistered p) (_socket_lookup id).
Proof. unfold _socket_lookup. ksteps. Qed.

Lemma slot_is__socket_lookup i sb id : keeps (slot_is i sb) (_socket_lookup id).
Proof. unfold _socket_lookup. ksteps. Qed.

(** What _socket_lookup returns is registered. *)
Lemma cons_lookup_bind {B} id (k : option ptr -> M B) :
  (forall p, forgets (is_registered id p) (k (Some p))) ->
  keeps consistent (k None) ->
  keeps consistent (bind (_socket_lookup id) k).
Proof.
  intros HS HN w b w' Hc E. unfold bind in E.
  destruct (_socket_lookup id w) as [o w1| |] eqn:E1; try discriminate E.
  assert (Hc1 : consistent w1) by (eapply cons__socket_lookup; eassumption).
  destruct o as [p|]; [|eapply HN; eassumption].
  eapply (HS p); [split; [exact Hc1|] | exact E].
  unfold _socket_lookup, objectmap_lookup, the_map, bind, ret in E1. cbv beta in E1.
  destruct (_socket_map w) as [m|] eqn:Hm; cbv beta iota in E1; [|discriminate E1].
  destruct (om_entries m !! id) as [q|] eqn:Hid; cbv beta iota in E1; [|discriminate E1].
  destruct (atomic_incr32 q w) as [n w2| |] eqn:E2; try discriminate E1.
  simplify_eq.
  eapply (is_registered__socket_lookup id p id w (Some p)).
  - exists m. auto.
  - unfold _socket_lookup, objectmap_lookup, the_map, bind, ret.
    rewrite Hm, Hid, E2. reflexivity.
Qed.

Lemma cons_objectmap_lookup_bind {B} id (k : option ptr -> M B) :
  (forall p, forgets (is_registered id p) (k (Some p))) ->
  keeps consistent (k None) ->
  keeps consistent (bind (objectmap_lookup id) k).
Proof.
  intros HS HN w b w' Hc E. unfold objectmap_lookup, the_map, ret, bind in E. cbv beta in E.
  destruct (_socket_map w) as [m|] eqn:Hm; cbv beta iota in E; [|discriminate E].
  destruct (om_entries m !! id) as [p|] eqn:Hid; [|eapply HN; eassumption].
  eapply (HS p); [split; [exact Hc|] | exact E]. exists m. auto.
Qed.

Lemma unregistered__socket_close p q : keeps (unregistered p) (_socket_close q).
Proof. unfold _socket_close. ksteps. Qed.

Lemma is_registered__socket_close id p q : keeps (is_registered id p) (_socket_close q).
Proof. unfold _socket_close. ksteps. Qed.

End ConsistentLookup.

#[export] Hint Resolve cons__socket_lookup is_registered__socket_lookup
  unregistered__socket_lookup slot_is__socket_lookup unregistered__socket_close
  is_registered__socket_close : keeps.

(** *** The end of a record *)

Section ConsistentRelease.
Context {cfg : Config} {krn : Kernel}.

Lemma forgets_memory_deallocate p : forgets (unregistered p) (memory_deallocate p).
Proof.
  intros w a w' [Hc Hu] E. unfold memory_deallocate, modify in E. simplify_eq.
  apply consistent_free; assumption.
Qed.

(** The registry entry goes, then the slot. *)
Lemma cons_unregister_close id p :
  triple (consistent_with (is_registered id p))
    (r <- load p;; objectmap_free (sock_id r);; _socket_close p)
    (fun _ => consistent_with (unregistered p)).
Proof.
  intros w a w' [Hc (m & Hm & Hid)] E.
  destruct (registered_record w id p Hc) as (r & Hp & Hr); [exists m; auto|].
  rewrite (bind_done _ _ _ _ _ (load_done _ _ _ Hp)) in E.
  set (m' := {| om_size := om_size m; om_next := om_next m;
                om_entries := delete (sock_id r) (om_entries m) |}).
  assert (E1 : objectmap_free (sock_id r) w = Done tt (world_with_map (Some m') w)).
  { unfold objectmap_free, the_map, modify, bind. rewrite Hm. reflexivity. }
  rewrite (bind_done _ _ _ _ _ E1) in E.
  destruct (_socket_close p w) as [u wc| |] eqn:Ec.
  - assert (Hcc : consistent wc) by (eapply cons__socket_close; eassumption).
    assert (X : wc = world_with_heap (heap wc) (world_with_base (_socket_base wc)
                       (world_with_trace (trace wc) w)) /\
                exists r', heap wc !! p = Some r' /\ base r' < 0 /\
                _socket_close p (world_with_map (Some m') w)
                = Done tt (world_with_map (Some m') wc)).
    { destruct (Z_lt_le_dec (base r) 0) as [Hb|Hb].
      - rewrite (_socket_close_noslot w p r Hp Hb) in Ec. simplify_eq. split.
        + destruct w; reflexivity.
        + exists (closed_record r). split; [wsimpl; apply lookup_insert_eq|].
          split; [apply closed_record_base_neg|].
          rewrite (_socket_close_noslot (world_with_map (Some m') w) p r Hp Hb).
          destruct w; reflexivity.
      - destruct Hc as (_ & _ & HR & _).
        destruct (HR p r Hp Hb) as (_ & sb & Hs & _).
        rewrite (_socket_close_slot w p r sb Hp Hb Hs) in Ec. simplify_eq. split.
        + destruct w; reflexivity.
        + exists (closed_record r). split; [wsimpl; apply lookup_insert_eq|].
          split; [apply closed_record_base_neg|].
          rewrite (_socket_close_slot (world_with_map (Some m') w) p r sb Hp Hb Hs).
          destruct w; reflexivity. }
    destruct X as (Ew & r' & Hp' & Hb' & Ec').
    rewrite Ec' in E. simplify_eq.
    assert (Hm' : _socket_map wc = Some m).
    { rewrite Ew. wsimpl. exact Hm. }
    apply (consistent_unregister wc m (sock_id r) p r' Hcc Hm' Hid Hp' Hb').
  - exfalso.
    destruct (Z_lt_le_dec (base r) 0) as [Hb|Hb].
    + rewrite (_socket_close_noslot w p r Hp Hb) in Ec. discriminate Ec.
    + destruct Hc as (_ & _ & HR & _).
      destruct (HR p r Hp Hb) as (_ & sb & Hs & _).
      rewrite (_socket_close_slot w p r sb Hp Hb Hs) in Ec. discriminate Ec.
  - exfalso.
    destruct (Z_lt_le_dec (base r) 0) as [Hb|Hb].
    + rewrite (_socket_close_noslot w p r Hp Hb) in Ec. discriminate Ec.
    + destruct Hc as (_ & _ & HR & _).
      destruct (HR p r Hp Hb) as (_ & sb & Hs & _).
      rewrite (_socket_close_slot w p r sb Hp Hb Hs) in Ec. discriminate Ec.
Qed.

Section Finalizer.
Variable V : ptr -> M unit.
Hypothesis V_consistent : forall s, keeps consistent (V s).
Hypothesis V_unregistered : forall p s, keeps (unregistered p) (V s).

#[local] Hint Resolve V_consistent V_unregistered : keeps.

Lemma cons_stream_deallocate_gen s : keeps consistent (stream_deallocate_gen V s).
Proof. unfold stream_deallocate_gen. ksteps. Qed.

Lemma unregistered_stream_deallocate_gen p s :
  keeps (unregistered p) (stream_deallocate_gen V s).
Proof. unfold stream_deallocate_gen. ksteps. Qed.

#[local] Hint Resolve cons_stream_deallocate_gen unregistered_stream_deallocate_gen : keeps.

Lemma forgets__socket_deallocate_gen id p :
  forgets (is_registered id p) (_socket_deallocate_gen V p).
Proof.
  assert (H : forgets (is_registered id p)
                (bind (r <- load p;; objectmap_free (sock_id r);; _socket_close p)
                   (fun _ => r <- load p;;
                             assert_ (negb (bool_decide (is_Some (stream r))));;
                             stream_deallocate_gen V (stream r);;
                             memory_deallocate p))).
  { eapply triple_bind; [apply cons_unregister_close|]. intros u.
    change (forgets (unregistered p)
              (r <- load p;;
               assert_ (negb (bool_decide (is_Some (stream r))));;
               stream_deallocate_gen V (stream r);;
               memory_deallocate p)).
    fstep. fstep. fstep. apply forgets_memory_deallocate. }
  intros w a w' Hc E. eapply H; [exact Hc|]. rewrite <- E.
  unfold _socket_deallocate_gen, bind. destruct (load p w); [|reflexivity|reflexivity].
  destruct (objectmap_free (sock_id a0) w0); reflexivity.
Qed.

Lemma unregistered__socket_deallocate_gen p q :
  keeps (unregistered p) (_socket_deallocate_gen V q).
Proof. unfold _socket_deallocate_gen. ksteps. Qed.

#[local] Hint Resolve forgets__socket_deallocate_gen unregistered__socket_deallocate_gen
  : keeps.

Lemma cons_socket_destroy_gen id : keeps consistent (socket_destroy_gen V id).
Proof.
  unfold socket_destroy_gen. apply cons_objectmap_lookup_bind; [|apply keeps_ret].
  intros p. fsteps.
Qed.

Lemma unregistered_socket_destroy_gen p id : keeps (unregistered p) (socket_destroy_gen V id).
Proof. unfold socket_destroy_gen. ksteps. Qed.

#[local] Hint Resolve cons_socket_destroy_gen unregistered_socket_destroy_gen : keeps.

Lemma cons__socket_stream_finalize_gen s : keeps consistent (_socket_stream_finalize_gen V s).
Proof.
  unfold _socket_stream_finalize_gen. kstep. kstep.
  eapply keeps_bind; [apply keeps_yields | intros ? ?].
  - apply keeps_when. kstep.
    match goal with |- keeps _ (match ?o with _ => _ end) => destruct o as [p|] end;
      [|apply keeps_ret].
    apply cons_load_bind. intros r. fsteps.
  - ksteps.
Qed.

Lemma unregistered__socket_stream_finalize_gen p s :
  keeps (unregistered p) (_socket_stream_finalize_gen V s).
Proof. unfold _socket_stream_finalize_gen. ksteps. Qed.

End Finalizer.

Lemma cons__socket_stream_finalize_nested s :
  keeps consistent (_socket_stream_finalize_nested s).
Proof.
  apply cons__socket_stream_finalize_gen; intros; apply keeps_out_of_fuel.
Qed.

Lemma unregistered__socket_stream_finalize_nested p s :
  keeps (unregistered p) (_socket_stream_finalize_nested s).
Proof.
  apply unregistered__socket_stream_finalize_gen; intros; apply keeps_out_of_fuel.
Qed.

Lemma cons_socket_destroy id : keeps consistent (socket_destroy id).
Proof.
  apply cons_socket_destroy_gen.
  - apply cons__socket_stream_finalize_nested.
  - apply unregistered__socket_stream_finalize_nested.
Qed.

Lemma cons_socket_free id : keeps consistent (socket_free id).
Proof. apply cons_socket_destroy. Qed.

Lemma cons__socket_stream_finalize s : keeps consistent (_socket_stream_finalize s).
Proof.
  apply cons__socket_stream_finalize_gen.
  - apply cons__socket_stream_finalize_nested.
  - apply unregistered__socket_stream_finalize_nested.
Qed.

Lemma cons_stream_deallocate s :
  keeps consistent (stream_deallocate_gen _socket_stream_finalize s).
Proof. apply cons_stream_deallocate_gen. apply cons__socket_stream_finalize. Qed.

End ConsistentRelease.

#[export] Hint Resolve cons_socket_destroy cons_socket_free cons__socket_stream_finalize
  cons_stream_deallocate : keeps.
(** *** New records and their slots *)

Section ConsistentAllocate.
Context {cfg : Config} {krn : Kernel}.

(** The registry hands out an id and stores nothing. *)
Lemma consistent_reserve w m :
  consistent w -> _socket_map w = Some m ->
  consistent (world_with_map
                (Some {| om_size := om_size m; om_next := om_next m + 1;
                         om_entries := om_entries m |}) w).
Proof.
  intros (HA & HB & HC & HD) Hm.
  assert (Hreg : forall id p,
            registered (world_with_map
                          (Some {| om_size := om_size m; om_next := om_next m + 1;
                                   om_entries := om_entries m |}) w) id p <->
            registered w id p).
  { intros id p. split.
    - intros (m' & Hm' & Hid). cbn in Hm'. simplify_eq. exists m. auto.
    - intros (m' & Hm' & Hid). simplify_eq. eexists. split; [reflexivity|]. exact Hid. }
  split; [|split; [|split]].
  - intros m' id p Hm' Hid. cbn in Hm'. simplify_eq. cbn [om_entries om_next] in *.
    destruct (HA m id p Hm Hid) as (H1 & H2 & H3). repeat split; [exact H1 | lia | exact H3].
  - exact HB.
  - intros p r Hp Hb. destruct (HC p r Hp Hb) as (H1 & H2). split; [|exact H2].
    apply Hreg. exact H1.
  - intros i sb Hi Hs. destruct (HD i sb Hi Hs) as (p & r & H1 & H2 & H3).
    exists p, r. split; [apply Hreg; exact H1 | auto].
Qed.

Lemma _tcp_socket_allocate_cases w :
  _tcp_socket_allocate w = Done None w \/
  (exists m, _socket_map w = Some m /\
     _tcp_socket_allocate w
     = Done None (world_with_map
                    (Some {| om_size := om_size m; om_next := om_next m + 1;
                             om_entries := om_entries m |}) w)) \/
  (exists m a, _socket_map w = Some m /\ om_next m <> 0 /\
     _tcp_socket_allocate w
     = Done (Some (next_ptr w))
         (world_with_map
            (Some {| om_size := om_size m; om_next := om_next m + 1;
                     om_entries := <[om_next m := next_ptr w]> (om_entries m) |})
            (world_with_heap (<[next_ptr w := a]> (heap w))
               (world_with_next_ptr (next_ptr w + 1) w))) /\
     sock_id a = om_next m /\ base a = -1).
Proof.
  destruct (_socket_map w) as [m|] eqn:Hm.
  - destruct (om_size m <=? Z.of_nat (size (om_entries m))) eqn:Hfull.
    + left. unfold _tcp_socket_allocate, _socket_allocate. rewrite !bind_assoc.
      mstep ltac:(unfold gets; rewrite Hm; reflexivity).
      rewrite bool_decide_eq_true_2 by (eexists; reflexivity).
      mstep ltac:(unfold objectmap_reserve; mstep ltac:(apply the_map_done; exact Hm);
                  rewrite Hfull; reflexivity).
      reflexivity.
    + destruct (om_next m =? 0) eqn:Hz.
      * right. left. exists m. split; [reflexivity|].
        unfold _tcp_socket_allocate, _socket_allocate. rewrite !bind_assoc.
        mstep ltac:(unfold gets; rewrite Hm; reflexivity).
        rewrite bool_decide_eq_true_2 by (eexists; reflexivity).
        mstep ltac:(unfold objectmap_reserve; mstep ltac:(apply the_map_done; exact Hm);
                    rewrite Hfull; mstep ltac:(reflexivity); reflexivity).
        rewrite Hz. reflexivity.
      * right. right. apply Z.eqb_neq in Hz.
        destruct (_tcp_socket_allocate_done w m Hm ltac:(lia) Hz)
          as (a & E & Hid & _ & Hb & _).
        exists m, a. repeat split; assumption.
  - left. unfold _tcp_socket_allocate, _socket_allocate. rewrite !bind_assoc.
    mstep ltac:(unfold gets; rewrite Hm; reflexivity).
    rewrite bool_decide_eq_false_2 by (intros [x Hx]; discriminate Hx).
    mstep ltac:(reflexivity). reflexivity.
Qed.

(** What _tcp_socket_allocate returns is registered. *)
Lemma cons_allocate_bind {B} (k : option ptr -> M B) :
  (forall id p, forgets (is_registered id p) (k (Some p))) ->
  keeps consistent (k None) ->
  keeps consistent (bind _tcp_socket_allocate k).
Proof.
  intros HS HN w b w' Hc E. unfold bind in E.
  destruct (_tcp_socket_allocate_cases w) as [E1|[(m & Hm & E1)|(m & a & Hm & Hz & E1 & Hid & Hb)]];
    rewrite E1 in E.
  - eapply HN; eassumption.
  - eapply HN; [|exact E]. apply consistent_reserve; assumption.
  - eapply (HS (om_next m) (next_ptr w)); [|exact E]. split.
    + apply consistent_allocate; try assumption. lia.
    + eexists. split; [reflexivity|]. cbn [om_entries]. apply lookup_insert_eq.
Qed.

Lemma cons__tcp_socket_allocate : keeps consistent _tcp_socket_allocate.
Proof.
  intros w o w' Hc E.
  assert (X : keeps consistent (bind _tcp_socket_allocate (fun o => ret o))).
  { apply cons_allocate_bind; [|apply keeps_ret]. intros. apply forgets_drop, keeps_ret. }
  eapply (X w o w' Hc). unfold bind. rewrite E. reflexivity.
Qed.

(** The claim loop, run for a registered record that has no slot. *)
Lemma cons__socket_allocate_base_loop id p fuel : forall maxbase,
  triple (consistent_with (fun w => is_registered id p w /\
                                    exists r, heap w !! p = Some r /\ base r < 0))
    (_socket_allocate_base_loop fuel p maxbase)
    (fun _ => consistent_with (is_registered id p)).
Proof.
  induction fuel as [|fuel IH]; intros maxbase w b w' Hpre E; [discriminate E|].
  cbn [_socket_allocate_base_loop] in E.
  destruct Hpre as (Hc & Hreg & r & Hp & Hb).
  rewrite (bind_done _ _ _ _ _ (eq_refl : atomic_exchange_and_add32_base_next 1 w = Done _ _)) in E.
  set (w1 := world_with_base_next (s32 (_socket_base_next w + 1)) w) in *.
  assert (Hpre1 : consistent_with (fun w => is_registered id p w /\
                     exists r, heap w !! p = Some r /\ base r < 0) w1).
  { split; [|split].
    - eapply consistent_frame; [| | | |exact Hc]; unfold w1; wsimpl; try reflexivity; lia.
    - exact Hreg.
    - exists r. auto. }
  destruct (maxbase <=? _socket_base_next w) eqn:C1; [eapply IH; eassumption|].
  unfold bind at 1 in E.
  destruct (load_base (_socket_base_next w) w1) as [sb w2| |] eqn:E2; try discriminate E.
  assert (Hi : 0 <= _socket_base_next w /\
               _socket_base w !! Z.to_nat (_socket_base_next w) = Some sb /\ w2 = w1).
  { unfold load_base in E2. destruct (0 <=? _socket_base_next w) eqn:C; [|discriminate E2].
    unfold w1 in E2. revert E2. wsimpl.
    destruct (_socket_base w !! Z.to_nat (_socket_base_next w)); intros E2; [|discriminate E2].
    simplify_eq. repeat split. lia. }
  destruct Hi as (Hi0 & Hi & ->).
  destruct (nonzero (object sb)) eqn:C2; [eapply IH; eassumption|].
  rewrite (bind_done _ _ _ _ _ (load_done w1 p r Hp)) in E.
  rewrite (bind_done _ _ _ _ _ E2) in E.
  destruct (object sb =? 0) eqn:C3; [|eapply IH; eassumption].
  rewrite (bind_done _ _ _ _ _ (store_done w1 p r _ Hp)) in E.
  erewrite (bind_done _ _ (world_with_heap _ w1)) in E
    by (eapply store_base_done; [exact Hi0 | exact Hi]).
  unfold ret in E. simplify_eq. split.
  - pose proof (consistent_claim w id p r (_socket_base_next w) sb
                  {| object := sock_id r; fd := SOCKET_INVALID; flags := 0;
                     state := SOCKETSTATE_NOTCONNECTED; last_event := 0 |}
                  Hc Hreg Hp Hb Hi0 Hi ltac:(lia) eq_refl eq_refl) as X.
    eapply consistent_frame; [| | | |exact X]; unfold w1; wsimpl; try reflexivity; lia.
  - exact Hreg.
Qed.

Lemma cons__socket_allocate_base id p fuel :
  keeps (consistent_with (is_registered id p)) (_socket_allocate_base fuel p).
Proof.
  intros w b w' [Hc Hreg] E. unfold _socket_allocate_base in E.
  unfold bind at 1 in E. unfold load in E.
  destruct (heap w !! p) as [r|] eqn:Hp; [|discriminate E].
  destruct (0 <=? base r) eqn:Hb.
  - unfold ret in E. simplify_eq. split; assumption.
  - rewrite (bind_done _ _ _ _ _ (eq_refl : gets _socket_base_size w = Done _ _)) in E.
    eapply cons__socket_allocate_base_loop; [|exact E].
    split; [exact Hc | split; [exact Hreg | exists r; split; [exact Hp | lia]]].
Qed.

(** With a slot already, nothing is claimed. *)
Lemma record_is__socket_allocate_base p r fuel :
  (base r <? 0) = false ->
  keeps (consistent_with (record_is p r)) (_socket_allocate_base fuel p).
Proof.
  intros Hb. unfold _socket_allocate_base.
  eapply keeps_bind; [apply record_is_load | intros r' Hr; cbv beta in Hr; subst r'].
  assert (C : (0 <=? base r) = true) by lia. rewrite C. apply keeps_ret.
Qed.

End ConsistentAllocate.

#[export] Hint Resolve cons__tcp_socket_allocate cons__socket_allocate_base : keeps.
#[export] Hint Extern 2 (keeps (consistent_with (record_is _ ?r)) (_socket_allocate_base _ _)) =>
  apply record_is__socket_allocate_base; assumption : keeps.

(** *** Flags and descriptors *)

Section ConsistentFlags.
Context {cfg : Config} {krn : Kernel}.

Lemma cons__socket_set_blocking id p fuel block :
  keeps (consistent_with (is_registered id p)) (_socket_set_blocking fuel p block).
Proof. unfold _socket_set_blocking. ksteps. Qed.

Lemma cons__socket_set_reuse_address id p fuel reuse :
  keeps (consistent_with (is_registered id p)) (_socket_set_reuse_address fuel p reuse).
Proof. unfold _socket_set_reuse_address. ksteps. Qed.

Lemma cons__socket_set_reuse_port id p fuel reuse :
  keeps (consistent_with (is_registered id p)) (_socket_set_reuse_port fuel p reuse).
Proof. unfold _socket_set_reuse_port. ksteps. Qed.

Lemma record_is__socket_set_blocking p r fuel block :
  (base r <? 0) = false ->
  keeps (consistent_with (record_is p r)) (_socket_set_blocking fuel p block).
Proof. intros Hb. unfold _socket_set_blocking. ksteps. Qed.

Lemma cons__tcp_socket_set_delay p delay : keeps consistent (_tcp_socket_set_delay p delay).
Proof. unfold _tcp_socket_set_delay. ksteps. Qed.

Lemma is_registered__tcp_socket_set_delay id p q delay :
  keeps (is_registered id p) (_tcp_socket_set_delay q delay).
Proof. unfold _tcp_socket_set_delay. ksteps. Qed.

#[local] Hint Resolve cons__socket_set_blocking cons__socket_set_reuse_address
  cons__socket_set_reuse_port cons__tcp_socket_set_delay is_registered__tcp_socket_set_delay
  : keeps.

Lemma cons__tcp_socket_open id p fuel family_ :
  keeps (consistent_with (is_registered id p)) (_tcp_socket_open fuel p family_).
Proof. unfold _tcp_socket_open. ksteps. Qed.

#[local] Hint Resolve cons__tcp_socket_open : keeps.

Lemma cons_call_open_fn id p fuel family_ :
  keeps (consistent_with (is_registered id p)) (call_open_fn fuel p family_).
Proof. unfold call_open_fn. ksteps. Qed.

#[local] Hint Resolve cons_call_open_fn : keeps.

Lemma cons__socket_create_fd id p fuel family_ :
  keeps (consistent_with (is_registered id p)) (_socket_create_fd fuel p family_).
Proof. unfold _socket_create_fd. ksteps. Qed.

Lemma cons__socket_store_address_local p family_ :
  keeps consistent (_socket_store_address_local p family_).
Proof. unfold _socket_store_address_local. ksteps. Qed.

End ConsistentFlags.

#[export] Hint Resolve cons__socket_set_blocking cons__socket_set_reuse_address
  cons__socket_set_reuse_port cons__tcp_socket_set_delay is_registered__tcp_socket_set_delay
  cons__tcp_socket_open cons_call_open_fn cons__socket_create_fd
  cons__socket_store_address_local : keeps.
#[export] Hint Extern 2 (keeps (consistent_with (record_is _ ?r)) (_socket_set_blocking _ _ _)) =>
  apply record_is__socket_set_blocking; assumption : keeps.
(** Steps of the invariant.  [cstep] runs one step of a computation under
    the invariant, [xstep] one step under the invariant and a fact that is
    followed; the load of a record, a lookup and an allocation are tried
    without what they return first, and with it if that fails. *)
Ltac cstep :=
  cbv zeta;
  lazymatch goal with
  | |- keeps consistent (bind (_socket_lookup _) _) =>
      first [ solve [ eapply keeps_bind; [ solve [eauto with keeps] | intros ? ? ]; csteps ]
            | apply cons_lookup_bind; [ intros ?; solve [xsteps] | solve [csteps] ] ]
  | |- keeps consistent (bind _tcp_socket_allocate _) =>
      first [ solve [ eapply keeps_bind; [ solve [eauto with keeps] | intros ? ? ]; csteps ]
            | apply cons_allocate_bind; [ intros ? ?; solve [xsteps] | solve [csteps] ] ]
  | |- keeps consistent (bind (load _) _) =>
      first [ solve [ eapply keeps_bind; [ solve [eauto with keeps] | intros ? ? ]; csteps ]
            | apply cons_load_bind; intros ?; solve [xsteps] ]
  | |- keeps _ (bind _ _) =>
      eapply keeps_bind;
      [ first [ solve [eauto with keeps]
              | apply keeps_yields; solve [csteps] ]
      | intros ? ? ]
  | |- keeps _ (ret _) => apply keeps_ret
  | |- keeps _ (fail _) => apply keeps_fail
  | |- keeps _ out_of_fuel => apply keeps_out_of_fuel
  | |- keeps _ (when _ _) => apply keeps_when
  | |- keeps _ (if ?c then _ else _) => destruct c eqn:?
  | |- keeps _ (match ?o with _ => _ end) => destruct o eqn:?
  | |- keeps _ _ => solve [eauto with keeps]
  end
with csteps := repeat cstep
with xstep :=
  cbv zeta;
  lazymatch goal with
  | |- forgets _ (bind (load _) _) =>
      first [ solve [ eapply forgets_bind; [ solve [eauto with keeps] | intros ? ? ]; xsteps ]
            | apply forgets_drop, cons_load_bind; intros ?; solve [xsteps] ]
  | |- forgets _ (bind _ _) =>
      first [ eapply forgets_bind;
              [ first [ solve [eauto with keeps]
                      | apply keeps_yields; solve [csteps] ]
              | intros ? ? ]
            | apply forgets_drop; solve [csteps]
            | eapply forgets_then; [ solve [xsteps] | intros; solve [csteps] ] ]
  | |- forgets _ (when _ _) => apply forgets_when
  | |- forgets _ (if ?c then _ else _) => destruct c eqn:?
  | |- forgets _ (match ?o with _ => _ end) => destruct o eqn:?
  | |- forgets _ _ =>
      first [ apply forgets_drop; solve [csteps]
            | solve [eauto with keeps] ]
  end
with xsteps := repeat xstep.

(** *** Polling *)

Section ConsistentPoll.
Context {cfg : Config} {krn : Kernel}.

Lemma cons__socket_buffered_in sock : keeps consistent (_socket_buffered_in sock).
Proof. unfold _socket_buffered_in. csteps. Qed.

#[local] Hint Resolve cons__socket_buffered_in : keeps.

Lemma cons__socket_available_nonblock_read p :
  keeps consistent (_socket_available_nonblock_read p).
Proof. unfold _socket_available_nonblock_read. csteps. Qed.

Lemma cons__socket_poll_state_exit i sock : keeps consistent (_socket_poll_state_exit i sock).
Proof. unfold _socket_poll_state_exit. csteps. Qed.

#[local] Hint Resolve cons__socket_poll_state_exit : keeps.

Lemma cons__socket_poll_state_disconnected i sock :
  keeps consistent (_socket_poll_state_disconnected i sock).
Proof. unfold _socket_poll_state_disconnected. csteps. Qed.

#[local] Hint Resolve cons__socket_poll_state_disconnected : keeps.

Lemma cons__socket_poll_state i : keeps consistent (_socket_poll_state i).
Proof.
  unfold _socket_poll_state. apply cons_load_base_bind. intros sb.
  destruct (state sb) eqn:Hs; xsteps.
Qed.

End ConsistentPoll.

#[export] Hint Resolve cons__socket_buffered_in cons__socket_available_nonblock_read
  cons__socket_poll_state_exit cons__socket_poll_state_disconnected cons__socket_poll_state
  : keeps.

(** *** The data path *)

Section ConsistentData.
Context {cfg : Config} {krn : Kernel}.

Lemma cons_close_and_post_hangup p i : keeps consistent (close_and_post_hangup p i).
Proof. unfold close_and_post_hangup. csteps. Qed.

Lemma cons_advance_offset_write_in p n data :
  keeps consistent (advance_offset_write_in p n data).
Proof. unfold advance_offset_write_in. csteps. Qed.

#[local] Hint Resolve cons_close_and_post_hangup cons_advance_offset_write_in : keeps.

Lemma cons__tcp_socket_buffer_read fuel : forall p wanted,
  keeps consistent (_tcp_socket_buffer_read fuel p wanted).
Proof.
  induction fuel as [|fuel IH]; intros p wanted; cbn [_tcp_socket_buffer_read]; csteps.
Qed.

Lemma cons__tcp_socket_buffer_write_loop fuel : forall p i sent,
  keeps consistent (_tcp_socket_buffer_write_loop fuel p i sent).
Proof.
  induction fuel as [|fuel IH]; intros p i sent; cbn [_tcp_socket_buffer_write_loop]; csteps.
Qed.

#[local] Hint Resolve cons__tcp_socket_buffer_read cons__tcp_socket_buffer_write_loop : keeps.

Lemma cons__tcp_socket_buffer_write fuel p : keeps consistent (_tcp_socket_buffer_write fuel p).
Proof. unfold _tcp_socket_buffer_write. csteps. Qed.

#[local] Hint Resolve cons__tcp_socket_buffer_write : keeps.

Lemma cons__socket_doflush fuel p : keeps consistent (_socket_doflush fuel p).
Proof. unfold _socket_doflush, _socket_doflush_gen. csteps. Qed.

#[local] Hint Resolve cons__socket_doflush : keeps.

Lemma cons__tcp_socket_connect fuel p address timeoutms :
  keeps consistent (_tcp_socket_connect fuel p address timeoutms).
Proof.
  unfold _tcp_socket_connect. apply cons_load_bind. intros r. xsteps.
Qed.

Lemma cons__socket_read_drain fuel : forall p size was_read buffer try_again,
  keeps consistent (_socket_read_drain fuel p size was_read buffer try_again).
Proof.
  induction fuel as [|fuel IH]; intros; cbn [_socket_read_drain]; csteps.
Qed.

Lemma cons_call_read_fn fuel p wanted : keeps consistent (call_read_fn fuel p wanted).
Proof. unfold call_read_fn. csteps. Qed.

#[local] Hint Resolve cons__socket_read_drain cons_call_read_fn : keeps.

Lemma cons__socket_read_loop fuel : forall p size blocking polled was_read buffer loop_counter,
  keeps consistent (_socket_read_loop fuel p size blocking polled was_read buffer loop_counter).
Proof.
  induction fuel as [|fuel IH]; intros; cbn [_socket_read_loop]; csteps.
Qed.

#[local] Hint Resolve cons__socket_read_loop : keeps.

Lemma cons__socket_read fuel s buffer size : keeps consistent (_socket_read fuel s buffer size).
Proof. unfold _socket_read. csteps. Qed.

Lemma cons__socket_write_loop fuel : forall p i data size remain was_written,
  keeps consistent (_socket_write_loop fuel p i data size remain was_written).
Proof.
  induction fuel as [|fuel IH]; intros; cbn [_socket_write_loop]; csteps.
Qed.

#[local] Hint Resolve cons__socket_write_loop cons__socket_read : keeps.

Lemma cons__socket_write fuel s buffer size : keeps consistent (_socket_write fuel s buffer size).
Proof. unfold _socket_write. csteps. Qed.

Lemma cons__socket_eos s : keeps consistent (_socket_eos s).
Proof. unfold _socket_eos. csteps. Qed.

Lemma cons__socket_available_read s : keeps consistent (_socket_available_read s).
Proof. unfold _socket_available_read. csteps. Qed.

Lemma cons__socket_buffer_read fuel s : keeps consistent (_socket_buffer_read fuel s).
Proof. unfold _socket_buffer_read. csteps. Qed.

Lemma cons__socket_flush fuel s : keeps consistent (_socket_flush fuel s).
Proof. unfold _socket_flush. csteps. Qed.

Lemma cons__socket_seek fuel s offset direction :
  keeps consistent (_socket_seek fuel s offset direction).
Proof. unfold _socket_seek. csteps. Qed.

Lemma cons__socket_tell s : keeps consistent (_socket_tell s).
Proof. unfold _socket_tell. csteps. Qed.

End ConsistentData.

#[export] Hint Resolve cons_close_and_post_hangup cons_advance_offset_write_in
  cons__tcp_socket_buffer_read cons__tcp_socket_buffer_write_loop
  cons__tcp_socket_buffer_write cons__socket_doflush cons__tcp_socket_connect
  cons__socket_read_drain cons_call_read_fn cons__socket_read_loop cons__socket_read
  cons__socket_write_loop cons__socket_write cons__socket_eos cons__socket_available_read
  cons__socket_buffer_read cons__socket_flush cons__socket_seek cons__socket_tell : keeps.
(** *** The public interface *)

Section ConsistentInterface.
Context {cfg : Config} {krn : Kernel}.

Lemma cons_tcp_socket_create : keeps consistent tcp_socket_create.
Proof. unfold tcp_socket_create. csteps. Qed.

Lemma cons_tcp_socket_listen id : keeps consistent (tcp_socket_listen id).
Proof. unfold tcp_socket_listen. csteps. Qed.

Lemma cons_tcp_socket_accept fuel id timeoutms :
  keeps consistent (tcp_socket_accept fuel id timeoutms).
Proof. unfold tcp_socket_accept. csteps. Qed.

Lemma cons_tcp_socket_delay id : keeps consistent (tcp_socket_delay id).
Proof. unfold tcp_socket_delay. csteps. Qed.

Lemma cons_tcp_socket_set_delay id delay : keeps consistent (tcp_socket_set_delay id delay).
Proof. unfold tcp_socket_set_delay. csteps. Qed.

Lemma cons_socket_ref id : keeps consistent (socket_ref id).
Proof. unfold socket_ref. csteps. Qed.

Lemma cons_socket_is_socket id : keeps consistent (socket_is_socket id).
Proof. unfold socket_is_socket. csteps. Qed.

Lemma cons_socket_bind fuel id address : keeps consistent (socket_bind fuel id address).
Proof. unfold socket_bind. csteps. Qed.

Lemma cons_socket_connect fuel id address timeout :
  keeps consistent (socket_connect fuel id address timeout).
Proof. unfold socket_connect. csteps. Qed.

Lemma cons_socket_flag_getter flag id : keeps consistent (socket_flag_getter flag id).
Proof. unfold socket_flag_getter. csteps. Qed.

Lemma cons_socket_set_blocking fuel id block :
  keeps consistent (socket_set_blocking fuel id block).
Proof. unfold socket_set_blocking. csteps. Qed.

Lemma cons_socket_set_reuse_address fuel id reuse :
  keeps consistent (socket_set_reuse_address fuel id reuse).
Proof. unfold socket_set_reuse_address. csteps. Qed.

Lemma cons_socket_set_reuse_port fuel id reuse :
  keeps consistent (socket_set_reuse_port fuel id reuse).
Proof. unfold socket_set_reuse_port. csteps. Qed.

Lemma cons_socket_set_multicast_group fuel id address allow_loopback :
  keeps consistent (socket_set_multicast_group fuel id address allow_loopback).
Proof. unfold socket_set_multicast_group. csteps. Qed.

Lemma cons_socket_address_local id : keeps consistent (socket_address_local id).
Proof. unfold socket_address_local. csteps. Qed.

Lemma cons_socket_address_remote id : keeps consistent (socket_address_remote id).
Proof. unfold socket_address_remote. csteps. Qed.

Lemma cons_socket_state id : keeps consistent (socket_state id).
Proof. unfold socket_state. csteps. Qed.

Lemma cons_socket_stream id : keeps consistent (socket_stream id).
Proof. unfold socket_stream. csteps. Qed.

Lemma cons_socket_close id : keeps consistent (socket_close id).
Proof. unfold socket_close. csteps. Qed.

Lemma cons__socket_truncate s size : keeps consistent (_socket_truncate s size).
Proof. unfold _socket_truncate. csteps. Qed.

Lemma cons__socket_size s : keeps consistent (_socket_size s).
Proof. unfold _socket_size. csteps. Qed.

Lemma cons__socket_last_modified s : keeps consistent (_socket_last_modified s).
Proof. unfold _socket_last_modified. csteps. Qed.

#[local] Hint Resolve cons_tcp_socket_create cons_tcp_socket_listen cons_tcp_socket_accept
  cons_tcp_socket_delay cons_tcp_socket_set_delay cons_socket_ref cons_socket_is_socket
  cons_socket_bind cons_socket_connect cons_socket_flag_getter cons_socket_set_blocking
  cons_socket_set_reuse_address cons_socket_set_reuse_port cons_socket_set_multicast_group
  cons_socket_address_local cons_socket_address_remote cons_socket_state cons_socket_stream
  cons_socket_close cons__socket_truncate cons__socket_size cons__socket_last_modified : keeps.

(** Every call of the interface keeps the invariant. *)
Lemma cons_run_call fuel c : keeps consistent (run_call fuel c).
Proof.
  destruct c; cbn [run_call];
    unfold socket_blocking, socket_reuse_address, socket_reuse_port; csteps.
Qed.

(** Initialisation establishes it. *)
Lemma cons__socket_initialize max_sockets w :
  _socket_initialize max_sockets empty_world = Done 0 w -> consistent w.
Proof.
  intros E. unfold _socket_initialize, modify, bind, ret in E. cbv beta iota in E.
  injection E as <-.
  apply (consistent_initialize
           (objectmap_allocate (u32 (max_sockets + (if 256 <? max_sockets then 256 else 8))))
           (repeat zero_base (Z.to_nat max_sockets))).
  - reflexivity.
  - wsimpl. cbn. lia.
  - reflexivity.
  - intros i sb Hi. unfold repeat in Hi. fold (@repeat socket_base_t) in Hi.
    assert (X : sb = zero_base).
    { revert i Hi. generalize (Z.to_nat max_sockets). intros n.
      induction n as [|n IH]; intros [|i] Hi; cbn in Hi; try discriminate Hi.
      - injection Hi as <-. reflexivity.
      - eapply IH. exact Hi. }
    rewrite X. reflexivity.
  - reflexivity.
  - reflexivity.
Qed.

Lemma reachable_consistent w : reachable w -> consistent w.
Proof.
  induction 1 as [max_sockets w E | fuel c w w' _ IH E].
  - eapply cons__socket_initialize; exact E.
  - eapply cons_run_call; eassumption.
Qed.

End ConsistentInterface.
(** *** The fall-through of the poller *)

Section FallThrough.
Context {cfg : Config} {krn : Kernel}.

(** With the owner of the slot registered, the poller gets past
    _socket_buffered_in. *)
Lemma _socket_poll_state_fall_through w i sb m p r :
  0 <= i -> _socket_base w !! Z.to_nat i = Some sb ->
  state sb = SOCKETSTATE_CONNECTED ->
  probe_value (fd sb) (length (trace w)) < 0 ->
  _socket_map w = Some m -> om_entries m !! object sb = Some p -> heap w !! p = Some r ->
  _socket_poll_state i w
  = (when (buffered_in r =? 0) (_socket_close p);; _socket_poll_state_exit i (Some p))
      (past_buffered_in w i sb p r).
Proof.
  intros Hi Hs Hst Hprobe Hm Hown Hp. unfold _socket_poll_state.
  erewrite bind_done by (apply load_base_done; eassumption). cbv beta.
  rewrite Hst.
  erewrite bind_done by apply _socket_available_fd_done. cbv beta.
  assert (C : (probe_value (fd sb) (length (trace w)) <? 0) = true) by lia.
  rewrite C.
  assert (Hlt : (Z.to_nat i < length (_socket_base w))%nat)
    by (eapply lookup_lt_Some; eassumption).
  destruct BUILD_ENABLE_DEBUG_LOG.
  - run_with _socket_lookup_done.
    erewrite bind_done
      by (unfold update_base; erewrite bind_done by (apply load_base_done; side);
          eapply store_base_done; side).
    cbv beta. unfold _socket_poll_state_disconnected.
    erewrite bind_done by reflexivity. cbv beta.
    erewrite bind_done by (apply _socket_buffered_in_done; side). cbv beta.
    reflexivity.
  - erewrite bind_done by reflexivity. cbv beta.
    erewrite bind_done
      by (unfold update_base; erewrite bind_done by (apply load_base_done; side);
          eapply store_base_done; side).
    cbv beta. unfold _socket_poll_state_disconnected.
    rewrite bind_assoc.
    erewrite bind_done by (apply load_base_done; [exact Hi | wsimpl; apply list_lookup_insert_eq; exact Hlt]).
    cbv beta. cbn [object base_with_state].
    run_with _socket_lookup_done.
    erewrite bind_done by (apply _socket_buffered_in_done; side). cbv beta.
    unfold past_buffered_in. destruct w; reflexivity.
Qed.

(** C10.  In every world that a program reaches by initialising the
    module and calling the public interface (socket.c, tcp.c, the stream
    callbacks and the poll of a slot), one call after the other, a slot in
    state CONNECTED has an owner whose id resolves: when the poller finds
    the probe of such a slot negative and falls through to the
    DISCONNECTED case, the lookup of the owner returns its record and not
    null, _socket_buffered_in is called with that record, its assertion
    holds and it returns the number of buffered bytes, and the poller goes
    on to the close and the release of the record. *)
Theorem poll_state_record_is_not_null w i sb :
  reachable w ->
  0 <= i -> _socket_base w !! Z.to_nat i = Some sb ->
  state sb = SOCKETSTATE_CONNECTED ->
  probe_value (fd sb) (length (trace w)) < 0 ->
  exists p r,
    registered w (object sb) p /\ heap w !! p = Some r /\
    _socket_lookup (object sb) w
    = Done (Some p) (world_with_heap (<[p := sock_with_ref (s32 (ref r + 1)) r]> (heap w)) w) /\
    _socket_buffered_in (Some p) (past_buffered_in w i sb p r)
    = Done (buffered_in r) (past_buffered_in w i sb p r) /\
    _socket_poll_state i w
    = (when (buffered_in r =? 0) (_socket_close p);; _socket_poll_state_exit i (Some p))
        (past_buffered_in w i sb p r).
Proof.
  intros Hreach Hi Hs Hst Hprobe.
  pose proof (reachable_consistent w Hreach) as (_ & _ & _ & HD).
  destruct (HD (Z.to_nat i) sb Hs) as (p & r & (m & Hm & Hown) & Hp & _).
  { rewrite Hst. discriminate. }
  exists p, r. split; [exists m; auto|]. split; [exact Hp|]. split; [|split].
  - eapply _socket_lookup_done; eassumption.
  - assert (X : heap (past_buffered_in w i sb p r) !! p
                = Some (sock_with_ref (s32 (ref r + 1)) r))
      by (unfold past_buffered_in; wsimpl; apply lookup_insert_eq).
    rewrite (_socket_buffered_in_done _ _ _ X). reflexivity.
  - eapply _socket_poll_state_fall_through; eassumption.
Qed.

End FallThrough.

Section InstancesCalls.
#[local] Existing Instance small_build.
#[local] Existing Instance failing_kernel.

Lemma reachable_hung_up_world : reachable hung_up_world.
Proof.
  apply (reachable_call 8 (Socket_connect 1 (any_ipv4 8080) 0) opened_world).
  - apply (reachable_call 8 Tcp_socket_create started_world).
    + apply (reachable_initialize 4). vm_compute. reflexivity.
    + vm_compute. reflexivity.
  - vm_compute. reflexivity.
Qed.

(** The connected socket whose descriptor the kernel reports in error:
    the poller finds the record of id 1. *)
Lemma poll_state_record_is_not_null_witness :
  exists p r,
    registered hung_up_world (object (slot_at 0 hung_up_world)) p /\
    heap hung_up_world !! p = Some r /\
    _socket_lookup (object (slot_at 0 hung_up_world)) hung_up_world
    = Done (Some p)
        (world_with_heap (<[p := sock_with_ref (s32 (ref r + 1)) r]> (heap hung_up_world))
           hung_up_world) /\
    _socket_buffered_in (Some p) (past_buffered_in hung_up_world 0 (slot_at 0 hung_up_world) p r)
    = Done (buffered_in r) (past_buffered_in hung_up_world 0 (slot_at 0 hung_up_world) p r) /\
    _socket_poll_state 0 hung_up_world
    = (when (buffered_in r =? 0) (_socket_close p);; _socket_poll_state_exit 0 (Some p))
        (past_buffered_in hung_up_world 0 (slot_at 0 hung_up_world) p r).
Proof.
  apply (poll_state_record_is_not_null hung_up_world 0 (slot_at 0 hung_up_world)).
  - exact reachable_hung_up_world.
  - lia.
  - vm_compute. reflexivity.
  - vm_compute. reflexivity.
  - vm_compute. reflexivity.
Defined.

(** Where the registry and the slot table disagree the poller does pass a
    null record: in the world taken in the middle of _socket_deallocate,
    after objectmap_free and before _socket_close, the assertion of
    _socket_buffered_in fails, and without assertions the null record is
    dereferenced.  No program is in that world between two calls. *)
Lemma poll_state_in_the_middle_of_deallocate :
  ~ reachable half_freed_world /\
  state <$> _socket_base half_freed_world !! 0%nat = Some SOCKETSTATE_CONNECTED /\
  value (_socket_lookup 1) half_freed_world = Some None /\
  _socket_poll_state 0 half_freed_world = Fault AssertionFailed /\
  @_socket_poll_state small_release_build _ 0 half_freed_world = Fault NullPointer.
Proof.
  split; [|repeat split; vm_compute; reflexivity].
  intros Hreach. apply reachable_consistent in Hreach. destruct Hreach as (_ & _ & _ & HD).
  assert (Hs : _socket_base half_freed_world !! 0%nat = Some (slot_at 0 half_freed_world))
    by (vm_compute; reflexivity).
  assert (Hst : state (slot_at 0 half_freed_world) <> SOCKETSTATE_NOTCONNECTED).
  { assert (X : state (slot_at 0 half_freed_world) = SOCKETSTATE_CONNECTED)
      by (vm_compute; reflexivity).
    rewrite X. intros Y. discriminate Y. }
  destruct (HD 0%nat _ Hs Hst) as (p & r & (m & Hm & Hid) & _).
  assert (Em : _socket_map half_freed_world = Some (registry_in half_freed_world))
    by (vm_compute; reflexivity).
  assert (Xm : Some m = Some (registry_in half_freed_world)) by (rewrite <- Hm; exact Em).
  apply (inj Some) in Xm. subst m.
  assert (En : om_entries (registry_in half_freed_world)
                 !! object (slot_at 0 half_freed_world) = None)
    by (vm_compute; reflexivity).
  assert (X : Some p = None) by (rewrite <- Hid; exact En).
  discriminate X.
Qed.

End InstancesCalls.
